(* ===== verification/_CoqProject ===== *)
-Q . S2P
Prelude.v
Murmur3.v
CMem.v
Strbuf.v
Kv.v
Hashtable.v
Http.v
HttpParser.v
HttpParserSafe.v
HttpParserRef.v
HttpRoundTrip.v
HttpResponse.v
Swap.v
Coro.v
IoUring.v
IoLoop.v
IoLoopInv.v
Spec.v
Routes.v
Serve.v
System.v
Guarantees.v
Pipe.v
Server.v
Syscall.v
Threads.v
OneThread.v
Program.v
