(* ===== verification/Prelude.v ===== *)
(** * l4-server-lab: a verification library for the io_uring HTTP server

    The program is an HTTP/1.x server in C.  [create_server] opens a listening
    socket and allocates one connection slot per possible descriptor; each thread
    runs [io_uring_listen_loop], which queues operations, submits them and hands
    every completion to the coroutine of its connection; the coroutine parses the
    request, finds a route, calls its handler, composes the response and queues
    the sends.  Below that are growable strings, key-value lists, a hash table,
    MurmurHash3 and a context switch in assembly.

    ** Files and the code they model

    - [Prelude] (this file): machine integers, the outcome type of C code, the
      tactics and the lemmas on integers, bytes and lists the components share;
      the macros of include/common.h.
    - [CMem]: memory blocks, pointers, and the C library functions the server
      calls ([malloc], [realloc], [memset], [strncat], [strchr], [strcmp], ...).
    - [Strbuf], [Kv], [Hashtable], [Murmur3]: lib/strbuf.c, lib/kv.c,
      lib/hashtable.c, lib/murmurhash3.c, one definition per function.
    - [Http]: the data of include/server.h, include/http_parser.h and
      include/router.h, and lib/router.c.
    - [HttpParser]: the request parser of lib/http_parser.c; [HttpParserSafe]: it
      is memory safe; [HttpParserRef]: it computes a parser by slicing;
      [HttpRoundTrip]: it inverts a printer.
    - [HttpResponse]: [global_static_router] and [http_compose_response] of
      lib/http_parser.c, in both build configurations.
    - [Swap]: lib/coro.c at machine level, an interpreter for the instructions of
      [swap_context] and the layout of [coroutine].  [Coro]: the same functions as
      their callers see them, a coroutine with a status and a local state, and the
      test program, tests/coro.c.
    - [IoUring]: lib/iouring_utils.c.  [IoLoop]: lib/io_loop.c and
      include/iohandler.h, over the definitions above.
    - [IoLoopInv]: the loop and the kernel as a step relation [sys_step], and its
      invariant [inv]: any build, platform and kernel, no claim about contents.
    - [Spec]: the specification of a connection, in either build: [decide_response]
      and [render], pure functions from a received text, the routes and the files to
      the bytes of the answer, and [response_ops], the operations that carry it; the
      interface [Handles] to the handlers of routes.
    - [Routes]: the handlers of tests/socket.c and of lib/http_parser.c; those
      without static variables as instances of [Handles].
    - [Serve]: the coroutine of one connection implements [Spec].
    - [System]: the whole server as [live_step], where the kernel writes what it
      receives and the files may change between completions; the invariant
      [live_inv], which owns the memory of every slot; infinite runs.
      [Guarantees]: the theorems about them, and a run that serves a file.
    - [Pipe]: the operations outstanding in a reachable state, executed: one pipe
      carries the files of all connections.
    - [Server]: lib/socket.c and [create_server] of lib/server.c.  [Syscall]: the
      system call wrappers of include/syscall.h and include/arch/x86/syscall.h at
      the level of registers.
    - [Threads]: [start_listening], and the loops of several threads interleaved at
      their uses of [svr->ring], a completion at a time.  [OneThread]: with one
      thread this refines [sys_step].
    - [Program]: [main] of tests/socket.c, the routine of a thread, the section of
      routes that [FOREACH_ROUTER] of include/router.h walks, libmagic's constructor
      and destructor.

    ** How code becomes definitions

    A C function is a function into [result]: [Ok] when it returns, [Undef] with a
    reason where C11 gives the program no meaning, [Exited] when it calls [exit].
    [let] and bind follow the statements; an early [return] or [goto] is a branch.
    Integers are [Z] with each conversion written out ([u8] ... [i64]).  Mutable
    objects are passed in and returned: a heap of byte blocks, structures as
    records.  Where two variables alias one object (the receive buffer and the
    strings of the parsed request) both are pointers into the same block.  The
    words of a coroutine's object and stack are a map from addresses.

    A loop of the source is a [Fixpoint] on a fuel that the caller computes from
    the data: the distance to the end of the buffer for the two loops of the
    parser, the number of blocks or tail bytes for the hashes, the number of
    elements for a chain of the hash table, the number of objects in the section of
    routes.  Running out is the fault
    [OutOfFuel], so every theorem that concludes [Ok] shows the fuel is enough.
    The endless loops of the handler and of the server are modelled one turn at a
    time: [turn] and [loop_turn], and reachability through [sys_step], [live_step]
    and [thread_step].

    ** Parameters and hypotheses

    - [Platform]: contents of fresh memory, and what an out-of-range shift of
      [int] gives; instances [x86] and [strict].
    - Which allocations fail is a schedule in the heap, so it is quantified over.
    - liburing: [room], whether the queue has an entry left; a slot of a completion
      queue that is not posted, or is consumed, holds anything ([found]).  The kernel completes
      submitted operations once each, with any result, and writes anything to
      memory meanwhile; [kernel_ok] says an accepted descriptor was not open.
    - [System] assumes more of the environment ([environment]): an accepted
      descriptor has a slot, a receive brings a text the buffers can answer
      ([client_ok]) and writes nothing else, files have sizes and MIME types
      ([files_ok]), the queue has three free entries; the platform is [x86], and the
      routes meet [route_ok]: handlers meet [Handles], and files are routed to only
      by the watching build, since the release build serves a second file from
      variables it never wrote ([global_static_router_release]).  Any allocation may
      fail there too, on the schedule of the initial state.
    - [file_system]: open, fstat, libmagic and mmap, one for each completion.
      [Kernel] and [Libc]: the calls of start-up.  [Kernel_io]: sends, splices and
      linked operations, with [fifo] as an instance.  [Libmagic]: opening and
      loading.  The route table that the linker collects.
    - [BucketHash]: a hash function that stays inside the bucket array;
      [hash_64] is one, [murmurhash_str] is not.

    ** What the theorems show

    - The whole server, in both builds: a request is answered with the operations
      and bytes of the specification and its connection closed and recycled
      ([connection_cycle]); in a run where the kernel completes what it was given,
      every request is ([request_answered]); in an environment of the kind [System]
      assumes, and unless an allocation has failed, no reachable completion faults
      ([no_fault_in_environment]); what is in flight stays what it was
      ([sends_hold_answers]), and the kernel is given live memory of the size it is
      told, but for the arrays of canned responses, which have ended
      ([kernel_io_in_bounds]); a new slot becomes ready ([connection_set_up]).
    - Files: what a client gets when a file has the pipe to itself
      ([file_delivered]), that other responses do not disturb it, however they are
      interleaved ([lone_file_undisturbed]), and that two files at once are mixed up
      ([shared_pipe_mixes_files]).
    - The program: [main] reaches the states the theorems above are about
      ([main_starts_server]), and with one thread the finer interleaving of
      [Threads] stays in them ([one_thread_refines]) and handles every completion
      once, in order ([one_thread_handles_in_order]).
    - Parser: on arbitrary bytes it terminates without a fault and leaves only C
      strings ([http_parse_request_safe]); on text it accepts and stores what the
      slicing parser does ([http_parse_request_ref]); it gets a printed request
      back ([http_parse_print]).
    - Loop: exactly one accept is outstanding ([accept_armed_once]); what is
      outstanding for a connection agrees with its action and counters
      ([connection_protocol]); no completion reaches a dead coroutine
      ([completions_find_coroutines]); the possible effects of a turn
      ([turn_outcomes]).
    - Coroutines: control comes back with the registers the calling convention
      requires ([resume_yield_returns], [co_new_entry]); the life cycle as the
      caller sees it, stack overflows included ([coroutine_lifecycle],
      [drive_behaves]).
    - Responses, routes and files: the exact bytes of a response while its lines
      fit the stack buffer, and that a request can make them not fit
      ([http_compose_response_spec], [long_protocol_overflows]);
      [find_router_first], and the walk over the section of routes finds the same
      ([foreach_router_is_find_router]); [global_static_router] on every branch.
    - Example route: the counting handler answers until its sum is no [long]
      ([fib_until_overflow]).
    - Data structures: the hash table is a finite map from creation to deletion
      ([hmap_is_a_map]); a key-value list stays well formed
      ([kv_stays_well_formed]); strings and lists do what their names say, with the
      sizes at which they do not ([string_append_undersized],
      [murmurhash_str_out_of_bounds]).
    - MurmurHash3: each function equals a reference.
    - Start-up and system calls: every branch of [create_listening_socket], with
      its calls ([create_listening_socket_spec]), and of [start_listening]; every wrapper makes the call it is named after
      ([wrappers_make_their_calls]); the errors that go unnoticed.
    - Threads: a ring whose pointer another thread overwrote is never looked at
      again ([overwritten_ring_abandoned]); until then a thread can mark completions
      of another's ring as consumed that nobody has handled
      ([early_advance_drops_completion]).

    The theorems of [IoLoopInv] hold of turns that return; those of [System] and
    [Guarantees] show that they return.

    ** Not modelled

    Logging ([LOG_INFO], [LOG_ERROR]) and the debug listing of a parsed request;
    data races of several threads inside the handling of one completion or inside
    liburing, to which C gives no meaning; [syscall_6], which does not expand to C;
    the compile-time checks of [MIN] and [MAX]; [epoll_listen_loop], which is declared
    and defined nowhere; build files.  Descriptors opened for files are counted in
    [static_state].  The handler's arrays for canned responses are values, marked
    [Local], of what they hold when they are queued: what the kernel finds there after
    their block has ended is not modelled, so the theorems about the bytes of a canned
    response are about the text it was queued with. *)

From Stdlib Require Export ZArith Lia.
From stdpp Require Export base list option gmap.
#[export] Set Default Proof Using "Type".
Open Scope Z_scope.

(** ** Fixed-width integers

    A C integer is a [Z] kept in the range of its type; the conversions below
    are the ones the source applies by assignment, by a cast or by the usual
    arithmetic conversions. *)

Definition u8 (z : Z) : Z := z mod 2 ^ 8.
Definition u16 (z : Z) : Z := z mod 2 ^ 16.
Definition u32 (z : Z) : Z := z mod 2 ^ 32.
Definition u64 (z : Z) : Z := z mod 2 ^ 64.

(** Two's complement narrowing to [int] and [int64_t]. *)
Definition i32 (z : Z) : Z := (z + 2 ^ 31) mod 2 ^ 32 - 2 ^ 31.
Definition i64 (z : Z) : Z := (z + 2 ^ 63) mod 2 ^ 64 - 2 ^ 63.

Definition INT_MAX : Z := 2 ^ 31 - 1.
Definition INT_MIN : Z := - 2 ^ 31.

(** ** Outcomes of C code

    A run of a C function returns, executes an operation that C11 leaves
    undefined (with the reason), or leaves the process through [exit]. *)

Inductive fault : Type :=
| OutOfBounds      (* an access outside the object *)
| NullDeref        (* an access through a null pointer *)
| Dangling         (* an access to an object that is not alive *)
| BadShift         (* a shift count that is negative or too large *)
| BadBuiltin       (* __builtin_clzl(0) *)
| IntOverflow      (* a signed operation that overflows *)
| Uninitialised    (* a read of an object that was never written *)
| BadResume        (* control transferred to a context that is not live *)
| OutOfFuel.       (* the bound of a modelled loop was too small *)

Inductive result (A : Type) : Type :=
| Ok (a : A)
| Undef (f : fault)
| Exited (code : Z).
Arguments Ok {A} a.
Arguments Undef {A} f.
Arguments Exited {A} code.

#[export] Instance fault_eq_dec : EqDecision fault.
Proof. solve_decision. Defined.
#[export] Instance result_eq_dec {A} `{EqDecision A} : EqDecision (result A).
Proof. solve_decision. Defined.

#[export] Instance result_ret : MRet result := fun A a => Ok a.
#[export] Instance result_bind : MBind result := fun A B f r =>
  match r with
  | Ok a => f a
  | Undef e => Undef e
  | Exited c => Exited c
  end.
#[export] Instance result_fmap : FMap result := fun A B f r =>
  match r with
  | Ok a => Ok (f a)
  | Undef e => Undef e
  | Exited c => Exited c
  end.

Definition is_ok {A} (r : result A) : bool :=
  match r with Ok _ => true | _ => false end.

(** An access that may be outside an array. *)
Definition of_option {A} (e : fault) (o : option A) : result A :=
  match o with Some a => Ok a | None => Undef e end.

Lemma bind_ok {A B} (f : A -> result B) (a : A) : (Ok a ≫= f) = f a.
Proof. reflexivity. Qed.

Lemma bind_Ok_inv {A B} (f : A -> result B) (r : result A) (b : B) :
  (r ≫= f) = Ok b -> exists a, r = Ok a /\ f a = Ok b.
Proof. destruct r; simpl; intros H; try discriminate. eauto. Qed.

Lemma bind_assoc {A B C} (r : result A) (f : A -> result B) (g : B -> result C) :
  ((r ≫= f) ≫= g) = (r ≫= fun x => f x ≫= g).
Proof. by destruct r. Qed.

(** ** Macros of common.h *)

(** [LIKELY]/[UNLIKELY] are [__builtin_expect(!!(x), _)]: the value of [x]. *)
Definition LIKELY (b : bool) : bool := b.
Definition UNLIKELY (b : bool) : bool := b.

(** [MAX]/[MIN] are [__cmp(x, y, >)] and [__cmp(x, y, <)]. *)
Definition MAX (x y : Z) : Z := if y <? x then x else y.
Definition MIN (x y : Z) : Z := if x <? y then x else y.

(** [container_of(p, type, member)] with the member's offset. *)
Definition container_of (p off : Z) : Z := p - off.

(** ** Tactics *)

(** Peels a chain of binds known to return. *)
Ltac inv_ok :=
  repeat match goal with
  | H : (_ ≫= _) = Ok _ |- _ =>
      let a := fresh "r" in let E := fresh "E" in
      apply bind_Ok_inv in H as (a & E & H); simpl in H
  | H : Ok _ = Ok _ |- _ => injection H as H
  | H : Undef _ = Ok _ |- _ => discriminate H
  | H : Exited _ = Ok _ |- _ => discriminate H
  end; subst.

(** Turns boolean comparisons into propositions. *)
Ltac bool_to_prop :=
  repeat match goal with
  | H : context [Z.ltb ?a ?b] |- _ => destruct (Z.ltb_spec a b)
  | H : context [Z.leb ?a ?b] |- _ => destruct (Z.leb_spec a b)
  | H : context [Z.eqb ?a ?b] |- _ => destruct (Z.eqb_spec a b)
  | |- context [Z.ltb ?a ?b] => destruct (Z.ltb_spec a b)
  | |- context [Z.leb ?a ?b] => destruct (Z.leb_spec a b)
  | |- context [Z.eqb ?a ?b] => destruct (Z.eqb_spec a b)
  end.

(** [lia] with division and modulo by constants. *)
Ltac mlia := Z.div_mod_to_equations; lia.

(** ** Lemmas on fixed-width integers *)

Create HintDb cint.

Lemma u32_range z : 0 <= u32 z < 2 ^ 32.
Proof. apply Z.mod_pos_bound. lia. Qed.
Lemma u64_range z : 0 <= u64 z < 2 ^ 64.
Proof. apply Z.mod_pos_bound. lia. Qed.
Lemma u32_small z : 0 <= z < 2 ^ 32 -> u32 z = z.
Proof. apply Z.mod_small. Qed.
Lemma u64_small z : 0 <= z < 2 ^ 64 -> u64 z = z.
Proof. apply Z.mod_small. Qed.
Lemma i32_small z : - 2 ^ 31 <= z < 2 ^ 31 -> i32 z = z.
Proof. unfold i32. intros. rewrite Z.mod_small; lia. Qed.
Lemma i64_small z : - 2 ^ 63 <= z < 2 ^ 63 -> i64 z = z.
Proof. unfold i64. intros. rewrite Z.mod_small; lia. Qed.
Lemma i32_range z : - 2 ^ 31 <= i32 z < 2 ^ 31.
Proof. unfold i32. pose proof (Z.mod_pos_bound (z + 2 ^ 31) (2 ^ 32)). lia. Qed.

Lemma pow2_pos n : 0 <= n -> 0 < 2 ^ n.
Proof. intros. apply Z.pow_pos_nonneg; lia. Qed.

(** A number is below [2 ^ n] exactly when its bits from [n] on are zero. *)
Lemma range_testbit n z :
  0 <= n -> 0 <= z -> (z < 2 ^ n <-> forall i, n <= i -> Z.testbit z i = false).
Proof.
  intros Hn Hz. split.
  - intros Hlt i Hi. rewrite <- (Z.mod_small z (2 ^ n)) by lia.
    apply Z.mod_pow2_bits_high. lia.
  - intros H. destruct (Z.eq_dec z 0) as [->|]; [apply pow2_pos; lia|].
    apply Z.log2_lt_pow2; [lia|]. apply Z.nle_gt. intros Hle.
    pose proof (Z.bit_log2 z ltac:(lia)) as B. rewrite (H _ Hle) in B. congruence.
Qed.

Lemma high_bits_zero n z i :
  0 <= n -> 0 <= z < 2 ^ n -> n <= i -> Z.testbit z i = false.
Proof. intros ? [] ?. by apply (range_testbit n z). Qed.

Section bit_ranges.
Context (n : Z) (Hn : 0 <= n).

Lemma lxor_range a b : 0 <= a < 2 ^ n -> 0 <= b < 2 ^ n -> 0 <= Z.lxor a b < 2 ^ n.
Proof using Hn.
  intros [] []. assert (0 <= Z.lxor a b) by (apply Z.lxor_nonneg; lia).
  split; [done|]. apply range_testbit; [done..|]. intros i Hi.
  rewrite Z.lxor_spec, !(high_bits_zero n) by lia. done.
Qed.

Lemma lor_range a b : 0 <= a < 2 ^ n -> 0 <= b < 2 ^ n -> 0 <= Z.lor a b < 2 ^ n.
Proof using Hn.
  intros [] []. assert (0 <= Z.lor a b) by (apply Z.lor_nonneg; lia).
  split; [done|]. apply range_testbit; [done..|]. intros i Hi.
  rewrite Z.lor_spec, !(high_bits_zero n) by lia. done.
Qed.

Lemma shiftr_range a k : 0 <= k -> 0 <= a < 2 ^ n -> 0 <= Z.shiftr a k < 2 ^ n.
Proof using Hn.
  intros Hk [].  rewrite Z.shiftr_div_pow2 by lia. pose proof (pow2_pos k Hk).
  split; [apply Z.div_pos; lia|]. apply Z.div_lt_upper_bound; [lia|]. nia.
Qed.
End bit_ranges.

(** [xor] cancels on either side: what makes the mixing steps invertible. *)
Lemma lxor_cancel_r a b : Z.lxor (Z.lxor a b) b = a.
Proof. by rewrite Z.lxor_assoc, Z.lxor_nilpotent, Z.lxor_0_r. Qed.
Lemma lxor_inj_r a b c : Z.lxor a c = Z.lxor b c -> a = b.
Proof. intros H. rewrite <- (lxor_cancel_r a c), H. apply lxor_cancel_r. Qed.
Lemma lxor_inj_l a b c : Z.lxor c a = Z.lxor c b -> a = b.
Proof. rewrite !(Z.lxor_comm c). apply lxor_inj_r. Qed.

Lemma add_mod_inj m a b c :
  0 < m -> 0 <= a < m -> 0 <= b < m -> (a + c) mod m = (b + c) mod m -> a = b.
Proof.
  intros Hm Ha Hb E.
  assert (H : (a - b) mod m = 0).
  { replace (a - b) with ((a + c) - (b + c)) by lia.
    rewrite Zminus_mod, E, Z.sub_diag. apply Z.mod_0_l. lia. }
  apply Z.mod_divide in H as [k Hk]; [|lia].
  assert (k = 0 \/ 1 <= k \/ k <= -1) as [-> | [] ] by lia; nia.
Qed.

#[export] Hint Resolve u32_range u64_range lxor_range lor_range shiftr_range : cint.
#[export] Hint Extern 1 (0 <= _) => lia : cint.

(** ** Bytes

    An object of character type is a [list Z] of values in [0, 256). *)

Abbreviation bytes := (list Z).

Definition is_byte (b : Z) : Prop := 0 <= b < 256.

(** Reading element [o] of an array. *)
Definition byte_at (data : bytes) (o : Z) : result Z :=
  if o <? 0 then Undef OutOfBounds
  else of_option OutOfBounds (data !! Z.to_nat o).

(** A little-endian load of [n] bytes at offset [o] (a [memcpy] into an
    integer, or a dereference of a cast pointer). *)
Fixpoint le_load (data : bytes) (o : Z) (n : nat) : result Z :=
  match n with
  | O => Ok 0
  | S n' =>
      b ← byte_at data o;
      r ← le_load data (o + 1) n';
      Ok (b + 256 * r)
  end.

(** The number a byte string denotes, least significant byte first. *)
Fixpoint le_val (bs : bytes) : Z :=
  match bs with [] => 0 | b :: bs' => b + 256 * le_val bs' end.

Lemma byte_at_lookup data (i : nat) b :
  data !! i = Some b -> byte_at data (Z.of_nat i) = Ok b.
Proof.
  intros H. unfold byte_at. destruct (Z.ltb_spec (Z.of_nat i) 0); [lia|].
  by rewrite Nat2Z.id, H.
Qed.

Lemma le_load_spec data n (o : nat) :
  (o + n <= length data)%nat ->
  le_load data (Z.of_nat o) n = Ok (le_val (take n (drop o data))).
Proof.
  revert o. induction n as [|n IH]; intros o Hlen; [done|].
  destruct (lookup_lt_is_Some_2 data o) as [b Hb]; [lia|].
  simpl. rewrite (byte_at_lookup _ _ _ Hb), bind_ok.
  replace (Z.of_nat o + 1) with (Z.of_nat (S o)) by lia.
  rewrite IH by lia. simpl. by rewrite (drop_S _ _ _ Hb).
Qed.

Lemma le_val_range bs : Forall is_byte bs -> 0 <= le_val bs < 2 ^ (8 * Z.of_nat (length bs)).
Proof.
  induction 1 as [|b bs Hb _ IH]; [simpl; lia|]. unfold is_byte in Hb.
  cbn [le_val length]. replace (8 * Z.of_nat (S (length bs)))
    with (8 + 8 * Z.of_nat (length bs)) by lia.
  rewrite Z.pow_add_r by lia. lia.
Qed.

(** A value below [2 ^ s] and a multiple of [2 ^ s] share no bit, so [xor], [or]
    and [+] agree on them. *)
Lemma land_disjoint q v s : 0 <= s -> 0 <= v < 2 ^ s -> Z.land (q * 2 ^ s) v = 0.
Proof.
  intros Hs Hv. apply Z.bits_inj'. intros i Hi. rewrite Z.land_spec, Z.bits_0.
  destruct (Z.lt_ge_cases i s); [by rewrite Z.mul_pow2_bits_low|].
  rewrite (high_bits_zero s v) by lia. apply andb_false_r.
Qed.

Lemma lxor_disjoint q v s : 0 <= s -> 0 <= v < 2 ^ s -> Z.lxor (q * 2 ^ s) v = q * 2 ^ s + v.
Proof. intros. symmetry. by apply Z.add_nocarry_lxor, land_disjoint. Qed.

Lemma lor_disjoint q v s : 0 <= s -> 0 <= v < 2 ^ s -> Z.lor (q * 2 ^ s) v = q * 2 ^ s + v.
Proof. intros. rewrite <- Z.lxor_lor by (by apply land_disjoint). by apply lxor_disjoint. Qed.

(** Placing a byte in the zero bits of a word by [xor] is addition. *)
Lemma lxor_place_byte q b sh :
  0 <= sh -> is_byte b -> Z.lxor (q * 2 ^ (sh + 8)) (b * 2 ^ sh) = q * 2 ^ (sh + 8) + b * 2 ^ sh.
Proof.
  unfold is_byte. intros Hs Hb. apply lxor_disjoint; [lia|].
  rewrite Z.pow_add_r by lia. pose proof (pow2_pos sh Hs). nia.
Qed.

(** Uniqueness of the representation with a low part of [s] bits. *)
Lemma split_inj q v q' v' m :
  0 <= v < m -> 0 <= v' < m -> q * m + v = q' * m + v' -> q = q' /\ v = v'.
Proof.
  intros Hv Hv' E. assert (q - q' = 0 \/ 1 <= q - q' \/ q - q' <= -1) as [|[]] by lia; nia.
Qed.

Lemma le_val_inj bs bs' :
  Forall is_byte bs -> Forall is_byte bs' -> length bs = length bs' ->
  le_val bs = le_val bs' -> bs = bs'.
Proof.
  intros Hb. revert bs'. unfold is_byte in *. induction Hb as [|b bs Hb Hbs IH]; intros [|b' bs'] Hb' Hl; try done.
  apply Forall_cons in Hb' as [Hb'1 Hb'2]. simpl in Hl |- *. intros E.
  destruct (split_inj (le_val bs) b (le_val bs') b' 256) as [E1 ->]; [lia..|].
  f_equal. apply IH; [done|lia|done].
Qed.

(** ** Lists *)

Lemma take_take_app {A} n (l r : list A) : take n (take n l ++ r) = take n (l ++ r).
Proof.
  rewrite !take_app, take_take, Nat.min_id, length_take. do 2 f_equal. lia.
Qed.

Lemma Forall_middle {A} (P : A -> Prop) u x v : Forall P (u ++ x :: v) -> P x /\ Forall P (u ++ v).
Proof. rewrite !Forall_app, Forall_cons. tauto. Qed.
