(* ===== verification/Murmur3.v ===== *)
(** * MurmurHash3 (lib/murmurhash3.c)

    The three hash functions of the file, statement by statement, over the
    bytes of the key: block loop, fall-through tail switch, finalisation.  The
    reference functions ([ref_x86_32], [ref_x86_128], [ref_x64_128]) fold the
    block mixing over the little-endian words of the key and pad the tail with
    zeros; the theorems show that the code computes them, reads only inside the
    key, stays in range, and that the finalisation mixes are bijections. *)

From S2P Require Import Prelude.

(** ** Platform-specific functions and macros *)

Definition rotl32 (x r : Z) : Z := Z.lor (u32 (Z.shiftl x r)) (Z.shiftr x (32 - r)).
Definition rotl64 (x r : Z) : Z := Z.lor (u64 (Z.shiftl x r)) (Z.shiftr x (64 - r)).

(** [p] is the byte offset of the block pointer inside the key. *)
Definition getblock32 (data : bytes) (p i : Z) : result Z := le_load data (p + 4 * i) 4.
Definition getblock64 (data : bytes) (p i : Z) : result Z := le_load data (p + 8 * i) 8.

(** ** Finalization mix *)

Definition fmix32 (h : Z) : Z :=
  let h := Z.lxor h (Z.shiftr h 16) in
  let h := u32 (h * 0x85ebca6b) in
  let h := Z.lxor h (Z.shiftr h 13) in
  let h := u32 (h * 0xc2b2ae35) in
  Z.lxor h (Z.shiftr h 16).

Definition fmix64 (k : Z) : Z :=
  let k := Z.lxor k (Z.shiftr k 33) in
  let k := u64 (k * 0xff51afd7ed558ccd) in
  let k := Z.lxor k (Z.shiftr k 33) in
  let k := u64 (k * 0xc4ceb9fe1a85ec53) in
  Z.lxor k (Z.shiftr k 33).

(** One label [case i + 1] of the tail switches: reached by fall-through when
    [n = len & mask] is at least [i + 1].  [tail[i] << sh] is an [int] in the
    32-bit functions (GCC wraps a bit shifted into the sign) and a [uint64_t]
    in the 64-bit one. *)
Definition case32 (data : bytes) (tail n i sh k : Z) : result Z :=
  if i + 1 <=? n then
    b ← byte_at data (tail + i);
    Ok (Z.lxor k (u32 (i32 (Z.shiftl b sh))))
  else Ok k.

Definition case64 (data : bytes) (tail n i sh k : Z) : result Z :=
  if i + 1 <=? n then
    b ← byte_at data (tail + i);
    Ok (Z.lxor k (u64 (Z.shiftl b sh)))
  else Ok k.

(** The mixing of one word: [k *= a; k = ROTL(k, r); k *= b]. *)
Definition scramble32 (a r b k : Z) : Z :=
  let k := u32 (k * a) in
  let k := rotl32 k r in
  u32 (k * b).
Definition scramble64 (a r b k : Z) : Z :=
  let k := u64 (k * a) in
  let k := rotl64 k r in
  u64 (k * b).

(** ** MurmurHash3_x86_32 *)

Module X86_32.
Definition c1 : Z := 0xcc9e2d51.
Definition c2 : Z := 0x1b873593.

Definition mix (h1 k1 : Z) : Z :=
  let k1 := scramble32 c1 15 c2 k1 in
  let h1 := Z.lxor h1 k1 in
  let h1 := rotl32 h1 13 in
  u32 (h1 * 5 + 0xe6546b64).

(** [for (int i = -nblocks; i; i++)] *)
Fixpoint body (fuel : nat) (data : bytes) (blocks i h1 : Z) : result Z :=
  if i =? 0 then Ok h1 else
  match fuel with
  | O => Undef OutOfFuel
  | S fuel =>
      k1 ← getblock32 data blocks i;
      body fuel data blocks (i + 1) (mix h1 k1)
  end.

Definition tail_switch (data : bytes) (tail n h1 : Z) : result Z :=
  k1 ← case32 data tail n 2 16 0;
  k1 ← case32 data tail n 1 8 k1;
  k1 ← case32 data tail n 0 0 k1;
  Ok (if 1 <=? n then Z.lxor h1 (scramble32 c1 15 c2 k1) else h1).
End X86_32.

Definition MurmurHash3_x86_32 (key : bytes) (len seed : Z) : result Z :=
  let nblocks := Z.quot len 4 in
  h1 ← X86_32.body (Z.to_nat nblocks) key (nblocks * 4) (- nblocks) seed;
  h1 ← X86_32.tail_switch key (nblocks * 4) (Z.land len 3) h1;
  let h1 := Z.lxor h1 (u32 len) in
  Ok (fmix32 h1).

(** ** MurmurHash3_x86_128 *)

Module X86_128.
Definition c1 : Z := 0x239b961b.
Definition c2 : Z := 0xab0e9789.
Definition c3 : Z := 0x38b34ae5.
Definition c4 : Z := 0xa1e38b93.

Abbreviation state := (Z * Z * Z * Z)%type.

Definition mix (h : state) (k : Z * Z * Z * Z) : state :=
  let '(h1, h2, h3, h4) := h in
  let '(k1, k2, k3, k4) := k in
  let h1 := Z.lxor h1 (scramble32 c1 15 c2 k1) in
  let h1 := rotl32 h1 19 in
  let h1 := u32 (h1 + h2) in
  let h1 := u32 (h1 * 5 + 0x561ccd1b) in
  let h2 := Z.lxor h2 (scramble32 c2 16 c3 k2) in
  let h2 := rotl32 h2 17 in
  let h2 := u32 (h2 + h3) in
  let h2 := u32 (h2 * 5 + 0x0bcaa747) in
  let h3 := Z.lxor h3 (scramble32 c3 17 c4 k3) in
  let h3 := rotl32 h3 15 in
  let h3 := u32 (h3 + h4) in
  let h3 := u32 (h3 * 5 + 0x96cd1c35) in
  let h4 := Z.lxor h4 (scramble32 c4 18 c1 k4) in
  let h4 := rotl32 h4 13 in
  let h4 := u32 (h4 + h1) in
  let h4 := u32 (h4 * 5 + 0x32ac3b17) in
  (h1, h2, h3, h4).

(** [for (int i = -nblocks; i; i++)] *)
Fixpoint body (fuel : nat) (data : bytes) (blocks i : Z) (h : state) : result state :=
  if i =? 0 then Ok h else
  match fuel with
  | O => Undef OutOfFuel
  | S fuel =>
      k1 ← getblock32 data blocks (i * 4 + 0);
      k2 ← getblock32 data blocks (i * 4 + 1);
      k3 ← getblock32 data blocks (i * 4 + 2);
      k4 ← getblock32 data blocks (i * 4 + 3);
      body fuel data blocks (i + 1) (mix h (k1, k2, k3, k4))
  end.

Definition tail_switch (data : bytes) (tail n : Z) (h : state) : result state :=
  let '(h1, h2, h3, h4) := h in
  k4 ← case32 data tail n 14 16 0;
  k4 ← case32 data tail n 13 8 k4;
  k4 ← case32 data tail n 12 0 k4;
  let h4 := if 13 <=? n then Z.lxor h4 (scramble32 c4 18 c1 k4) else h4 in
  k3 ← case32 data tail n 11 24 0;
  k3 ← case32 data tail n 10 16 k3;
  k3 ← case32 data tail n 9 8 k3;
  k3 ← case32 data tail n 8 0 k3;
  let h3 := if 9 <=? n then Z.lxor h3 (scramble32 c3 17 c4 k3) else h3 in
  k2 ← case32 data tail n 7 24 0;
  k2 ← case32 data tail n 6 16 k2;
  k2 ← case32 data tail n 5 8 k2;
  k2 ← case32 data tail n 4 0 k2;
  let h2 := if 5 <=? n then Z.lxor h2 (scramble32 c2 16 c3 k2) else h2 in
  k1 ← case32 data tail n 3 24 0;
  k1 ← case32 data tail n 2 16 k1;
  k1 ← case32 data tail n 1 8 k1;
  k1 ← case32 data tail n 0 0 k1;
  let h1 := if 1 <=? n then Z.lxor h1 (scramble32 c1 15 c2 k1) else h1 in
  Ok (h1, h2, h3, h4).

(** [h1 += h2; h1 += h3; h1 += h4; h2 += h1; h3 += h1; h4 += h1] *)
Definition add_up (h : state) : state :=
  let '(h1, h2, h3, h4) := h in
  let h1 := u32 (h1 + h2) in
  let h1 := u32 (h1 + h3) in
  let h1 := u32 (h1 + h4) in
  (h1, u32 (h2 + h1), u32 (h3 + h1), u32 (h4 + h1)).

Definition finalize (len : Z) (h : state) : state :=
  let '(h1, h2, h3, h4) := h in
  let l := u32 len in
  let '(h1, h2, h3, h4) :=
    add_up (Z.lxor h1 l, Z.lxor h2 l, Z.lxor h3 l, Z.lxor h4 l) in
  add_up (fmix32 h1, fmix32 h2, fmix32 h3, fmix32 h4).
End X86_128.

Definition MurmurHash3_x86_128 (key : bytes) (len seed : Z) : result X86_128.state :=
  let nblocks := Z.quot len 16 in
  h ← X86_128.body (Z.to_nat nblocks) key (nblocks * 16) (- nblocks) (seed, seed, seed, seed);
  h ← X86_128.tail_switch key (nblocks * 16) (Z.land len 15) h;
  Ok (X86_128.finalize len h).

(** ** MurmurHash3_x64_128 *)

Module X64_128.
Definition c1 : Z := 0x87c37b91114253d5.
Definition c2 : Z := 0x4cf5ad432745937f.

Definition mix (h : Z * Z) (k : Z * Z) : Z * Z :=
  let '(h1, h2) := h in
  let '(k1, k2) := k in
  let h1 := Z.lxor h1 (scramble64 c1 31 c2 k1) in
  let h1 := rotl64 h1 27 in
  let h1 := u64 (h1 + h2) in
  let h1 := u64 (h1 * 5 + 0x52dce729) in
  let h2 := Z.lxor h2 (scramble64 c2 33 c1 k2) in
  let h2 := rotl64 h2 31 in
  let h2 := u64 (h2 + h1) in
  let h2 := u64 (h2 * 5 + 0x38495ab5) in
  (h1, h2).

(** [for (int i = 0; i < nblocks; i++)] *)
Fixpoint body (fuel : nat) (data : bytes) (nblocks i : Z) (h : Z * Z) : result (Z * Z) :=
  if i <? nblocks then
    match fuel with
    | O => Undef OutOfFuel
    | S fuel =>
        k1 ← getblock64 data 0 (i * 2 + 0);
        k2 ← getblock64 data 0 (i * 2 + 1);
        body fuel data nblocks (i + 1) (mix h (k1, k2))
    end
  else Ok h.

Definition tail_switch (data : bytes) (tail n : Z) (h : Z * Z) : result (Z * Z) :=
  let '(h1, h2) := h in
  k2 ← case64 data tail n 14 48 0;
  k2 ← case64 data tail n 13 40 k2;
  k2 ← case64 data tail n 12 32 k2;
  k2 ← case64 data tail n 11 24 k2;
  k2 ← case64 data tail n 10 16 k2;
  k2 ← case64 data tail n 9 8 k2;
  k2 ← case64 data tail n 8 0 k2;
  let h2 := if 9 <=? n then Z.lxor h2 (scramble64 c2 33 c1 k2) else h2 in
  k1 ← case64 data tail n 7 56 0;
  k1 ← case64 data tail n 6 48 k1;
  k1 ← case64 data tail n 5 40 k1;
  k1 ← case64 data tail n 4 32 k1;
  k1 ← case64 data tail n 3 24 k1;
  k1 ← case64 data tail n 2 16 k1;
  k1 ← case64 data tail n 1 8 k1;
  k1 ← case64 data tail n 0 0 k1;
  let h1 := if 1 <=? n then Z.lxor h1 (scramble64 c1 31 c2 k1) else h1 in
  Ok (h1, h2).

(** [h1 += h2; h2 += h1] *)
Definition add_up (h : Z * Z) : Z * Z :=
  let '(h1, h2) := h in
  let h1 := u64 (h1 + h2) in
  let h2 := u64 (h2 + h1) in
  (h1, h2).

(** [h1 ^= len] converts the [int] to [uint64_t] (sign extension). *)
Definition finalize (len : Z) (h : Z * Z) : Z * Z :=
  let '(h1, h2) := h in
  let h1 := Z.lxor h1 (u64 len) in
  let h2 := Z.lxor h2 (u64 len) in
  let '(h1, h2) := add_up (h1, h2) in
  let h1 := fmix64 h1 in
  let h2 := fmix64 h2 in
  add_up (h1, h2).
End X64_128.

Definition MurmurHash3_x64_128 (key : bytes) (len seed : Z) : result (Z * Z) :=
  let nblocks := Z.quot len 16 in
  h ← X64_128.body (Z.to_nat nblocks) key nblocks 0 (seed, seed);
  h ← X64_128.tail_switch key (nblocks * 16) (Z.land len 15) h;
  Ok (X64_128.finalize len h).

(** ** Reference functions *)

(** The [i]-th little-endian word of [k] bytes. *)
Definition word (k : nat) (data : bytes) (i : nat) : Z := le_val (take k (drop (k * i) data)).

Definition ref_x86_32 (key : bytes) (seed : Z) : Z :=
  let n := (length key / 4)%nat in
  let h := foldl X86_32.mix seed (word 4 key <$> seq 0 n) in
  let h := Z.lxor h (scramble32 X86_32.c1 15 X86_32.c2 (word 4 key n)) in
  fmix32 (Z.lxor h (Z.of_nat (length key))).

Definition ref_x86_128 (key : bytes) (seed : Z) : X86_128.state :=
  let n := (length key / 16)%nat in
  let block i := (word 4 key (4 * i), word 4 key (4 * i + 1),
                  word 4 key (4 * i + 2), word 4 key (4 * i + 3)) in
  let '(h1, h2, h3, h4) := foldl X86_128.mix (seed, seed, seed, seed) (block <$> seq 0 n) in
  let '(k1, k2, k3, k4) := block n in
  X86_128.finalize (Z.of_nat (length key))
    (Z.lxor h1 (scramble32 X86_128.c1 15 X86_128.c2 k1),
     Z.lxor h2 (scramble32 X86_128.c2 16 X86_128.c3 k2),
     Z.lxor h3 (scramble32 X86_128.c3 17 X86_128.c4 k3),
     Z.lxor h4 (scramble32 X86_128.c4 18 X86_128.c1 k4)).

Definition ref_x64_128 (key : bytes) (seed : Z) : Z * Z :=
  let n := (length key / 16)%nat in
  let block i := (word 8 key (2 * i), word 8 key (2 * i + 1)) in
  let '(h1, h2) := foldl X64_128.mix (seed, seed) (block <$> seq 0 n) in
  let '(k1, k2) := block n in
  X64_128.finalize (Z.of_nat (length key))
    (Z.lxor h1 (scramble64 X64_128.c1 31 X64_128.c2 k1),
     Z.lxor h2 (scramble64 X64_128.c2 33 X64_128.c1 k2)).

(** ** Block reads *)

Lemma getblock32_word data (p j : nat) i :
  Z.of_nat p + 4 * i = 4 * Z.of_nat j -> (4 * S j <= length data)%nat ->
  getblock32 data (Z.of_nat p) i = Ok (word 4 data j).
Proof.
  intros Hp Hl. unfold getblock32, word.
  replace (Z.of_nat p + 4 * i) with (Z.of_nat (4 * j)) by lia.
  apply le_load_spec. lia.
Qed.

Lemma getblock64_word data i (j : nat) :
  i = Z.of_nat j -> (8 * S j <= length data)%nat ->
  getblock64 data 0 i = Ok (word 8 data j).
Proof.
  intros -> Hl. unfold getblock64, word.
  replace (0 + 8 * Z.of_nat j) with (Z.of_nat (8 * j)) by lia.
  apply le_load_spec. lia.
Qed.

(** ** The fall-through switch

    A label reached by fall-through contributes its byte exactly when the tail
    has that byte; a run of [m] labels gathers a little-endian word. *)
Section tail.
Context (w : Z) (emb : Z -> Z -> Z).
Hypothesis emb_place : forall b sh,
  is_byte b -> 0 <= sh -> sh + 8 <= w -> emb b sh = b * 2 ^ sh.

Definition place (t : bytes) (i sh k : Z) : Z :=
  match t !! Z.to_nat i with Some b => Z.lxor k (emb b sh) | None => k end.

Fixpoint gather (t : bytes) (base : Z) (m : nat) (k : Z) : Z :=
  match m with
  | O => k
  | S m => gather t base m (place t (base + Z.of_nat m) (8 * Z.of_nat m) k)
  end.

Lemma le_val_snoc (l : bytes) m :
  le_val (take (S m) l) =
  le_val (take m l) + from_option (fun b => b * 2 ^ (8 * Z.of_nat m)) 0 (l !! m).
Proof.
  revert m. induction l as [|b l IH]; intros [|m]; try (simpl; lia).
  change (b + 256 * le_val (take (S m) l) =
    b + 256 * le_val (take m l) +
    from_option (fun b => b * 2 ^ (8 * Z.of_nat (S m))) 0 (l !! m)).
  rewrite IH. replace (8 * Z.of_nat (S m)) with (8 + 8 * Z.of_nat m) by lia.
  destruct (l !! m); simpl; [rewrite Z.pow_add_r by lia|]; lia.
Qed.

Lemma gather_spec (t : bytes) (base m : nat) q :
  Forall is_byte t -> 8 * Z.of_nat m <= w ->
  gather t (Z.of_nat base) m (q * 2 ^ (8 * Z.of_nat m)) =
  q * 2 ^ (8 * Z.of_nat m) + le_val (take m (drop base t)).
Proof using emb_place.
  intros Ht. revert q. induction m as [|m IH]; intros q Hw; cbn [gather]; [simpl; lia|].
  rewrite le_val_snoc, lookup_drop. unfold place.
  replace (Z.to_nat (Z.of_nat base + Z.of_nat m)) with (base + m)%nat by lia.
  replace (8 * Z.of_nat (S m)) with (8 * Z.of_nat m + 8) by lia.
  destruct (t !! (base + m)%nat) as [b|] eqn:E; cbn [from_option].
  - assert (is_byte b) by (by eapply Forall_lookup_1 in E).
    rewrite emb_place, lxor_place_byte by (done || lia).
    rewrite Z.pow_add_r by lia.
    replace (q * (2 ^ (8 * Z.of_nat m) * 2 ^ 8) + b * 2 ^ (8 * Z.of_nat m))
      with ((q * 256 + b) * 2 ^ (8 * Z.of_nat m)) by lia.
    rewrite IH by lia. lia.
  - rewrite Z.pow_add_r by lia.
    replace (q * (2 ^ (8 * Z.of_nat m) * 2 ^ 8)) with ((q * 256) * 2 ^ (8 * Z.of_nat m)) by lia.
    rewrite IH by lia. lia.
Qed.

Lemma gather_0 (t : bytes) (base m : nat) :
  Forall is_byte t -> 8 * Z.of_nat m <= w ->
  gather t (Z.of_nat base) m 0 = le_val (take m (drop base t)).
Proof using emb_place.
  intros Ht Hm. pose proof (gather_spec t base m 0 Ht Hm) as G.
  rewrite !Z.mul_0_l in G. exact G.
Qed.
End tail.

Definition emb32 (b sh : Z) : Z := u32 (i32 (Z.shiftl b sh)).
Definition emb64 (b sh : Z) : Z := u64 (Z.shiftl b sh).

Lemma byte_shift_range b sh w :
  is_byte b -> 0 <= sh -> sh + 8 <= w -> 0 <= b * 2 ^ sh < 2 ^ w.
Proof.
  unfold is_byte. intros. pose proof (pow2_pos sh).
  replace w with ((w - sh - 8) + (sh + 8)) by lia.
  rewrite !Z.pow_add_r by lia. pose proof (pow2_pos (w - sh - 8)). nia.
Qed.

Lemma u32_i32 z : u32 (i32 z) = u32 z.
Proof. unfold u32, i32. mlia. Qed.

Lemma emb32_place b sh : is_byte b -> 0 <= sh -> sh + 8 <= 32 -> emb32 b sh = b * 2 ^ sh.
Proof.
  intros. unfold emb32. rewrite u32_i32, Z.shiftl_mul_pow2 by lia.
  apply u32_small. by apply byte_shift_range.
Qed.

Lemma emb64_place b sh : is_byte b -> 0 <= sh -> sh + 8 <= 64 -> emb64 b sh = b * 2 ^ sh.
Proof.
  intros. unfold emb64. rewrite Z.shiftl_mul_pow2 by lia.
  apply u64_small. by apply byte_shift_range.
Qed.

Lemma byte_at_app (pre t : bytes) i :
  0 <= i -> byte_at (pre ++ t) (Z.of_nat (length pre) + i) = of_option OutOfBounds (t !! Z.to_nat i).
Proof.
  intros Hi. unfold byte_at. destruct (Z.ltb_spec (Z.of_nat (length pre) + i) 0); [lia|].
  rewrite lookup_app_r by lia. do 2 f_equal. lia.
Qed.

Lemma case32_app (pre t : bytes) i sh k :
  0 <= i ->
  case32 (pre ++ t) (Z.of_nat (length pre)) (Z.of_nat (length t)) i sh k =
  Ok (place emb32 t i sh k).
Proof.
  intros Hi. unfold case32, place. rewrite byte_at_app by done.
  destruct (t !! Z.to_nat i) eqn:E.
  - apply lookup_lt_Some in E. by destruct (Z.leb_spec (i + 1) (Z.of_nat (length t))); [|lia].
  - apply lookup_ge_None in E. by destruct (Z.leb_spec (i + 1) (Z.of_nat (length t))); [lia|].
Qed.

Lemma case64_app (pre t : bytes) i sh k :
  0 <= i ->
  case64 (pre ++ t) (Z.of_nat (length pre)) (Z.of_nat (length t)) i sh k =
  Ok (place emb64 t i sh k).
Proof.
  intros Hi. unfold case64, place. rewrite byte_at_app by done.
  destruct (t !! Z.to_nat i) eqn:E.
  - apply lookup_lt_Some in E. by destruct (Z.leb_spec (i + 1) (Z.of_nat (length t))); [|lia].
  - apply lookup_ge_None in E. by destruct (Z.leb_spec (i + 1) (Z.of_nat (length t))); [lia|].
Qed.

(** A word past the end of the tail is zero and scrambles to zero, so the
    guarded [h ^= k] of the switch can be written without its guard. *)
Lemma scramble32_0 a r b : 0 <= r <= 32 -> scramble32 a r b 0 = 0.
Proof. intros. unfold scramble32, rotl32. rewrite Z.shiftl_0_l, Z.shiftr_0_l. done. Qed.
Lemma scramble64_0 a r b : 0 <= r <= 64 -> scramble64 a r b 0 = 0.
Proof. intros. unfold scramble64, rotl64. rewrite Z.shiftl_0_l, Z.shiftr_0_l. done. Qed.

Lemma take_drop_past (t : bytes) m base :
  (length t <= base)%nat -> le_val (take m (drop base t)) = 0.
Proof. intros. rewrite drop_ge by done. by rewrite take_nil. Qed.

Lemma guard_past (t : bytes) (base m : nat) (f : Z -> Z) (h : Z) :
  f 0 = 0 ->
  (if Z.of_nat base + 1 <=? Z.of_nat (length t)
   then Z.lxor h (f (le_val (take m (drop base t)))) else h) =
  Z.lxor h (f (le_val (take m (drop base t)))).
Proof.
  intros Hf. destruct (Z.leb_spec (Z.of_nat base + 1) (Z.of_nat (length t))); [done|].
  rewrite take_drop_past by lia. by rewrite Hf, Z.lxor_0_r.
Qed.

Ltac run_cases lem :=
  repeat match goal with
  | |- (_ _ _ _ ?i ?sh ?k ≫= _) = _ =>
      rewrite (lem _ _ i sh k) by lia; rewrite bind_ok; cbv beta
  end; cbv zeta.

(** Recognises a run of [m] labels from [base] on and replaces it by its word. *)
Ltac gather_at w emb emb_ok t base m :=
  let v := eval cbv -[place emb32 emb64] in (gather emb t (Z.of_nat base) m 0) in
  change v with (gather emb t (Z.of_nat base) m 0);
  rewrite (gather_0 w emb emb_ok t base m) by (assumption || lia).

Lemma take_last (t : bytes) b m m' :
  (length t <= b + m)%nat -> (length t <= b + m')%nat ->
  take m (drop b t) = take m' (drop b t).
Proof. intros. rewrite !take_ge by (rewrite length_drop; lia). done. Qed.

(** Drops the guard of a group whose first byte is [base]. *)
Ltac unguard t base m f h :=
  let P := fresh "P" in
  pose proof (guard_past t base m f h eq_refl) as P;
  let z := eval cbv in (Z.of_nat base + 1) in
  change (Z.of_nat base + 1) with z in P; rewrite P; clear P.

Lemma tail_switch_x86_32 (pre t : bytes) h :
  Forall is_byte t -> (length t <= 3)%nat ->
  X86_32.tail_switch (pre ++ t) (Z.of_nat (length pre)) (Z.of_nat (length t)) h =
  Ok (Z.lxor h (scramble32 X86_32.c1 15 X86_32.c2 (le_val (take 4 t)))).
Proof.
  intros Ht Hl. unfold X86_32.tail_switch. run_cases case32_app.
  gather_at 32 emb32 emb32_place t 0%nat 3%nat.
  rewrite (take_last t 0 3 4) by lia.
  unguard t 0%nat 4%nat (scramble32 X86_32.c1 15 X86_32.c2) h.
  by rewrite drop_0.
Qed.

Lemma tail_switch_x86_128 (pre t : bytes) h1 h2 h3 h4 :
  Forall is_byte t -> (length t <= 15)%nat ->
  X86_128.tail_switch (pre ++ t) (Z.of_nat (length pre)) (Z.of_nat (length t)) (h1, h2, h3, h4) =
  Ok (Z.lxor h1 (scramble32 X86_128.c1 15 X86_128.c2 (le_val (take 4 (drop 0 t)))),
      Z.lxor h2 (scramble32 X86_128.c2 16 X86_128.c3 (le_val (take 4 (drop 4 t)))),
      Z.lxor h3 (scramble32 X86_128.c3 17 X86_128.c4 (le_val (take 4 (drop 8 t)))),
      Z.lxor h4 (scramble32 X86_128.c4 18 X86_128.c1 (le_val (take 4 (drop 12 t))))).
Proof.
  intros Ht Hl. unfold X86_128.tail_switch. run_cases case32_app.
  gather_at 32 emb32 emb32_place t 12%nat 3%nat.
  gather_at 32 emb32 emb32_place t 8%nat 4%nat.
  gather_at 32 emb32 emb32_place t 4%nat 4%nat.
  gather_at 32 emb32 emb32_place t 0%nat 4%nat.
  rewrite (take_last t 12 3 4) by lia.
  unguard t 0%nat 4%nat (scramble32 X86_128.c1 15 X86_128.c2) h1.
  unguard t 4%nat 4%nat (scramble32 X86_128.c2 16 X86_128.c3) h2.
  unguard t 8%nat 4%nat (scramble32 X86_128.c3 17 X86_128.c4) h3.
  by unguard t 12%nat 4%nat (scramble32 X86_128.c4 18 X86_128.c1) h4.
Qed.

Lemma tail_switch_x64_128 (pre t : bytes) h1 h2 :
  Forall is_byte t -> (length t <= 15)%nat ->
  X64_128.tail_switch (pre ++ t) (Z.of_nat (length pre)) (Z.of_nat (length t)) (h1, h2) =
  Ok (Z.lxor h1 (scramble64 X64_128.c1 31 X64_128.c2 (le_val (take 8 (drop 0 t)))),
      Z.lxor h2 (scramble64 X64_128.c2 33 X64_128.c1 (le_val (take 8 (drop 8 t))))).
Proof.
  intros Ht Hl. unfold X64_128.tail_switch. run_cases case64_app.
  gather_at 64 emb64 emb64_place t 8%nat 7%nat.
  gather_at 64 emb64 emb64_place t 0%nat 8%nat.
  rewrite (take_last t 8 7 8) by lia.
  unguard t 0%nat 8%nat (scramble64 X64_128.c1 31 X64_128.c2) h1.
  by unguard t 8%nat 8%nat (scramble64 X64_128.c2 33 X64_128.c1) h2.
Qed.

(** ** The block loops *)

Lemma body_x86_32 data nb : (4 * nb <= length data)%nat ->
  forall r fuel h, (r <= nb)%nat -> (r <= fuel)%nat ->
  X86_32.body fuel data (Z.of_nat nb * 4) (- Z.of_nat r) h =
  Ok (foldl X86_32.mix h (word 4 data <$> seq (nb - r) r)).
Proof.
  intros Hl r. induction r as [|r IH]; intros fuel h Hr Hf; [by destruct fuel|].
  destruct fuel as [|fuel]; [lia|]. cbn [X86_32.body].
  destruct (Z.eqb_spec (- Z.of_nat (S r)) 0); [lia|].
  replace (Z.of_nat nb * 4) with (Z.of_nat (nb * 4)) by lia.
  rewrite (getblock32_word data _ (nb - S r)) by lia. rewrite bind_ok.
  replace (- Z.of_nat (S r) + 1) with (- Z.of_nat r) by lia.
  replace (Z.of_nat (nb * 4)) with (Z.of_nat nb * 4) by lia.
  rewrite IH by lia. cbn [seq fmap list_fmap foldl]. by replace (S (nb - S r)) with (nb - r)%nat by lia.
Qed.

Definition block_x86_128 (data : bytes) (i : nat) : Z * Z * Z * Z :=
  (word 4 data (4 * i), word 4 data (4 * i + 1), word 4 data (4 * i + 2), word 4 data (4 * i + 3)).

Lemma body_x86_128 data nb : (16 * nb <= length data)%nat ->
  forall r fuel h, (r <= nb)%nat -> (r <= fuel)%nat ->
  X86_128.body fuel data (Z.of_nat nb * 16) (- Z.of_nat r) h =
  Ok (foldl X86_128.mix h (block_x86_128 data <$> seq (nb - r) r)).
Proof.
  intros Hl r. induction r as [|r IH]; intros fuel h Hr Hf; [by destruct fuel|].
  destruct fuel as [|fuel]; [lia|]. cbn [X86_128.body].
  destruct (Z.eqb_spec (- Z.of_nat (S r)) 0); [lia|].
  replace (Z.of_nat nb * 16) with (Z.of_nat (nb * 16)) by lia.
  rewrite (getblock32_word data _ (4 * (nb - S r)) (- Z.of_nat (S r) * 4 + 0)), bind_ok by lia.
  rewrite (getblock32_word data _ (4 * (nb - S r) + 1) (- Z.of_nat (S r) * 4 + 1)), bind_ok by lia.
  rewrite (getblock32_word data _ (4 * (nb - S r) + 2) (- Z.of_nat (S r) * 4 + 2)), bind_ok by lia.
  rewrite (getblock32_word data _ (4 * (nb - S r) + 3) (- Z.of_nat (S r) * 4 + 3)), bind_ok by lia.
  replace (- Z.of_nat (S r) + 1) with (- Z.of_nat r) by lia.
  replace (Z.of_nat (nb * 16)) with (Z.of_nat nb * 16) by lia.
  rewrite IH by lia. cbn [seq fmap list_fmap foldl]. by replace (S (nb - S r)) with (nb - r)%nat by lia.
Qed.

Definition block_x64_128 (data : bytes) (i : nat) : Z * Z :=
  (word 8 data (2 * i), word 8 data (2 * i + 1)).

Lemma body_x64_128 data nb : (16 * nb <= length data)%nat ->
  forall r i fuel h, (i + r = nb)%nat -> (r <= fuel)%nat ->
  X64_128.body fuel data (Z.of_nat nb) (Z.of_nat i) h =
  Ok (foldl X64_128.mix h (block_x64_128 data <$> seq i r)).
Proof.
  intros Hl r. induction r as [|r IH]; intros i fuel h Hr Hf.
  { destruct fuel; cbn [X64_128.body]; by destruct (Z.ltb_spec (Z.of_nat i) (Z.of_nat nb)); [lia|]. }
  destruct fuel as [|fuel]; [lia|]. cbn [X64_128.body].
  destruct (Z.ltb_spec (Z.of_nat i) (Z.of_nat nb)); [|lia].
  rewrite (getblock64_word data (Z.of_nat i * 2 + 0) (2 * i)), bind_ok by lia.
  rewrite (getblock64_word data (Z.of_nat i * 2 + 1) (2 * i + 1)), bind_ok by lia.
  replace (Z.of_nat i + 1) with (Z.of_nat (S i)) by lia.
  by rewrite IH by lia.
Qed.

(** ** The code computes the reference functions

    [split_tail] cuts the key at the last whole block. *)
Section split_tail.
Context (k : nat) (Hk : (0 < k)%nat) (key : bytes).
Let n := (length key / k)%nat.

Lemma split_tail_len : (k * n <= length key /\ length (drop (k * n) key) < k)%nat.
Proof using Hk.
  subst n. rewrite length_drop.
  pose proof (Nat.div_mod_eq (length key) k). pose proof (Nat.mod_upper_bound (length key) k). lia.
Qed.

Lemma split_tail_quot : Z.quot (Z.of_nat (length key)) (Z.of_nat k) = Z.of_nat n.
Proof using Hk. subst n. rewrite Z.quot_div_nonneg by lia. by rewrite Nat2Z.inj_div. Qed.

Lemma split_tail_pre : length (take (k * n) key) = (k * n)%nat.
Proof using Hk. apply length_take_le. apply split_tail_len. Qed.

Lemma split_tail_mod p :
  Z.of_nat k = 2 ^ p -> 0 <= p ->
  Z.land (Z.of_nat (length key)) (Z.ones p) = Z.of_nat (length (drop (k * n) key)).
Proof using Hk.
  intros Hp ?. rewrite Z.land_ones, <- Hp by lia. subst n. rewrite length_drop.
  pose proof (Nat.div_mod_eq (length key) k). rewrite <- Nat2Z.inj_mod. lia.
Qed.
End split_tail.

Ltac split_key k key :=
  destruct (split_tail_len k ltac:(lia) key);
  pose proof (split_tail_pre k ltac:(lia) key);
  pose proof (split_tail_quot k ltac:(lia) key) as Hquot;
  let z := eval cbv in (Z.of_nat k) in change (Z.of_nat k) with z in Hquot.

Lemma Forall_drop_bytes n (key : bytes) : Forall is_byte key -> Forall is_byte (drop n key).
Proof. apply Forall_drop. Qed.
#[export] Hint Resolve Forall_drop_bytes : cint.

(** The tail read at its offset in the key. *)
Ltac tail_at key m lem :=
  let T := fresh "T" in
  pose proof (lem (take m key) (drop m key)) as T;
  rewrite take_drop in T.

Lemma MurmurHash3_x86_32_ref key seed :
  Forall is_byte key -> Z.of_nat (length key) <= INT_MAX ->
  MurmurHash3_x86_32 key (Z.of_nat (length key)) seed = Ok (ref_x86_32 key seed).
Proof.
  intros Hb Hlen. unfold INT_MAX in Hlen. unfold MurmurHash3_x86_32, ref_x86_32.
  split_key 4%nat key. rewrite Hquot.
  set (n := (length key / 4)%nat) in *.
  rewrite (body_x86_32 key n ltac:(lia) n), bind_ok by lia. rewrite Nat.sub_diag.
  change 3 with (Z.ones 2). rewrite (split_tail_mod 4 ltac:(lia) key) by (reflexivity || lia).
  fold n. replace (Z.of_nat n * 4) with (Z.of_nat (length (take (4 * n) key))) by lia.
  tail_at key (4 * n)%nat tail_switch_x86_32.
  rewrite T, bind_ok by (eauto with cint || lia). rewrite u32_small by lia. done.
Qed.

Lemma MurmurHash3_x86_128_ref key seed :
  Forall is_byte key -> Z.of_nat (length key) <= INT_MAX ->
  MurmurHash3_x86_128 key (Z.of_nat (length key)) seed = Ok (ref_x86_128 key seed).
Proof.
  intros Hb Hlen. unfold INT_MAX in Hlen. unfold MurmurHash3_x86_128, ref_x86_128.
  split_key 16%nat key. rewrite Hquot.
  set (n := (length key / 16)%nat) in *.
  rewrite (body_x86_128 key n ltac:(lia) n), bind_ok by lia. rewrite Nat.sub_diag.
  change 15 with (Z.ones 4). rewrite (split_tail_mod 16 ltac:(lia) key) by (reflexivity || lia).
  fold n. replace (Z.of_nat n * 16) with (Z.of_nat (length (take (16 * n) key))) by lia.
  tail_at key (16 * n)%nat tail_switch_x86_128.
  fold (block_x86_128 key).
  destruct (foldl _ _ _) as [ [ [h1 h2] h3] h4].
  rewrite T, bind_ok by (eauto with cint || lia). rewrite !drop_drop.
  unfold word. repeat f_equal; lia.
Qed.

Lemma MurmurHash3_x64_128_ref key seed :
  Forall is_byte key -> Z.of_nat (length key) <= INT_MAX ->
  MurmurHash3_x64_128 key (Z.of_nat (length key)) seed = Ok (ref_x64_128 key seed).
Proof.
  intros Hb Hlen. unfold INT_MAX in Hlen. unfold MurmurHash3_x64_128, ref_x64_128.
  split_key 16%nat key. rewrite Hquot.
  set (n := (length key / 16)%nat) in *.
  change 0 with (Z.of_nat 0) at 1. rewrite (body_x64_128 key n ltac:(lia) n), bind_ok by lia.
  change 15 with (Z.ones 4). rewrite (split_tail_mod 16 ltac:(lia) key) by (reflexivity || lia).
  fold n. replace (Z.of_nat n * 16) with (Z.of_nat (length (take (16 * n) key))) by lia.
  tail_at key (16 * n)%nat tail_switch_x64_128.
  fold (block_x64_128 key).
  destruct (foldl _ _ _) as [h1 h2].
  rewrite T, bind_ok by (eauto with cint || lia). rewrite !drop_drop.
  unfold word. repeat f_equal; lia.
Qed.

(** ** Invertibility of the mixing steps *)

Definition xorshift (s k : Z) : Z := Z.lxor k (Z.shiftr k s).

Lemma xorshift_range n s k : 0 <= n -> 0 <= s -> 0 <= k < 2 ^ n -> 0 <= xorshift s k < 2 ^ n.
Proof. intros. unfold xorshift. auto with cint. Qed.

(** Shifting twice as far cancels the middle term. *)
Lemma xorshift_twice s k : 0 <= s -> Z.lxor (xorshift s k) (Z.shiftr (xorshift s k) s) = xorshift (s + s) k.
Proof.
  intros. unfold xorshift. rewrite Z.shiftr_lxor, Z.shiftr_shiftr by lia.
  rewrite Z.lxor_assoc, <- (Z.lxor_assoc (Z.shiftr k s)), Z.lxor_nilpotent, Z.lxor_0_l. done.
Qed.

Lemma xorshift_past n s k : 0 <= n <= s -> 0 <= k < 2 ^ n -> xorshift s k = k.
Proof.
  intros. unfold xorshift. rewrite Z.shiftr_div_pow2, Z.div_small, Z.lxor_0_r by
    (pose proof (Z.pow_le_mono_r 2 n s); lia). done.
Qed.

Lemma xorshift_inv n s k :
  0 <= n <= s + s -> 0 <= s -> 0 <= k < 2 ^ n -> xorshift s (xorshift s k) = k.
Proof.
  intros. unfold xorshift at 1. rewrite xorshift_twice by lia. by apply (xorshift_past n).
Qed.

(** [s] between a quarter and a half of the width needs two steps back. *)
Lemma xorshift_inv4 n s k :
  0 <= n <= 4 * s -> 0 <= s -> 0 <= k < 2 ^ n ->
  xorshift (s + s) (xorshift s (xorshift s k)) = k.
Proof.
  intros. unfold xorshift at 2. rewrite xorshift_twice by lia. apply (xorshift_inv n); lia.
Qed.
Lemma xorshift_comm s t k : 0 <= s -> 0 <= t -> xorshift s (xorshift t k) = xorshift t (xorshift s k).
Proof.
  intros. unfold xorshift. rewrite !Z.shiftr_lxor, !Z.shiftr_shiftr, (Z.add_comm t s) by lia.
  apply Z.bits_inj'. intros i Hi. rewrite !Z.lxor_spec.
  repeat match goal with |- context [Z.testbit ?a ?b] => destruct (Z.testbit a b) end; done.
Qed.
Lemma xorshift_inv4' n s k :
  0 <= n <= 4 * s -> 0 <= s -> 0 <= k < 2 ^ n ->
  xorshift s (xorshift (s + s) (xorshift s k)) = k.
Proof. intros. rewrite xorshift_comm by lia. by apply (xorshift_inv4 n). Qed.

(** Multiplication by an odd constant modulo a power of two. *)
Lemma mul_inv m c d k :
  0 < m -> (c * d) mod m = 1 mod m -> 0 <= k < m -> ((k * c) mod m * d) mod m = k.
Proof.
  intros Hm Hcd Hk. rewrite Z.mul_mod_idemp_l, <- Z.mul_assoc by lia.
  rewrite <- Z.mul_mod_idemp_r, Hcd, Z.mul_mod_idemp_r by lia.
  rewrite Z.mul_1_r. by apply Z.mod_small.
Qed.

Definition unfmix32 (h : Z) : Z :=
  let h := xorshift 16 h in
  let h := u32 (h * 0x7ed1b41d) in
  let h := xorshift 26 (xorshift 13 h) in
  let h := u32 (h * 0xa5cb9243) in
  xorshift 16 h.

Definition unfmix64 (k : Z) : Z :=
  let k := xorshift 33 k in
  let k := u64 (k * 0x9cb4b2f8129337db) in
  let k := xorshift 33 k in
  let k := u64 (k * 0x4f74430c22a54005) in
  xorshift 33 k.

Lemma fmix64_range k : 0 <= k < 2 ^ 64 -> 0 <= fmix64 k < 2 ^ 64.
Proof. intros. apply (xorshift_range 64 33); [lia..|]. apply u64_range. Qed.
Lemma fmix32_range k : 0 <= k < 2 ^ 32 -> 0 <= fmix32 k < 2 ^ 32.
Proof. intros. apply (xorshift_range 32 16); [lia..|]. apply u32_range. Qed.

(** The code's [k ^= k >> s] and [k *= c] recognised as [xorshift] and [mul_inv]. *)
Lemma fmix64_eq k : fmix64 k =
  xorshift 33 (u64 (xorshift 33 (u64 (xorshift 33 k * 0xff51afd7ed558ccd)) * 0xc4ceb9fe1a85ec53)).
Proof. reflexivity. Qed.
Lemma fmix32_eq k : fmix32 k =
  xorshift 16 (u32 (xorshift 13 (u32 (xorshift 16 k * 0x85ebca6b)) * 0xc2b2ae35)).
Proof. reflexivity. Qed.

Lemma mul_inv64 c d k : (c * d) mod 2 ^ 64 = 1 -> 0 <= k < 2 ^ 64 -> u64 (u64 (k * c) * d) = k.
Proof. intros. by apply mul_inv. Qed.
Lemma mul_inv32 c d k : (c * d) mod 2 ^ 32 = 1 -> 0 <= k < 2 ^ 32 -> u32 (u32 (k * c) * d) = k.
Proof. intros. by apply mul_inv. Qed.

Ltac mix_range :=
  repeat first [apply u64_range | apply u32_range | done | lia
               | apply (xorshift_range 64) | apply (xorshift_range 32)].

Lemma unfmix64_fmix64 k : 0 <= k < 2 ^ 64 -> unfmix64 (fmix64 k) = k.
Proof.
  intros Hk. rewrite fmix64_eq. unfold unfmix64. cbv zeta.
  rewrite (xorshift_inv 64) by mix_range. rewrite mul_inv64 by (reflexivity || mix_range).
  rewrite (xorshift_inv 64) by mix_range. rewrite mul_inv64 by (reflexivity || mix_range).
  by rewrite (xorshift_inv 64) by mix_range.
Qed.

Lemma fmix64_unfmix64 k : 0 <= k < 2 ^ 64 -> fmix64 (unfmix64 k) = k.
Proof.
  intros Hk. rewrite fmix64_eq. unfold unfmix64. cbv zeta.
  rewrite (xorshift_inv 64) by mix_range. rewrite mul_inv64 by (reflexivity || mix_range).
  rewrite (xorshift_inv 64) by mix_range. rewrite mul_inv64 by (reflexivity || mix_range).
  by rewrite (xorshift_inv 64) by mix_range.
Qed.

Lemma unfmix32_fmix32 k : 0 <= k < 2 ^ 32 -> unfmix32 (fmix32 k) = k.
Proof.
  intros Hk. rewrite fmix32_eq. unfold unfmix32. cbv zeta.
  rewrite (xorshift_inv 32) by mix_range. rewrite mul_inv32 by (reflexivity || mix_range).
  change 26 with (13 + 13). rewrite (xorshift_inv4 32) by mix_range.
  rewrite mul_inv32 by (reflexivity || mix_range).
  by rewrite (xorshift_inv 32) by mix_range.
Qed.

Lemma fmix32_unfmix32 k : 0 <= k < 2 ^ 32 -> fmix32 (unfmix32 k) = k.
Proof.
  intros Hk. rewrite fmix32_eq. unfold unfmix32. cbv zeta.
  rewrite (xorshift_inv 32) by mix_range. rewrite mul_inv32 by (reflexivity || mix_range).
  change 26 with (13 + 13). rewrite (xorshift_inv4' 32) by mix_range.
  rewrite mul_inv32 by (reflexivity || mix_range).
  by rewrite (xorshift_inv 32) by mix_range.
Qed.

(** Rotation permutes a word. *)
Lemma rotl_split w x r :
  0 < r < w -> 0 <= x < 2 ^ w ->
  Z.lor ((Z.shiftl x r) mod 2 ^ w) (Z.shiftr x (w - r)) = (x mod 2 ^ (w - r)) * 2 ^ r + x / 2 ^ (w - r).
Proof.
  intros Hr Hx. rewrite Z.shiftl_mul_pow2, Z.shiftr_div_pow2 by lia.
  pose proof (pow2_pos (w - r) ltac:(lia)). pose proof (pow2_pos r ltac:(lia)).
  assert (E : 2 ^ w = 2 ^ (w - r) * 2 ^ r) by (rewrite <- Z.pow_add_r by lia; f_equal; lia).
  rewrite E, Z.mul_mod_distr_r by lia. apply lor_disjoint; [lia|]. split.
  - apply Z.div_pos; lia.
  - apply Z.div_lt_upper_bound; lia.
Qed.

Lemma rotl_inj w x y r :
  0 < r < w -> 0 <= x < 2 ^ w -> 0 <= y < 2 ^ w ->
  Z.lor ((Z.shiftl x r) mod 2 ^ w) (Z.shiftr x (w - r)) =
  Z.lor ((Z.shiftl y r) mod 2 ^ w) (Z.shiftr y (w - r)) -> x = y.
Proof.
  intros Hr Hx Hy. rewrite !rotl_split by lia.
  pose proof (pow2_pos (w - r) ltac:(lia)). pose proof (pow2_pos r ltac:(lia)).
  assert (E : 2 ^ w = 2 ^ (w - r) * 2 ^ r) by (rewrite <- Z.pow_add_r by lia; f_equal; lia).
  assert (D : forall z, 0 <= z < 2 ^ w -> 0 <= z / 2 ^ (w - r) < 2 ^ r).
  { split; [apply Z.div_pos; lia|apply Z.div_lt_upper_bound; lia]. }
  intros [E1 E2]%split_inj; [|auto..].
  rewrite (Z.div_mod x (2 ^ (w - r))), (Z.div_mod y (2 ^ (w - r))) by lia. congruence.
Qed.

Lemma rotl64_range x r : 0 < r < 64 -> 0 <= x < 2 ^ 64 -> 0 <= rotl64 x r < 2 ^ 64.
Proof. intros. unfold rotl64. apply lor_range; [lia|apply u64_range|]. apply shiftr_range; lia. Qed.
Lemma rotl32_range x r : 0 < r < 32 -> 0 <= x < 2 ^ 32 -> 0 <= rotl32 x r < 2 ^ 32.
Proof. intros. unfold rotl32. apply lor_range; [lia|apply u32_range|]. apply shiftr_range; lia. Qed.

Lemma mul64_inj c d x y :
  (c * d) mod 2 ^ 64 = 1 -> 0 <= x < 2 ^ 64 -> 0 <= y < 2 ^ 64 -> u64 (x * c) = u64 (y * c) -> x = y.
Proof. intros Hcd Hx Hy E. rewrite <- (mul_inv64 c d x), E by done. by apply mul_inv64. Qed.

Lemma add64_inj c x y :
  0 <= x < 2 ^ 64 -> 0 <= y < 2 ^ 64 -> u64 (x + c) = u64 (y + c) -> x = y.
Proof. intros. by apply (add_mod_inj (2 ^ 64) x y c). Qed.

Lemma scramble64_inj a r b a' b' k k' :
  0 < r < 64 -> (a * a') mod 2 ^ 64 = 1 -> (b * b') mod 2 ^ 64 = 1 ->
  0 <= k < 2 ^ 64 -> 0 <= k' < 2 ^ 64 ->
  scramble64 a r b k = scramble64 a r b k' -> k = k'.
Proof.
  intros Hr Ha Hb Hk Hk' E. unfold scramble64 in E.
  apply (mul64_inj b b') in E; [|done|apply rotl64_range, u64_range; lia..].
  apply (rotl_inj 64) in E; [|lia|apply u64_range..]. by apply (mul64_inj a a') in E.
Qed.

Lemma fmix64_inj k k' : 0 <= k < 2 ^ 64 -> 0 <= k' < 2 ^ 64 -> fmix64 k = fmix64 k' -> k = k'.
Proof. intros Hk Hk' E. rewrite <- (unfmix64_fmix64 k), E by done. by apply unfmix64_fmix64. Qed.

Lemma scramble64_range a r b k : 0 <= scramble64 a r b k < 2 ^ 64.
Proof. apply u64_range. Qed.
Lemma scramble32_range a r b k : 0 <= scramble32 a r b k < 2 ^ 32.
Proof. apply u32_range. Qed.
#[export] Hint Resolve scramble64_range scramble32_range fmix64_range fmix32_range : cint.

Definition pair64 (h : Z * Z) : Prop := 0 <= h.1 < 2 ^ 64 /\ 0 <= h.2 < 2 ^ 64.

Lemma mix_x64_128_range h k : pair64 (X64_128.mix h k).
Proof. destruct h, k. split; apply u64_range. Qed.

Lemma add_up_x64_128_range h : pair64 (X64_128.add_up h).
Proof. destruct h. split; apply u64_range. Qed.

Lemma add_up_x64_128_inj h h' :
  pair64 h -> pair64 h' -> X64_128.add_up h = X64_128.add_up h' -> h = h'.
Proof.
  destruct h as [h1 h2], h' as [h1' h2']. unfold pair64. cbn [fst snd].
  intros [H1 H2] [H1' H2'] E. injection E as E1 E2. rewrite E1 in E2.
  apply add64_inj in E2 as ->; [|done..]. apply add64_inj in E1 as ->; done.
Qed.

Lemma finalize_x64_128_eq len h : X64_128.finalize len h =
  X64_128.add_up (prod_map fmix64 fmix64 (X64_128.add_up
    (prod_map (fun x => Z.lxor x (u64 len)) (fun x => Z.lxor x (u64 len)) h))).
Proof. by destruct h. Qed.

Lemma finalize_x64_128_range len h : pair64 (X64_128.finalize len h).
Proof. rewrite finalize_x64_128_eq. apply add_up_x64_128_range. Qed.

Lemma pair64_map f g h :
  (forall x, 0 <= x < 2 ^ 64 -> 0 <= f x < 2 ^ 64) ->
  (forall x, 0 <= x < 2 ^ 64 -> 0 <= g x < 2 ^ 64) ->
  pair64 h -> pair64 (prod_map f g h).
Proof. intros Hf Hg []. split; [by apply Hf|by apply Hg]. Qed.

Lemma xor_len_range len x : 0 <= x < 2 ^ 64 -> 0 <= Z.lxor x (u64 len) < 2 ^ 64.
Proof. intros. apply lxor_range; [lia|done|apply u64_range]. Qed.

Lemma finalize_x64_128_inj len h h' :
  pair64 h -> pair64 h' -> X64_128.finalize len h = X64_128.finalize len h' -> h = h'.
Proof.
  intros Hh Hh' E. rewrite !finalize_x64_128_eq in E.
  set (x := prod_map (fun x => Z.lxor x (u64 len)) _) in E.
  assert (Hx : forall h, pair64 h -> pair64 (x h)).
  { intros. by apply pair64_map; [apply xor_len_range..|]. }
  assert (Hm : forall h, pair64 h -> pair64 (prod_map fmix64 fmix64 h)).
  { intros. by apply pair64_map; [apply fmix64_range..|]. }
  apply add_up_x64_128_inj in E; [|apply Hm, add_up_x64_128_range..].
  assert (E' : X64_128.add_up (x h) = X64_128.add_up (x h')).
  { pose proof (add_up_x64_128_range (x h)) as R. pose proof (add_up_x64_128_range (x h')) as R'.
    destruct (X64_128.add_up (x h)), (X64_128.add_up (x h')). destruct R, R'. 
    cbn [prod_map fst snd] in *. injection E as E1 E2.
    apply fmix64_inj in E1 as ->; [|done..]. by apply fmix64_inj in E2 as ->. }
  apply add_up_x64_128_inj in E'; [|auto..]. destruct h, h'. injection E' as E1 E2.
  apply lxor_inj_r in E1 as ->. by apply lxor_inj_r in E2 as ->.
Qed.

(** One half of the block mixing is injective in the word it absorbs. *)
Lemma absorb64_inj a r b a' b' rot c h o k k' :
  0 < r < 64 -> 0 < rot < 64 -> (a * a') mod 2 ^ 64 = 1 -> (b * b') mod 2 ^ 64 = 1 ->
  0 <= h < 2 ^ 64 -> 0 <= k < 2 ^ 64 -> 0 <= k' < 2 ^ 64 ->
  u64 (u64 (rotl64 (Z.lxor h (scramble64 a r b k)) rot + o) * 5 + c) =
  u64 (u64 (rotl64 (Z.lxor h (scramble64 a r b k')) rot + o) * 5 + c) -> k = k'.
Proof.
  intros Hr Hrot Ha Hb Hh Hk Hk' E.
  assert (Hx : forall k, 0 <= Z.lxor h (scramble64 a r b k) < 2 ^ 64).
  { intros. apply lxor_range; [lia|done|apply scramble64_range]. }
  unfold u64 at 1 3 in E. rewrite <- (Z.add_mod_idemp_l (_ * 5)), <- (Z.add_mod_idemp_l (_ * 5)) in E by lia.
  apply add64_inj in E; [|apply u64_range..].
  apply (mul64_inj 5 0xcccccccccccccccd) in E; [|reflexivity|apply u64_range..].
  apply add64_inj in E; [|apply rotl64_range; auto..].
  apply (rotl_inj 64) in E; [|auto..]. apply lxor_inj_l in E.
  by apply (scramble64_inj a r b a' b') in E.
Qed.

Lemma mix_x64_128_inj h k k' :
  pair64 h -> pair64 k -> pair64 k' -> X64_128.mix h k = X64_128.mix h k' -> k = k'.
Proof.
  destruct h as [h1 h2], k as [k1 k2], k' as [k1' k2']. unfold pair64. cbn [fst snd].
  intros [Hh1 Hh2] [Hk1 Hk2] [Hk1' Hk2'] E. injection E as E1 E2. rewrite E1 in E2.
  apply (absorb64_inj _ _ _ 0xa98409e882ce4d7d 0xa81e14edd9de2c7f) in E1 as ->; try done.
  apply (absorb64_inj _ _ _ 0xa81e14edd9de2c7f 0xa98409e882ce4d7d) in E2 as ->; done.
Qed.

(** A key of at most 16 bytes is absorbed through a single pair of words. *)
Definition words_x64_128 (key : bytes) : Z * Z := (word 8 key 0, word 8 key 1).

Lemma word_range k data i : (k <= 8)%nat -> Forall is_byte data -> 0 <= word k data i < 2 ^ 64.
Proof.
  intros Hk Hd. unfold word. set (l := take k (drop (k * i) data)).
  assert (Hl : (length l <= 8)%nat) by (subst l; rewrite length_take; lia).
  pose proof (le_val_range l ltac:(by apply Forall_take, Forall_drop)).
  pose proof (Z.pow_le_mono_r 2 (8 * Z.of_nat (length l)) 64). lia.
Qed.

Lemma words_x64_128_inj key key' :
  Forall is_byte key -> Forall is_byte key' ->
  length key = length key' -> (length key <= 16)%nat ->
  words_x64_128 key = words_x64_128 key' -> key = key'.
Proof.
  intros Hb Hb' Hl H16. unfold words_x64_128, word. intros [E1 E2]%pair_eq.
  rewrite <- (take_drop 8 key), <- (take_drop 8 key').
  apply le_val_inj in E1; [|by apply Forall_take, Forall_drop..|rewrite !length_take, !length_drop; lia].
  apply le_val_inj in E2; [|by apply Forall_take, Forall_drop..|rewrite !length_take, !length_drop; lia].
  change (8 * 0)%nat with 0%nat in E1. change (8 * 1)%nat with 8%nat in E2.
  rewrite !drop_0 in E1. rewrite !(take_ge (drop 8 _)) in E2 by (rewrite length_drop; lia).
  by rewrite E1, E2.
Qed.

Lemma word_past k data i : (length data <= k * i)%nat -> word k data i = 0.
Proof. intros. unfold word. by rewrite drop_ge, take_nil by done. Qed.

Lemma ref_x64_128_short key seed :
  (length key < 16)%nat ->
  ref_x64_128 key seed = X64_128.finalize (Z.of_nat (length key))
    (Z.lxor seed (scramble64 X64_128.c1 31 X64_128.c2 (words_x64_128 key).1),
     Z.lxor seed (scramble64 X64_128.c2 33 X64_128.c1 (words_x64_128 key).2)).
Proof. intros Hl. unfold ref_x64_128. by rewrite Nat.div_small by done. Qed.

Lemma ref_x64_128_one key seed :
  length key = 16%nat ->
  ref_x64_128 key seed = X64_128.finalize 16 (X64_128.mix (seed, seed) (words_x64_128 key)).
Proof.
  intros Hl. unfold ref_x64_128. rewrite Hl. change (16 / 16)%nat with 1%nat.
  cbn [seq fmap list_fmap foldl]. unfold words_x64_128.
  change (2 * 0)%nat with 0%nat. change (0 + 1)%nat with 1%nat.
  destruct (X64_128.mix _ _) as [h1 h2].
  rewrite !word_past by (rewrite Hl; lia). rewrite !scramble64_0, !Z.lxor_0_r by lia. done.
Qed.

Lemma MurmurHash3_x86_32_range key seed :
  0 <= seed < 2 ^ 32 -> Z.of_nat (length key) <= INT_MAX -> 0 <= ref_x86_32 key seed < 2 ^ 32.
Proof.
  intros Hs Hl. unfold INT_MAX in Hl. unfold ref_x86_32. cbv zeta.
  assert (Hf : forall l, 0 <= foldl X86_32.mix seed l < 2 ^ 32).
  { intros l. revert seed Hs. induction l as [|k l IH]; intros s Hs; [done|].
    apply IH, u32_range. }
  apply fmix32_range. repeat (apply lxor_range; [lia| |]); auto with cint; lia.
Qed.

(** ** Properties *)

(** C36.  For every key whose length is an [int], [MurmurHash3_x64_128] (the hash
    of the string table) terminates within its block loop, reads nothing outside
    the key, and computes the reference function: the block mixing folded over
    the key's little-endian 64-bit words, the last partial block padded with
    zeros; both halves are 64-bit values. *)
Theorem MurmurHash3_x64_128_correct (key : bytes) (seed : Z)
    (Hkey : Forall is_byte key) (Hlen : Z.of_nat (length key) <= INT_MAX) :
  MurmurHash3_x64_128 key (Z.of_nat (length key)) seed = Ok (ref_x64_128 key seed) /\
  pair64 (ref_x64_128 key seed).
Proof.
  split; [by apply MurmurHash3_x64_128_ref|]. unfold ref_x64_128. cbv zeta.
  destruct (foldl _ _ _). apply finalize_x64_128_range.
Qed.

Lemma MurmurHash3_x64_128_correct_witness :
  MurmurHash3_x64_128 [104; 101; 108; 108; 111] 5 0 =
    Ok (0xcbd8a7b341bd9b02, 0x5b1e906a48ae1d19).
Proof.
  destruct (MurmurHash3_x64_128_correct [104; 101; 108; 108; 111] 0) as [E _].
  - repeat constructor; unfold is_byte; lia.
  - unfold INT_MAX; simpl; lia.
  - exact E.
Defined.

(** C37.  The two 32-bit variants terminate, stay inside the key and compute
    their reference functions as well; in particular the descending block
    pointer ([blocks[-nblocks]] up to [blocks[-1]]) and the 12-, 8- and 4-byte
    fall-through groups of the tail read each byte of the key exactly where it
    belongs. *)
Theorem MurmurHash3_x86_correct (key : bytes) (seed : Z)
    (Hkey : Forall is_byte key) (Hlen : Z.of_nat (length key) <= INT_MAX)
    (Hseed : 0 <= seed < 2 ^ 32) :
  MurmurHash3_x86_32 key (Z.of_nat (length key)) seed = Ok (ref_x86_32 key seed) /\
  0 <= ref_x86_32 key seed < 2 ^ 32 /\
  MurmurHash3_x86_128 key (Z.of_nat (length key)) seed = Ok (ref_x86_128 key seed).
Proof.
  split; [by apply MurmurHash3_x86_32_ref|]. split; [by apply MurmurHash3_x86_32_range|].
  by apply MurmurHash3_x86_128_ref.
Qed.

Lemma MurmurHash3_x86_correct_witness :
  MurmurHash3_x86_32 [104; 101; 108; 108; 111] 5 0 = Ok 0x248bfa47.
Proof.
  destruct (MurmurHash3_x86_correct [104; 101; 108; 108; 111] 0) as [E _].
  - repeat constructor; unfold is_byte; lia.
  - unfold INT_MAX; simpl; lia.
  - lia.
  - exact E.
Defined.

(** The finalisation mixes are permutations of the 32- and 64-bit words:
    [unfmix32] and [unfmix64] are their two-sided inverses. *)
Theorem fmix_permutation (k : Z) :
  (0 <= k < 2 ^ 64 -> unfmix64 (fmix64 k) = k /\ fmix64 (unfmix64 k) = k) /\
  (0 <= k < 2 ^ 32 -> unfmix32 (fmix32 k) = k /\ fmix32 (unfmix32 k) = k).
Proof.
  split; intros Hk; split.
  - by apply unfmix64_fmix64.
  - by apply fmix64_unfmix64.
  - by apply unfmix32_fmix32.
  - by apply fmix32_unfmix32.
Qed.

Lemma fmix_permutation_witness : unfmix64 (fmix64 12345) = 12345.
Proof. apply (fmix_permutation 12345). lia. Defined.

(** [MurmurHash3_x64_128] has no collision between keys of one length up to
    16 bytes: both halves of the hash together determine the key. *)
Theorem x64_128_no_short_collision (key key' : bytes) (seed : Z)
    (Hkey : Forall is_byte key) (Hkey' : Forall is_byte key')
    (Hlen : length key = length key') (H16 : (length key <= 16)%nat)
    (Hseed : 0 <= seed < 2 ^ 32) (Hne : key <> key') :
  MurmurHash3_x64_128 key (Z.of_nat (length key)) seed <>
  MurmurHash3_x64_128 key' (Z.of_nat (length key')) seed.
Proof.
  intros Hhash. apply Hne.
  rewrite !MurmurHash3_x64_128_ref in Hhash by (done || unfold INT_MAX; lia). injection Hhash as E.
  apply words_x64_128_inj; [done..|].
  assert (W : forall key, Forall is_byte key -> pair64 (words_x64_128 key)).
  { intros l Hl. split; by apply word_range; [lia|]. }
  destruct (W key Hkey), (W key' Hkey').
  destruct (decide (length key = 16%nat)) as [H16eq|].
  - rewrite !ref_x64_128_one in E by congruence.
    apply finalize_x64_128_inj, mix_x64_128_inj in E; auto using mix_x64_128_range.
    split; simpl; lia.
  - rewrite !ref_x64_128_short, Hlen in E by lia.
    assert (X : forall a r b k, 0 <= Z.lxor seed (scramble64 a r b k) < 2 ^ 64).
    { intros. apply lxor_range; [lia|lia|apply scramble64_range]. }
    apply finalize_x64_128_inj in E; [|by split; apply X..].
    apply pair_eq in E as [E1%lxor_inj_l E2%lxor_inj_l].
    apply (scramble64_inj _ _ _ 0xa98409e882ce4d7d 0xa81e14edd9de2c7f) in E1; [|done..].
    apply (scramble64_inj _ _ _ 0xa81e14edd9de2c7f 0xa98409e882ce4d7d) in E2; [|done..].
    by destruct (words_x64_128 key), (words_x64_128 key'); simpl in *; subst.
Qed.

Lemma x64_128_no_short_collision_witness :
  MurmurHash3_x64_128 [97; 98; 99] 3 7 <> MurmurHash3_x64_128 [97; 98; 100] 3 7.
Proof.
  apply (x64_128_no_short_collision [97; 98; 99] [97; 98; 100] 7);
    first [reflexivity | discriminate | simpl; lia | repeat constructor; unfold is_byte; lia].
Defined.
