(* ===== verification/CMem.v ===== *)
(** * Memory and the C library functions the server uses

    Objects of character type live in numbered blocks; a pointer is a block and
    an offset, or points into a string literal.  Every access is checked:
    outside the object it is [Undef OutOfBounds], through a null pointer
    [Undef NullDeref], to a block that is not alive [Undef Dangling].

    [malloc] and [realloc] may fail.  Which calls fail is a schedule carried by
    the heap, so a theorem that quantifies over the heap quantifies over every
    pattern of allocation failures.

    [Platform] gathers what neither C11 nor the source determines: the contents
    of fresh memory, and the value of [1 << n] on [int] for a count outside
    [0, 31), which C11 leaves undefined.  [x86] is the instance for the processor
    the source targets, whose shift instruction uses the low five bits of the
    count; [strict] is the instance where such a shift is a fault. *)

From S2P Require Import Prelude.
From Stdlib Require Export Ascii String.
From stdpp Require Export strings pretty.
Open Scope Z_scope.

(** ** Pointers and blocks *)

Abbreviation block := positive.

Inductive ptr : Type :=
| NULL
| Ptr (b : block) (o : Z)      (* offset [o] of an allocated object *)
| Lit (s : bytes) (o : Z).     (* offset [o] of a string literal *)

#[export] Instance ptr_eq_dec : EqDecision ptr.
Proof. solve_decision. Defined.

Definition is_null (p : ptr) : bool := match p with NULL => true | _ => false end.

Definition ptr_add (p : ptr) (d : Z) : ptr :=
  match p with
  | NULL => NULL
  | Ptr b o => Ptr b (o + d)
  | Lit s o => Lit s (o + d)
  end.

(** A string literal of the source. *)
Definition bytes_of_string (s : string) : bytes :=
  (fun a => Z.of_N (N_of_ascii a)) <$> list_ascii_of_string s.
Definition lit (s : string) : ptr := Lit (bytes_of_string s) 0.

Record heap := Heap {
  mem : gmap block bytes;
  oom : list bool     (* [true] at the calls of the allocator that fail *)
}.

Class Platform := {
  fresh_bytes : nat -> bytes;
  length_fresh_bytes : forall n, length (fresh_bytes n) = n;
  oversized_shl1 : Z -> result Z
}.

(** [sal] on a 32-bit register masks its count to five bits. *)
Definition sal32 (x n : Z) : Z := i32 (x * 2 ^ (n mod 32)).

#[export] Instance strict : Platform := {|
  fresh_bytes n := replicate n 0;
  length_fresh_bytes n := length_replicate n 0;
  oversized_shl1 _ := Undef BadShift
|}.

Definition x86 : Platform := {|
  fresh_bytes n := replicate n 0;
  length_fresh_bytes n := length_replicate n 0;
  oversized_shl1 n := Ok (sal32 1 n)
|}.

(** [1 << n] at type [int]: defined by C11 when the result is representable. *)
Definition shl1 `{Platform} (n : Z) : result Z :=
  if (0 <=? n) && (n <? 31) then Ok (2 ^ n) else oversized_shl1 n.

(** [__builtin_clzl] of a 64-bit value. *)
Definition builtin_clzl (x : Z) : result Z :=
  if x =? 0 then Undef BadBuiltin else Ok (63 - Z.log2 x).

(** ** Loads and stores *)

Definition object (m : gmap block bytes) (p : ptr) : result (bytes * Z) :=
  match p with
  | NULL => Undef NullDeref
  | Ptr b o => match m !! b with Some bs => Ok (bs, o) | None => Undef Dangling end
  | Lit s o => Ok (s ++ [0], o)
  end.

Definition load (m : gmap block bytes) (p : ptr) : result Z :=
  '(bs, o) ← object m p;
  byte_at bs o.

Definition load32 (m : gmap block bytes) (p : ptr) : result Z :=
  '(bs, o) ← object m p;
  le_load bs o 4.

(** Overwrites the bytes from offset [o] on; the whole range must be inside. *)
Definition blit (bs : bytes) (o : Z) (new : bytes) : result bytes :=
  if (0 <=? o) && (o + Z.of_nat (length new) <=? Z.of_nat (length bs))
  then Ok (take (Z.to_nat o) bs ++ new ++ drop (Z.to_nat o + length new) bs)
  else Undef OutOfBounds.

Definition store_bytes (m : gmap block bytes) (p : ptr) (new : bytes) : result (gmap block bytes) :=
  match p with
  | NULL => Undef NullDeref
  | Lit _ _ => Undef OutOfBounds
  | Ptr b o =>
      match m !! b with
      | None => Undef Dangling
      | Some bs => bs' ← blit bs o new; Ok (<[b := bs']> m)
      end
  end.

Definition store (m : gmap block bytes) (p : ptr) (v : Z) : result (gmap block bytes) :=
  store_bytes m p [v].

Definition memset (m : gmap block bytes) (p : ptr) (v n : Z) : result (gmap block bytes) :=
  store_bytes m p (replicate (Z.to_nat n) v).

(** ** The allocator *)

Definition PTRDIFF_MAX : Z := 2 ^ 63 - 1.

(** Whether the next call fails, and the rest of the schedule. *)
Definition next_oom (l : list bool) : bool * list bool :=
  match l with [] => (false, []) | b :: l => (b, l) end.

Definition alloc_fails (n : Z) (h : heap) : bool := (next_oom (oom h)).1 || (PTRDIFF_MAX <? n).

Definition tick (h : heap) : heap := Heap (mem h) (next_oom (oom h)).2.

Section allocator.
Context `{Platform}.

Definition malloc (n : Z) (h : heap) : ptr * heap :=
  if alloc_fails n h then (NULL, tick h)
  else
    let b := fresh (dom (mem h)) in
    (Ptr b 0, Heap (<[b := fresh_bytes (Z.to_nat n)]> (mem h)) (next_oom (oom h)).2).

(** The old object is released only when the call succeeds. *)
Definition realloc (p : ptr) (n : Z) (h : heap) : result (ptr * heap) :=
  match p with
  | NULL => Ok (malloc n h)
  | Lit _ _ => Undef Dangling
  | Ptr b o =>
      match mem h !! b with
      | None => Undef Dangling
      | Some bs =>
          if negb (o =? 0) then Undef Dangling
          else if alloc_fails n h then Ok (NULL, tick h)
          else
            let b' := fresh (dom (mem h)) in
            let k := Z.to_nat n in
            let new := take k bs ++ drop (length (take k bs)) (fresh_bytes k) in
            Ok (Ptr b' 0, Heap (<[b' := new]> (delete b (mem h))) (next_oom (oom h)).2)
      end
  end.
End allocator.

Definition free (p : ptr) (h : heap) : result heap :=
  match p with
  | NULL => Ok h
  | Lit _ _ => Undef Dangling
  | Ptr b o =>
      if bool_decide (b ∈ dom (mem h)) && (o =? 0)
      then Ok (Heap (delete b (mem h)) (oom h))
      else Undef Dangling
  end.

(** ** String functions *)

(** The bytes before the first NUL; [None] when there is none. *)
Fixpoint until_nul (bs : bytes) : option bytes :=
  match bs with
  | [] => None
  | c :: bs => if c =? 0 then Some [] else cons c <$> until_nul bs
  end.

(** The position of the first [c] before the first NUL; the outer [None] when
    the scan runs off the object. *)
Fixpoint find_char (c : Z) (bs : bytes) : option (option nat) :=
  match bs with
  | [] => None
  | x :: bs =>
      if x =? c then Some (Some O)
      else if x =? 0 then Some None
      else match find_char c bs with
           | Some (Some i) => Some (Some (S i))
           | r => r
           end
  end.

Definition suffix (bs : bytes) (o : Z) : result bytes :=
  if (0 <=? o) && (o <=? Z.of_nat (length bs)) then Ok (drop (Z.to_nat o) bs) else Undef OutOfBounds.

Definition load_cstr (m : gmap block bytes) (p : ptr) : result bytes :=
  '(bs, o) ← object m p;
  s ← suffix bs o;
  of_option OutOfBounds (until_nul s).

Definition strlen (m : gmap block bytes) (p : ptr) : result Z :=
  s ← load_cstr m p;
  Ok (Z.of_nat (length s)).

Definition strchr (m : gmap block bytes) (p : ptr) (c : Z) : result ptr :=
  '(bs, o) ← object m p;
  s ← suffix bs o;
  r ← of_option OutOfBounds (find_char c s);
  Ok (match r with Some i => ptr_add p (Z.of_nat i) | None => NULL end).

(** The sign of the first difference, 0 for equal strings. *)
Fixpoint compare_bytes (s t : bytes) : Z :=
  match s, t with
  | [], [] => 0
  | [], _ => -1
  | _, [] => 1
  | x :: s, y :: t => if x =? y then compare_bytes s t else if x <? y then -1 else 1
  end.

Definition strcmp (m : gmap block bytes) (p q : ptr) : result Z :=
  s ← load_cstr m p;
  t ← load_cstr m q;
  Ok (compare_bytes s t).

(** At most [n] bytes of the source, up to its NUL. *)
Fixpoint take_cstr (bs : bytes) (n : nat) {struct n} : option bytes :=
  match n with
  | O => Some []
  | S n =>
      match bs with
      | [] => None
      | c :: bs => if c =? 0 then Some [] else cons c <$> take_cstr bs n
      end
  end.

Definition strncat (m : gmap block bytes) (dst src : ptr) (n : Z) : result (gmap block bytes) :=
  d ← load_cstr m dst;
  '(bs, o) ← object m src;
  s ← suffix bs o;
  t ← of_option OutOfBounds (take_cstr s (Z.to_nat n));
  store_bytes m (ptr_add dst (Z.of_nat (length d))) (t ++ [0]).

(** [%d] and [%ld]. *)
Definition decimal (z : Z) : bytes := bytes_of_string (pretty z).

(** An allocation of a structure that the model keeps as a value: only its
    success is recorded. *)
Definition malloc_struct (n : Z) (h : heap) : bool * heap := (negb (alloc_fails n h), tick h).

(** ** Lemmas: strings *)

Lemma until_nul_app s r : 0 ∉ s -> until_nul (s ++ 0 :: r) = Some s.
Proof.
  induction s as [|c s IH]; intros Hs; [done|]. simpl.
  destruct (Z.eqb_spec c 0) as [->|]; [set_solver|]. rewrite IH by set_solver. done.
Qed.

Lemma until_nul_inv bs s : until_nul bs = Some s -> exists r, bs = s ++ 0 :: r /\ 0 ∉ s.
Proof.
  revert s. induction bs as [|c bs IH]; intros s; simpl; [done|].
  destruct (Z.eqb_spec c 0) as [Hc|Hc]; [subst c|].
  - intros [= <-]. exists bs. split; [done|set_solver].
  - intros (s' & E & ->)%fmap_Some. destruct (IH _ E) as (r & -> & ?).
    exists r. split; [done|set_solver].
Qed.

Lemma until_nul_none bs : 0 ∉ bs -> until_nul bs = None.
Proof.
  induction bs as [|c bs IH]; intros Hs; [done|]. simpl.
  destruct (Z.eqb_spec c 0) as [->|]; [set_solver|]. by rewrite IH by set_solver.
Qed.

(** [strchr] finds the first [c]... *)
Lemma find_char_here c s r :
  0 ∉ s -> c ∉ s -> find_char c (s ++ c :: r) = Some (Some (length s)).
Proof.
  induction s as [|x s IH]; intros Hs Hc; simpl; [by rewrite Z.eqb_refl|].
  destruct (Z.eqb_spec x c) as [->|]; [set_solver|].
  destruct (Z.eqb_spec x 0) as [->|]; [set_solver|].
  by rewrite IH by set_solver.
Qed.

(** ... or the end of the string. *)
Lemma find_char_nul c s r :
  0 ∉ s -> c ∉ s -> c <> 0 -> find_char c (s ++ 0 :: r) = Some None.
Proof.
  induction s as [|x s IH]; intros Hs Hc Hc0; simpl.
  { by destruct c. }
  destruct (Z.eqb_spec x c) as [->|]; [set_solver|].
  destruct (Z.eqb_spec x 0) as [->|]; [set_solver|].
  by rewrite IH by set_solver.
Qed.

Lemma take_cstr_app t r n :
  0 ∉ t -> (length t <= n)%nat -> take_cstr (t ++ 0 :: r) n = Some t.
Proof.
  revert n. induction t as [|c t IH]; intros [|n] Ht Hn; simpl in Hn |- *; [done|done|lia|].
  destruct (Z.eqb_spec c 0) as [->|]; [set_solver|]. rewrite IH; [done|set_solver|lia].
Qed.

Lemma take_cstr_full t r n :
  0 ∉ t -> length t = n -> take_cstr (t ++ r) n = Some t.
Proof.
  revert n. induction t as [|c t IH]; intros n Ht Hn; subst n; [done|]. simpl.
  destruct (Z.eqb_spec c 0) as [->|]; [set_solver|]. by rewrite IH by set_solver.
Qed.

Lemma take_cstr_bound bs n t : take_cstr bs n = Some t -> (length t <= n)%nat /\ 0 ∉ t.
Proof.
  revert n t. induction bs as [|c bs IH]; intros [|n] t; simpl; try done.
  - intros [= <-]. split; [simpl; lia|set_solver].
  - intros [= <-]. split; [simpl; lia|set_solver].
  - destruct (Z.eqb_spec c 0) as [Hc|Hc]; [subst c|].
    + intros [= <-]. split; [simpl; lia|set_solver].
    + intros (t' & E & ->)%fmap_Some. destruct (IH _ _ E). split; [simpl; lia|set_solver].
Qed.

Lemma compare_bytes_eq s t : compare_bytes s t = 0 <-> s = t.
Proof.
  revert t. induction s as [|x s IH]; intros [|y t]; simpl; try done.
  destruct (Z.eqb_spec x y) as [->|].
  - rewrite IH. split; congruence.
  - destruct (x <? y); split; congruence.
Qed.

(** ** Lemmas: stores *)

Lemma blit_ok bs i new :
  (i + length new <= length bs)%nat ->
  blit bs (Z.of_nat i) new = Ok (take i bs ++ new ++ drop (i + length new) bs).
Proof.
  intros Hl. unfold blit. rewrite Nat2Z.id.
  destruct (Z.leb_spec 0 (Z.of_nat i)); [|lia].
  destruct (Z.leb_spec (Z.of_nat i + Z.of_nat (length new)) (Z.of_nat (length bs))); [done|lia].
Qed.

Lemma blit_oob bs i new :
  (length bs < i + length new)%nat -> blit bs (Z.of_nat i) new = Undef OutOfBounds.
Proof.
  intros Hl. unfold blit.
  destruct (Z.leb_spec (Z.of_nat i + Z.of_nat (length new)) (Z.of_nat (length bs))); [lia|].
  by rewrite andb_false_r.
Qed.

Lemma blit_insert bs i v :
  (i < length bs)%nat -> blit bs (Z.of_nat i) [v] = Ok (<[i := v]> bs).
Proof.
  intros Hl. rewrite blit_ok by (simpl; lia). simpl length.
  rewrite insert_take_drop by done. simpl. by rewrite Nat.add_1_r.
Qed.

Lemma store_block m b bs (i : nat) v :
  m !! b = Some bs -> (i < length bs)%nat ->
  store m (Ptr b (Z.of_nat i)) v = Ok (<[b := <[i := v]> bs]> m).
Proof. intros Hb Hl. unfold store, store_bytes. by rewrite Hb, blit_insert. Qed.

Lemma load_block m b bs (i : nat) v :
  m !! b = Some bs -> bs !! i = Some v -> load m (Ptr b (Z.of_nat i)) = Ok v.
Proof. intros Hb Hv. unfold load, object. rewrite Hb, bind_ok. by apply byte_at_lookup. Qed.

Lemma suffix_ok bs (i : nat) : (i <= length bs)%nat -> suffix bs (Z.of_nat i) = Ok (drop i bs).
Proof.
  intros Hl. unfold suffix. rewrite Nat2Z.id.
  destruct (Z.leb_spec 0 (Z.of_nat i)); [|lia].
  by destruct (Z.leb_spec (Z.of_nat i) (Z.of_nat (length bs))); [|lia].
Qed.

Lemma suffix_0 bs : suffix bs 0 = Ok bs.
Proof. pose proof (suffix_ok bs 0 ltac:(lia)) as E. by rewrite drop_0 in E. Qed.

Lemma load_cstr_block m b bs (i : nat) s r :
  m !! b = Some bs -> drop i bs = s ++ 0 :: r -> 0 ∉ s -> load_cstr m (Ptr b (Z.of_nat i)) = Ok s.
Proof.
  intros Hb Hd Hs. unfold load_cstr, object. rewrite Hb, bind_ok.
  assert (i <= length bs)%nat.
  { destruct (Nat.le_gt_cases i (length bs)); [done|]. rewrite drop_ge in Hd by lia. by destruct s. }
  rewrite suffix_ok, bind_ok, Hd, until_nul_app by done. done.
Qed.

Lemma load_cstr_block0 m b s r :
  m !! b = Some (s ++ 0 :: r) -> 0 ∉ s -> load_cstr m (Ptr b 0) = Ok s.
Proof. intros Hb Hs. by apply (load_cstr_block m b _ 0 s r Hb). Qed.

Lemma memset_block m b bs v n :
  m !! b = Some bs -> length bs = Z.to_nat n ->
  memset m (Ptr b 0) v n = Ok (<[b := replicate (Z.to_nat n) v]> m).
Proof.
  intros Hb Hl. unfold memset, store_bytes. rewrite Hb.
  change 0 with (Z.of_nat 0) at 1. rewrite blit_ok by (rewrite length_replicate; lia).
  rewrite length_replicate. simpl. by rewrite drop_ge, app_nil_r by lia.
Qed.

(** ** Lemmas: allocation *)

Lemma malloc_cases `{!Platform} n h :
  (alloc_fails n h = true /\ malloc n h = (NULL, tick h)) \/
  (alloc_fails n h = false /\ exists b, mem h !! b = None /\
     malloc n h = (Ptr b 0, Heap (<[b := fresh_bytes (Z.to_nat n)]> (mem h)) (next_oom (oom h)).2)).
Proof.
  unfold malloc. destruct (alloc_fails n h); [by left|right].
  split; [done|]. eexists. split; [|done]. apply not_elem_of_dom, is_fresh.
Qed.

Lemma shl1_small `{Platform} n : 0 <= n < 31 -> shl1 n = Ok (2 ^ n).
Proof.
  intros. unfold shl1. destruct (Z.leb_spec 0 n); [|lia]. by destruct (Z.ltb_spec n 31); [|lia].
Qed.

Lemma shl1_large `{Platform} n : 31 <= n -> shl1 n = oversized_shl1 n.
Proof. intros. unfold shl1. destruct (Z.ltb_spec n 31); [lia|]. by rewrite andb_false_r. Qed.

Lemma builtin_clzl_pos x : 0 < x -> builtin_clzl x = Ok (63 - Z.log2 x).
Proof. intros. unfold builtin_clzl. by destruct (Z.eqb_spec x 0); [lia|]. Qed.
