(* ===== verification/Strbuf.v ===== *)
(** * Growable strings (lib/strbuf.c)

    [string_t] with its four operations.  The capacity computation of the source,
    [1 << __builtin_clzl(n)], counts leading zeros where a power of two above [n]
    is meant: for every [n < 2^32] the shift count is at least 32, which C11
    leaves undefined, and on x86 the count is taken modulo 32.  The theorems say
    for which sizes the x86 result is large enough, and what happens otherwise. *)

From S2P Require Import Prelude CMem.
Open Scope Z_scope.

Record string_t := String_t {
  capacity : Z;
  len : Z;
  buf : ptr
}.

Section ops.
Context `{Platform}.

(** [1 << __builtin_clzl(n)], an [int] converted to [size_t]. *)
Definition real_capacity_of (n : Z) : result Z :=
  k ← builtin_clzl n;
  c ← shl1 k;
  Ok (u64 c).

Definition string_init (cap : Z) (h : heap) : result (option string_t * heap) :=
  let '(ok, h) := malloc_struct 24 h in
  if UNLIKELY (negb ok) then Ok (None, h)
  else
    c ← real_capacity_of cap;
    let real_capacity := MAX c 64 in
    let '(p, h) := malloc real_capacity h in
    if UNLIKELY (is_null p) then Ok (None, h)
    else
      m ← memset (mem h) p 0 real_capacity;
      Ok (Some (String_t real_capacity 0 p), Heap m (oom h)).

Definition string_append (str : option string_t) (src : ptr) (buflen : Z) (h : heap)
    : result (bool * option string_t * heap) :=
  match str with
  | None => Ok (false, None, h)
  | Some s =>
      '(ok, s, h) ←
        (if UNLIKELY (capacity s <=? u64 (len s + buflen)) then
           c ← real_capacity_of (u64 (len s + buflen));
           '(newb, h) ← realloc (buf s) c h;
           if UNLIKELY (is_null newb) then Ok (false, s, h)
           else Ok (true, String_t c (len s) newb, h)
         else Ok (true, s, h));
      if negb ok then Ok (false, Some s, h)
      else
        m ← strncat (mem h) (buf s) src buflen;
        Ok (true, Some (String_t (capacity s) (u64 (len s + buflen)) (buf s)), Heap m (oom h))
  end.
End ops.

Definition string_reset (str : option string_t) (h : heap) : result (option string_t * heap) :=
  match str with
  | None => Ok (None, h)
  | Some s =>
      m ← memset (mem h) (buf s) 0 (capacity s);
      Ok (Some (String_t (capacity s) 0 (buf s)), Heap m (oom h))
  end.

(** [free(str)] releases the structure; [str->buf] is left allocated. *)
Definition string_free (str : option string_t) (h : heap) : heap := h.

(** ** Representation

    [repr h s b txt]: the buffer of [s] is the block [b], holds the C string
    [txt], and has the capacity the structure records.  [len s] may exceed the
    length of [txt]: appending bytes with a NUL among them counts them all. *)

Definition repr (h : heap) (s : string_t) (b : block) (txt : bytes) : Prop :=
  (buf s = Ptr b 0) /\
  (exists r, mem h !! b = Some (txt ++ 0 :: r) /\
     Z.of_nat (length (txt ++ 0 :: r)) = capacity s) /\
  (0 ∉ txt) /\
  Z.of_nat (length txt) <= len s < capacity s /\ capacity s < 2 ^ 63.

(** What [strncat] copies from [src]. *)
Definition copied (m : gmap block bytes) (src : ptr) (n : Z) (t : bytes) : Prop :=
  exists bs o, object m src = Ok (bs, Z.of_nat o) /\ (o <= length bs)%nat /\
    take_cstr (drop o bs) (Z.to_nat n) = Some t.

Definition outside (src : ptr) (b : block) : Prop :=
  match src with Ptr b' _ => b' <> b | _ => True end.

Lemma copied_bound m src n t :
  0 <= n -> copied m src n t -> Z.of_nat (length t) <= n /\ 0 ∉ t.
Proof. intros Hn (bs & o & _ & _ & E). apply take_cstr_bound in E as []. split; [lia|done]. Qed.

(** [m'] keeps every live block of [m] other than [b]. *)
Definition keeps (m m' : gmap block bytes) (b : block) : Prop :=
  forall b' bs, b' <> b -> m !! b' = Some bs -> m' !! b' = Some bs.

Lemma copied_frame m m' src n t b :
  copied m src n t -> outside src b -> keeps m m' b -> copied m' src n t.
Proof.
  intros (bs & o & E & ?) Ho Hf. exists bs, o. split; [|done].
  destruct src as [|b' o'|]; simpl in *; try done.
  destruct (m !! b') eqn:Eb; [|done]. by rewrite (Hf _ _ Ho Eb).
Qed.

Lemma strncat_ok m b d r src n t :
  m !! b = Some (d ++ 0 :: r) -> 0 ∉ d -> copied m src n t ->
  (length t <= length r)%nat ->
  strncat m (Ptr b 0) src n = Ok (<[b := (d ++ t) ++ 0 :: drop (length t) r]> m).
Proof.
  intros Hb Hd (bs & o & Ho & Hol & Ht) Hl. unfold strncat.
  rewrite (load_cstr_block0 m b d r), bind_ok by done.
  rewrite Ho, bind_ok, suffix_ok, bind_ok by done. rewrite Ht. cbn [of_option]. rewrite bind_ok.
  unfold store_bytes, ptr_add. rewrite Hb. change (Z.of_nat 0 + ?x) with (0 + x).
  rewrite Z.add_0_l, blit_ok by (rewrite !length_app; simpl; lia).
  rewrite bind_ok, take_app_length. do 2 f_equal.
  rewrite length_app, drop_app_add', Nat.add_1_r by done. by rewrite <- !app_assoc.
Qed.

Lemma strncat_oob m b d r src n t :
  m !! b = Some (d ++ 0 :: r) -> 0 ∉ d -> copied m src n t ->
  (length r < length t)%nat ->
  strncat m (Ptr b 0) src n = Undef OutOfBounds.
Proof.
  intros Hb Hd (bs & o & Ho & Hol & Ht) Hl. unfold strncat.
  rewrite (load_cstr_block0 m b d r), bind_ok by done.
  rewrite Ho, bind_ok, suffix_ok, bind_ok by done. rewrite Ht. cbn [of_option]. rewrite bind_ok.
  unfold store_bytes, ptr_add. rewrite Hb. change (Z.of_nat 0 + ?x) with (0 + x).
  rewrite Z.add_0_l, blit_oob by (rewrite !length_app; simpl; lia). done.
Qed.

(** ** Capacities on x86 *)

Lemma log2_range lo hi n : 0 <= lo <= hi -> 2 ^ lo <= n < 2 ^ hi -> lo <= Z.log2 n < hi.
Proof.
  intros Hl [Hn1 Hn2]. pose proof (pow2_pos lo). split.
  - apply Z.log2_le_pow2; lia.
  - apply Z.log2_lt_pow2; lia.
Qed.

(** The shift count is [63 - log2 n]; modulo 32 it is [31 - log2 n mod 32]. *)
Lemma real_capacity_x86 n :
  2 <= n < 2 ^ 32 -> real_capacity_of (H := x86) n = Ok (2 ^ (31 - Z.log2 n)).
Proof.
  intros Hn. unfold real_capacity_of. rewrite builtin_clzl_pos, bind_ok by lia.
  pose proof (log2_range 1 32 n ltac:(lia) ltac:(lia)).
  rewrite shl1_large by lia. cbn [oversized_shl1 x86]. rewrite bind_ok.
  unfold sal32. replace ((63 - Z.log2 n) mod 32) with (31 - Z.log2 n)
    by (apply Z.mod_unique with 1; lia).
  pose proof (pow2_pos (31 - Z.log2 n) ltac:(lia)).
  pose proof (Z.pow_lt_mono_r 2 (31 - Z.log2 n) 31 ltac:(lia) ltac:(lia) ltac:(lia)).
  rewrite Z.mul_1_l, i32_small, u64_small by lia. done.
Qed.

Lemma capacity_x86_small n : 2 <= n < 2 ^ 16 -> n < 2 ^ 16 <= 2 ^ (31 - Z.log2 n).
Proof.
  intros Hn. pose proof (log2_range 1 16 n ltac:(lia) ltac:(lia)).
  pose proof (Z.pow_le_mono_r 2 16 (31 - Z.log2 n)). lia.
Qed.

Lemma capacity_x86_large n : 2 ^ 16 <= n < 2 ^ 32 -> 2 ^ (31 - Z.log2 n) <= 2 ^ 15 /\ 2 ^ (31 - Z.log2 n) < n.
Proof.
  intros Hn. pose proof (log2_range 16 32 n ltac:(lia) ltac:(lia)).
  pose proof (Z.pow_le_mono_r 2 (31 - Z.log2 n) 15). lia.
Qed.

Lemma capacity_x86_max n : 2 <= n -> 2 ^ (31 - Z.log2 n) <= 2 ^ 30.
Proof.
  intros Hn. apply Z.pow_le_mono_r; [lia|]. pose proof (Z.log2_le_mono 2 n). change (Z.log2 2) with 1 in *. lia.
Qed.

(** ** Each branch of the operations *)

Lemma MAX_r x y : y <= x -> MAX x y = x.
Proof. unfold MAX. intros. destruct (Z.ltb_spec y x); lia. Qed.

(** A fresh, zeroed buffer represents the empty string. *)
Lemma repr_zeroed m l c b :
  1 <= c < 2 ^ 63 -> repr (Heap (<[b := replicate (Z.to_nat c) 0]> m) l) (String_t c 0 (Ptr b 0)) b [].
Proof.
  intros Hc. split; [done|]. split; [|split; [set_solver|simpl; lia] ].
  exists (replicate (pred (Z.to_nat c)) 0). simpl mem. rewrite lookup_insert_eq.
  replace (Z.to_nat c) with (S (pred (Z.to_nat c))) by lia. simpl. rewrite length_replicate.
  split; [done|]. simpl. lia.
Qed.

(** [string_init], for any platform on which the capacity comes out as [c]. *)
Lemma string_init_cases `{Platform} cap c h :
  real_capacity_of cap = Ok c -> 64 <= c < 2 ^ 63 ->
  (exists h', string_init cap h = Ok (None, h') /\ mem h' = mem h /\
     (alloc_fails 24 h || alloc_fails c (tick h)) = true) \/
  (exists b h', string_init cap h = Ok (Some (String_t c 0 (Ptr b 0)), h') /\ mem h !! b = None /\
     h' = Heap (<[b := replicate (Z.to_nat c) 0]> (mem h)) (oom (tick (tick h))) /\
     (alloc_fails 24 h || alloc_fails c (tick h)) = false).
Proof.
  intros Hc Hr. unfold string_init, malloc_struct, UNLIKELY.
  destruct (alloc_fails 24 h) eqn:E1; cbn [negb].
  { left. eauto. }
  rewrite Hc, bind_ok. cbv zeta. rewrite MAX_r by lia.
  destruct (malloc_cases c (tick h)) as [ [E2 ->]|(E2 & b & Hb & ->)].
  - left. simpl. rewrite E2. eauto.
  - right. simpl is_null. cbn iota. cbn [mem].
    erewrite memset_block; [|apply lookup_insert_eq|apply length_fresh_bytes].
    rewrite bind_ok, insert_insert_eq. exists b. eexists. split; [done|]. rewrite E2. done.
Qed.

(** Appending where the text fits. *)
Lemma string_append_fits `{Platform} h s b txt src n t :
  repr h s b txt -> 0 <= n -> copied (mem h) src n t -> len s + n < capacity s ->
  exists s' h', string_append (Some s) src n h = Ok (true, Some s', h') /\
    repr h' s' b (txt ++ t) /\ len s' = len s + n /\ capacity s' = capacity s /\
    keeps (mem h) (mem h') b /\ oom h' = oom h.
Proof.
  intros (Hbuf & (r & Hm & Hcap) & Hnul & Hlen & Hmax) Hn Hc Hfit.
  destruct (copied_bound _ _ _ _ Hn Hc) as [Ht Htn].
  unfold string_append, UNLIKELY. rewrite u64_small by lia.
  destruct (Z.leb_spec (capacity s) (len s + n)); [lia|]. rewrite bind_ok. cbn [negb].
  rewrite length_app in Hcap. simpl in Hcap.
  rewrite Hbuf, (strncat_ok _ b txt r _ _ t), bind_ok by (done || lia).
  eexists _, _. split; [done|]. split; [|split_and!; [simpl; rewrite ?u64_small by lia; done|done|intros b' bs ? Hb'; simpl; by rewrite lookup_insert_ne|done]].
  split; [done|]. split; [|split; [set_solver|simpl; rewrite length_app, u64_small by lia; lia] ].
  exists (drop (length t) r). simpl mem. rewrite lookup_insert_eq. split; [done|].
  simpl capacity. rewrite !length_app. simpl. rewrite length_drop. lia.
Qed.

Lemma realloc_cases `{Platform} b bs n h :
  mem h !! b = Some bs ->
  (alloc_fails n h = true /\ realloc (Ptr b 0) n h = Ok (NULL, tick h)) \/
  (alloc_fails n h = false /\ exists b', mem h !! b' = None /\
     let k := Z.to_nat n in
     realloc (Ptr b 0) n h =
     Ok (Ptr b' 0, Heap (<[b' := take k bs ++ drop (length (take k bs)) (fresh_bytes k)]>
                           (delete b (mem h))) (next_oom (oom h)).2)).
Proof.
  intros Hb. unfold realloc. rewrite Hb. cbn [negb Z.eqb].
  destruct (alloc_fails n h); [by left|right]. split; [done|]. eexists. split; [|done].
  apply not_elem_of_dom, is_fresh.
Qed.

(** A buffer moved to a larger block holds the same text. *)
Lemma repr_grown `{Platform} h s b txt c b' l :
  repr h s b txt -> forall bs, mem h !! b = Some bs -> capacity s <= c < 2 ^ 63 ->
  let k := Z.to_nat c in
  repr (Heap (<[b' := take k bs ++ drop (length (take k bs)) (fresh_bytes k)]> (delete b (mem h))) l)
    (String_t c (len s) (Ptr b' 0)) b' txt.
Proof.
  intros (_ & (r & Hm & Hcap) & Hnul & Hlen & _) bs Hbs Hc k. simplify_eq.
  rewrite take_ge, <- app_assoc by lia.
  split; [done|]. split; [|split; [done|simpl; lia] ]. simpl mem. rewrite lookup_insert_eq.
  exists (r ++ drop (length (txt ++ 0 :: r)) (fresh_bytes k)).
  split; [done|]. cbn [capacity]. rewrite length_app in Hcap |- *. cbn [length] in Hcap |- *.
  rewrite !length_app, length_drop, length_fresh_bytes. cbn [length]. lia.
Qed.

(** The memory after a growth keeps every block but the old buffer. *)
Lemma keeps_realloc (m : gmap block bytes) b b' new :
  m !! b' = None -> keeps m (<[b' := new]> (delete b m)) b.
Proof.
  intros Hb' b'' bs Hne Hbs. rewrite lookup_insert_ne by congruence. by rewrite lookup_delete_ne.
Qed.

Lemma keeps_trans m1 m2 m3 b b' :
  keeps m1 m2 b -> keeps m2 m3 b' -> m1 !! b' = None -> keeps m1 m3 b.
Proof. intros H12 H23 Hb' b'' bs Hne Hbs. apply H23; [congruence|]. by apply H12. Qed.

(** [string_append] where the buffer must grow. *)
Lemma string_append_grow `{Platform} h s src n :
  0 <= n -> 0 <= len s -> len s + n < 2 ^ 64 -> capacity s <= len s + n ->
  string_append (Some s) src n h =
  ('(ok, s, h) ← (c ← real_capacity_of (len s + n);
     '(newb, h) ← realloc (buf s) c h;
     if is_null newb then Ok (false, s, h) else Ok (true, String_t c (len s) newb, h));
   if negb ok then Ok (false, Some s, h)
   else m ← strncat (mem h) (buf s) src n;
        Ok (true, Some (String_t (capacity s) (u64 (len s + n)) (buf s)), Heap m (oom h))).
Proof.
  intros. unfold string_append, UNLIKELY. rewrite !(u64_small (len s + n)) by lia.
  by destruct (Z.leb_spec (capacity s) (len s + n)); [|lia].
Qed.

(** ** Properties *)

(** On x86 [string_init] returns, for every requested capacity in
    [2, 2^16): either [NULL], exactly when one of its two allocations fails, with
    no block left behind, or an empty string whose zeroed buffer has capacity
    [2 ^ (31 - log2 cap)], which is at least [2^16] and so larger than what was
    asked for.  Other live objects are untouched. *)
Theorem string_init_x86 (cap : Z) (h : heap) (Hcap : 2 <= cap < 2 ^ 16) :
  let c := 2 ^ (31 - Z.log2 cap) in
  cap < c /\
  exists r h', string_init (H := x86) cap h = Ok (r, h') /\
    match r with
    | None => mem h' = mem h /\ (alloc_fails 24 h || alloc_fails c (tick h)) = true
    | Some s => exists b, mem h !! b = None /\ repr h' s b [] /\ len s = 0 /\ capacity s = c /\
        mem h' = <[b := replicate (Z.to_nat c) 0]> (mem h) /\
        (alloc_fails 24 h || alloc_fails c (tick h)) = false
    end.
Proof.
  intros c. pose proof (capacity_x86_small cap Hcap). pose proof (capacity_x86_max cap ltac:(lia)).
  fold c in H, H0. split; [lia|].
  destruct (string_init_cases (H := x86) cap c h (real_capacity_x86 cap ltac:(lia)) ltac:(lia))
    as [(h' & E & Hm & Hf)|(b & h' & E & Hb & -> & Hf)].
  - by exists None, h'.
  - eexists _, _. split; [exact E|]. exists b. split_and!; try done. apply repr_zeroed. lia.
Qed.

Lemma string_init_x86_witness :
  exists r h', string_init (H := x86) 1024 (Heap ∅ [false; true]) = Ok (r, h') /\
    r = None /\ mem h' = ∅.
Proof.
  destruct (string_init_x86 1024 (Heap ∅ [false; true]) ltac:(lia)) as [_ (r & h' & E & P)].
  exists r, h'. split; [exact E|]. destruct r as [s|].
  - destruct P as (b & _ & _ & _ & _ & _ & F). discriminate F.
  - destruct P as [P _]. split; [reflexivity|exact P].
Defined.

(** Under C11 the capacity computation is undefined for every size that
    fits 32 bits: [__builtin_clzl] counts the zeros of a 64-bit value, so the
    shift count of the [int] [1] is at least 32. *)
Theorem string_init_strict (cap : Z) (h : heap)
    (Hcap : 1 <= cap < 2 ^ 32) (Hmem : alloc_fails 24 h = false) :
  string_init (H := strict) cap h = Undef BadShift.
Proof.
  unfold string_init, malloc_struct, UNLIKELY. rewrite Hmem. cbn [negb].
  unfold real_capacity_of. rewrite builtin_clzl_pos, bind_ok by lia.
  pose proof (log2_range 0 32 cap ltac:(lia) ltac:(lia)).
  by rewrite shl1_large by lia.
Qed.

Lemma string_init_strict_witness : string_init (H := strict) 1024 (Heap ∅ []) = Undef BadShift.
Proof. apply (string_init_strict 1024 (Heap ∅ [])); [lia|reflexivity]. Defined.

(** C28.  On x86, appending up to a total below [2^16] bytes is correct: the call
    returns [true] with the copied bytes at the end of the text, the length
    advanced by [buflen], room for the terminating NUL, and every other live
    object unchanged; or it returns [false] and changes nothing, exactly when it
    had to grow and the allocation failed. *)
Theorem string_append_x86 (h : heap) (s : string_t) (b : block) (txt t : bytes) (src : ptr) (n : Z)
    (Hs : repr h s b txt) (H64 : 64 <= capacity s) (Hn : 0 <= n) (Hsum : len s + n < 2 ^ 16)
    (Hsrc : copied (mem h) src n t) (Hout : outside src b) :
  exists ok s' h', string_append (H := x86) (Some s) src n h = Ok (ok, Some s', h') /\
    if ok then exists b', repr h' s' b' (txt ++ t) /\ len s' = len s + n /\
                 64 <= capacity s' /\ keeps (mem h) (mem h') b
    else s' = s /\ mem h' = mem h /\ capacity s <= len s + n /\
         alloc_fails (2 ^ (31 - Z.log2 (len s + n))) h = true.
Proof.
  destruct (Z.lt_ge_cases (len s + n) (capacity s)) as [Hfit|Hgrow].
  - destruct (string_append_fits (H := x86) _ _ _ _ _ _ _ Hs Hn Hsrc Hfit)
      as (s' & h' & E & Hr & Hl & Hc & Hk & _).
    exists true, s', h'. split; [done|]. exists b. split_and!; [done..|lia|done].
  - destruct Hs as (Hbuf & (r & Hm & Hcap) & Hnul & Hlen & Hmax).
    rewrite string_append_grow, real_capacity_x86, bind_ok by lia.
    set (c := 2 ^ (31 - Z.log2 (len s + n))).
    pose proof (capacity_x86_small (len s + n) ltac:(lia)) as Hbig.
    pose proof (capacity_x86_max (len s + n) ltac:(lia)). fold c in Hbig, H.
    rewrite Hbuf. destruct (realloc_cases (H := x86) b _ c h Hm)
      as [ [Hf ->]|(Hf & b' & Hb' & ->)]; [by exists false, s, (tick h)|].
    rewrite !bind_ok. cbn [is_null negb]. rewrite bind_ok. cbn [negb].
    match goal with |- context [Heap ?m ?o] => set (h1 := Heap m o) end.
    assert (Hk : keeps (mem h) (mem h1) b) by by apply keeps_realloc.
    pose proof (copied_frame _ _ _ _ _ _ Hsrc Hout Hk) as Hsrc1.
    pose proof (repr_grown (H := x86) h s b txt c b' (next_oom (oom h)).2
      (conj Hbuf (conj (ex_intro _ r (conj Hm Hcap)) (conj Hnul (conj Hlen Hmax)))) _ Hm
      ltac:(lia)) as Hr1. fold h1 in Hr1.
    destruct (string_append_fits (H := x86) _ _ _ _ _ _ _ Hr1 Hn Hsrc1 ltac:(simpl; lia))
      as (s' & h' & E & Hr & Hl & Hc & Hk' & _).
    unfold string_append, UNLIKELY in E. cbn [len capacity buf] in E.
    rewrite u64_small in E by lia. destruct (Z.leb_spec c (len s + n)) in E; [lia|].
    rewrite bind_ok in E. cbn [negb len capacity buf] in E.
    exists true, s', h'. split; [exact E|]. exists b'.
    split_and!; [done|done|rewrite Hc; simpl; lia|]. by apply (keeps_trans _ (mem h1) _ b b').
Qed.

Lemma string_append_x86_witness :
  let h := Heap {[1%positive := replicate 64 0]} [] in
  let s := String_t 64 0 (Ptr 1 0) in
  exists ok s' h', string_append (H := x86) (Some s) (lit "GET"%string) 3 h = Ok (ok, Some s', h') /\
    (ok = true -> exists b', repr h' s' b' [71; 69; 84]).
Proof.
  intros h s.
  destruct (string_append_x86 h s 1 [] [71; 69; 84] (lit "GET"%string) 3) as (ok & s' & h' & E & P).
  - split; [reflexivity|]. split; [|split; [apply not_elem_of_nil|simpl; lia] ].
    exists (replicate 63 0). split; reflexivity.
  - simpl; lia.
  - lia.
  - simpl; lia.
  - exists [71; 69; 84; 0], 0%nat. split; [reflexivity|]. split; [simpl; lia|reflexivity].
  - exact I.
  - exists ok, s', h'. split; [exact E|]. intros ->. destruct P as (b' & R & _). by exists b'.
Defined.

(** On x86, growing to a total of [2^16] bytes or more (below 4 GiB) is a
    heap overflow: the new capacity is at most [2^15], smaller than the text it
    must hold, so the [strncat] that follows leaves the buffer. *)
Theorem string_append_undersized (h : heap) (s : string_t) (b : block) (txt t : bytes) (src : ptr) (n : Z)
    (Hs : repr h s b txt) (Htxt : Z.of_nat (length txt) = len s) (Hn : 0 <= n)
    (Hsum : 2 ^ 16 <= len s + n < 2 ^ 32) (Hgrow : capacity s <= len s + n)
    (Hsrc : copied (mem h) src n t) (Ht : Z.of_nat (length t) = n) (Hout : outside src b)
    (Hmem : alloc_fails (2 ^ (31 - Z.log2 (len s + n))) h = false) :
  string_append (H := x86) (Some s) src n h = Undef OutOfBounds.
Proof.
  destruct Hs as (Hbuf & (r & Hm & Hcap) & Hnul & Hlen & Hmax).
  rewrite string_append_grow, real_capacity_x86, bind_ok by lia.
  set (c := 2 ^ (31 - Z.log2 (len s + n))) in *.
  pose proof (capacity_x86_large (len s + n) Hsum) as Hc. fold c in Hc.
  rewrite Hbuf. destruct (realloc_cases (H := x86) b _ c h Hm)
    as [ [? _]|(Hf & b' & Hb' & ->)]; [congruence|].
  rewrite !bind_ok. cbn [is_null negb]. rewrite bind_ok. cbn [negb mem buf].
  set (k := Z.to_nat c) in *.
  match goal with |- context [<[b' := ?x]> _] => set (new := x) end.
  assert (Hnew : length new = k).
  { subst new. rewrite length_app, length_drop, (@length_fresh_bytes x86), length_take. lia. }
  assert (Hk : keeps (mem h) (<[b' := new]> (delete b (mem h))) b) by by apply keeps_realloc.
  pose proof (copied_frame _ _ _ _ _ _ Hsrc Hout Hk) as Hsrc1.
  pose proof (lookup_insert_eq (delete b (mem h)) b' new) as Hnb.
  destruct (Nat.le_gt_cases k (length txt)) as [Hle|Hgt].
  - assert (E : new = take k txt).
    { subst new. rewrite take_app_le by lia. rewrite length_take, Nat.min_l, drop_ge by
        (rewrite ?(@length_fresh_bytes x86); lia). apply app_nil_r. }
    unfold strncat, load_cstr, object. rewrite Hnb, bind_ok.
    rewrite suffix_0, bind_ok.
    rewrite E, until_nul_none; [done|]. intros Hin. apply Hnul.
    rewrite <- (take_drop k txt). set_solver.
  - assert (exists r', new = txt ++ 0 :: r') as [r' E].
    { subst new. rewrite take_app_ge by lia.
      replace (k - length txt)%nat with (S (k - length txt - 1)) by lia. cbn [take].
      rewrite <- app_assoc. by eexists. }
    rewrite E in Hnew, Hnb |- *. rewrite length_app in Hnew. simpl in Hnew.
    rewrite (strncat_oob _ b' txt r' src n t); [done|done|done|by rewrite <- E|lia].
Qed.

Lemma string_append_undersized_witness :
  let t := replicate (Z.to_nat 70000) 65 in
  let h := Heap (<[2%positive := t]> {[1%positive := replicate 64 0]}) [] in
  string_append (H := x86) (Some (String_t 64 0 (Ptr 1 0))) (Ptr 2 0) 70000 h = Undef OutOfBounds.
Proof.
  intros t h.
  apply (string_append_undersized h (String_t 64 0 (Ptr 1 0)) 1 [] t (Ptr 2 0) 70000).
  - split; [reflexivity|]. split; [|split; [apply not_elem_of_nil|simpl; lia] ].
    exists (replicate 63 0). split; [|reflexivity]. simpl.
    rewrite lookup_insert_ne by discriminate. apply lookup_singleton_eq.
  - reflexivity.
  - lia.
  - simpl; lia.
  - simpl; lia.
  - exists t, 0%nat. split; [|split; [lia|] ].
    + simpl. by rewrite lookup_insert_eq.
    + rewrite drop_0. rewrite <- (app_nil_r t) at 1. apply take_cstr_full.
      * intros [E _]%elem_of_replicate. discriminate E.
      * apply length_replicate.
  - unfold t. rewrite length_replicate. lia.
  - simpl. discriminate.
  - reflexivity.
Defined.

(** [string_reset] leaves a zeroed buffer, hence the empty string. *)
Lemma string_reset_repr h s b txt :
  repr h s b txt -> 0 < capacity s ->
  exists h', string_reset (Some s) h = Ok (Some (String_t (capacity s) 0 (buf s)), h') /\
    h' = Heap (<[b := replicate (Z.to_nat (capacity s)) 0]> (mem h)) (oom h) /\
    repr h' (String_t (capacity s) 0 (buf s)) b [].
Proof.
  intros (Hbuf & (r & Hm & Hcap) & _ & _ & Hmax) Hpos. unfold string_reset.
  rewrite Hbuf, (memset_block _ b _ _ _ Hm), bind_ok by lia.
  eexists. split_and!; [done|done|]. apply repr_zeroed. lia.
Qed.

(** A string that is reset and appended to holds exactly the new text: the
    reset clears the whole buffer, so nothing of the earlier text is left behind
    the terminating NUL. *)
Theorem string_reset_append (h : heap) (s : string_t) (b : block) (txt t : bytes) (src : ptr) (n : Z)
    (Hs : repr h s b txt) (Hn : 0 <= n < capacity s)
    (Hsrc : copied (mem h) src n t) (Hout : outside src b) :
  exists s1 h1 s2 h2,
    string_reset (Some s) h = Ok (Some s1, h1) /\
    string_append (H := x86) (Some s1) src n h1 = Ok (true, Some s2, h2) /\
    len s2 = n /\ capacity s2 = capacity s /\
    mem h2 !! b = Some (t ++ replicate (Z.to_nat (capacity s) - length t) 0).
Proof.
  pose proof Hs as (Hbuf & (r & Hm & Hcap) & _ & _ & Hmax).
  destruct (string_reset_repr h s b txt Hs ltac:(lia)) as (h1 & E1 & -> & _).
  eexists _, _, _, _. split; [exact E1|].
  assert (Hk : keeps (mem h) (<[b := replicate (Z.to_nat (capacity s)) 0]> (mem h)) b).
  { intros b' bs ? ?. by rewrite lookup_insert_ne. }
  pose proof (copied_frame _ _ _ _ _ _ Hsrc Hout Hk) as Hsrc1.
  destruct (copied_bound _ _ n t ltac:(lia) Hsrc1) as [Ht _].
  unfold string_append, UNLIKELY. cbn [len capacity buf mem]. rewrite Z.add_0_l, u64_small by lia.
  destruct (Z.leb_spec (capacity s) n); [lia|]. rewrite bind_ok. cbn [negb mem buf len].
  rewrite Hbuf, (strncat_ok _ b [] (replicate (pred (Z.to_nat (capacity s))) 0) _ _ t);
    [|rewrite lookup_insert_eq; by replace (Z.to_nat (capacity s)) with (S (pred (Z.to_nat (capacity s)))) at 1 by lia
     |apply not_elem_of_nil|done|rewrite length_replicate; lia].
  rewrite bind_ok. split; [done|]. cbn [len capacity mem]. rewrite Z.add_0_l, u64_small by lia.
  split; [done|]. split; [done|]. rewrite lookup_insert_eq. simpl.
  rewrite drop_replicate. do 2 f_equal.
  by replace (Z.to_nat (capacity s) - length t)%nat with (S (pred (Z.to_nat (capacity s)) - length t)) by lia.
Qed.

Lemma string_reset_append_witness :
  exists s1 h1 s2 h2,
    string_reset (Some (String_t 4 1 (Ptr 1 0))) (Heap {[1%positive := [88; 0; 89; 0]]} []) = Ok (Some s1, h1) /\
    string_append (H := x86) (Some s1) (lit "ab"%string) 2 h1 = Ok (true, Some s2, h2) /\
    len s2 = 2 /\ capacity s2 = 4 /\ mem h2 !! 1%positive = Some [97; 98; 0; 0].
Proof.
  apply (string_reset_append (Heap {[1%positive := [88; 0; 89; 0]]} []) (String_t 4 1 (Ptr 1 0))
           1 [88] [97; 98] (lit "ab"%string) 2).
  - split; [reflexivity|]. split; [|split; [|simpl; lia] ].
    + exists [89; 0]. split; reflexivity.
    + apply not_elem_of_cons. split; [discriminate|apply not_elem_of_nil].
  - simpl; lia.
  - exists [97; 98; 0], 0%nat. split; [reflexivity|]. split; [simpl; lia|reflexivity].
  - exact I.
Defined.
