(* ===== verification/Kv.v ===== *)
(** * Key-value lists (lib/kv.c, include/kv.h)

    [struct kv] is an array of pairs of C-string pointers with a size, a capacity
    and a flag saying whether the array is the library's (it may be reallocated)
    or was provided by the caller.  The array is a list of [option kv_pair]:
    [None] is a slot that was never written.  Pairs are kept in insertion order,
    nothing is overwritten, and a lookup returns the first match. *)

From S2P Require Import Prelude CMem.
Open Scope Z_scope.

Definition DEFAULT_KV_SZ : Z := 20.
Definition KV_FLAG_PROVIDED : Z := 0.
Definition KV_FLAG_MALLOC : Z := Z.shiftl 1 1.

Record kv_pair := Kv_pair { key : ptr; value : ptr }.

Record kv := Kv {
  size : Z;
  flag : Z;
  kv_capacity : Z;
  pairs : list (option kv_pair)
}.

(** The slots of [KV_INIT_WITH_BUF(buf, len)]; the designated initialiser zeroes
    the other members. *)
Definition KV_INIT_WITH_BUF (b : list (option kv_pair)) (n : Z) : kv :=
  Kv 0 KV_FLAG_PROVIDED n b.

Definition kv_init (h : heap) : option kv * heap :=
  let '(ok, h) := malloc_struct 24 h in
  if UNLIKELY (negb ok) then (None, h)
  else
    let '(ok, h) := malloc_struct (16 * DEFAULT_KV_SZ) h in
    if UNLIKELY (negb ok) then (None, h)
    else (Some (Kv 0 KV_FLAG_MALLOC DEFAULT_KV_SZ (replicate (Z.to_nat DEFAULT_KV_SZ) None)), h).

(** [kvmap->capacity *= 2] on [int]. *)
Definition double_int (z : Z) : result Z :=
  if z * 2 <=? INT_MAX then Ok (z * 2) else Undef IntOverflow.

(** [pairs[i] = p] *)
Definition set_slot (l : list (option kv_pair)) (i : Z) (p : kv_pair) : result (list (option kv_pair)) :=
  if (0 <=? i) && (i <? Z.of_nat (length l)) then Ok (<[Z.to_nat i := Some p]> l)
  else Undef OutOfBounds.

Definition kv_set_key_value (kvmap : option kv) (k v : ptr) (h : heap)
    : result (bool * option kv * heap) :=
  match kvmap with
  | None => Ok (false, None, h)
  | Some kv =>
      '(room, kv, h) ←
        (if UNLIKELY (size kv =? kv_capacity kv) then
           if negb (Z.land (flag kv) KV_FLAG_MALLOC =? 0) then
             let '(ok, h) := malloc_struct (u64 (16 * u64 (kv_capacity kv) * 2)) h in
             if UNLIKELY (negb ok) then Ok (false, kv, h)
             else
               c ← double_int (kv_capacity kv);
               Ok (true, Kv (size kv) (flag kv) c
                           (pairs kv ++ replicate (length (pairs kv)) None), h)
           else Ok (false, kv, h)
         else Ok (true, kv, h));
      if negb room then Ok (false, Some kv, h)
      else
        l ← set_slot (pairs kv) (size kv) (Kv_pair k v);
        Ok (true, Some (Kv (size kv + 1) (flag kv) (kv_capacity kv) l), h)
  end.

(** [FOREACH_KV]: the first [n] slots, in order. *)
Fixpoint find_pair (m : gmap block bytes) (l : list (option kv_pair)) (n : nat) (k : ptr) {struct n} : result ptr :=
  match n with
  | O => Ok NULL
  | S n =>
      match l with
      | [] => Undef OutOfBounds
      | None :: _ => Undef Uninitialised
      | Some p :: l =>
          c ← strcmp m (key p) k;
          if c =? 0 then Ok (value p) else find_pair m l n k
      end
  end.

Definition kv_find_value (m : gmap block bytes) (kvmap : option kv) (k : ptr) : result ptr :=
  match kvmap with
  | None => Ok NULL
  | Some kv => find_pair m (pairs kv) (Z.to_nat (size kv)) k
  end.

(** [None] when the call releases the list. *)
Definition kv_free (kvmap : option kv) : option kv :=
  match kvmap with
  | Some kv => if LIKELY (negb (Z.land (flag kv) KV_FLAG_MALLOC =? 0)) then None else Some kv
  | None => None
  end.

Definition kv_reset (kvmap : option kv) : option kv :=
  match kvmap with
  | None => None
  | Some kv =>
      let n := Z.to_nat (size kv) in
      Some (Kv 0 (flag kv) (kv_capacity kv)
              (replicate n (Some (Kv_pair NULL NULL)) ++ drop n (pairs kv)))
  end.

(** ** Well-formed lists and their contents *)

(** [holds kv l]: [kv] holds the pairs [l], in insertion order. *)
Definition holds (kv : kv) (l : list kv_pair) : Prop :=
  size kv = Z.of_nat (length l) /\
  (exists rest, pairs kv = (Some <$> l) ++ rest) /\
  Z.of_nat (length (pairs kv)) = kv_capacity kv /\ kv_capacity kv <= INT_MAX.

(** The first pair whose key is the string [k]; [s] gives each key's string. *)
Fixpoint first_match (strings : list (kv_pair * bytes)) (k : bytes) : ptr :=
  match strings with
  | [] => NULL
  | (p, s) :: l => if decide (s = k) then value p else first_match l k
  end.

Lemma holds_init_with_buf b n :
  Z.of_nat (length b) = n -> n <= INT_MAX -> holds (KV_INIT_WITH_BUF b n) [].
Proof. intros. split_and!; [done|by exists b|done|done]. Qed.

Lemma holds_room kv l :
  holds kv l -> size kv <= kv_capacity kv.
Proof.
  intros (Hs & (rest & Hp) & Hc & _). rewrite Hs, <- Hc, Hp, length_app, length_fmap. lia.
Qed.

Lemma set_slot_holds kv l k v :
  holds kv l -> size kv < kv_capacity kv ->
  exists p, set_slot (pairs kv) (size kv) (Kv_pair k v) = Ok p /\
    holds (Kv (size kv + 1) (flag kv) (kv_capacity kv) p) (l ++ [Kv_pair k v]).
Proof.
  intros (Hs & (rest & Hp) & Hc & Hmax) Hlt. unfold set_slot.
  destruct (Z.leb_spec 0 (size kv)); [|lia].
  destruct (Z.ltb_spec (size kv) (Z.of_nat (length (pairs kv)))); [|lia].
  eexists. split; [done|]. split_and!.
  - simpl. rewrite length_app. simpl. lia.
  - simpl. rewrite Hp, Hs, Nat2Z.id. rewrite Hp, length_app, length_fmap in Hc.
    destruct rest as [|r rest]; [simpl in Hc; lia|]. exists rest.
    rewrite insert_app_r_alt by (by rewrite length_fmap).
    rewrite length_fmap, Nat.sub_diag. simpl. by rewrite fmap_app, <- app_assoc.
  - simpl. by rewrite length_insert.
  - done.
Qed.

Lemma find_pair_first m l strs n k ks :
  Forall2 (fun p s => load_cstr m (key p) = Ok s) l strs ->
  load_cstr m k = Ok ks -> n = length l ->
  forall rest, find_pair m ((Some <$> l) ++ rest) n k = Ok (first_match (zip l strs) ks).
Proof.
  intros Hl Hk -> rest. induction Hl as [|p s l strs Hp Hl IH]; [done|].
  cbn [fmap list_fmap app length find_pair]. unfold strcmp. rewrite Hp, bind_ok, Hk, !bind_ok.
  cbn [zip zip_with first_match].
  destruct (Z.eqb_spec (compare_bytes s ks) 0) as [E|E].
  - apply compare_bytes_eq in E as ->. by case_decide.
  - case_decide as D; [by apply compare_bytes_eq in D|done].
Qed.

(** Setting a key where there is room, and where there is none. *)
Lemma kv_set_room kv l k v h :
  holds kv l -> size kv < kv_capacity kv ->
  exists kv', kv_set_key_value (Some kv) k v h = Ok (true, Some kv', h) /\
    holds kv' (l ++ [Kv_pair k v]) /\ flag kv' = flag kv /\ kv_capacity kv' = kv_capacity kv.
Proof.
  intros Hkv Hlt. destruct (set_slot_holds kv l k v Hkv Hlt) as (p & Ep & Hp).
  unfold kv_set_key_value, UNLIKELY. destruct (Z.eqb_spec (size kv) (kv_capacity kv)); [lia|].
  rewrite bind_ok. cbn [negb]. rewrite Ep, bind_ok. eauto.
Qed.

Lemma kv_set_full_provided kv k v h :
  size kv = kv_capacity kv -> Z.land (flag kv) KV_FLAG_MALLOC = 0 ->
  kv_set_key_value (Some kv) k v h = Ok (false, Some kv, h).
Proof.
  intros Hf Hp. unfold kv_set_key_value, UNLIKELY.
  by rewrite Hf, Z.eqb_refl, Hp.
Qed.

(** A provided array keeps the first [kv_capacity] pairs that are set. *)
Lemma kv_set_provided kv l k v h :
  holds kv l -> Z.land (flag kv) KV_FLAG_MALLOC = 0 ->
  exists ok kv', kv_set_key_value (Some kv) k v h = Ok (ok, Some kv', h) /\
    holds kv' (take (Z.to_nat (kv_capacity kv)) (l ++ [Kv_pair k v])) /\
    flag kv' = flag kv /\ kv_capacity kv' = kv_capacity kv.
Proof.
  intros Hkv Hp. pose proof (holds_room kv l Hkv). pose proof Hkv as (Hs & _).
  destruct (decide (size kv = kv_capacity kv)) as [Hf|Hf].
  - exists false, kv. rewrite kv_set_full_provided by done.
    rewrite take_app_le, take_ge by lia. done.
  - destruct (kv_set_room kv l k v h Hkv ltac:(lia)) as (kv' & E & Hk' & Hflag & Hcap).
    exists true, kv'. rewrite take_ge by (rewrite length_app; simpl; lia). done.
Qed.

Lemma kv_grow_holds kv l c :
  holds kv l -> kv_capacity kv * 2 <= INT_MAX -> c = kv_capacity kv * 2 ->
  holds (Kv (size kv) (flag kv) c (pairs kv ++ replicate (length (pairs kv)) None)) l.
Proof.
  intros (Hs & (rest & Hp) & Hc & _) Hm ->. split_and!; simpl; [done| |rewrite length_app, length_replicate; lia|done].
  exists (rest ++ replicate (length (pairs kv)) None). by rewrite app_assoc, <- Hp.
Qed.

Lemma first_match_snoc strs p ks q :
  first_match (strs ++ [(p, ks)]) q =
  if decide (q ∈ strs.*2) then first_match strs q
  else if decide (ks = q) then value p else NULL.
Proof.
  induction strs as [|[p' s] strs IH]; cbn [app first_match fmap list_fmap snd].
  - by rewrite (decide_False (P := q ∈ _)) by apply not_elem_of_nil.
  - destruct (decide (s = q)) as [->|Hne].
    + by rewrite decide_True by (by left).
    + rewrite IH. assert (E : q ∈ s :: strs.*2 <-> q ∈ strs.*2) by set_solver.
      destruct (decide (q ∈ strs.*2)) as [Hi|Hi]; [rewrite (decide_True (P := q ∈ _)) by (by apply E)|rewrite (decide_False (P := q ∈ _)) by (by rewrite E)]; done.
Qed.

Lemma set_slot_inv l i p l' : set_slot l i p = Ok l' -> 0 <= i < Z.of_nat (length l).
Proof.
  unfold set_slot. destruct (Z.leb_spec 0 i), (Z.ltb_spec i (Z.of_nat (length l))); simpl; intros; [lia|done..].
Qed.

(** A call that returns 1 has appended its pair. *)
Lemma kv_set_true_holds kv kv' l k v h h' :
  holds kv l -> kv_capacity kv * 2 <= INT_MAX ->
  kv_set_key_value (Some kv) k v h = Ok (true, Some kv', h') -> holds kv' (l ++ [Kv_pair k v]).
Proof.
  intros Hkv Hmax Hset. pose proof (holds_room kv l Hkv).
  destruct (decide (size kv = kv_capacity kv)) as [Hfull|Hroom].
  2: { destruct (kv_set_room kv l k v h Hkv ltac:(lia)) as (kv'' & E & ? & _). congruence. }
  unfold kv_set_key_value, UNLIKELY in Hset.
  destruct (Z.eqb_spec (size kv) (kv_capacity kv)); [|done].
  destruct (negb _); [|done]. destruct (malloc_struct _ h) as [ [] h1]; [|done]. cbn [negb] in Hset.
  unfold double_int in Hset. destruct (Z.leb_spec (kv_capacity kv * 2) INT_MAX); [|done].
  rewrite !bind_ok in Hset. cbn [negb size pairs flag kv_capacity] in Hset.
  pose proof (kv_grow_holds kv l _ Hkv Hmax eq_refl) as Hg.
  apply bind_Ok_inv in Hset as (p & Ep & [= <- <-]).
  apply set_slot_inv in Ep as Hi. rewrite length_app, length_replicate in Hi.
  pose proof Hkv as (_ & _ & Hc & _).
  destruct (set_slot_holds _ l k v Hg) as (p' & Ep' & Hp'); [simpl; lia|].
  simpl in Ep'. rewrite Ep in Ep'. injection Ep' as <-. exact Hp'.
Qed.

(** A call on the address of a list, with the returned flag ignored, as the
    parser and the handlers make it. *)
Definition kv_set_ignored (kvmap : kv) (k v : ptr) (h : heap) : result (kv * heap) :=
  '(_, o, h) ← kv_set_key_value (Some kvmap) k v h;
  kv ← of_option NullDeref o;
  Ok (kv, h).

Fixpoint kv_set_all (kvmap : kv) (ps : list kv_pair) (h : heap) : result (kv * heap) :=
  match ps with
  | [] => Ok (kvmap, h)
  | p :: ps =>
      '(kv, h) ← kv_set_ignored kvmap (key p) (value p) h;
      kv_set_all kv ps h
  end.

Lemma kv_set_ignored_provided kv l k v h :
  holds kv l -> Z.land (flag kv) KV_FLAG_MALLOC = 0 ->
  exists kv', kv_set_ignored kv k v h = Ok (kv', h) /\
    holds kv' (take (Z.to_nat (kv_capacity kv)) (l ++ [Kv_pair k v])) /\
    flag kv' = flag kv /\ kv_capacity kv' = kv_capacity kv.
Proof.
  intros Hl Hp. destruct (kv_set_provided kv l k v h Hl Hp) as (ok & kv' & E & ?).
  exists kv'. unfold kv_set_ignored. rewrite E, bind_ok. cbn [of_option]. by rewrite bind_ok.
Qed.

Lemma kv_set_all_provided n h ps kv l :
  holds kv l -> Z.land (flag kv) KV_FLAG_MALLOC = 0 -> kv_capacity kv = n ->
  exists kv', kv_set_all kv ps h = Ok (kv', h) /\ holds kv' (take (Z.to_nat n) (l ++ ps)) /\
    kv_capacity kv' = n.
Proof.
  revert kv l. induction ps as [|p ps IH]; intros kv l Hl Hp Hc.
  - exists kv. split; [done|]. split; [|done]. rewrite app_nil_r, take_ge; [done|].
    pose proof (holds_room kv l Hl). destruct Hl as (Hs & _). lia.
  - cbn [kv_set_all]. destruct (kv_set_ignored_provided kv l (key p) (value p) h Hl Hp)
      as (kv' & -> & Hl' & Hf & Hc'). rewrite bind_ok.
    destruct (IH kv' _ Hl' ltac:(congruence) ltac:(congruence)) as (kv'' & E & Hl'' & Hc'').
    exists kv''. split; [done|]. split; [|done]. rewrite Hc in Hl''.
    revert Hl''. destruct p as [pk pv]. cbn [key value].
    replace (l ++ Kv_pair pk pv :: ps) with ((l ++ [Kv_pair pk pv]) ++ ps) by by rewrite <- app_assoc.
    by rewrite take_take_app.
Qed.

(** Both outcomes of setting a pair. *)
Lemma kv_set_cases kv l k v h :
  holds kv l -> 0 < kv_capacity kv -> kv_capacity kv * 2 <= INT_MAX ->
  exists ok kv' h', kv_set_key_value (Some kv) k v h = Ok (ok, Some kv', h') /\
    if ok
    then holds kv' (l ++ [Kv_pair k v]) /\ flag kv' = flag kv /\
         kv_capacity kv' = (if size kv =? kv_capacity kv then kv_capacity kv * 2 else kv_capacity kv)
    else kv' = kv /\ size kv = kv_capacity kv /\
         (Z.land (flag kv) KV_FLAG_MALLOC = 0 \/ alloc_fails (32 * kv_capacity kv) h = true).
Proof.
  intros Hkv Hpos Hmax.
  pose proof (holds_room kv l Hkv).
  destruct (Z.eqb_spec (size kv) (kv_capacity kv)) as [Hfull|Hroom].
  2: { destruct (kv_set_room kv l k v h Hkv ltac:(lia)) as (kv' & E & ?). by exists true, kv', h. }
  destruct (decide (Z.land (flag kv) KV_FLAG_MALLOC = 0)) as [Hp|Hp].
  { exists false, kv, h. split; [by apply kv_set_full_provided|]. auto. }
  unfold kv_set_key_value, UNLIKELY, malloc_struct.
  destruct (Z.eqb_spec (size kv) (kv_capacity kv)); [|done].
  destruct (Z.eqb_spec (Z.land (flag kv) KV_FLAG_MALLOC) 0); [done|]. cbn [negb].
  unfold INT_MAX in *. rewrite (u64_small (kv_capacity kv)), u64_small by lia.
  replace (16 * kv_capacity kv * 2) with (32 * kv_capacity kv) by lia.
  destruct (alloc_fails (32 * kv_capacity kv) h) eqn:Ea; cbn [negb].
  { exists false, kv, (tick h). split; [done|]. auto. }
  unfold double_int, INT_MAX. destruct (Z.leb_spec (kv_capacity kv * 2) (2 ^ 31 - 1)); [|lia].
  rewrite !bind_ok. cbn [negb].
  pose proof (kv_grow_holds kv l _ Hkv Hmax eq_refl) as Hg.
  destruct (set_slot_holds _ l k v Hg) as (p & Ep & Hpp); [simpl; lia|].
  cbn [size pairs flag kv_capacity] in *. rewrite Ep, bind_ok.
  exists true. eexists _, _. split; [done|]. split; [exact Hpp|]. done.
Qed.

(** Resetting leaves an empty list of the same capacity. *)
Lemma kv_reset_holds kv l : holds kv l ->
  exists kv', kv_reset (Some kv) = Some kv' /\ holds kv' [] /\ flag kv' = flag kv /\ kv_capacity kv' = kv_capacity kv.
Proof.
  intros (Hs & (rest & Hp) & Hc & Hmax). eexists. split; [done|]. split; [|done]. split; [done|]. split; [by eexists|].
  cbn [kv_capacity pairs]. split; [|done]. rewrite length_app, length_replicate, length_drop, Hs, Nat2Z.id.
  rewrite Hp, length_app, length_fmap in Hc |- *. lia.
Qed.

(** Any use of a list: setting pairs and resetting.  The flags the calls returned
    say which pairs were stored. *)
Inductive kv_op := Set_pair (k v : ptr) | Reset_list.

Fixpoint kv_run (ops : list kv_op) (kvmap : kv) (h : heap) : result (list bool * kv * heap) :=
  match ops with
  | [] => Ok ([], kvmap, h)
  | Set_pair k v :: ops =>
      '(ok, o, h) ← kv_set_key_value (Some kvmap) k v h;
      kv ← of_option NullDeref o;
      '(oks, kv, h) ← kv_run ops kv h;
      Ok (ok :: oks, kv, h)
  | Reset_list :: ops =>
      kv ← of_option NullDeref (kv_reset (Some kvmap));
      kv_run ops kv h
  end.

Fixpoint replay (l : list kv_pair) (ops : list kv_op) (oks : list bool) : list kv_pair :=
  match ops, oks with
  | Set_pair k v :: ops, ok :: oks => replay (if ok then l ++ [Kv_pair k v] else l) ops oks
  | Reset_list :: ops, oks => replay [] ops oks
  | _, _ => l
  end.

Lemma kv_run_holds ops : forall kv l h,
  holds kv l -> 0 < kv_capacity kv -> kv_capacity kv * 2 <= INT_MAX ->
  4 * (Z.of_nat (length l) + Z.of_nat (length ops)) <= INT_MAX ->
  exists oks kv' h', kv_run ops kv h = Ok (oks, kv', h') /\ holds kv' (replay l ops oks) /\
    flag kv' = flag kv /\ kv_capacity kv <= kv_capacity kv'.
Proof.
  induction ops as [|o ops IH]; intros kv l h Hkv Hpos Hmax Hlen.
  { exists [], kv, h. split; [done|]. split; [done|]. split; [done|lia]. }
  cbn [length] in Hlen. destruct o as [k v|]; cbn [kv_run].
  - destruct (kv_set_cases kv l k v h Hkv Hpos Hmax) as (ok & kv1 & h1 & -> & Hcase). rewrite bind_ok.
    cbn [of_option]. rewrite bind_ok. pose proof Hkv as (Hs & _).
    assert (Hnext : holds kv1 (if ok then l ++ [Kv_pair k v] else l) /\ flag kv1 = flag kv /\
      kv_capacity kv <= kv_capacity kv1 /\ kv_capacity kv1 * 2 <= INT_MAX).
    { destruct ok; [|by destruct Hcase as (-> & _)]. destruct Hcase as (? & ? & ->).
      destruct (Z.eqb_spec (size kv) (kv_capacity kv)); split_and!; done || lia. }
    destruct Hnext as (Hkv1 & Hf & Hge & Hmax1).
    destruct (IH kv1 _ h1 Hkv1) as (oks & kv' & h' & -> & Hkv' & Hf' & Hge'); [lia|lia|destruct ok; rewrite ?length_app; simpl; lia|].
    exists (ok :: oks), kv', h'. split; [done|]. split; [done|]. split; [congruence|lia].
  - destruct (kv_reset_holds kv l Hkv) as (kv1 & -> & Hkv1 & Hf & Hc). cbn [of_option]. rewrite bind_ok.
    destruct (IH kv1 [] h Hkv1) as (oks & kv' & h' & -> & Hkv' & Hf' & Hge'); [lia|lia|simpl; lia|].
    exists oks, kv', h'. split; [done|]. split; [done|]. split; [congruence|lia].
Qed.

(** ** Properties *)

(** [kv_set_key_value] appends the pair and returns 1, doubling the array of
    a list the library owns when it is full; it returns 0 and changes nothing
    exactly when the array is full and either was provided by the caller or could
    not be reallocated.  No slot outside the array is written. *)
Theorem kv_set_key_value_spec (kv : kv) (l : list kv_pair) (k v : ptr) (h : heap)
    (Hkv : holds kv l) (Hpos : 0 < kv_capacity kv) (Hmax : kv_capacity kv * 2 <= INT_MAX) :
  exists ok kv' h', kv_set_key_value (Some kv) k v h = Ok (ok, Some kv', h') /\
    if ok
    then holds kv' (l ++ [Kv_pair k v]) /\ flag kv' = flag kv /\
         kv_capacity kv' = (if size kv =? kv_capacity kv then kv_capacity kv * 2 else kv_capacity kv)
    else kv' = kv /\ size kv = kv_capacity kv /\
         (Z.land (flag kv) KV_FLAG_MALLOC = 0 \/ alloc_fails (32 * kv_capacity kv) h = true).
Proof. by apply kv_set_cases. Qed.

Lemma kv_set_key_value_spec_witness :
  exists ok kv' h',
    kv_set_key_value (Some (Kv 1 2 1 [Some (Kv_pair NULL NULL)])) (lit "a"%string) (lit "b"%string)
      (Heap ∅ []) = Ok (ok, Some kv', h') /\ ok = true /\ kv_capacity kv' = 2.
Proof.
  destruct (kv_set_key_value_spec (Kv 1 2 1 [Some (Kv_pair NULL NULL)]) [Kv_pair NULL NULL]
              (lit "a"%string) (lit "b"%string) (Heap ∅ [])) as (ok & kv' & h' & E & P).
  - split; [reflexivity|]. split; [by exists []|]. unfold INT_MAX. simpl. split; [reflexivity|lia].
  - simpl; lia.
  - unfold INT_MAX. simpl. lia.
  - exists ok, kv', h'. split; [exact E|]. destruct ok.
    + destruct P as (_ & _ & C). by split.
    + destruct P as (_ & _ & [F|F]); discriminate F.
Defined.

(** A lookup returns the value of the first pair whose key equals the
    wanted string, or [NULL]; so a pair that is set changes only the lookups of
    a key that was absent: earlier pairs are never overwritten. *)
Theorem kv_find_after_set (m : gmap block bytes) (kv kv' : kv) (l : list kv_pair) (strs : list bytes)
    (k v q : ptr) (ks qs : bytes) (h h' : heap)
    (Hkv : holds kv l)
    (Hstrs : Forall2 (fun p s => load_cstr m (key p) = Ok s) l strs)
    (Hk : load_cstr m k = Ok ks) (Hq : load_cstr m q = Ok qs)
    (Hset : kv_set_key_value (Some kv) k v h = Ok (true, Some kv', h'))
    (Hmax : kv_capacity kv * 2 <= INT_MAX) :
  kv_find_value m (Some kv) q = Ok (first_match (zip l strs) qs) /\
  kv_find_value m (Some kv') q =
    Ok (if decide (qs ∈ strs) then first_match (zip l strs) qs
        else if decide (ks = qs) then v else NULL).
Proof.
  assert (Hf : forall kv l strs, holds kv l ->
    Forall2 (fun p s => load_cstr m (key p) = Ok s) l strs ->
    kv_find_value m (Some kv) q = Ok (first_match (zip l strs) qs)).
  { clear -Hq. intros kv l strs (Hs & (rest & Hp) & _) Hl. unfold kv_find_value.
    rewrite Hs, Nat2Z.id, Hp. by apply find_pair_first. }
  split; [by apply Hf|].
  pose proof (Forall2_length _ _ _ Hstrs) as Hlen.
  pose proof (kv_set_true_holds _ _ _ _ _ _ _ Hkv Hmax Hset) as Hl'.
  rewrite (Hf kv' (l ++ [Kv_pair k v]) (strs ++ [ks])) by (done || by apply Forall2_app; [done|constructor]).
  rewrite zip_with_app by done. cbn [zip_with]. rewrite first_match_snoc.
  by rewrite snd_zip by lia.
Qed.

Lemma kv_find_after_set_witness :
  let m : gmap block bytes := ∅ in
  let a := lit "a"%string in let x := lit "x"%string in let y := lit "y"%string in
  let kv1 := Kv 1 0 2 [Some (Kv_pair a x); None] in
  kv_find_value m (Some (Kv 2 0 2 [Some (Kv_pair a x); Some (Kv_pair a y)])) a = Ok x.
Proof.
  intros m a x y kv1.
  destruct (kv_find_after_set m kv1 (Kv 2 0 2 [Some (Kv_pair a x); Some (Kv_pair a y)])
              [Kv_pair a x] [ [97] ] a y a [97] [97] (Heap ∅ []) (Heap ∅ [])) as [_ E].
  - split; [reflexivity|]. split; [by exists [None]|]. unfold INT_MAX. simpl. split; [reflexivity|lia].
  - by repeat constructor.
  - reflexivity.
  - reflexivity.
  - reflexivity.
  - unfold INT_MAX. simpl. lia.
  - rewrite E. reflexivity.
Defined.

(** A list over a caller's array of [n] slots keeps the first [n] pairs it
    is given and silently drops the rest; after [kv_reset] it is empty, of the
    same capacity, and its used slots are null again. *)
Theorem kv_provided_truncates (b : list (option kv_pair)) (n : Z) (ps : list kv_pair) (h : heap)
    (Hb : Z.of_nat (length b) = n) (Hn : n <= INT_MAX) :
  exists kv, kv_set_all (KV_INIT_WITH_BUF b n) ps h = Ok (kv, h) /\
    holds kv (take (Z.to_nat n) ps) /\
    exists kv0, kv_reset (Some kv) = Some kv0 /\ holds kv0 [] /\ kv_capacity kv0 = n /\
      take (length (take (Z.to_nat n) ps)) (pairs kv0) =
        replicate (length (take (Z.to_nat n) ps)) (Some (Kv_pair NULL NULL)).
Proof.
  destruct (kv_set_all_provided n h ps (KV_INIT_WITH_BUF b n) [] (holds_init_with_buf b n Hb Hn) eq_refl eq_refl)
    as (kv & E & Hl & Hc).
  exists kv. split; [done|]. split; [done|]. eexists. split; [done|].
  pose proof Hl as (Hs & (rest & Hpairs) & Hlen & Hmax). cbn [app] in *.
  set (t := take (Z.to_nat n) ps) in *.
  split; [|split; [done|] ].
  - split; [done|]. split; [by eexists|]. simpl. split; [|done].
    rewrite length_app, length_replicate, length_drop. rewrite Hs, Nat2Z.id.
    rewrite Hpairs, length_app, length_fmap in Hlen |- *. lia.
  - simpl. rewrite Hs, Nat2Z.id. by rewrite take_app_le, take_ge by (rewrite length_replicate; lia).
Qed.

Lemma kv_provided_truncates_witness :
  let p := Kv_pair (lit "a"%string) (lit "x"%string) in
  let q := Kv_pair (lit "b"%string) (lit "y"%string) in
  exists kv, kv_set_all (KV_INIT_WITH_BUF [None] 1) [p; q] (Heap ∅ []) = Ok (kv, Heap ∅ []) /\ holds kv [p].
Proof.
  intros p q. destruct (kv_provided_truncates [None] 1 [p; q] (Heap ∅ [])) as (kv & E & H & _).
  - reflexivity.
  - unfold INT_MAX. lia.
  - exists kv. split; [exact E|exact H].
Defined.

(** C29.  A list is well formed whatever is done to it.  From any well-formed list, over a
    caller's array or its own, every sequence of settings and resets runs without a
    fault, whichever reallocations fail, and ends in a well-formed list: its size is
    at most its capacity, the slots below it hold exactly the pairs stored since the
    last reset, in order, and it still knows whether it owns its array. *)
Theorem kv_stays_well_formed (kv : kv) (l : list kv_pair) (ops : list kv_op) (h : heap)
    (Hkv : holds kv l) (Hpos : 0 < kv_capacity kv) (Hmax : kv_capacity kv * 2 <= INT_MAX)
    (Hlen : 4 * (Z.of_nat (length l) + Z.of_nat (length ops)) <= INT_MAX) :
  exists oks kv' h', kv_run ops kv h = Ok (oks, kv', h') /\ holds kv' (replay l ops oks) /\
    0 <= size kv' <= kv_capacity kv' /\ flag kv' = flag kv.
Proof.
  destruct (kv_run_holds ops kv l h Hkv Hpos Hmax Hlen) as (oks & kv' & h' & E & Hkv' & Hf & _).
  exists oks, kv', h'. split; [done|]. split; [done|]. split; [|done].
  pose proof (holds_room kv' _ Hkv'). destruct Hkv' as (Hs & _). lia.
Qed.

Lemma kv_stays_well_formed_witness :
  let p := Set_pair (lit "a"%string) (lit "x"%string) in
  exists oks kv' h', kv_run [p; Reset_list; p; p] (KV_INIT_WITH_BUF [None] 1) (Heap ∅ []) = Ok (oks, kv', h') /\
    holds kv' (replay [] [p; Reset_list; p; p] oks).
Proof.
  intros p. destruct (kv_stays_well_formed (KV_INIT_WITH_BUF [None] 1) [] [p; Reset_list; p; p] (Heap ∅ []))
    as (oks & kv' & h' & E & H & _).
  - apply holds_init_with_buf; [reflexivity|unfold INT_MAX; lia].
  - reflexivity.
  - unfold INT_MAX. simpl. lia.
  - unfold INT_MAX. simpl. lia.
  - exists oks, kv', h'. split; [exact E|exact H].
Defined.
