(* ===== verification/Hashtable.v ===== *)
(** * The chained hash table (lib/hashtable.c, include/hashtable.h)

    Elements live in a store indexed by their base address; a [struct hlist_node]
    is embedded at offset 16 of its element, so a node pointer is an element
    address plus 16 and [container_of] subtracts it.  [&h->first] and
    [&node->next] are addresses too: that is what [pprev] holds.

    [represents] ties a table to a finite map through its chains (a segment
    predicate per bucket, with the back pointers).  Lookup, insertion and
    deletion are proved to refine the finite map; the client side only assumes
    [BucketHash], the class of hash functions that stay inside the bucket array,
    of which [hash_64] is an instance and [murmurhash_str] is not. *)

From S2P Require Import Prelude CMem Murmur3.
Open Scope Z_scope.

Record hlist_node := Hlist_node { next : Z; pprev : Z }.

Record hmap_element := Hmap_element { ekey : Z; evalue : Z; node : hlist_node }.

(** The bucket array [hl] holds the [first] pointer of each [struct hlist_head]. *)
Record hmap := Hmap {
  haddr : Z;
  bits : Z;
  hash_func : Z -> Z -> result Z;
  hl : list Z
}.

Abbreviation store_t := (gmap Z hmap_element).

Definition NODE_OFF : Z := 16.
Definition GOLDEN_RATIO_64 : Z := 0x61C8864680B583EB.
Definition seed_value : Z := 0x04b91209.

(** [&hashmap->hl[i].first] *)
Definition first_addr (t : hmap) (i : Z) : Z := haddr t + 16 + 8 * i.

(** ** Hash functions *)

(** The shift count [64 - bits] must be below 64. *)
Definition hash_64 (k b : Z) : result Z :=
  if (0 <=? 64 - b) && (64 - b <? 64)
  then Ok (Z.shiftr (u64 (k * GOLDEN_RATIO_64)) (64 - b))
  else Undef BadShift.

(** [str_at] is the C string at an address. *)
Definition murmurhash_str (str_at : Z -> result bytes) (k b : Z) : result Z :=
  s ← str_at k;
  h ← MurmurHash3_x64_128 s (i32 (Z.of_nat (length s))) seed_value;
  Ok h.2.

(** ** Operations *)

(** [place] is the address the allocator returns, [None] when it fails. *)
Definition hmap_new `{Platform} (b : Z) (hf : Z -> Z -> result Z) (place : option Z) : result (option hmap) :=
  n ← shl1 b;
  match place with
  | None => Ok None
  | Some a => Ok (Some (Hmap a b hf (replicate (Z.to_nat n) 0)))
  end.

Definition str_hmap_new `{Platform} (b : Z) (place : option Z) : result (option hmap) :=
  hmap_new b hash_64 place.

Definition int_hmap_new `{Platform} (str_at : Z -> result bytes) (b : Z) (place : option Z)
    : result (option hmap) :=
  hmap_new b (murmurhash_str str_at) place.

(** [hashmap->hl[i]] *)
Definition bucket (t : hmap) (i : Z) : result Z :=
  if i <? 0 then Undef OutOfBounds else of_option OutOfBounds (hl t !! Z.to_nat i).

Fixpoint find_node (fuel : nat) (m : store_t) (pnode key : Z) : result (option Z) :=
  if pnode =? 0 then Ok None
  else
    match fuel with
    | O => Undef OutOfFuel
    | S fuel =>
        let ele := container_of pnode NODE_OFF in
        e ← of_option Dangling (m !! ele);
        if ekey e =? key then Ok (Some ele) else find_node fuel m (next (node e)) key
    end.

(** The address of the element, if any. *)
Definition hmap_find (t : hmap) (m : store_t) (key : Z) : result (option Z) :=
  i ← hash_func t key (bits t);
  first ← bucket t i;
  find_node (S (size m)) m first key.

Definition hmap_get (t : hmap) (m : store_t) (key : Z) : result Z :=
  r ← hmap_find t m key;
  match r with
  | None => Ok 0
  | Some ele => e ← of_option Dangling (m !! ele); Ok (evalue e)
  end.

Definition set_pprev (e : hmap_element) (p : Z) : hmap_element :=
  Hmap_element (ekey e) (evalue e) (Hlist_node (next (node e)) p).

Definition hmap_insert (t : hmap) (m : store_t) (key value : Z) (place : option Z)
    : result (hmap * store_t) :=
  r ← hmap_find t m key;
  match r, place with
  | Some _, _ => Ok (t, m)
  | None, None => Ok (t, m)
  | None, Some ele =>
      let new_node := ele + NODE_OFF in
      i ← hash_func t key (bits t);
      first ← bucket t i;
      let m := <[ele := Hmap_element key value (Hlist_node first 0)]> m in
      m ← (if first =? 0 then Ok m
           else
             e ← of_option Dangling (m !! container_of first NODE_OFF);
             Ok (<[container_of first NODE_OFF := set_pprev e new_node]> m));
      let t := Hmap (haddr t) (bits t) (hash_func t) (<[Z.to_nat i := new_node]> (hl t)) in
      e ← of_option Dangling (m !! ele);
      Ok (t, <[ele := set_pprev e (first_addr t i)]> m)
  end.

Fixpoint free_chain (fuel : nat) (m : store_t) (n : Z) : result store_t :=
  if n =? 0 then Ok m
  else
    match fuel with
    | O => Undef OutOfFuel
    | S fuel =>
        let ele := container_of n NODE_OFF in
        e ← of_option Dangling (m !! ele);
        free_chain fuel (delete ele m) (next (node e))
    end.

(** [for (int i = 0; i < (1 << hashmap->bits); i++)], [k] buckets to go. *)
Fixpoint free_buckets (k : nat) (t : hmap) (m : store_t) (i : Z) : result store_t :=
  match k with
  | O => Ok m
  | S k =>
      h ← bucket t i;
      m ← free_chain (S (size m)) m h;
      free_buckets k t m (i + 1)
  end.

(** The store after every element has been released. *)
Definition hmap_delete `{Platform} (t : hmap) (m : store_t) : result store_t :=
  n ← shl1 (bits t);
  free_buckets (Z.to_nat n) t m 0.

(** ** The representation *)

(** [chain m pp p l]: from the node pointer [p], whose referring field has the
    address [pp], the list runs through the elements [l]. *)
Fixpoint chain (m : store_t) (pp p : Z) (l : list Z) : Prop :=
  match l with
  | [] => p = 0
  | a :: l =>
      p = a + NODE_OFF /\ p <> 0 /\
      exists e, m !! a = Some e /\ pprev (node e) = pp /\ chain m p (next (node e)) l
  end.

Record represents (t : hmap) (m : store_t) (L : list (list Z)) : Prop := {
  rep_bits : 0 <= bits t < 31;
  rep_size : Z.of_nat (length L) = 2 ^ bits t;
  rep_heads : length (hl t) = length L;
  rep_chain i p l : hl t !! i = Some p -> L !! i = Some l -> chain m (first_addr t (Z.of_nat i)) p l;
  rep_nodup i l : L !! i = Some l -> NoDup l;
  rep_dom a : is_Some (m !! a) <-> exists i l, L !! i = Some l /\ a ∈ l;
  rep_bucket i l a e : L !! i = Some l -> a ∈ l -> m !! a = Some e ->
    hash_func t (ekey e) (bits t) = Ok (Z.of_nat i);
  rep_keys a b ea eb : m !! a = Some ea -> m !! b = Some eb -> ekey ea = ekey eb -> a = b
}.

(** The finite map a store of elements denotes. *)
Definition models (m : store_t) (M : gmap Z Z) : Prop :=
  forall k v, M !! k = Some v <-> exists a e, m !! a = Some e /\ ekey e = k /\ evalue e = v.

(** What the table needs of a hash function: every key falls in a bucket. *)
Class BucketHash (hf : Z -> Z -> result Z) (b : Z) := {
  hash_in_range k : exists i : nat, hf k b = Ok (Z.of_nat i) /\ Z.of_nat i < 2 ^ b
}.

Lemma chain_frame m m' pp p l :
  chain m pp p l -> (forall a, a ∈ l -> m' !! a = m !! a) -> chain m' pp p l.
Proof.
  revert pp p. induction l as [|a l IH]; intros pp p; [done|].
  intros (Hp & Hp0 & e & He & Hpp & Hc) Hf. split; [done|]. split; [done|].
  exists e. rewrite Hf by (by left). split; [done|]. split; [done|].
  apply IH; [done|]. intros b Hb. apply Hf. by right.
Qed.

(** A chain can be given another back pointer by rewriting its first node. *)
Definition relink (m : store_t) (p pp : Z) : store_t :=
  if p =? 0 then m else alter (fun e => set_pprev e pp) (container_of p NODE_OFF) m.

Lemma chain_relink m pp pp' p l :
  chain m pp p l -> NoDup l -> chain (relink m p pp') pp' p l.
Proof.
  destruct l as [|a l]; [done|]. intros (-> & Hp0 & e & He & Hpp & Hc) Hnd.
  apply NoDup_cons in Hnd as [Ha Hnd].
  unfold relink. destruct (Z.eqb_spec (a + NODE_OFF) 0); [done|].
  unfold container_of. rewrite Z.add_simpl_r.
  split; [done|]. split; [done|]. exists (set_pprev e pp').
  rewrite lookup_alter_eq, He. split; [done|]. split; [done|].
  simpl. apply (chain_frame m); [done|]. intros b Hb. rewrite lookup_alter_ne; [done|set_solver].
Qed.

Lemma find_node_spec m pp p l key fuel :
  chain m pp p l -> (length l < fuel)%nat ->
  (exists a e, a ∈ l /\ m !! a = Some e /\ ekey e = key /\ find_node fuel m p key = Ok (Some a)) \/
  ((forall a e, a ∈ l -> m !! a = Some e -> ekey e <> key) /\ find_node fuel m p key = Ok None).
Proof.
  revert pp p fuel. induction l as [|a l IH]; intros pp p fuel Hc Hf;
    (destruct fuel as [|fuel]; [lia|]); cbn [find_node chain] in *.
  - subst p. right. split; [|done]. intros a e Ha. by apply not_elem_of_nil in Ha.
  - destruct Hc as (-> & Hp0 & e & He & Hpp & Hc).
    destruct (Z.eqb_spec (a + NODE_OFF) 0); [done|].
    unfold container_of. rewrite Z.add_simpl_r, He. cbn [of_option]. rewrite bind_ok.
    destruct (Z.eqb_spec (ekey e) key) as [Hk|Hk].
    + left. exists a, e. split; [by left|done].
    + simpl in Hf. destruct (IH _ _ fuel Hc ltac:(lia)) as [(b & eb & Hb & ?)|[Hno ->] ].
      * left. exists b, eb. split; [by right|done].
      * right. split; [|done]. intros b eb Hb Heb.
        apply elem_of_cons in Hb as [->|Hb]; [congruence|by apply (Hno b)].
Qed.

Lemma live_length (m : store_t) l : NoDup l -> (forall a, a ∈ l -> is_Some (m !! a)) -> (length l <= size m)%nat.
Proof.
  intros Hnd Hl. rewrite <- size_dom, <- (size_list_to_set (C := gset Z) l) by done.
  apply subseteq_size. intros a Ha. apply elem_of_dom, Hl. by apply elem_of_list_to_set in Ha.
Qed.

Section table.
Context (t : hmap) (m : store_t) (L : list (list Z)).
Context (R : represents t m L).

Lemma rep_live i l : L !! i = Some l ->
  (forall a, a ∈ l -> is_Some (m !! a)) /\ (length l <= size m)%nat.
Proof using R.
  intros Hi. assert (Hlive : forall a, a ∈ l -> is_Some (m !! a)).
  { intros a Ha. apply (rep_dom _ _ _ R). eauto. }
  split; [done|]. apply live_length; [by apply (rep_nodup _ _ _ R i)|done].
Qed.

(** An element sits in one bucket only: the one its key hashes to. *)
Lemma rep_disjoint i j l l' a : L !! i = Some l -> L !! j = Some l' -> a ∈ l -> a ∈ l' -> i = j.
Proof using R.
  intros Hi Hj Ha Ha'. destruct (rep_live i l Hi) as [Hl _]. destruct (Hl a Ha) as [e He].
  pose proof (rep_bucket _ _ _ R _ _ _ _ Hi Ha He) as E.
  rewrite (rep_bucket _ _ _ R _ _ _ _ Hj Ha' He) in E. injection E. lia.
Qed.

Lemma rep_lookup (i : nat) : Z.of_nat i < 2 ^ bits t ->
  exists p l, bucket t (Z.of_nat i) = Ok p /\ hl t !! i = Some p /\ L !! i = Some l /\
    chain m (first_addr t (Z.of_nat i)) p l.
Proof using R.
  intros Hi. rewrite <- (rep_size _ _ _ R) in Hi. pose proof (rep_heads _ _ _ R) as Hlen.
  destruct (lookup_lt_is_Some_2 (hl t) i) as [p Hp]; [lia|].
  destruct (lookup_lt_is_Some_2 L i) as [l Hl]; [lia|].
  exists p, l. unfold bucket. destruct (Z.ltb_spec (Z.of_nat i) 0); [lia|].
  rewrite Nat2Z.id, Hp. split_and!; [done..|]. by apply (rep_chain _ _ _ R).
Qed.

(** [hmap_find] finds the element with the key wherever it is, and never runs
    out of fuel or off the table. *)
Lemma hmap_find_spec k `{!BucketHash (hash_func t) (bits t)} :
  (exists a e, m !! a = Some e /\ ekey e = k /\ hmap_find t m k = Ok (Some a)) \/
  ((forall a e, m !! a = Some e -> ekey e <> k) /\ hmap_find t m k = Ok None).
Proof using R.
  destruct (hash_in_range (hf := hash_func t) (b := bits t) k) as (i & Hi & Hlt).
  destruct (rep_lookup i Hlt) as (p & l & Hb & _ & Hl & Hc).
  destruct (rep_live i l Hl) as [_ Hlen].
  unfold hmap_find. rewrite Hi, bind_ok, Hb, bind_ok.
  destruct (find_node_spec m _ p l k (S (size m)) Hc ltac:(lia)) as [(a & e & _ & ? & ? & ?)|[Hno ->] ].
  - left. eauto 10.
  - right. split; [|done]. intros a e He Hk.
    destruct (proj1 (rep_dom _ _ _ R a) ltac:(eauto)) as (j & l' & Hj & Ha).
    pose proof (rep_bucket _ _ _ R _ _ _ _ Hj Ha He) as E. rewrite Hk, Hi in E.
    injection E as E. assert (i = j) as <- by lia. simplify_eq. by apply (Hno a e).
Qed.
End table.

(** ** Insertion *)

Section insert.
Context (t : hmap) (m : store_t) (L : list (list Z)) (R : represents t m L).
Context (k v a : Z) (i : nat) (p : Z) (l : list Z).
Context (Hfresh : m !! a = None) (Hnode : a + NODE_OFF <> 0).
Context (Hhash : hash_func t k (bits t) = Ok (Z.of_nat i)).
Context (Hp : hl t !! i = Some p) (Hl : L !! i = Some l).
Context (Hnew : forall b e, m !! b = Some e -> ekey e <> k).

(** The store and the table that [hmap_insert] builds. *)
Definition inserted_store : store_t :=
  <[a := Hmap_element k v (Hlist_node p (first_addr t (Z.of_nat i)))]> (relink m p (a + NODE_OFF)).
Definition inserted_table : hmap :=
  Hmap (haddr t) (bits t) (hash_func t) (<[i := a + NODE_OFF]> (hl t)).

Lemma relink_lookup b q : exists f, relink m q (a + NODE_OFF) !! b = f <$> m !! b /\
  forall e, ekey (f e) = ekey e /\ evalue (f e) = evalue e.
Proof.
  unfold relink. destruct (q =? 0); [exists id; by rewrite option_fmap_id|].
  destruct (decide (b = container_of q NODE_OFF)) as [->|Hne].
  - exists (fun e => set_pprev e (a + NODE_OFF)). by rewrite lookup_alter_eq.
  - exists id. by rewrite lookup_alter_ne, option_fmap_id by done.
Qed.

(** What is read back from the new store. *)
Lemma inserted_lookup b e :
  inserted_store !! b = Some e ->
  (b = a /\ ekey e = k /\ evalue e = v) \/
  (b <> a /\ exists e', m !! b = Some e' /\ ekey e' = ekey e /\ evalue e' = evalue e).
Proof.
  unfold inserted_store. destruct (decide (b = a)) as [->|Hne].
  - rewrite lookup_insert_eq. intros [= <-]. by left.
  - rewrite lookup_insert_ne by done. destruct (relink_lookup b p) as (f & -> & Hf).
    intros (e' & He' & ->)%fmap_Some. right. split; [done|]. exists e'. destruct (Hf e'). done.
Qed.

Lemma inserted_lookup_old b e' : m !! b = Some e' ->
  exists e, inserted_store !! b = Some e /\ ekey e = ekey e' /\ evalue e = evalue e'.
Proof using Hfresh.
  intros Hb. unfold inserted_store. rewrite lookup_insert_ne by congruence.
  destruct (relink_lookup b p) as (f & -> & Hf). rewrite Hb. destruct (Hf e'). by eexists.
Qed.
Lemma inserted_chain_here :
  chain m (first_addr t (Z.of_nat i)) p l ->
  chain inserted_store (first_addr t (Z.of_nat i)) (a + NODE_OFF) (a :: l).
Proof using R Hfresh Hnode Hl.
  intros Hc. destruct (rep_live _ _ _ R i l Hl) as [Hlive _].
  split; [done|]. split; [done|]. eexists. unfold inserted_store at 1. rewrite lookup_insert_eq.
  split; [done|]. split; [done|]. simpl.
  apply (chain_frame (relink m p (a + NODE_OFF))).
  - apply (chain_relink _ (first_addr t (Z.of_nat i))); [done|]. by apply (rep_nodup _ _ _ R i).
  - intros b Hb. unfold inserted_store. rewrite lookup_insert_ne; [done|].
    intros <-. destruct (Hlive a Hb). congruence.
Qed.

Lemma inserted_frame j l' b :
  chain m (first_addr t (Z.of_nat i)) p l ->
  L !! j = Some l' -> j <> i -> b ∈ l' -> inserted_store !! b = m !! b.
Proof using R Hfresh Hl.
  clear Hp. intros Hc Hj Hne Hb. destruct (rep_live _ _ _ R j l' Hj) as [Hlive _].
  unfold inserted_store. rewrite lookup_insert_ne by (intros <-; destruct (Hlive a Hb); congruence).
  unfold relink. destruct (Z.eqb_spec p 0) as [|Hp0]; [done|].
  apply lookup_alter_ne. intros <-. apply Hne.
  destruct l as [|b0 l0]; [done|]. destruct Hc as (-> & _).
  unfold container_of in Hb. rewrite Z.add_simpl_r in Hb.
  apply (rep_disjoint _ _ _ R j i l' (b0 :: l0) b0); [done..|by left].
Qed.

Lemma inserted_dom b :
  is_Some (inserted_store !! b) <-> exists j l', <[i := a :: l]> L !! j = Some l' /\ b ∈ l'.
Proof using R Hfresh Hl.
  pose proof (lookup_lt_Some _ _ _ Hl) as Hlt. split.
  - intros [e He]. apply inserted_lookup in He as [(-> & _)|(Hne & e' & He' & _)].
    + exists i, (a :: l). rewrite list_lookup_insert_eq by done. split; [done|by left].
    + destruct (proj1 (rep_dom _ _ _ R b) ltac:(eauto)) as (j & l' & Hj & Hb).
      destruct (decide (j = i)) as [->|]; [|exists j, l'; by rewrite list_lookup_insert_ne].
      exists i, (a :: l). rewrite list_lookup_insert_eq by done. simplify_eq. split; [done|by right].
  - intros (j & l' & Hj & Hb). destruct (decide (j = i)) as [->|Hne].
    + rewrite list_lookup_insert_eq in Hj by done. injection Hj as <-.
      apply elem_of_cons in Hb as [->|Hb]; [unfold inserted_store; rewrite lookup_insert_eq; by eexists|].
      destruct (proj2 (rep_dom _ _ _ R b) ltac:(eauto)) as [e He].
      destruct (inserted_lookup_old b e He) as (e' & -> & _). by eexists.
    + rewrite list_lookup_insert_ne in Hj by done.
      destruct (proj2 (rep_dom _ _ _ R b) ltac:(eauto)) as [e He].
      destruct (inserted_lookup_old b e He) as (e' & -> & _). by eexists.
Qed.

Lemma inserted_represents : represents inserted_table inserted_store (<[i := a :: l]> L).
Proof using R Hfresh Hnode Hhash Hp Hl Hnew.
  pose proof (lookup_lt_Some _ _ _ Hl) as Hlt. pose proof (rep_chain _ _ _ R i p l Hp Hl) as Hc.
  constructor; simpl.
  - apply (rep_bits _ _ _ R).
  - rewrite length_insert. apply (rep_size _ _ _ R).
  - rewrite !length_insert. apply (rep_heads _ _ _ R).
  - intros j p' l' Hjp Hjl. change (first_addr inserted_table ?x) with (first_addr t x).
    destruct (decide (j = i)) as [->|Hne].
    + rewrite list_lookup_insert_eq in Hjp by (by eapply lookup_lt_Some).
      rewrite list_lookup_insert_eq in Hjl by done. simplify_eq. by apply inserted_chain_here.
    + rewrite list_lookup_insert_ne in Hjp by done. rewrite list_lookup_insert_ne in Hjl by done.
      apply (chain_frame m); [by apply (rep_chain _ _ _ R)|].
      intros b Hb. by apply (inserted_frame j l').
  - intros j l' Hj. destruct (decide (j = i)) as [->|Hne].
    + rewrite list_lookup_insert_eq in Hj by done. injection Hj as <-. apply NoDup_cons.
      split; [|by apply (rep_nodup _ _ _ R i)]. intros Ha.
      destruct (rep_live _ _ _ R i l Hl) as [Hlive _]. destruct (Hlive a Ha). congruence.
    + rewrite list_lookup_insert_ne in Hj by done. by apply (rep_nodup _ _ _ R j).
  - apply inserted_dom.
  - intros j l' b e Hj Hb He. apply inserted_lookup in He as [(-> & -> & _)|(Hne & e' & He' & <- & _)].
    + destruct (decide (j = i)) as [->|Hji]; [done|].
      rewrite list_lookup_insert_ne in Hj by done.
      destruct (proj2 (rep_dom _ _ _ R a) ltac:(eauto)). congruence.
    + destruct (decide (j = i)) as [->|Hji].
      * rewrite list_lookup_insert_eq in Hj by done. injection Hj as <-.
        apply elem_of_cons in Hb as [->|Hb]; [done|]. by apply (rep_bucket _ _ _ R i l b).
      * rewrite list_lookup_insert_ne in Hj by done. by apply (rep_bucket _ _ _ R j l' b).
  - intros b c eb ec Hb Hc' E.
    apply inserted_lookup in Hb as [(-> & Ek & _)|(Hb & eb' & Hb' & Ek & _)];
    apply inserted_lookup in Hc' as [(-> & Ek' & _)|(Hc'' & ec' & Hc' & Ek' & _)]; [done|..].
    + exfalso. apply (Hnew c ec'); congruence.
    + exfalso. apply (Hnew b eb'); congruence.
    + apply (rep_keys _ _ _ R b c eb' ec'); congruence.
Qed.

Lemma inserted_models M : models m M -> models inserted_store (<[k := v]> M).
Proof using Hfresh Hnew.
  intros HM k' v'. destruct (decide (k' = k)) as [->|Hne].
  - rewrite lookup_insert_eq. split.
    + intros [= <-]. exists a. eexists. unfold inserted_store. by rewrite lookup_insert_eq.
    + intros (b & e & He & Hk & <-).
      apply inserted_lookup in He as [(_ & _ & ->)|(_ & e' & He' & Hk' & _)]; [done|].
      exfalso. apply (Hnew b e'); congruence.
  - rewrite lookup_insert_ne by done. rewrite (HM k' v'). split.
    + intros (b & e & He & <- & <-). destruct (inserted_lookup_old b e He) as (e' & ? & ? & ?). eauto.
    + intros (b & e & He & Hk & Hv).
      apply inserted_lookup in He as [(_ & ? & _)|(_ & e' & He' & ? & ?)]; [congruence|].
      exists b, e'. split_and!; congruence.
Qed.
End insert.

(** [hmap_insert] of an absent key builds exactly [inserted_table] and
    [inserted_store]. *)
Lemma hmap_insert_absent t m L k v a i p l :
  represents t m L -> m !! a = None ->
  hash_func t k (bits t) = Ok (Z.of_nat i) -> bucket t (Z.of_nat i) = Ok p ->
  chain m (first_addr t (Z.of_nat i)) p l -> hmap_find t m k = Ok None ->
  hmap_insert t m k v (Some a) = Ok (inserted_table t a i, inserted_store t m k v a i p).
Proof.
  intros R Hfresh Hhash Hb Hc Hfind. unfold hmap_insert. rewrite Hfind, bind_ok, Hhash, bind_ok, Hb, bind_ok.
  cbv zeta. set (E := Hmap_element k v (Hlist_node p 0)).
  assert (Hm : exists m2, (if p =? 0 then Ok (<[a := E]> m)
     else e ← of_option Dangling (<[a := E]> m !! container_of p NODE_OFF);
          Ok (<[container_of p NODE_OFF := set_pprev e (a + NODE_OFF)]> (<[a := E]> m))) = Ok m2 /\
     m2 = <[a := E]> (relink m p (a + NODE_OFF))).
  { unfold relink. destruct (Z.eqb_spec p 0) as [|Hp0]; [by eexists|].
    destruct l as [|b0 l]; [done|]. destruct Hc as (-> & _ & e & He & _).
    unfold container_of. rewrite Z.add_simpl_r.
    assert (a <> b0) by congruence. rewrite lookup_insert_ne, He by done. cbn [of_option]. rewrite bind_ok.
    eexists. split; [done|]. rewrite insert_insert_ne by done. f_equal.
    apply map_eq. intros x. destruct (decide (x = b0)) as [->|].
    - by rewrite lookup_insert_eq, lookup_alter_eq, He.
    - by rewrite lookup_insert_ne, lookup_alter_ne. }
  destruct Hm as (m2 & -> & ->). rewrite bind_ok, lookup_insert_eq. cbn [of_option]. rewrite bind_ok.
  rewrite insert_insert_eq, Nat2Z.id. done.
Qed.

(** ** Deletion *)

Lemma free_chain_spec fuel m pp p l :
  chain m pp p l -> NoDup l -> (length l < fuel)%nat ->
  exists m', free_chain fuel m p = Ok m' /\
    forall a, m' !! a = if decide (a ∈ l) then None else m !! a.
Proof.
  revert fuel m pp p. induction l as [|a l IH]; intros fuel m pp p Hc Hnd Hf;
    (destruct fuel as [|fuel]; [lia|]); cbn [free_chain chain] in *.
  - subst p. exists m. split; [done|]. intros a. by rewrite decide_False by apply not_elem_of_nil.
  - destruct Hc as (-> & Hp0 & e & He & Hpp & Hc).
    destruct (Z.eqb_spec (a + NODE_OFF) 0); [done|].
    unfold container_of. rewrite Z.add_simpl_r, He. cbn [of_option]. rewrite bind_ok.
    apply NoDup_cons in Hnd as [Ha Hnd]. simpl in Hf.
    destruct (IH fuel (delete a m) (a + NODE_OFF) (next (node e))) as (m' & E & Hm'); [|done|lia|].
    { apply (chain_frame m); [done|]. intros b Hb. apply lookup_delete_ne. set_solver. }
    exists m'. split; [done|]. intros b. rewrite Hm'.
    destruct (decide (b ∈ l)) as [Hb|Hb]; [by rewrite decide_True by (by right)|].
    destruct (decide (b = a)) as [->|Hne].
    + by rewrite lookup_delete_eq, decide_True by (by left).
    + rewrite lookup_delete_ne by done. rewrite decide_False; [done|]. set_solver.
Qed.

(** Freeing the buckets from [i] on, the earlier ones being gone already. *)
Lemma free_buckets_spec t m L k i :
  represents t m L -> (i + k = length L)%nat ->
  forall m', (forall j l a, L !! j = Some l -> a ∈ l -> m' !! a = if decide (j < i)%nat then None else m !! a) ->
  (forall a, m !! a = None -> m' !! a = None) ->
  free_buckets k t m' (Z.of_nat i) = Ok ∅.
Proof.
  intros R. revert i. induction k as [|k IH]; intros i Hik m' Hm' Hnone; cbn [free_buckets].
  { f_equal. apply map_empty. intros a. destruct (m !! a) as [e|] eqn:Ha; [|auto].
    destruct (proj1 (rep_dom _ _ _ R a) ltac:(eauto)) as (j & l & Hj & Hin).
    apply lookup_lt_Some in Hj as Hlt. by rewrite (Hm' j l), decide_True by (done || lia). }
  assert (Hlt : Z.of_nat i < 2 ^ bits t) by (rewrite <- (rep_size _ _ _ R); lia).
  destruct (rep_lookup _ _ _ R i Hlt) as (p & l & -> & _ & Hl & Hc). rewrite bind_ok.
  pose proof (rep_nodup _ _ _ R i l Hl) as Hnd. destruct (rep_live _ _ _ R i l Hl) as [Hlive _].
  assert (Hsame : forall a, a ∈ l -> m' !! a = m !! a).
  { intros a Ha. by rewrite (Hm' i l), decide_False by (done || lia). }
  assert (Hlen : (length l <= size m')%nat).
  { apply live_length; [done|]. intros a Ha. rewrite Hsame by done. auto. }
  destruct (free_chain_spec (S (size m')) m' (first_addr t (Z.of_nat i)) p l) as (m2 & -> & Hm2);
    [by apply (chain_frame m)|done|lia|].
  rewrite bind_ok. replace (Z.of_nat i + 1) with (Z.of_nat (S i)) by lia.
  apply IH; [lia| |].
  - intros j l' a Hj Ha. rewrite Hm2, (Hm' j l') by done. destruct (decide (a ∈ l)) as [Ha'|Ha'].
    + rewrite decide_True; [done|]. rewrite (rep_disjoint _ _ _ R _ _ _ _ _ Hj Hl Ha Ha'). lia.
    + assert (j <> i) by (intros ->; assert (l' = l) as -> by congruence; done). repeat case_decide; done || lia.
  - intros a Ha. rewrite Hm2. case_decide; auto.
Qed.

(** The bucket [hash_64] computes: the top [b] bits of the product. *)
Definition index_64 (k b : Z) : nat := Z.to_nat (u64 (k * GOLDEN_RATIO_64) / 2 ^ (64 - b)).

Lemma hash_64_index k b : 1 <= b <= 64 ->
  hash_64 k b = Ok (Z.of_nat (index_64 k b)) /\ Z.of_nat (index_64 k b) < 2 ^ b /\
  Z.of_nat (index_64 k b) = u64 (k * GOLDEN_RATIO_64) / 2 ^ (64 - b).
Proof.
  intros Hb. unfold hash_64, index_64.
  destruct (Z.leb_spec 0 (64 - b)); [|lia]. destruct (Z.ltb_spec (64 - b) 64); [|lia]. cbn [andb].
  pose proof (u64_range (k * GOLDEN_RATIO_64)) as Hr. pose proof (pow2_pos (64 - b) ltac:(lia)).
  assert (E : 2 ^ 64 = 2 ^ (64 - b) * 2 ^ b) by (rewrite <- Z.pow_add_r by lia; f_equal; lia).
  rewrite Z.shiftr_div_pow2, Z2Nat.id by (lia || apply Z.div_pos; lia).
  split_and!; [done| |done]. apply Z.div_lt_upper_bound; lia.
Qed.

#[export] Instance hash_64_buckets b (Hb : 1 <= b <= 64) : BucketHash hash_64 b.
Proof. constructor. intros k. destruct (hash_64_index k b Hb) as (? & ? & _). eauto. Qed.

(** The empty table. *)
Lemma new_represents a b hf n :
  0 <= b < 31 -> n = Z.to_nat (2 ^ b) -> represents (Hmap a b hf (replicate n 0)) ∅ (replicate n []).
Proof.
  intros Hb ->. pose proof (pow2_pos b ltac:(lia)). constructor; simpl.
  - done.
  - rewrite length_replicate. lia.
  - by rewrite !length_replicate.
  - intros i p l Hp Hl. apply lookup_replicate in Hp as [-> _]. by apply lookup_replicate in Hl as [-> _].
  - intros i l Hl. apply lookup_replicate in Hl as [-> _]. constructor.
  - intros x. rewrite lookup_empty. split; [by intros []|].
    intros (j & l & Hl & Hx). apply lookup_replicate in Hl as [-> _]. by apply not_elem_of_nil in Hx.
  - intros i l x e _ _ Hx. by rewrite lookup_empty in Hx.
  - intros x y ex ey Hx. by rewrite lookup_empty in Hx.
Qed.

Lemma new_models : models ∅ ∅.
Proof. intros k v. rewrite lookup_empty. split; [done|]. intros (a & e & He & _). by rewrite lookup_empty in He. Qed.

(** ** Properties *)

(** [hash_64] keeps every key inside a bucket array of [1 << bits] heads,
    for every [bits] in [1, 64]: the multiplication wraps at 64 bits and only the
    top [bits] bits of the product are kept.  For [bits = 0] the shift count is
    64 and C leaves the hash undefined. *)
Theorem hash_64_range (k b : Z) :
  hash_64 k 0 = Undef BadShift /\
  (1 <= b <= 64 ->
   exists i : nat, hash_64 k b = Ok (Z.of_nat i) /\ Z.of_nat i < 2 ^ b /\
     Z.of_nat i = u64 (k * GOLDEN_RATIO_64) / 2 ^ (64 - b)).
Proof. split; [done|]. intros Hb. exists (index_64 k b). by apply hash_64_index. Qed.

Lemma hash_64_range_witness :
  exists i : nat, hash_64 5 4 = Ok (Z.of_nat i) /\ Z.of_nat i < 16.
Proof. destruct (hash_64_range 5 4) as [_ H]. destruct (H ltac:(lia)) as (i & ? & ? & _). by exists i. Defined.

(** [hmap_insert] refines the insertion of an absent key: the table stays well
    formed (chains, back pointers, one bucket per key, no key twice), and it denotes
    the map with the new binding.  A key that is present keeps its value, and so does
    the table when the allocation fails. *)
Lemma hmap_insert_refines (t : hmap) (m : store_t) (L : list (list Z)) (M : gmap Z Z)
    (k v : Z) (place : option Z)
    `{!BucketHash (hash_func t) (bits t)} (R : represents t m L) (HM : models m M)
    (Hplace : forall a, place = Some a -> m !! a = None /\ a + NODE_OFF <> 0) :
  exists t' m' L', hmap_insert t m k v place = Ok (t', m') /\ represents t' m' L' /\
    models m' (match M !! k, place with None, Some _ => <[k := v]> M | _, _ => M end) /\
    hash_func t' = hash_func t /\ bits t' = bits t /\
    forall b, m !! b = None -> place <> Some b -> m' !! b = None.
Proof.
  destruct (hmap_find_spec t m L R k) as [(a & e & Ha & Hk & Hf)|[Hno Hf] ].
  - exists t, m, L. unfold hmap_insert. rewrite Hf, bind_ok. split; [done|]. split; [done|].
    assert (M !! k = Some (evalue e)) as -> by (apply HM; eauto). done.
  - assert (M !! k = None) as ->.
    { apply eq_None_not_Some. intros [v' (a & e & Ha & Hk & _)%HM]. by apply (Hno a e). }
    destruct place as [a|].
    2: { exists t, m, L. unfold hmap_insert. by rewrite Hf. }
    destruct (Hplace a eq_refl) as [Hfresh Hnode].
    destruct (hash_in_range (hf := hash_func t) (b := bits t) k) as (i & Hi & Hlt).
    destruct (rep_lookup _ _ _ R i Hlt) as (p & l & Hb & Hp & Hl & Hc).
    eexists _, _, _. split; [by apply (hmap_insert_absent t m L k v a i p l)|].
    split; [by apply inserted_represents|]. split; [by apply inserted_models|]. split; [done|]. split; [done|].
    intros b Hnone Hb'. apply eq_None_not_Some. intros [e He].
    apply inserted_lookup in He as [(-> & _)|(_ & e' & He' & _)]; congruence.
Qed.

(** [hmap_get] reads the denoted map: the value of the key, or [NULL] when it is
    absent.  The scan of the bucket ends and follows only live nodes. *)
Lemma hmap_get_refines (t : hmap) (m : store_t) (L : list (list Z)) (M : gmap Z Z) (k : Z)
    `{!BucketHash (hash_func t) (bits t)} (R : represents t m L) (HM : models m M) :
  hmap_get t m k = Ok (default 0 (M !! k)).
Proof.
  unfold hmap_get. destruct (hmap_find_spec t m L R k) as [(a & e & Ha & Hk & ->)|[Hno ->] ].
  - rewrite bind_ok, Ha. cbn [of_option]. rewrite bind_ok.
    assert (M !! k = Some (evalue e)) as -> by (apply HM; eauto). done.
  - rewrite bind_ok. assert (M !! k = None) as ->; [|done].
    apply eq_None_not_Some. intros [v' (a & e & Ha & Hk & _)%HM]. by apply (Hno a e).
Qed.

(** [hmap_delete] releases every element exactly once: the traversal reads each
    [next] before the node is freed, no free hits a dead element, and nothing is
    left in the store. *)
Lemma hmap_delete_frees_all `{!Platform} (t : hmap) (m : store_t) (L : list (list Z)) (R : represents t m L) :
  hmap_delete t m = Ok ∅.
Proof.
  pose proof (rep_bits _ _ _ R). unfold hmap_delete. rewrite shl1_small, bind_ok by lia.
  rewrite <- (rep_size _ _ _ R), Nat2Z.id.
  apply (free_buckets_spec t m L (length L) 0 R); [done| |done].
  intros j l a Hj Ha. by rewrite decide_False by lia.
Qed.

(** ** Runs

    A client's calls between the creation and the deletion of a table, and the same
    calls on a finite map. *)

Inductive map_op := Insert (k v : Z) (place : option Z) | Get (k : Z).

(** The results of the lookups, and the table and store at the end. *)
Fixpoint table_run (ops : list map_op) (t : hmap) (m : store_t) : result (list Z * hmap * store_t) :=
  match ops with
  | [] => Ok ([], t, m)
  | Insert k v place :: ops => '(t, m) ← hmap_insert t m k v place; table_run ops t m
  | Get k :: ops =>
      v ← hmap_get t m k;
      '(vs, t, m) ← table_run ops t m;
      Ok (v :: vs, t, m)
  end.

Fixpoint map_run (ops : list map_op) (M : gmap Z Z) : list Z :=
  match ops with
  | [] => []
  | Insert k v place :: ops => map_run ops (match M !! k, place with None, Some _ => <[k := v]> M | _, _ => M end)
  | Get k :: ops => default 0 (M !! k) :: map_run ops M
  end.

(** Where the allocator puts the elements. *)
Definition places (ops : list map_op) : list Z :=
  omap (fun o => match o with Insert _ _ place => place | Get _ => None end) ops.

Lemma table_run_refines ops : forall t m L M `{!BucketHash (hash_func t) (bits t)},
  represents t m L -> models m M -> NoDup (places ops) ->
  Forall (fun a => m !! a = None /\ a + NODE_OFF <> 0) (places ops) ->
  exists t' m' L', table_run ops t m = Ok (map_run ops M, t', m') /\ represents t' m' L'.
Proof.
  induction ops as [|[k v place|k] ops IH]; intros t m L M HB R HM Hnd Hp; cbn [table_run map_run].
  - by exists t, m, L.
  - assert (Hhere : forall a, place = Some a -> m !! a = None /\ a + NODE_OFF <> 0).
    { intros a ->. cbn in Hp. by apply Forall_cons in Hp as [? _]. }
    destruct (hmap_insert_refines t m L M k v place R HM Hhere) as (t1 & m1 & L1 & -> & R1 & HM1 & Eh & Eb & Hkeep).
    rewrite bind_ok. apply (IH t1 m1 L1); [by rewrite Eh, Eb|done|done| |].
    + cbn in Hnd. destruct place; [by apply NoDup_cons in Hnd as [_ ?]|done].
    + assert (Hp' : Forall (fun a => m !! a = None /\ a + NODE_OFF <> 0) (places ops)).
      { cbn in Hp. destruct place; [by apply Forall_cons in Hp as [_ ?]|done]. }
      rewrite Forall_forall in Hp' |- *. intros b Hb. destruct (Hp' b Hb) as [Hn ?]. split; [|done].
      apply Hkeep; [done|]. intros ->. cbn in Hnd. by apply NoDup_cons in Hnd as [? _].
  - rewrite (hmap_get_refines t m L M k R HM), bind_ok.
    destruct (IH t m L M HB R HM Hnd Hp) as (t' & m' & L' & -> & R'). rewrite bind_ok. by exists t', m', L'.
Qed.

(** C27.  The table is a finite map.  From [str_hmap_new] on, whatever the table's size,
    every sequence of insertions, some of whose allocations may fail, and lookups
    runs without a fault and gives the results a finite map gives, insertion of a
    key that is present changing nothing; and [hmap_delete] then frees every
    element exactly once and leaves none. *)
Theorem hmap_is_a_map `{Platform} (b addr : Z) (ops : list map_op)
    (Hb : 1 <= b < 31) (Hplaces : NoDup (places ops)) (Hnull : Forall (fun a => a + NODE_OFF <> 0) (places ops)) :
  exists t t' m', str_hmap_new b (Some addr) = Ok (Some t) /\
    table_run ops t ∅ = Ok (map_run ops ∅, t', m') /\ hmap_delete t' m' = Ok ∅.
Proof.
  unfold str_hmap_new, hmap_new. rewrite shl1_small, bind_ok by lia. set (t := Hmap _ _ _ _).
  pose proof (hash_64_buckets b ltac:(lia)) as HB.
  destruct (table_run_refines ops t ∅ (replicate (Z.to_nat (2 ^ b)) []) ∅) as (t' & m' & L' & E & R').
  - apply new_represents; [lia|done].
  - apply new_models.
  - done.
  - eapply Forall_impl; [exact Hnull|]. intros a Ha. split; [apply lookup_empty|done].
  - exists t, t', m'. split; [done|]. split; [done|]. by eapply hmap_delete_frees_all.
Qed.

Lemma hmap_is_a_map_witness :
  let ops := [Insert 7 70 (Some 5000); Get 7; Insert 7 71 (Some 6000); Insert 8 80 None; Get 7; Get 8] in
  exists t t' m', str_hmap_new (H := x86) 1 (Some 1000) = Ok (Some t) /\
    table_run ops t ∅ = Ok ([70; 70; 0], t', m') /\ hmap_delete (H := x86) t' m' = Ok ∅.
Proof.
  intros ops. apply (hmap_is_a_map (H := x86) 1 1000 ops).
  - lia.
  - apply (bool_decide_unpack _). vm_compute. exact I.
  - repeat constructor; discriminate.
Defined.

(** The table [int_hmap_new] builds indexes its bucket array with the whole
    64-bit half of the string hash, [bits] being ignored: whenever that half is
    at least [2 ^ bits] the lookup reads outside the array. *)
Theorem murmurhash_str_out_of_bounds `{!Platform} (str_at : Z -> result bytes) (t : hmap)
    (m : store_t) (b a k : Z) (s : bytes)
    (Hb : 0 <= b < 31) (Ht : int_hmap_new str_at b (Some a) = Ok (Some t))
    (Hs : str_at k = Ok s) (Hbytes : Forall is_byte s) (Hlen : Z.of_nat (length s) <= INT_MAX)
    (Hbig : 2 ^ b <= (ref_x64_128 s seed_value).2) :
  hmap_get t m k = Undef OutOfBounds.
Proof.
  unfold int_hmap_new, hmap_new in Ht. rewrite shl1_small, bind_ok in Ht by lia. injection Ht as <-.
  unfold hmap_get, hmap_find, murmurhash_str. cbn [hash_func bits].
  rewrite Hs, bind_ok. rewrite i32_small by (unfold INT_MAX in *; lia).
  rewrite MurmurHash3_x64_128_ref, !bind_ok by done.
  unfold bucket. cbn [hl]. pose proof (pow2_pos b ltac:(lia)).
  destruct (Z.ltb_spec (ref_x64_128 s seed_value).2 0); [lia|].
  rewrite lookup_ge_None_2 by (rewrite length_replicate; lia). done.
Qed.

Lemma murmurhash_str_out_of_bounds_witness :
  hmap_get (Hmap 1000 4 (murmurhash_str (fun _ => Ok [107; 101; 121])) (replicate 16 0)) ∅ 64 =
  Undef OutOfBounds.
Proof.
  apply (@murmurhash_str_out_of_bounds x86 (fun _ => Ok [107; 101; 121]) _ ∅ 4 1000 64 [107; 101; 121]).
  - lia.
  - reflexivity.
  - reflexivity.
  - repeat constructor; unfold is_byte; lia.
  - unfold INT_MAX; simpl; lia.
  - vm_compute. discriminate.
Defined.
