(* ===== verification/Http.v ===== *)
(** * HTTP data (include/server.h, include/http_parser.h) and routing (lib/router.c)

    The method masks, the method table of the parser, the canned responses and the
    error codes of handlers, the request and response records, and the route table
    that [find_router] searches.  The table itself is collected by the linker from
    the [ROUTER] sections of the program, so it is an argument. *)

From S2P Require Import Prelude CMem Strbuf Kv.
Open Scope Z_scope.

(** ** Methods *)

Definition METHOD_GET : Z := Z.shiftl 1 0.
Definition METHOD_HEAD : Z := Z.shiftl 1 1.
Definition METHOD_POST : Z := Z.shiftl 1 2.
Definition METHOD_PUT : Z := Z.shiftl 1 3.
Definition METHOD_DELETE : Z := Z.shiftl 1 4.
Definition METHOD_CONNECT : Z := Z.shiftl 1 5.
Definition METHOD_OPTIONS : Z := Z.shiftl 1 6.
Definition METHOD_TRACE : Z := Z.shiftl 1 7.
Definition METHOD_PATCH : Z := Z.shiftl 1 8.

Definition DEFAULT_SVR_BUFLEN : Z := 1024.

(** Four characters as a little-endian [int]. *)
Definition STR_TO_INT32 (a b c d : Z) : Z :=
  i32 (Z.lor (Z.lor (Z.lor a (Z.shiftl b 8)) (Z.shiftl c 16)) (Z.shiftl d 24)).

(** The same over the first four bytes of a string. *)
Definition tag (s : string) : Z :=
  match bytes_of_string s with
  | a :: b :: c :: d :: _ => STR_TO_INT32 a b c d
  | _ => 0
  end.

Record method_entry := Method { strn : Z; mask : Z; mlength : Z }.

Definition methods : list method_entry :=
  [ Method (tag "GET ") METHOD_GET 3;
    Method (tag "POST") METHOD_POST 4;
    Method (tag "PUT ") METHOD_PUT 3;
    Method (tag "DELE") METHOD_DELETE 6;
    Method (tag "PATC") METHOD_PATCH 5;
    Method (tag "HEAD") METHOD_HEAD 4;
    Method (tag "OPTI") METHOD_OPTIONS 7;
    Method (tag "TRAC") METHOD_TRACE 5;
    Method (tag "CONN") METHOD_CONNECT 6 ].

(** ** Responses and handler results *)

Definition CRLF : bytes := [13; 10].
Definition RESPONSE_200 : bytes := bytes_of_string "HTTP/1.1 200 OK" ++ CRLF.
Definition RESPONSE_400 : bytes := bytes_of_string "HTTP/1.1 400 Bad Request" ++ CRLF.
Definition RESPONSE_404 : bytes := bytes_of_string "HTTP/1.1 404 Not Found" ++ CRLF.
Definition RESPONSE_413 : bytes := bytes_of_string "HTTP/1.1 413 Request Entity Too Large" ++ CRLF.
Definition RESPONSE_500 : bytes := bytes_of_string "HTTP/1.1 500 Internal Server Error" ++ CRLF.

Definition HANDLER_ERR_SUCCESS : Z := 0.
Definition HANDLER_ERR_GENERAL : Z := - (Z.shiftl 1 1).
Definition HANDLER_ERR_FILE_NOT_FOUND : Z := - (Z.shiftl 1 3).

(** ** Requests and responses *)

Record http_request := Request {
  method : Z;
  path : ptr;
  protocol : ptr;
  req_conn : option Z;      (* the connection, by its slot in [svr->conns] *)
  query : kv;
  req_headers : kv
}.

Record http_response := Response {
  status : Z;
  file : ptr;
  file_fd : Z;
  file_sz : Z;
  str : option string_t;
  res_headers : kv
}.

Definition set_method (r : http_request) (x : Z) : http_request :=
  Request x (path r) (protocol r) (req_conn r) (query r) (req_headers r).
Definition set_path (r : http_request) (x : ptr) : http_request :=
  Request (method r) x (protocol r) (req_conn r) (query r) (req_headers r).
Definition set_protocol (r : http_request) (x : ptr) : http_request :=
  Request (method r) (path r) x (req_conn r) (query r) (req_headers r).
Definition set_query (r : http_request) (x : kv) : http_request :=
  Request (method r) (path r) (protocol r) (req_conn r) x (req_headers r).
Definition set_req_headers (r : http_request) (x : kv) : http_request :=
  Request (method r) (path r) (protocol r) (req_conn r) (query r) x.

(** ** Routes *)

(** [fp] is a dynamic handler, of whatever type [F], or [global_static_router],
    used exactly when [filepath] is set. *)
Record router (F : Type) := Router {
  rpath : ptr;
  filepath : ptr;
  fp : F;
  rmethod : Z
}.
Arguments Router {F} _ _ _ _.
Arguments rpath {F} _.
Arguments filepath {F} _.
Arguments fp {F} _.
Arguments rmethod {F} _.

(** [ROUTER(method, path)] and [ROUTER_STATIC(filepath, path)]; both stringise
    their path arguments. *)
Definition ROUTER {F} (m : Z) (p : string) (f : F) : router F := Router (lit p) NULL f m.
Definition ROUTER_STATIC {F} (filep p : string) (f : F) : router F :=
  Router (lit p) (lit filep) f METHOD_GET.

(** [FOREACH_ROUTER] over the table from [router_start] to [router_end]. *)
Fixpoint find_router {F} (table : list (router F)) (m : gmap block bytes) (p : ptr) (meth : Z)
    : result (option (router F)) :=
  match table with
  | [] => Ok None
  | r :: table =>
      if negb (Z.land meth (rmethod r) =? 0) then
        c ← strcmp m p (rpath r);
        if c =? 0 then Ok (Some r) else find_router table m p meth
      else find_router table m p meth
  end.

(** ** Properties of routing *)

(** The path of a route is a literal without NUL. *)
Definition literal_route {F} (r : router F) (s : bytes) : Prop :=
  rpath r = Lit s 0 /\ 0 ∉ s.

Definition accepts {F} (r : router F) (s : bytes) (meth : Z) : Prop :=
  rpath r = Lit s 0 /\ Z.land meth (rmethod r) <> 0.

Lemma load_cstr_lit m s : 0 ∉ s -> load_cstr m (Lit s 0) = Ok s.
Proof.
  intros Hs. unfold load_cstr, object. rewrite bind_ok, suffix_0, bind_ok.
  by rewrite until_nul_app.
Qed.

(** C32.  [find_router] is total on a table of literal routes and returns the
    first route, in table order, whose mask has the request's method and whose
    path equals the requested one; [NULL] when there is none. *)
Theorem find_router_first {F} (table : list (router F)) (m : gmap block bytes) (p : ptr)
    (meth : Z) (s : bytes)
    (Htable : Forall (fun r => exists l, literal_route r l) table) (Hp : load_cstr m p = Ok s) :
  exists o, find_router table m p meth = Ok o /\
    match o with
    | Some r => exists before after, table = before ++ r :: after /\ accepts r s meth /\
                  Forall (fun r' => ~ accepts r' s meth) before
    | None => Forall (fun r => ~ accepts r s meth) table
    end.
Proof.
  induction Htable as [|r table (l & Hl & Hnul) Htable (o & IH & Ho)]; [by exists None|].
  assert (Hskip : ~ accepts r s meth -> exists o0, Ok o = Ok o0 /\
    match o0 with
    | Some r0 => exists before after, r :: table = before ++ r0 :: after /\ accepts r0 s meth /\
                  Forall (fun r' => ~ accepts r' s meth) before
    | None => Forall (fun r => ~ accepts r s meth) (r :: table)
    end).
  { intros Hn. exists o. split; [done|]. destruct o as [r0|]; [|by constructor].
    destruct Ho as (before & after & -> & Ha & Hb). exists (r :: before), after.
    split; [done|]. split; [done|by constructor]. }
  cbn [find_router]. unfold strcmp. rewrite Hl, Hp, load_cstr_lit, !bind_ok by done.
  destruct (Z.eqb_spec (Z.land meth (rmethod r)) 0) as [E|E]; cbn [negb].
  { rewrite IH. apply Hskip. by intros [_ ?]. }
  destruct (Z.eqb_spec (compare_bytes s l) 0) as [C|C].
  - apply compare_bytes_eq in C as <-. exists (Some r). split; [done|]. exists [], table.
    split; [done|]. split; [by split|constructor].
  - rewrite IH. apply Hskip. intros [Hr _]. apply C, compare_bytes_eq. congruence.
Qed.

Lemma find_router_first_witness :
  exists o, find_router [ROUTER METHOD_POST "/fib" 1%nat; ROUTER METHOD_GET "/fib" 2%nat] ∅
              (lit "/fib") METHOD_GET = Ok o /\ is_Some o.
Proof.
  destruct (find_router_first [ROUTER METHOD_POST "/fib" 1%nat; ROUTER METHOD_GET "/fib" 2%nat] ∅
              (lit "/fib") METHOD_GET [47; 102; 105; 98]) as (o & E & P).
  - assert (H : literal_route (ROUTER METHOD_GET "/fib" 2%nat) [47; 102; 105; 98]).
    { split; [reflexivity|]. repeat (apply not_elem_of_cons; split; [discriminate|]). apply not_elem_of_nil. }
    repeat constructor; eexists; exact H.
  - reflexivity.
  - exists o. split; [exact E|]. destruct o; [by eexists|].
    apply Forall_cons in P as [_ P]. apply Forall_cons in P as [P _]. exfalso. apply P. by split.
Defined.
