(* ===== verification/HttpParser.v ===== *)
(** * The request parser (lib/http_parser.c)

    The parser works in place: it searches the receive buffer with [strchr],
    overwrites separators with NUL and stores pointers into the buffer.  All its
    [char *] variables point into the object [buf] points to, so they are offsets
    in the block [b]; the pointers it stores in the request are [Ptr b _].  A read
    or write outside the block is a fault, which is what the safety theorem
    excludes for every content of the buffer.

    The [LOG_INFO] lines of the debug build are not modelled: they read the
    strings the parser has just stored and write to [stdout]. *)

From S2P Require Import Prelude CMem Kv Http.
Open Scope Z_scope.

Definition SPACE : Z := 32.
Definition SLASH : Z := 47.
Definition QUESTION : Z := 63.
Definition EQUALS : Z := 61.
Definition AMPERSAND : Z := 38.
Definition COLON : Z := 58.
Definition CR : Z := 13.

Section parser.
Context (b : block).

(** A byte, and the offset of [strchr]'s result, in the block. *)
Definition get (h : heap) (o : Z) : result Z := load (mem h) (Ptr b o).

Definition put (h : heap) (o v : Z) : result heap :=
  m ← store (mem h) (Ptr b o) v;
  Ok (Heap m (oom h)).

Definition strchr_off (h : heap) (o c : Z) : result (option Z) :=
  p ← strchr (mem h) (Ptr b o) c;
  Ok (match p with Ptr _ o' => Some o' | _ => None end).

(** [memcpy(&val, buf, 4)] *)
Definition str_to_int32 (h : heap) (o : Z) : result Z :=
  v ← load32 (mem h) (Ptr b o);
  Ok (i32 v).

Fixpoint trim_spaces (fuel : nat) (h : heap) (ppbuf bufend : Z) : result Z :=
  if ppbuf <? bufend then
    c ← get h ppbuf;
    if c =? SPACE then
      match fuel with
      | O => Undef OutOfFuel
      | S fuel => trim_spaces fuel h (ppbuf + 1) bufend
      end
    else Ok ppbuf
  else Ok ppbuf.

(** [FOR_EACH_HTTP_METHOD]: the first entry with the tag. *)
Fixpoint find_method (l : list method_entry) (reqstrn : Z) : option method_entry :=
  match l with
  | [] => None
  | e :: l => if strn e =? reqstrn then Some e else find_method l reqstrn
  end.

Definition http_parse_method (req : http_request) (h : heap) (ppbuf bufend : Z)
    : result (Z * http_request * Z) :=
  if UNLIKELY (bufend - ppbuf <? 4) then Ok (0, req, ppbuf)
  else
    reqstrn ← str_to_int32 h ppbuf;
    match find_method methods reqstrn with
    | Some e => Ok (mlength e, set_method req (mask e), ppbuf + mlength e)
    | None => Ok (0, req, ppbuf)
    end.

(** [while (query && query < end_of_path)] *)
Fixpoint parse_query (fuel : nat) (req : http_request) (h : heap) (q end_of_path : Z)
    : result (http_request * heap) :=
  if q <? end_of_path then
    match fuel with
    | O => Undef OutOfFuel
    | S fuel =>
        sep ← strchr_off h q EQUALS;
        match sep with
        | None => Ok (req, h)
        | Some sep =>
            if end_of_path <=? sep then Ok (req, h)
            else
              h ← put h sep 0;
              '(kv, h) ← kv_set_ignored (query req) (Ptr b q) (Ptr b (sep + 1)) h;
              let req := set_query req kv in
              qkv_end ← strchr_off h (sep + 1) AMPERSAND;
              match qkv_end with
              | None => Ok (req, h)
              | Some e =>
                  if end_of_path <=? e then Ok (req, h)
                  else h ← put h e 0; parse_query fuel req h (e + 1) end_of_path
              end
        end
    end
  else Ok (req, h).

Definition http_parse_path (req : http_request) (h : heap) (ppbuf bufend : Z)
    : result (Z * http_request * heap * Z) :=
  let start := ppbuf in
  if UNLIKELY (u64 (bufend - start) <? 13) then Ok (0, req, h, ppbuf)
  else
    c ← get h start;
    if UNLIKELY (negb (c =? SLASH)) then Ok (0, req, h, ppbuf)
    else
      end_of_path ← strchr_off h start SPACE;
      match end_of_path with
      | None => Ok (0, req, h, ppbuf)
      | Some end_of_path =>
          q ← strchr_off h start QUESTION;
          '(req, h) ←
            (match q with
             | Some q =>
                 if q <? end_of_path then
                   h ← put h q 0;
                   parse_query (Z.to_nat (end_of_path - q)) req h (q + 1) end_of_path
                 else Ok (req, h)
             | None => Ok (req, h)
             end);
          h ← put h end_of_path 0;
          let req := set_path req (Ptr b start) in
          let ppbuf := end_of_path + 1 in
          Ok (i32 (ppbuf - start), req, h, ppbuf)
      end.

Definition http_parse_protocol (req : http_request) (h : heap) (ppbuf bufend : Z)
    : result (Z * http_request * heap * Z) :=
  let start := ppbuf in
  if UNLIKELY (u64 (bufend - start) <? 11) then Ok (0, req, h, ppbuf)
  else
    end_of_line ← strchr_off h start CR;
    match end_of_line with
    | None => Ok (0, req, h, ppbuf)
    | Some eol =>
        v ← str_to_int32 h start;
        if UNLIKELY (negb (v =? tag "HTTP")) then Ok (0, req, h, ppbuf)
        else
          let req := set_protocol req (Ptr b start) in
          h ← put h eol 0;
          let ppbuf := eol + 2 in
          Ok (i32 (ppbuf - start), req, h, ppbuf)
    end.

(** [while (start < bufend)]; the final [start] is returned. *)
Fixpoint parse_header_lines (fuel : nat) (req : http_request) (h : heap) (start bufend : Z)
    : result (http_request * heap * Z) :=
  if start <? bufend then
    match fuel with
    | O => Undef OutOfFuel
    | S fuel =>
        end_of_header_line ← strchr_off h start CR;
        match end_of_header_line with
        | None => Ok (req, h, start)
        | Some eol =>
            if UNLIKELY (u64 (eol - start) <? 5) then Ok (req, h, eol)
            else
              sep ← strchr_off h start COLON;
              '(req, h) ←
                (match sep with
                 | Some sep =>
                     if LIKELY (sep <? eol) then
                       h ← put h sep 0;
                       h ← put h eol 0;
                       '(kv, h) ← kv_set_ignored (req_headers req) (Ptr b start) (Ptr b (sep + 2)) h;
                       Ok (set_req_headers req kv, h)
                     else Ok (req, h)
                 | None => Ok (req, h)
                 end);
              parse_header_lines fuel req h (eol + 2) bufend
        end
    end
  else Ok (req, h, start).

Definition http_parse_headers (req : http_request) (h : heap) (ppbuf bufend : Z)
    : result (Z * http_request * heap * Z) :=
  '(req, h, start) ← parse_header_lines (Z.to_nat (bufend - ppbuf)) req h ppbuf bufend;
  Ok (i32 (start - ppbuf), req, h, start).

(** [buf] is the start of the block. *)
Definition http_parse_request (req : http_request) (h : heap) (buflen : Z)
    : result (Z * http_request * heap) :=
  let bufend := buflen in
  '(_, req, buf) ← http_parse_method req h 0 bufend;
  if UNLIKELY (method req =? 0) then Ok (0, req, h)
  else
    buf ← trim_spaces (Z.to_nat (bufend - buf)) h buf bufend;
    '(_, req, h, buf) ← http_parse_path req h buf bufend;
    if UNLIKELY (is_null (path req)) then Ok (0, req, h)
    else
      '(_, req, h, buf) ← http_parse_protocol req h buf bufend;
      if UNLIKELY (is_null (protocol req)) then Ok (0, req, h)
      else
        '(_, req, h, _) ← http_parse_headers req h buf bufend;
        Ok (1, req, h).
End parser.

(** ** A concrete run *)

Definition sample_request : bytes :=
  bytes_of_string "GET /fib?n=3&m=x HTTP/1.1" ++ CRLF ++ bytes_of_string "Host: me" ++ CRLF ++ CRLF.

Definition empty_request : http_request :=
  let slots := replicate 20 None in
  Request 0 NULL NULL None (KV_INIT_WITH_BUF slots 20) (KV_INIT_WITH_BUF slots 20).

Definition sample_heap : heap :=
  Heap {[1%positive := sample_request ++ replicate 16 0]} [].

(** The strings of a list of pairs. *)
Definition pair_strings (m : gmap block bytes) (kv : kv) : list (result (bytes * bytes)) :=
  (fun o => p ← of_option Uninitialised o; k ← load_cstr m (key p); v ← load_cstr m (value p); Ok (k, v))
  <$> take (Z.to_nat (size kv)) (pairs kv).

Example sample_parse :
  ('(ret, req, h) ← http_parse_request 1 empty_request sample_heap (Z.of_nat (length sample_request));
   p ← load_cstr (mem h) (path req);
   v ← load_cstr (mem h) (protocol req);
   Ok (ret, method req, p, v, pair_strings (mem h) (query req), pair_strings (mem h) (req_headers req))) =
  Ok (1, METHOD_GET, bytes_of_string "/fib", bytes_of_string "HTTP/1.1",
      [Ok (bytes_of_string "n", bytes_of_string "3"); Ok (bytes_of_string "m", bytes_of_string "x")],
      [Ok (bytes_of_string "Host", bytes_of_string "me")]).
Proof. vm_compute. reflexivity. Qed.
