(* ===== verification/HttpParserSafe.v ===== *)
(** * Memory safety of the request parser

    For every content of the receive buffer whose unused tail is zero, and at
    least one byte of it unused, the parser terminates and stays inside the
    buffer; it writes only received bytes, and every pointer it leaves in the
    request is a C string of the buffer. *)

From S2P Require Import Prelude CMem Kv Http HttpParser.
Open Scope Z_scope.

#[local] Set Default Proof Using "All".

Section safe.
Context (b : block) (n N : Z).

(** The block has [N] bytes, of which those from [n] on are zero. *)
Definition zero_tail (h : heap) : Prop :=
  exists bs, mem h !! b = Some bs /\ Z.of_nat (length bs) = N /\
    forall i, n <= Z.of_nat i < N -> bs !! i = Some 0.

(** Only the block has changed. *)
Definition frame (h h' : heap) : Prop :=
  oom h' = oom h /\ forall b', b' <> b -> mem h' !! b' = mem h !! b'.

Definition in_buf (p : ptr) : Prop := exists o, p = Ptr b o /\ 0 <= o < N.

Definition kv_ok (kv : kv) : Prop :=
  exists l, holds kv l /\ Z.land (flag kv) KV_FLAG_MALLOC = 0 /\
    Forall (fun p => in_buf (key p) /\ in_buf (value p)) l.

Definition req_ok (r : http_request) : Prop :=
  (path r = NULL \/ in_buf (path r)) /\ (protocol r = NULL \/ in_buf (protocol r)) /\
  kv_ok (query r) /\ kv_ok (req_headers r).

Context (Hn : 0 <= n < N).

Lemma frame_refl h : frame h h.
Proof. by split. Qed.

Lemma frame_trans h1 h2 h3 : frame h1 h2 -> frame h2 h3 -> frame h1 h3.
Proof. intros [E1 F1] [E2 F2]. split; [congruence|]. intros b' Hb'. by rewrite F2, F1. Qed.

Lemma byte_at_in bs (o : Z) :
  0 <= o < Z.of_nat (length bs) -> exists c, bs !! Z.to_nat o = Some c /\ byte_at bs o = Ok c.
Proof.
  intros Ho. destruct (lookup_lt_is_Some_2 bs (Z.to_nat o)) as [c Hc]; [lia|].
  exists c. split; [done|]. rewrite <- (Z2Nat.id o) by lia. by apply byte_at_lookup.
Qed.

Lemma get_safe h o : zero_tail h -> 0 <= o < N -> exists c, get b h o = Ok c /\ (n <= o -> c = 0).
Proof.
  intros (bs & Hb & Hl & Hz) Ho. destruct (byte_at_in bs o ltac:(lia)) as (c & Hc & E).
  exists c. unfold get, load, object. rewrite Hb, bind_ok. split; [done|].
  intros Hno. rewrite (Hz (Z.to_nat o)) in Hc by lia. congruence.
Qed.

Lemma put_safe h o v : zero_tail h -> 0 <= o < n ->
  exists h', put b h o v = Ok h' /\ zero_tail h' /\ frame h h'.
Proof.
  intros (bs & Hb & Hl & Hz) Ho. destruct (Z_of_nat_complete o) as [k ->]; [lia|]. unfold put.
  rewrite (store_block _ _ _ _ _ Hb), bind_ok by lia. eexists. split; [done|]. split.
  - eexists. simpl. rewrite lookup_insert_eq. split; [done|]. rewrite length_insert. split; [done|].
    intros i Hi. rewrite list_lookup_insert_ne by lia. by apply Hz.
  - split; [done|]. intros b' Hb'. simpl. by rewrite lookup_insert_ne.
Qed.

(** A search that starts in the buffer ends at a received byte or at the zeros. *)
Lemma find_char_safe c bs (k : nat) : c <> 0 -> bs !! k = Some 0 ->
  exists r, find_char c bs = Some r /\
    match r with Some i => (i < k)%nat /\ bs !! i = Some c | None => True end.
Proof.
  intros Hc. revert k. induction bs as [|x bs IH]; intros k Hk; [done|]. cbn [find_char].
  destruct (Z.eqb_spec x c) as [->|Hxc].
  { exists (Some 0%nat). split; [done|]. split; [|done]. destruct k; [|lia]. simpl in Hk. congruence. }
  destruct (Z.eqb_spec x 0) as [->|Hx0]; [by exists None|].
  destruct k as [|k]; [simpl in Hk; congruence|]. simpl in Hk.
  destruct (IH k Hk) as ([i|] & -> & Hi); [|by exists None].
  exists (Some (S i)). split; [done|]. split; [lia|]. apply Hi.
Qed.

Lemma strchr_safe h o c : zero_tail h -> 0 <= o <= n -> c <> 0 ->
  exists r, strchr_off b h o c = Ok r /\
    match r with Some o' => o <= o' < n /\ get b h o' = Ok c | None => True end.
Proof.
  intros (bs & Hb & Hl & Hz) Ho Hc. unfold strchr_off, strchr, object.
  rewrite Hb, bind_ok. rewrite <- (Z2Nat.id o) by lia. rewrite suffix_ok, bind_ok by lia.
  destruct (find_char_safe c (drop (Z.to_nat o) bs) (Z.to_nat n - Z.to_nat o) Hc) as (r & -> & Hr).
  { rewrite lookup_drop. apply Hz. lia. }
  cbn [of_option]. rewrite !bind_ok. destruct r as [i|]; [|by exists None].
  destruct Hr as [Hi Hbs]. rewrite lookup_drop in Hbs. cbn [ptr_add]. eexists. split; [done|].
  split; [lia|]. unfold get. rewrite <- Nat2Z.inj_add. by apply (load_block _ _ bs).
Qed.

Lemma str_to_int32_safe h o : zero_tail h -> 0 <= o -> o + 4 <= N -> exists v, str_to_int32 b h o = Ok v.
Proof.
  intros (bs & Hb & Hl & Hz) Ho Ho4. unfold str_to_int32, load32, object. rewrite Hb, bind_ok.
  rewrite <- (Z2Nat.id o) by lia. rewrite le_load_spec, bind_ok by lia. by eexists.
Qed.

Lemma in_buf_ptr o : 0 <= o < N -> in_buf (Ptr b o).
Proof. intros. by exists o. Qed.

Lemma kv_set_safe kv k v h : kv_ok kv -> in_buf k -> in_buf v ->
  exists kv', kv_set_ignored kv k v h = Ok (kv', h) /\ kv_ok kv'.
Proof.
  intros (l & Hl & Hp & Hf) Hk Hv.
  destruct (kv_set_ignored_provided kv l k v h Hl Hp) as (kv' & E & Hl' & Hflag & _).
  exists kv'. split; [done|]. eexists. split; [done|]. split; [by rewrite Hflag|].
  apply Forall_take, Forall_app. split; [done|]. by repeat constructor.
Qed.

(** Every pointer into the buffer is a C string. *)
Lemma in_buf_cstr h p : zero_tail h -> in_buf p -> exists s, load_cstr (mem h) p = Ok s.
Proof.
  intros (bs & Hb & Hl & Hz) (o & -> & Ho). unfold load_cstr, object. rewrite Hb, bind_ok.
  rewrite <- (Z2Nat.id o) by lia. rewrite suffix_ok, bind_ok by lia.
  assert (H0 : drop (Z.to_nat o) bs !! (pred (Z.to_nat N) - Z.to_nat o)%nat = Some 0).
  { rewrite lookup_drop. apply Hz. lia. }
  revert H0. generalize (drop (Z.to_nat o) bs) (pred (Z.to_nat N) - Z.to_nat o)%nat.
  intros l k. revert l. induction k as [|k IH]; intros [|x l] Hk; try done; simpl in *.
  - injection Hk as ->. by eexists.
  - destruct (IH l Hk) as [s Hs]. destruct (x =? 0); [by eexists|].
    destruct (until_nul l); [by eexists|done].
Qed.

(** The outcome of a parsing step: it returns, and everything stays in place. *)
Definition good (h h' : heap) (req : http_request) : Prop :=
  zero_tail h' /\ frame h h' /\ req_ok req.

Lemma good_trans h1 h2 h3 req : frame h1 h2 -> good h2 h3 req -> good h1 h3 req.
Proof. intros F (Z & F' & R). split_and!; [done| |done]. by apply (frame_trans h1 h2 h3). Qed.

Lemma good_refl h req : zero_tail h -> req_ok req -> good h h req.
Proof. intros. split_and!; [done|apply frame_refl|done]. Qed.

Lemma good_step h h' req : zero_tail h' -> frame h h' -> req_ok req -> good h h' req.
Proof. intros. by split_and!. Qed.

Lemma req_ok_set_query r kv : req_ok r -> kv_ok kv -> req_ok (set_query r kv).
Proof. intros (? & ? & ? & ?) ?. by split_and!. Qed.
Lemma req_ok_set_headers r kv : req_ok r -> kv_ok kv -> req_ok (set_req_headers r kv).
Proof. intros (? & ? & ? & ?) ?. by split_and!. Qed.
Lemma req_ok_set_path r p : req_ok r -> in_buf p -> req_ok (set_path r p).
Proof. intros (? & ? & ? & ?) ?. split_and!; [by right|done..]. Qed.
Lemma req_ok_set_protocol r p : req_ok r -> in_buf p -> req_ok (set_protocol r p).
Proof. intros (? & ? & ? & ?) ?. split_and!; [done|by right|done..]. Qed.
Lemma req_ok_set_method r x : req_ok r -> req_ok (set_method r x).
Proof. done. Qed.

Lemma trim_spaces_safe fuel h o :
  zero_tail h -> 0 <= o -> n - o <= Z.of_nat fuel ->
  exists o', trim_spaces b fuel h o n = Ok o' /\ o <= o' /\ (o' = o \/ o' <= n).
Proof.
  intros Hh. revert o. induction fuel as [|fuel IH]; intros o Ho Hf; cbn [trim_spaces];
    (destruct (Z.ltb_spec o n) as [Hlt|Hge]; [|exists o; split; [done|lia] ]).
  - lia.
  - destruct (get_safe h o Hh ltac:(lia)) as (c & -> & _). rewrite bind_ok.
    destruct (c =? SPACE); [|exists o; split; [done|lia] ].
    destruct (IH (o + 1)) as (o' & E & ? & ?); [lia..|]. exists o'. split; [done|lia].
Qed.

Lemma find_method_length l v e :
  Forall (fun e => 0 <= mlength e <= 7) l -> find_method l v = Some e -> 0 <= mlength e <= 7.
Proof. induction 1 as [|e' l He Hl IH]; simpl; [done|]. destruct (_ =? _); [by intros [= <-]|done]. Qed.

Lemma methods_length : Forall (fun e => 0 <= mlength e <= 7) methods.
Proof. repeat constructor; simpl; lia. Qed.

Lemma http_parse_method_safe req h :
  zero_tail h -> req_ok req ->
  exists r req' o, http_parse_method b req h 0 n = Ok (r, req', o) /\ req_ok req' /\ 0 <= o <= 7 /\
    (req' = req \/ exists x, req' = set_method req x).
Proof.
  intros Hh Hr. unfold http_parse_method, UNLIKELY.
  destruct (Z.ltb_spec (n - 0) 4) as [Hlt|Hge].
  { eexists _, _, _. split; [done|]. split; [done|]. split; [lia|by left]. }
  destruct (str_to_int32_safe h 0 Hh ltac:(lia) ltac:(lia)) as [v ->]. rewrite bind_ok.
  destruct (find_method methods v) as [e|] eqn:E.
  - pose proof (find_method_length _ _ _ methods_length E).
    eexists _, _, _. split; [done|]. split; [done|]. split; [lia|]. right. by eexists.
  - eexists _, _, _. split; [done|]. split; [done|]. split; [lia|by left].
Qed.

(** The rest of the request, when only the query list or the headers change. *)
Lemma set_query_self r : exists kv, r = set_query r kv.
Proof. destruct r. by eexists. Qed.
Lemma set_headers_self r : exists kv, r = set_req_headers r kv.
Proof. destruct r. by eexists. Qed.

Ltac stop_at r h := exists r, h; split; [done|]; split;
  [by first [apply good_refl | apply good_step]
  |by first [apply set_query_self | apply set_headers_self | eexists] ].

Lemma parse_query_safe fuel req h q e :
  zero_tail h -> req_ok req -> 0 <= q -> e < n -> e - q <= Z.of_nat fuel ->
  exists req' h', parse_query b fuel req h q e = Ok (req', h') /\ good h h' req' /\
    (exists kv, req' = set_query req kv).
Proof.
  intros Hh Hr Hq He. revert req h q Hh Hr Hq.
  induction fuel as [|fuel IH]; intros req h q Hh Hr Hq Hf; cbn [parse_query];
    (destruct (Z.ltb_spec q e) as [Hlt|Hge]; [|stop_at req h]).
  { lia. }
  destruct (strchr_safe h q EQUALS Hh ltac:(lia) ltac:(done)) as (sep & -> & Hsep). rewrite bind_ok.
  destruct sep as [sep|]; [|stop_at req h]. destruct (Z.leb_spec e sep); [stop_at req h|].
  destruct Hsep as [Hsep _]. destruct (put_safe h sep 0 Hh ltac:(lia)) as (h1 & -> & Hh1 & F1). rewrite bind_ok.
  destruct (kv_set_safe (query req) (Ptr b q) (Ptr b (sep + 1)) h1) as (kv & -> & Hkv);
    [apply Hr|apply in_buf_ptr; lia..|]. rewrite bind_ok.
  pose proof (req_ok_set_query req kv Hr Hkv) as Hr1.
  destruct (strchr_safe h1 (sep + 1) AMPERSAND Hh1 ltac:(lia) ltac:(done)) as (a & -> & Ha). rewrite bind_ok.
  destruct a as [a|]; [|stop_at (set_query req kv) h1].
  destruct (Z.leb_spec e a); [stop_at (set_query req kv) h1|].
  destruct Ha as [Ha _]. destruct (put_safe h1 a 0 Hh1 ltac:(lia)) as (h2 & -> & Hh2 & F2). rewrite bind_ok.
  destruct (IH (set_query req kv) h2 (a + 1) Hh2 Hr1 ltac:(lia) ltac:(lia)) as (req' & h' & E & G & kv' & ->).
  eexists _, _. split; [exact E|]. split; [|by eexists].
  apply (good_trans h h2); [by apply (frame_trans h h1 h2)|done].
Qed.

(** A failed parse leaves the request; a successful one sets the path. *)
Lemma http_parse_path_safe req h o :
  8 <= N -> N <= 2 ^ 63 -> zero_tail h -> req_ok req -> 0 <= o -> (o <= 7 \/ o <= n) ->
  exists r req' h' o', http_parse_path b req h o n = Ok (r, req', h', o') /\ good h h' req' /\
    (path req' = path req \/ 0 <= o' <= n) /\ protocol req' = protocol req /\ method req' = method req.
Proof.
  intros H8 H63 Hh Hr Ho Ho7. unfold http_parse_path, UNLIKELY.
  assert (Hstop : exists r req' h' o', Ok (0, req, h, o) = Ok (r, req', h', o') /\ good h h' req' /\
    (path req' = path req \/ 0 <= o' <= n) /\ protocol req' = protocol req /\ method req' = method req).
  { eexists _, _, _, _. split; [done|]. split; [by apply good_refl|]. split; [by left|done]. }
  destruct (Z.ltb_spec (u64 (n - o)) 13) as [_|Hge]; [done|].
  assert (HoN : 0 <= o < N).
  { destruct (Z.le_gt_cases o n); [|lia]. rewrite u64_small in Hge by lia. lia. }
  destruct (get_safe h o Hh HoN) as (c & -> & Hz). rewrite bind_ok.
  destruct (Z.eqb_spec c SLASH) as [->|]; cbn [negb]; [|done].
  assert (Hon : o < n) by (apply Z.nle_gt; intros Hle; by specialize (Hz Hle)).
  destruct (strchr_safe h o SPACE Hh ltac:(lia) ltac:(done)) as (e & -> & He). rewrite bind_ok.
  destruct e as [e|]; [|done]. destruct He as [He _].
  destruct (strchr_safe h o QUESTION Hh ltac:(lia) ltac:(done)) as (q & -> & Hq). rewrite bind_ok.
  assert (Hbr : exists req1 h1,
    (match q with
     | Some q => if q <? e then
         h0 ← put b h q 0; parse_query b (Z.to_nat (e - q)) req h0 (q + 1) e else Ok (req, h)
     | None => Ok (req, h) end) = Ok (req1, h1) /\ good h h1 req1 /\ exists kv, req1 = set_query req kv).
  { destruct q as [q|]; [|stop_at req h]. destruct (Z.ltb_spec q e); [|stop_at req h].
    destruct Hq as [Hq _]. destruct (put_safe h q 0 Hh ltac:(lia)) as (h1 & -> & Hh1 & F1). rewrite bind_ok.
    destruct (parse_query_safe (Z.to_nat (e - q)) req h1 (q + 1) e) as (req' & h' & E & G & Hkv); [done|done|lia..|].
    exists req', h'. split; [done|]. split; [by apply (good_trans h h1)|done]. }
  destruct Hbr as (req1 & h1 & -> & (Hh1 & F1 & Hr1) & kv & ->). rewrite bind_ok.
  destruct (put_safe h1 e 0 Hh1 ltac:(lia)) as (h2 & -> & Hh2 & F2). rewrite bind_ok.
  eexists _, _, _, _. split; [done|]. split.
  - split_and!; [done|by apply (frame_trans h h1 h2)|]. apply req_ok_set_path; [done|by apply in_buf_ptr].
  - split; [right; lia|done].
Qed.

Lemma http_parse_protocol_safe req h o :
  11 <= N -> N <= 2 ^ 63 -> zero_tail h -> req_ok req -> 0 <= o <= n ->
  exists r req' h' o', http_parse_protocol b req h o n = Ok (r, req', h', o') /\ good h h' req' /\
    (protocol req' = protocol req \/ 0 <= o' <= n + 1) /\ path req' = path req /\ method req' = method req.
Proof.
  intros H11 H63 Hh Hr Ho. unfold http_parse_protocol, UNLIKELY.
  assert (Hstop : exists r req' h' o', Ok (0, req, h, o) = Ok (r, req', h', o') /\ good h h' req' /\
    (protocol req' = protocol req \/ 0 <= o' <= n + 1) /\ path req' = path req /\ method req' = method req).
  { eexists _, _, _, _. split; [done|]. split; [by apply good_refl|]. split; [by left|done]. }
  rewrite u64_small by lia. destruct (Z.ltb_spec (n - o) 11); [done|].
  destruct (strchr_safe h o CR Hh ltac:(lia) ltac:(done)) as (e & -> & He). rewrite bind_ok.
  destruct e as [e|]; [|done]. destruct He as [He _].
  destruct (str_to_int32_safe h o Hh ltac:(lia) ltac:(lia)) as [v ->]. rewrite bind_ok.
  destruct (negb (v =? tag "HTTP")); [done|].
  destruct (put_safe h e 0 Hh ltac:(lia)) as (h1 & -> & Hh1 & F1). rewrite bind_ok.
  eexists _, _, _, _. split; [done|]. split.
  - apply good_step; [done..|]. apply req_ok_set_protocol; [done|apply in_buf_ptr; lia].
  - split; [right; lia|done].
Qed.

Lemma parse_header_lines_safe fuel req h o :
  N <= 2 ^ 63 -> zero_tail h -> req_ok req -> 0 <= o -> n - o <= Z.of_nat fuel ->
  exists req' h' o', parse_header_lines b fuel req h o n = Ok (req', h', o') /\ good h h' req' /\
    (exists kv, req' = set_req_headers req kv).
Proof.
  intros H63. revert req h o. induction fuel as [|fuel IH]; intros req h o Hh Hr Ho Hf; cbn [parse_header_lines];
    (destruct (Z.ltb_spec o n) as [Hlt|Hge];
      [|exists req, h, o; split; [done|]; split; [by apply good_refl|apply set_headers_self] ]).
  { lia. }
  destruct (strchr_safe h o CR Hh ltac:(lia) ltac:(done)) as (e & -> & He). rewrite bind_ok. unfold UNLIKELY, LIKELY.
  destruct e as [e|]; [|exists req, h, o; split; [done|]; split; [by apply good_refl|apply set_headers_self] ].
  destruct He as [He _]. rewrite u64_small by lia.
  destruct (Z.ltb_spec (e - o) 5); [exists req, h, e; split; [done|]; split; [by apply good_refl|apply set_headers_self]|].
  destruct (strchr_safe h o COLON Hh ltac:(lia) ltac:(done)) as (sep & -> & Hsep). rewrite bind_ok.
  assert (Hbr : exists req1 h1,
    (match sep with
     | Some sep => if sep <? e then
         h0 ← put b h sep 0; h0 ← put b h0 e 0;
         '(kv, h0) ← kv_set_ignored (req_headers req) (Ptr b o) (Ptr b (sep + 2)) h0;
         Ok (set_req_headers req kv, h0)
       else Ok (req, h)
     | None => Ok (req, h) end) = Ok (req1, h1) /\ good h h1 req1 /\ exists kv, req1 = set_req_headers req kv).
  { destruct sep as [sep|]; [|stop_at req h]. destruct (Z.ltb_spec sep e); [|stop_at req h].
    destruct Hsep as [Hsep _]. destruct (put_safe h sep 0 Hh ltac:(lia)) as (h1 & -> & Hh1 & F1). rewrite bind_ok.
    destruct (put_safe h1 e 0 Hh1 ltac:(lia)) as (h2 & -> & Hh2 & F2). rewrite bind_ok.
    destruct (kv_set_safe (req_headers req) (Ptr b o) (Ptr b (sep + 2)) h2) as (kv & -> & Hkv);
      [apply Hr|apply in_buf_ptr; lia..|]. rewrite bind_ok.
    eexists _, _. split; [done|]. split; [|by eexists].
    apply good_step; [done|by apply (frame_trans h h1 h2)|by apply req_ok_set_headers]. }
  destruct Hbr as (req1 & h1 & -> & (Hh1 & F1 & Hr1) & kv & ->). rewrite bind_ok.
  destruct (IH (set_req_headers req kv) h1 (e + 2) Hh1 Hr1 ltac:(lia) ltac:(lia)) as (req' & h' & o' & E & G & kv' & ->).
  eexists _, _, _. split; [exact E|]. split; [by apply (good_trans h h1)|by eexists].
Qed.
(** The pairs of a list are C strings. *)
Definition strings_ok (h : heap) (kv : kv) : Prop :=
  exists l, holds kv l /\
    Forall (fun p => exists k v, load_cstr (mem h) (key p) = Ok k /\ load_cstr (mem h) (value p) = Ok v) l.

Lemma kv_ok_strings h kv : zero_tail h -> kv_ok kv -> strings_ok h kv.
Proof.
  intros Hh (l & Hl & _ & Hf). exists l. split; [done|]. eapply Forall_impl; [done|].
  intros p [Hk Hv]. destruct (in_buf_cstr h _ Hh Hk) as [k ?], (in_buf_cstr h _ Hh Hv) as [v ?]. eauto.
Qed.

Lemma is_null_in_buf p : p = NULL \/ in_buf p -> is_null p = false -> in_buf p.
Proof. intros [->|]; done. Qed.

(** The whole parser, on a request whose pointers are still null. *)
Lemma http_parse_request_run req h :
  11 <= N -> N <= 2 ^ 63 -> zero_tail h -> req_ok req -> path req = NULL -> protocol req = NULL ->
  exists ret req' h', http_parse_request b req h n = Ok (ret, req', h') /\ good h h' req' /\
    (ret = 0 \/ ret = 1 /\ method req' <> 0 /\ in_buf (path req') /\ in_buf (protocol req')).
Proof.
  intros H11 H63 Hh Hr Hpath Hprot. unfold http_parse_request, UNLIKELY.
  destruct (http_parse_method_safe req h Hh Hr) as (r & req1 & o1 & -> & Hr1 & Ho1 & Hreq1). rewrite bind_ok.
  assert (path req1 = NULL /\ protocol req1 = NULL) as [Hp1 Hq1] by (destruct Hreq1 as [->|[x ->] ]; done).
  destruct (Z.eqb_spec (method req1) 0) as [|Hm].
  { eexists _, _, _. split; [done|]. split; [by apply good_refl|by left]. }
  destruct (trim_spaces_safe (Z.to_nat (n - o1)) h o1 Hh) as (o2 & -> & Ho2 & Ho2'); [lia..|]. rewrite bind_ok.
  destruct (http_parse_path_safe req1 h o2) as (r3 & req3 & h3 & o3 & -> & G3 & Ho3 & Hq3 & Hm3); [lia|done|done|done|lia|lia|].
  rewrite bind_ok. destruct (is_null (path req3)) eqn:Hp3.
  { eexists _, _, _. split; [done|]. split; [done|by left]. }
  destruct Ho3 as [Ho3|Ho3]; [by rewrite Ho3, Hp1 in Hp3|].
  destruct G3 as (Hh3 & F3 & Hr3).
  destruct (http_parse_protocol_safe req3 h3 o3) as (r4 & req4 & h4 & o4 & -> & G4 & Ho4 & Hp4 & Hm4); [done..|].
  rewrite bind_ok. destruct (is_null (protocol req4)) eqn:Hq4.
  { eexists _, _, _. split; [done|]. split; [by apply (good_trans h h3)|by left]. }
  destruct Ho4 as [Ho4|Ho4]; [by rewrite Ho4, Hq3, Hq1 in Hq4|].
  destruct G4 as (Hh4 & F4 & Hr4). unfold http_parse_headers.
  destruct (parse_header_lines_safe (Z.to_nat (n - o4)) req4 h4 o4) as (req5 & h5 & o5 & -> & G5 & kv & ->);
    [done|done|done|lia|lia|].
  rewrite !bind_ok. eexists _, _, _. split; [done|]. split.
  - by apply (good_trans h h3), (good_trans h3 h4).
  - right. split; [done|]. simpl. split; [congruence|]. destruct Hr4 as (Hp & Hq & _).
    split; apply is_null_in_buf; try done. by rewrite Hp4.
Qed.
End safe.

(** ** Properties *)

(** C10.  Memory safety of [http_parse_request] on arbitrary bytes.  Whatever was
    received (NULs, truncated lines, a four-byte [OPTI] whose method is seven
    bytes long), as long as the unused tail of the buffer is zero and not empty,
    the parser terminates, faults nowhere, changes no other object and leaves the
    tail zero.  If it returns 1, a method was recognised and the path, the
    protocol and every stored header and query pair are C strings. *)
Theorem http_parse_request_safe (b : block) (n N : Z) (h : heap) (req : http_request)
    (Hn : 0 <= n < N) (HN : 11 <= N <= 2 ^ 63) (Hh : zero_tail b n N h)
    (Hquery : kv_ok b N (query req)) (Hheaders : kv_ok b N (req_headers req))
    (Hpath : path req = NULL) (Hprotocol : protocol req = NULL) :
  exists ret req' h', http_parse_request b req h n = Ok (ret, req', h') /\
    zero_tail b n N h' /\ frame b h h' /\
    strings_ok h' (query req') /\ strings_ok h' (req_headers req') /\
    (ret = 0 \/ ret = 1 /\ method req' <> 0 /\
       (exists s, load_cstr (mem h') (path req') = Ok s) /\
       (exists s, load_cstr (mem h') (protocol req') = Ok s)).
Proof.
  destruct (http_parse_request_run b n N Hn req h) as (ret & req' & h' & E & (Hh' & F & Hr) & Hret);
    [lia|lia|done| |done|done|].
  { split_and!; [by left|by left|done|done]. }
  exists ret, req', h'. split_and!; [done..| | |].
  - apply (kv_ok_strings b n N Hn); [done|apply Hr].
  - apply (kv_ok_strings b n N Hn); [done|apply Hr].
  - destruct Hret as [|(-> & Hm & Hp & Hq)]; [by left|right].
    split_and!; [done|done|by apply (in_buf_cstr b n N Hn)..].
Qed.

Lemma kv_ok_init b N : kv_ok b N (KV_INIT_WITH_BUF (replicate 20 None) 20).
Proof. exists []. split; [by apply holds_init_with_buf|]. split; [done|constructor]. Qed.

Lemma http_parse_request_safe_witness :
  exists ret req' h', http_parse_request 1 empty_request
    (Heap {[1%positive := bytes_of_string "OPTI" ++ replicate 12 0]} []) 4 = Ok (ret, req', h') /\ ret = 0.
Proof.
  destruct (http_parse_request_safe 1 4 16 (Heap {[1%positive := bytes_of_string "OPTI" ++ replicate 12 0]} [])
              empty_request) as (ret & req' & h' & E & _ & _ & _ & _ & R).
  - lia.
  - lia.
  - eexists. split; [reflexivity|]. split; [reflexivity|]. intros i Hi.
    rewrite lookup_app_r by (simpl; lia). apply lookup_replicate. simpl. split; [done|lia].
  - apply kv_ok_init.
  - apply kv_ok_init.
  - reflexivity.
  - reflexivity.
  - exists ret, req', h'. split; [exact E|]. destruct R as [|(-> & _)]; [done|].
    vm_compute in E. discriminate E.
Defined.
