(* ===== verification/HttpParserRef.v ===== *)
(** * The request parser computes a reference parser

    [ref_parse] is a parser by slicing, without buffers or pointers.  On a request
    text without NUL, the in-place parser accepts exactly what [ref_parse]
    accepts, and the pointers it stores read back as the slices, although the
    buffer has been overwritten in between: the writes go from left to right, so
    a string that has been terminated is never touched again. *)

From S2P Require Import Prelude CMem Kv Http HttpParser.
Open Scope Z_scope.

(** ** The reference *)

(** Everything before and after the first [c]. *)
Fixpoint split_at (c : Z) (s : bytes) : option (bytes * bytes) :=
  match s with
  | [] => None
  | x :: s =>
      if x =? c then Some ([], s)
      else match split_at c s with Some (u, v) => Some (x :: u, v) | None => None end
  end.

(** [k=v&k=v...]; stops at the first piece without [=]. *)
Fixpoint ref_query (fuel : nat) (s : bytes) : list (bytes * bytes) :=
  match fuel with
  | O => []
  | S fuel =>
      match split_at EQUALS s with
      | None => []
      | Some (k, rest) =>
          match split_at AMPERSAND rest with
          | None => [(k, rest)]
          | Some (v, rest) => (k, v) :: ref_query fuel rest
          end
      end
  end.

(** Lines up to [\r]; a line shorter than five bytes ends the section, a line
    without colon is skipped, and one byte after the colon is dropped. *)
Fixpoint ref_headers (fuel : nat) (s : bytes) : list (bytes * bytes) :=
  match fuel with
  | O => []
  | S fuel =>
      match split_at CR s with
      | None => []
      | Some (line, rest) =>
          if (length line <? 5)%nat then []
          else
            match split_at COLON line with
            | Some (k, v) => [(k, drop 1 v)]
            | None => []
            end ++ ref_headers fuel (drop 1 rest)
      end
  end.

(** No header line ends with its colon. *)
Fixpoint headers_valued (fuel : nat) (s : bytes) : Prop :=
  match fuel with
  | O => True
  | S fuel =>
      match split_at CR s with
      | None => True
      | Some (line, rest) =>
          (length line < 5)%nat \/
          (match split_at COLON line with Some (_, v) => v <> [] | None => True end /\
           headers_valued fuel (drop 1 rest))
      end
  end.

Fixpoint drop_spaces (s : bytes) : bytes :=
  match s with
  | c :: s' => if c =? SPACE then drop_spaces s' else s
  | [] => []
  end.

Record parsed := Parsed {
  p_method : Z;
  p_path : bytes;
  p_query : list (bytes * bytes);
  p_protocol : bytes;
  p_header_text : bytes;
  p_headers : list (bytes * bytes)
}.

Definition ref_method (s : bytes) : option method_entry :=
  match s with
  | a :: b :: c :: d :: _ => find_method methods (STR_TO_INT32 a b c d)
  | _ => None
  end.

Definition ref_path (s : bytes) : option (bytes * bytes) :=
  if (length s <? 13)%nat then None
  else match s with c :: _ => if c =? SLASH then split_at SPACE s else None | [] => None end.

Definition ref_target (target : bytes) : bytes * list (bytes * bytes) :=
  match split_at QUESTION target with
  | Some (p, qs) => (p, ref_query (length qs) qs)
  | None => (target, [])
  end.

Definition ref_protocol (s : bytes) : option (bytes * bytes) :=
  if (length s <? 11)%nat then None
  else
    '(proto, rest) ← split_at CR s;
    if bool_decide (take 4 s = bytes_of_string "HTTP") then Some (proto, rest) else None.

Definition ref_parse (text : bytes) : option parsed :=
  e ← ref_method text;
  '(target, s) ← ref_path (drop_spaces (drop (Z.to_nat (mlength e)) text));
  '(proto, rest) ← ref_protocol s;
  let hs := drop 1 rest in
  Some (Parsed (mask e) (ref_target target).1 (ref_target target).2 proto hs (ref_headers (length hs) hs)).

Example sample_ref :
  ref_parse sample_request =
  Some (Parsed METHOD_GET (bytes_of_string "/fib")
          [(bytes_of_string "n", bytes_of_string "3"); (bytes_of_string "m", bytes_of_string "x")]
          (bytes_of_string "HTTP/1.1") (bytes_of_string "Host: me" ++ CRLF ++ CRLF)
          [(bytes_of_string "Host", bytes_of_string "me")]).
Proof. vm_compute. reflexivity. Qed.

(** ** Splitting *)

Lemma split_at_some c s u v : split_at c s = Some (u, v) -> s = u ++ c :: v /\ c ∉ u.
Proof.
  revert u v. induction s as [|x s IH]; intros u v; simpl; [done|].
  destruct (Z.eqb_spec x c) as [->|Hx].
  - intros [= <- <-]. split; [done|apply not_elem_of_nil].
  - destruct (split_at c s) as [ [u' v'] |]; [|done]. intros [= <- <-].
    destruct (IH u' v' eq_refl) as [-> ?]. split; [done|]. by apply not_elem_of_cons.
Qed.

Lemma split_at_none c s : split_at c s = None -> c ∉ s.
Proof.
  induction s as [|x s IH]; simpl; intros E; [apply not_elem_of_nil|].
  destruct (Z.eqb_spec x c) as [->|Hx]; [done|]. destruct (split_at c s) as [ [] |]; [done|].
  apply not_elem_of_cons. auto.
Qed.

Lemma split_at_app c u v : c ∉ u -> split_at c (u ++ c :: v) = Some (u, v).
Proof.
  induction u as [|x u IH]; simpl; intros Hc; [by rewrite Z.eqb_refl|].
  apply not_elem_of_cons in Hc as [Hx Hc]. destruct (Z.eqb_spec x c); [congruence|]. by rewrite IH.
Qed.

(** ** The buffer, split at the parser's position *)

Section buffer.
Context (b : block).

(** The block is [pre ++ suf]; [pre] is final, [suf] still as received. *)
Definition at_pos (h : heap) (pre suf : bytes) : Prop := mem h !! b = Some (pre ++ suf).

(** [s] is terminated inside the final part, from offset [o] on. *)
Definition str_in (pre : bytes) (o : Z) (s : bytes) : Prop :=
  exists (i : nat) r, o = Z.of_nat i /\ drop i pre = s ++ 0 :: r /\ 0 ∉ s.

Lemma str_in_app pre x o s : str_in pre o s -> str_in (pre ++ x) o s.
Proof.
  intros (i & r & -> & Hd & Hs). exists i, (r ++ x). split; [done|]. split; [|done].
  assert (i <= length pre)%nat.
  { destruct (Nat.le_gt_cases i (length pre)); [done|]. rewrite drop_ge in Hd by lia. by destruct s. }
  rewrite drop_app_le, Hd, <- app_assoc by done. done.
Qed.

Lemma str_in_intro pre s r : 0 ∉ s -> str_in (pre ++ s ++ 0 :: r) (Z.of_nat (length pre)) s.
Proof. intros Hs. exists (length pre), r. split; [done|]. by rewrite drop_app_length. Qed.

Lemma str_in_load h pre suf o s : at_pos h pre suf -> str_in pre o s -> load_cstr (mem h) (Ptr b o) = Ok s.
Proof.
  intros Hb Hs. apply (str_in_app _ suf) in Hs as (i & r & -> & Hd & Hs). by eapply load_cstr_block.
Qed.

Definition pos (pre : bytes) : Z := Z.of_nat (length pre).

Lemma pos_app u v : pos (u ++ v) = pos u + pos v.
Proof. unfold pos. rewrite length_app. lia. Qed.

(** Closes [at_pos] goals that differ by associativity. *)
Ltac apps H := unfold at_pos in *; rewrite H; f_equal;
  repeat (rewrite <- ?app_assoc; cbn [app]); reflexivity.

Lemma get_at h pre c suf : at_pos h pre (c :: suf) -> get b h (pos pre) = Ok c.
Proof.
  intros Hb. unfold get, pos. apply (load_block _ _ _ _ _ Hb). by rewrite lookup_app_r, Nat.sub_diag by lia.
Qed.

Lemma strchr_here h pre u c v :
  at_pos h pre (u ++ c :: v) -> 0 ∉ u -> c ∉ u -> strchr_off b h (pos pre) c = Ok (Some (pos (pre ++ u))).
Proof.
  intros Hb H0 Hc. unfold strchr_off, strchr, object, pos. rewrite Hb, bind_ok.
  rewrite suffix_ok, bind_ok, drop_app_length, find_char_here by (done || rewrite length_app; lia).
  cbn [of_option]. rewrite !bind_ok. cbn [ptr_add]. rewrite length_app. do 2 f_equal. lia.
Qed.

Lemma strchr_nowhere h pre u c v :
  at_pos h pre (u ++ 0 :: v) -> 0 ∉ u -> c ∉ u -> c <> 0 -> strchr_off b h (pos pre) c = Ok None.
Proof.
  intros Hb H0 Hc Hc0. unfold strchr_off, strchr, object, pos. rewrite Hb, bind_ok.
  rewrite suffix_ok, bind_ok, drop_app_length, find_char_nul by (done || rewrite length_app; lia).
  done.
Qed.

Lemma put_at h pre u c v x :
  at_pos h pre (u ++ c :: v) ->
  exists h', put b h (pos (pre ++ u)) x = Ok h' /\ at_pos h' (pre ++ u ++ [x]) v /\
    (forall b', b' <> b -> mem h' !! b' = mem h !! b').
Proof.
  intros Hb. unfold put, pos. rewrite (store_block _ _ _ _ _ Hb), bind_ok by
    (rewrite !length_app; simpl; lia).
  eexists. split; [done|]. split; [|intros b' ?; simpl; by rewrite lookup_insert_ne].
  unfold at_pos. simpl mem. rewrite lookup_insert_eq. f_equal.
  rewrite (app_assoc pre u (c :: v)), insert_app_r_alt, Nat.sub_diag by lia.
  simpl. by rewrite <- !app_assoc.
Qed.
(** A search that is not satisfied before [d] ends behind it. *)
Lemma strchr_past h pre u d t z c :
  at_pos h pre (u ++ d :: t ++ 0 :: z) -> 0 ∉ u -> 0 ∉ t -> d <> 0 -> c ∉ u -> c <> d -> c <> 0 ->
  strchr_off b h (pos pre) c = Ok None \/
  exists o, strchr_off b h (pos pre) c = Ok (Some o) /\ pos (pre ++ u) <= o.
Proof.
  intros Hb H0 Ht Hd Hcu Hcd Hc0. destruct (split_at c t) as [ [t1 t2] |] eqn:E.
  - apply split_at_some in E as [-> Hc]. right. exists (pos (pre ++ u ++ d :: t1)).
    split; [|rewrite !pos_app; unfold pos; simpl; lia].
    apply (strchr_here _ _ (u ++ d :: t1) c (t2 ++ 0 :: z)).
    + apps Hb.
    + set_solver.
    + set_solver.
  - apply split_at_none in E. left. apply (strchr_nowhere _ _ (u ++ d :: t) c z); [apps Hb|set_solver..|done].
Qed.

Definition pair_in (pre : bytes) (p : kv_pair) (kv : bytes * bytes) : Prop :=
  exists ok ov, key p = Ptr b ok /\ str_in pre ok kv.1 /\ value p = Ptr b ov /\ str_in pre ov kv.2.

Lemma pair_in_app pre x p kv : pair_in pre p kv -> pair_in (pre ++ x) p kv.
Proof. intros (ok & ov & ? & ? & ? & ?). exists ok, ov. split_and!; auto using str_in_app. Qed.

Definition provided (kv : kv) : Prop := Z.land (flag kv) KV_FLAG_MALLOC = 0.

Definition same_others (h h' : heap) : Prop := forall b', b' <> b -> mem h' !! b' = mem h !! b'.

Lemma same_others_trans h1 h2 h3 : same_others h1 h2 -> same_others h2 h3 -> same_others h1 h3.
Proof. intros H1 H2 b' Hb'. by rewrite H2, H1. Qed.

(** [kv'] is [kv] with the pairs [ps] added, as far as they fit. *)
Definition extends (kv kv' : kv) (l ps : list kv_pair) : Prop :=
  holds kv' (take (Z.to_nat (kv_capacity kv)) (l ++ ps)) /\ flag kv' = flag kv /\
  kv_capacity kv' = kv_capacity kv.

Lemma extends_nil kv l : holds kv l -> extends kv kv l [].
Proof.
  intros Hl. pose proof (holds_room kv l Hl). pose proof Hl as (Hs & _).
  split; [|done]. by rewrite app_nil_r, take_ge by lia.
Qed.

Lemma extends_one kv l k v h : holds kv l -> provided kv ->
  exists kv', kv_set_ignored kv k v h = Ok (kv', h) /\ extends kv kv' l [Kv_pair k v].
Proof. intros Hl Hp. destruct (kv_set_ignored_provided kv l k v h Hl Hp) as (kv' & E & ?). by exists kv'. Qed.

Lemma extends_trans kv kv1 kv2 l p ps :
  extends kv kv1 l [p] ->
  extends kv1 kv2 (take (Z.to_nat (kv_capacity kv)) (l ++ [p])) ps -> extends kv kv2 l (p :: ps).
Proof.
  intros (H1 & F1 & C1) (H2 & F2 & C2). rewrite C1, take_take_app, <- app_assoc in H2.
  split; [done|]. split; congruence.
Qed.

Lemma set_query_query req : set_query req (query req) = req.
Proof. by destruct req. Qed.
Lemma set_headers_headers req : set_req_headers req (req_headers req) = req.
Proof. by destruct req. Qed.

(** The pair of a key [k] ended at its separator and a value ended at the next. *)
Lemma pair_in_intro pre k v o :
  0 ∉ k -> 0 ∉ v -> o = pos (pre ++ k ++ [0]) ->
  pair_in (pre ++ k ++ [0] ++ v ++ [0]) (Kv_pair (Ptr b (pos pre)) (Ptr b o)) (k, v).
Proof.
  intros Hk Hv ->. exists (pos pre), (pos (pre ++ k ++ [0])). split; [done|]. split; [by apply str_in_intro|].
  split; [done|]. replace (pre ++ k ++ [0] ++ v ++ [0]) with ((pre ++ k ++ [0]) ++ v ++ 0 :: []) by by rewrite <- !app_assoc.
  by apply str_in_intro.
Qed.

(** A run [r] of the query loop, at [qs] behind [pre]. *)
Definition query_done (rf : nat) (req : http_request) (h : heap) (pre qs t z : bytes) (l : list kv_pair)
    (r : result (http_request * heap)) : Prop :=
  exists kv' h' qs' ps,
    r = Ok (set_query req kv', h') /\
    at_pos h' (pre ++ qs') (SPACE :: t ++ 0 :: z) /\ length qs' = length qs /\
    extends (query req) kv' l ps /\ same_others h h' /\
    Forall2 (pair_in (pre ++ qs' ++ [0])) ps (ref_query rf qs).

Definition query_ok (fuel : nat) : Prop := forall rf req h pre qs t z l,
  at_pos h pre (qs ++ SPACE :: t ++ 0 :: z) -> 0 ∉ qs -> 0 ∉ t ->
  holds (query req) l -> provided (query req) -> (length qs <= fuel)%nat -> (length qs <= rf)%nat ->
  query_done rf req h pre qs t z l (parse_query b fuel req h (pos pre) (pos (pre ++ qs))).

(** Nothing more to read. *)
Lemma query_stop rf req h pre qs t z l r :
  at_pos h pre (qs ++ SPACE :: t ++ 0 :: z) -> holds (query req) l -> ref_query rf qs = [] -> r = Ok (req, h) ->
  query_done rf req h pre qs t z l r.
Proof.
  intros Hb Hl Hq ->. exists (query req), h, qs, []. rewrite set_query_query, Hq.
  split_and!; [done|apps Hb|done|by apply extends_nil|done|done].
Qed.

(** The value of the key [k], with the loop's next turns. *)
Lemma query_value fuel rf req h h1 kv1 pre k rest t z l :
  query_ok fuel -> at_pos h1 (pre ++ k ++ [0]) (rest ++ SPACE :: t ++ 0 :: z) -> 0 ∉ k -> 0 ∉ rest -> 0 ∉ t ->
  EQUALS ∉ k -> provided (query req) -> (length rest <= fuel)%nat -> (length rest <= rf)%nat ->
  extends (query req) kv1 l [Kv_pair (Ptr b (pos pre)) (Ptr b (pos (pre ++ k ++ [0])))] -> same_others h h1 ->
  query_done (S rf) req h pre (k ++ EQUALS :: rest) t z l
    (e ← strchr_off b h1 (pos (pre ++ k ++ [0])) AMPERSAND;
     match e with
     | None => Ok (set_query req kv1, h1)
     | Some e =>
         if pos (pre ++ k ++ EQUALS :: rest) <=? e then Ok (set_query req kv1, h1)
         else h ← put b h1 e 0; parse_query b fuel (set_query req kv1) h (e + 1) (pos (pre ++ k ++ EQUALS :: rest))
     end).
Proof.
  intros IH Hb1 Hk0 Hrest0 Ht Hk Hp Hf Hrf X1 S1.
  assert (Href : ref_query (S rf) (k ++ EQUALS :: rest) =
    match split_at AMPERSAND rest with Some (v, rest') => (k, v) :: ref_query rf rest' | None => [(k, rest)] end).
  { cbn [ref_query]. by rewrite split_at_app. }
  assert (Hsep : pos (pre ++ k) + 1 = pos (pre ++ k ++ [0])) by (rewrite !pos_app; unfold pos; simpl; lia).
  assert (Hend : pos (pre ++ k ++ EQUALS :: rest) = pos (pre ++ k ++ [0]) + pos rest) by (rewrite !pos_app; unfold pos; simpl; lia).
  destruct (split_at AMPERSAND rest) as [ [v rest'] |] eqn:E.
  - apply split_at_some in E as [-> Hv]. assert (Hv0 : 0 ∉ v) by set_solver.
    assert (Hrest0' : 0 ∉ rest') by set_solver. rewrite <- app_assoc in Hb1. cbn [app] in Hb1.
    rewrite (strchr_here h1 _ v AMPERSAND _ Hb1), bind_ok by done.
    set (pre2 := (pre ++ k ++ [0]) ++ v ++ [0]). rewrite Hend.
    destruct (Z.leb_spec (pos (pre ++ k ++ [0]) + pos (v ++ AMPERSAND :: rest')) (pos ((pre ++ k ++ [0]) ++ v))) as [Hle|_].
    { rewrite (pos_app (pre ++ k ++ [0]) v), (pos_app v) in Hle. unfold pos in Hle. simpl in Hle. lia. }
    destruct (put_at h1 _ v AMPERSAND _ 0 Hb1) as (h2 & -> & Hb2 & S2). rewrite bind_ok.
    replace (pos ((pre ++ k ++ [0]) ++ v) + 1) with (pos pre2) by (unfold pre2; rewrite !pos_app; unfold pos; simpl; lia).
    replace (pos (pre ++ k ++ [0]) + pos (v ++ AMPERSAND :: rest')) with (pos (pre2 ++ rest'))
      by (unfold pre2; rewrite !pos_app; unfold pos; simpl; lia).
    destruct X1 as (Hl1 & F1 & C1). rewrite length_app in Hf, Hrf. simpl in Hf, Hrf.
    destruct (IH rf (set_query req kv1) h2 pre2 rest' t z _ Hb2 Hrest0' Ht Hl1) as
      (kv' & h' & qs' & ps & -> & Hb' & Hlen & X & S' & HF); [unfold provided; cbn [query set_query]; by rewrite F1|lia|lia|].
    exists kv', h', (k ++ [0] ++ v ++ [0] ++ qs'). eexists. split; [done|]. split; [subst pre2; apps Hb'|].
    split; [rewrite !length_app; simpl; rewrite !length_app; simpl; lia|].
    split; [eapply extends_trans; [by split|exact X]|].
    split; [by apply (same_others_trans h h1), (same_others_trans h1 h2)|].
    rewrite Href. constructor; [|subst pre2; by rewrite <- !app_assoc in HF |- *].
    replace (pre ++ (k ++ [0] ++ v ++ [0] ++ qs') ++ [0])
      with ((pre ++ k ++ [0] ++ v ++ [0]) ++ qs' ++ [0]) by by rewrite <- !app_assoc.
    by apply pair_in_app, pair_in_intro.
  - apply split_at_none in E. exists kv1, h1, (k ++ 0 :: rest). eexists.
    split; [|split; [apps Hb1|split; [by rewrite !length_app|split; [exact X1|split; [done|] ] ] ] ].
    + destruct (strchr_past h1 (pre ++ k ++ [0]) rest SPACE t z AMPERSAND Hb1) as [->|(o & -> & Ho)]; try done.
      rewrite bind_ok, Hend. rewrite pos_app in Ho. by destruct (Z.leb_spec (pos (pre ++ k ++ [0]) + pos rest) o); [|lia].
    + rewrite Href. constructor; [|constructor].
      replace (pre ++ (k ++ 0 :: rest) ++ [0]) with (pre ++ k ++ [0] ++ rest ++ [0]) by by rewrite <- !app_assoc.
      by apply pair_in_intro.
Qed.

Lemma query_ok_all fuel : query_ok fuel.
Proof.
  induction fuel as [|fuel IH]; intros rf req h pre qs t z l Hb Hqs Ht Hl Hp Hf Hrf.
  { destruct qs; [|simpl in Hf; lia]. apply query_stop; [done..|by destruct rf|].
    rewrite app_nil_r. cbn [parse_query]. by rewrite Z.ltb_irrefl. }
  cbn [parse_query]. destruct (Z.ltb_spec (pos pre) (pos (pre ++ qs))) as [Hlt|Hge].
  2: { destruct qs as [|? ?]; [|rewrite pos_app in Hge; unfold pos in Hge; simpl in Hge; lia].
       apply query_stop; [done..|by destruct rf|done]. }
  destruct rf as [|rf]; [destruct qs; [|simpl in Hrf; lia]; rewrite app_nil_r in Hlt; lia|].
  destruct (split_at EQUALS qs) as [ [k rest] |] eqn:E.
  2: { apply query_stop; [done..|by cbn [ref_query]; rewrite E|]. apply split_at_none in E.
       destruct (strchr_past h pre qs SPACE t z EQUALS) as [->|(o & -> & Ho)]; try done.
       rewrite bind_ok. by destruct (Z.leb_spec (pos (pre ++ qs)) o); [|lia]. }
  apply split_at_some in E as [-> Hk]. assert (Hk0 : 0 ∉ k) by set_solver. assert (Hrest0 : 0 ∉ rest) by set_solver.
  rewrite length_app in Hf, Hrf. cbn [length] in Hf, Hrf.
  assert (Hsuf : (k ++ EQUALS :: rest) ++ SPACE :: t ++ 0 :: z = k ++ EQUALS :: (rest ++ SPACE :: t ++ 0 :: z))
    by by rewrite <- app_assoc. rewrite Hsuf in Hb.
  rewrite (strchr_here h pre k EQUALS _ Hb), bind_ok by done.
  destruct (Z.leb_spec (pos (pre ++ k ++ EQUALS :: rest)) (pos (pre ++ k))) as [Hle|_].
  { rewrite !pos_app in Hle. unfold pos in Hle. simpl in Hle. lia. }
  destruct (put_at h pre k EQUALS _ 0 Hb) as (h1 & -> & Hb1 & S1). rewrite bind_ok.
  replace (pos (pre ++ k) + 1) with (pos (pre ++ k ++ [0])) by (rewrite !pos_app; unfold pos; simpl; lia).
  destruct (extends_one (query req) l (Ptr b (pos pre)) (Ptr b (pos (pre ++ k ++ [0]))) h1 Hl Hp) as (kv1 & -> & X1).
  rewrite bind_ok. apply (query_value fuel rf req h h1 kv1); try done; lia.
Qed.

Lemma parse_query_ref fuel rf req h pre qs t z l :
  at_pos h pre (qs ++ SPACE :: t ++ 0 :: z) -> 0 ∉ qs -> 0 ∉ t ->
  holds (query req) l -> provided (query req) -> (length qs <= fuel)%nat -> (length qs <= rf)%nat ->
  exists kv' h' qs' ps,
    parse_query b fuel req h (pos pre) (pos (pre ++ qs)) = Ok (set_query req kv', h') /\
    at_pos h' (pre ++ qs') (SPACE :: t ++ 0 :: z) /\ length qs' = length qs /\
    extends (query req) kv' l ps /\ same_others h h' /\
    Forall2 (pair_in (pre ++ qs' ++ [0])) ps (ref_query rf qs).
Proof. apply query_ok_all. Qed.

(** What the header loop does with [hs], the received text from [pos pre] on. *)
Definition lines_ok (fuel : nat) : Prop :=
  forall rf req h pre hs z l,
    at_pos h pre (hs ++ 0 :: z) -> 0 ∉ hs -> pos (pre ++ hs) <= INT_MAX ->
    holds (req_headers req) l -> provided (req_headers req) -> headers_valued rf hs ->
    (length hs <= fuel)%nat -> (length hs <= rf)%nat ->
    exists kv' h' start suf ps,
      parse_header_lines b fuel req h (pos pre) (pos (pre ++ hs)) = Ok (set_req_headers req kv', h', start) /\
      at_pos h' pre suf /\ extends (req_headers req) kv' l ps /\ same_others h h' /\
      Forall2 (pair_in (pre ++ suf)) ps (ref_headers rf hs).

Lemma lines_stop fuel rf req h pre hs z l o start :
  at_pos h pre (hs ++ 0 :: z) -> holds (req_headers req) l -> ref_headers rf hs = [] ->
  parse_header_lines b fuel req h o (pos (pre ++ hs)) = Ok (req, h, start) ->
  exists kv' h' start suf ps,
    parse_header_lines b fuel req h o (pos (pre ++ hs)) = Ok (set_req_headers req kv', h', start) /\
    at_pos h' pre suf /\ extends (req_headers req) kv' l ps /\ same_others h h' /\
    Forall2 (pair_in (pre ++ suf)) ps (ref_headers rf hs).
Proof.
  intros Hb Hl Hr E. exists (req_headers req), h, start, (hs ++ 0 :: z), []. rewrite set_headers_headers, Hr.
  split_and!; [done|done|by apply extends_nil|done|constructor].
Qed.

(** One byte is skipped after a [CR], or the text has ended there. *)
Lemma lines_skip fuel rf req h pre rest z l :
  lines_ok fuel ->
  at_pos h pre (rest ++ 0 :: z) -> 0 ∉ rest -> pos (pre ++ rest) <= INT_MAX ->
  holds (req_headers req) l -> provided (req_headers req) -> headers_valued rf (drop 1 rest) ->
  (length (drop 1 rest) <= fuel)%nat -> (length (drop 1 rest) <= rf)%nat ->
  exists kv' h' start suf ps,
    parse_header_lines b fuel req h (pos pre + 1) (pos (pre ++ rest)) = Ok (set_req_headers req kv', h', start) /\
    at_pos h' pre suf /\ extends (req_headers req) kv' l ps /\ same_others h h' /\
    Forall2 (pair_in (pre ++ suf)) ps (ref_headers rf (drop 1 rest)).
Proof.
  intros IH Hb H0 Hmax Hl Hp Hv Hf Hrf. destruct rest as [|y rest].
  - destruct (lines_stop fuel rf req h pre [] z l (pos pre + 1) (pos pre + 1)) as
      (kv' & h' & s & suf & ps & ?); try done; [by destruct rf| |by exists kv', h', s, suf, ps].
    rewrite app_nil_r. destruct fuel; cbn [parse_header_lines]; destruct (Z.ltb_spec (pos pre + 1) (pos pre)); done || lia.
  - apply not_elem_of_cons in H0 as [_ H0]. change (drop 1 (y :: rest)) with rest in *.
    assert (E : (pre ++ y :: rest) = (pre ++ [y]) ++ rest) by by rewrite <- app_assoc.
    destruct (IH rf req h (pre ++ [y]) rest z l) as (kv' & h' & s & suf & ps & E1 & Hb' & X & S & HF);
      [apps Hb|done|by rewrite <- E|done..|lia|lia|].
    exists kv', h', s, (y :: suf), ps. replace (pos pre + 1) with (pos (pre ++ [y])) by by rewrite pos_app.
    rewrite E. split; [done|]. split; [apps Hb'|]. split; [done|]. split; [done|].
    by rewrite <- app_assoc in HF.
Qed.

Lemma extends_app kv kv1 kv2 l p ps :
  extends kv kv1 l p ->
  extends kv1 kv2 (take (Z.to_nat (kv_capacity kv)) (l ++ p)) ps -> extends kv kv2 l (p ++ ps).
Proof.
  intros (H1 & F1 & C1) (H2 & F2 & C2). rewrite C1, take_take_app, <- app_assoc in H2.
  split; [done|]. split; congruence.
Qed.

(** A line with a colon adds a pair; a line without one is left as it is. *)
Lemma header_line_ref req h pre line rest z l :
  at_pos h pre (line ++ CR :: rest ++ 0 :: z) -> 0 ∉ line -> CR ∉ line -> 0 ∉ rest ->
  holds (req_headers req) l -> provided (req_headers req) ->
  match split_at COLON line with Some (_, v) => v <> [] | None => True end ->
  exists sep kv1 h1 line' ps,
    strchr_off b h (pos pre) COLON = Ok sep /\
    (match sep with
     | Some sep =>
         if LIKELY (sep <? pos (pre ++ line)) then
           h ← put b h sep 0;
           h ← put b h (pos (pre ++ line)) 0;
           '(kv, h) ← kv_set_ignored (req_headers req) (Ptr b (pos pre)) (Ptr b (sep + 2)) h;
           Ok (set_req_headers req kv, h)
         else Ok (req, h)
     | None => Ok (req, h)
     end) = Ok (set_req_headers req kv1, h1) /\
    at_pos h1 (pre ++ line') (rest ++ 0 :: z) /\ length line' = S (length line) /\
    extends (req_headers req) kv1 l ps /\ same_others h h1 /\
    Forall2 (pair_in (pre ++ line')) ps
      match split_at COLON line with Some (k, v) => [(k, drop 1 v)] | None => [] end.
Proof.
  intros Hb H0 Hcr Hrest Hl Hp Hv. destruct (split_at COLON line) as [ [k v] |] eqn:E.
  - apply split_at_some in E as [-> Hk]. destruct v as [|x v]; [done|]. clear Hv.
    assert (0 ∉ k) by set_solver. assert (Hv0 : 0 ∉ v) by set_solver.
    rewrite <- app_assoc in Hb. cbn [app] in Hb.
    exists (Some (pos (pre ++ k))). rewrite (strchr_here h pre k COLON _ Hb) by done.
    assert (Ho : pos (pre ++ k ++ COLON :: x :: v) = pos ((pre ++ k ++ [0]) ++ x :: v))
      by (rewrite !pos_app; unfold pos; simpl; lia).
    rewrite Ho. unfold LIKELY.
    assert (Hlt : pos (pre ++ k) < pos ((pre ++ k ++ [0]) ++ x :: v)) by (rewrite !pos_app; unfold pos; simpl; lia).
    destruct (Z.ltb_spec (pos (pre ++ k)) (pos ((pre ++ k ++ [0]) ++ x :: v))); [|lia].
    destruct (put_at h pre k COLON _ 0 Hb) as (h1 & -> & Hb1 & S1). rewrite bind_ok.
    destruct (put_at h1 (pre ++ k ++ [0]) (x :: v) CR (rest ++ 0 :: z) 0 Hb1) as (h2 & -> & Hb2 & S2). rewrite bind_ok.
    destruct (extends_one (req_headers req) l (Ptr b (pos pre)) (Ptr b (pos (pre ++ k) + 2)) h2 Hl Hp) as (kv1 & -> & X1).
    rewrite bind_ok. exists kv1, h2, (k ++ [0] ++ x :: v ++ [0]). eexists. split; [done|].
    split; [done|]. split; [apps Hb2|]. split; [rewrite !length_app; simpl; rewrite length_app; simpl; lia|].
    split; [exact X1|]. split; [by apply (same_others_trans h h1)|].
    constructor; [|constructor]. exists (pos pre), (pos (pre ++ k) + 2). cbn [key value fst snd drop].
    split; [done|]. split; [by apply str_in_intro|]. split; [done|].
    replace (pos (pre ++ k) + 2) with (pos (pre ++ k ++ [0; x])) by (rewrite !pos_app; unfold pos; simpl; lia).
    replace (pre ++ k ++ [0] ++ x :: v ++ [0]) with ((pre ++ k ++ [0; x]) ++ v ++ 0 :: []) by by rewrite <- !app_assoc.
    by apply str_in_intro.
  - apply split_at_none in E.
    assert (Hs : exists sep, strchr_off b h (pos pre) COLON = Ok sep /\
      (match sep with Some o => pos (pre ++ line) <= o | None => True end)).
    { destruct (strchr_past h pre line CR rest z COLON Hb) as [E'|(o & E' & Ho)]; try done; eauto. }
    destruct Hs as (sep & Hs & Hle).
    exists sep, (req_headers req), h, (line ++ [CR]), []. rewrite set_headers_headers. split; [done|].
    split; [|split_and!; [apps Hb|by rewrite length_app, Nat.add_comm|by apply extends_nil|done|constructor] ].
    destruct sep as [o|]; [|done]. unfold LIKELY. destruct (Z.ltb_spec o (pos (pre ++ line))); done || lia.
Qed.

(** A line of at least five bytes, and the lines after it. *)
Lemma lines_line fuel rf req h pre line rest z l :
  lines_ok fuel -> split_at CR (line ++ CR :: rest) = Some (line, rest) ->
  u64 (pos (pre ++ line) - pos pre) = Z.of_nat (length line) -> (5 <= length line)%nat ->
  at_pos h pre (line ++ CR :: rest ++ 0 :: z) -> 0 ∉ line -> CR ∉ line -> 0 ∉ rest ->
  pos (pre ++ line ++ CR :: rest) <= INT_MAX -> holds (req_headers req) l -> provided (req_headers req) ->
  match split_at COLON line with Some (_, v) => v <> [] | None => True end -> headers_valued rf (drop 1 rest) ->
  (length rest <= fuel)%nat -> (length rest <= rf)%nat ->
  exists kv' h' start suf ps,
    parse_header_lines b (S fuel) req h (pos pre) (pos (pre ++ line ++ CR :: rest)) = Ok (set_req_headers req kv', h', start) /\
    at_pos h' pre suf /\ extends (req_headers req) kv' l ps /\ same_others h h' /\
    Forall2 (pair_in (pre ++ suf)) ps (ref_headers (S rf) (line ++ CR :: rest)).
Proof.
  intros IH E Hu Hlong Hb Hline Hcr Hrest Hmax Hl Hp Hv1 Hv2 Hf Hrf.
  destruct (header_line_ref req h pre line rest z l Hb Hline Hcr Hrest Hl Hp Hv1) as
    (sep & kv1 & h1 & line' & ps1 & E1 & E2 & Hb1 & Hlen & X1 & S1 & HF1).
  pose proof X1 as (Hl1 & F1 & C1).
  assert (Hp' : pos (pre ++ line ++ CR :: rest) = pos ((pre ++ line') ++ rest))
    by (rewrite !pos_app; unfold pos; simpl; lia).
  assert (Hpl : pos (pre ++ line') = pos (pre ++ line) + 1) by (rewrite !pos_app; unfold pos; lia).
  destruct (lines_skip fuel rf (set_req_headers req kv1) h1 (pre ++ line') rest z
    (take (Z.to_nat (kv_capacity (req_headers req))) (l ++ ps1)) IH Hb1 Hrest) as
    (kv2 & h2 & s & suf & ps2 & E3 & Hb2 & X2 & S2 & HF2);
    [by rewrite <- Hp'|exact Hl1|unfold provided; cbn [req_headers set_req_headers]; by rewrite F1|done|rewrite length_drop; lia..|].
  exists kv2, h2, s, (line' ++ suf), (ps1 ++ ps2).
  split; [|split; [apps Hb2|split; [by eapply extends_app|split; [by apply (same_others_trans h h1)|] ] ] ].
  - cbn [parse_header_lines]. destruct (Z.ltb_spec (pos pre) (pos (pre ++ line ++ CR :: rest))); [|rewrite pos_app in *; unfold pos in *; rewrite length_app in *; simpl in *; lia].
    rewrite (strchr_here h pre line CR _ Hb), bind_ok, Hu by done.
    unfold UNLIKELY at 1. destruct (Z.ltb_spec (Z.of_nat (length line)) 5); [lia|].
    rewrite E1, bind_ok. etransitivity; [apply (f_equal (fun r => mbind _ r) E2)|]. rewrite bind_ok.
    rewrite Hp'. replace (pos (pre ++ line) + 2) with (pos (pre ++ line') + 1) by lia. exact E3.
  - cbn [ref_headers]. rewrite E. destruct (Nat.ltb_spec (length line) 5); [lia|].
    rewrite app_assoc. apply Forall2_app; [|done].
    eapply Forall2_impl; [exact HF1|]. intros. by apply pair_in_app.
Qed.

Lemma lines_ok_all fuel : lines_ok fuel.
Proof.
  induction fuel as [|fuel IH]; intros rf req h pre hs z l Hb H0 Hmax Hl Hp Hv Hf Hrf.
  { destruct hs; [|simpl in Hf; lia]. apply (lines_stop _ _ _ _ _ _ z _ _ (pos pre)); [done..|by destruct rf|].
    rewrite app_nil_r. cbn [parse_header_lines]. by rewrite Z.ltb_irrefl. }
  destruct (decide (hs = [])) as [->|Hne].
  { apply (lines_stop _ _ _ _ _ _ z _ _ (pos pre)); [done..|by destruct rf|].
    rewrite app_nil_r. cbn [parse_header_lines]. by rewrite Z.ltb_irrefl. }
  destruct rf as [|rf]; [destruct hs; simpl in *; done || lia|].
  assert (Hlt : (pos pre <? pos (pre ++ hs)) = true).
  { apply Z.ltb_lt. rewrite pos_app. destruct hs; [done|]. unfold pos. simpl. lia. }
  destruct (split_at CR hs) as [ [line rest] |] eqn:E.
  2: { apply (lines_stop _ _ _ _ _ _ z _ _ (pos pre)); [done..|simpl; by rewrite E|].
       apply split_at_none in E. cbn [parse_header_lines].
       by rewrite Hlt, (strchr_nowhere h pre hs CR z Hb), bind_ok. }
  simpl in Hv. rewrite E in Hv. apply split_at_some in E as E'. destruct E' as [-> Hcr].
  assert (Hline : 0 ∉ line) by set_solver. assert (Hrest : 0 ∉ rest) by set_solver.
  rewrite <- app_assoc in Hb. cbn [app] in Hb.
  assert (Hu : u64 (pos (pre ++ line) - pos pre) = Z.of_nat (length line)).
  { rewrite !pos_app in *. unfold u64, pos, INT_MAX in *. rewrite Z.mod_small; simpl in *; lia. }
  destruct (Nat.ltb_spec (length line) 5) as [Hshort|Hlong].
  { apply (lines_stop _ _ _ _ _ _ z _ _ (pos (pre ++ line))); [apps Hb|done| |].
    - simpl. rewrite E. by destruct (Nat.ltb_spec (length line) 5); [|lia].
    - cbn [parse_header_lines]. rewrite Hlt, (strchr_here h pre line CR _ Hb), bind_ok, Hu by done.
      unfold UNLIKELY. by destruct (Z.ltb_spec (Z.of_nat (length line)) 5); [|lia]. }
  destruct Hv as [?|[Hv1 Hv2] ]; [lia|]. rewrite length_app in Hf, Hrf. simpl in Hf, Hrf.
  eapply lines_line; try done; lia.
Qed.

(** ** The request line *)

Lemma STR_TO_INT32_le_val a c d e :
  Forall is_byte [a; c; d; e] -> STR_TO_INT32 a c d e = i32 (le_val [a; c; d; e]).
Proof.
  intros H. apply Forall_cons in H as [Ha H]. apply Forall_cons in H as [Hc H].
  apply Forall_cons in H as [Hd H]. apply Forall_cons in H as [He _]. unfold is_byte in *.
  unfold STR_TO_INT32. f_equal. rewrite !Z.shiftl_mul_pow2 by lia.
  rewrite (Z.lor_comm a), (lor_disjoint c a 8) by lia.
  rewrite (Z.lor_comm _ (d * 2 ^ 16)), (lor_disjoint d _ 16) by lia.
  rewrite (Z.lor_comm _ (e * 2 ^ 24)), (lor_disjoint e _ 24) by lia. cbn [le_val]. lia.
Qed.

Lemma i32_inj x y : 0 <= x < 2 ^ 32 -> 0 <= y < 2 ^ 32 -> i32 x = i32 y -> x = y.
Proof.
  intros Hx Hy E. assert (H : forall z, 0 <= z < 2 ^ 32 -> (i32 z) mod 2 ^ 32 = z).
  { intros z Hz. unfold i32. destruct (Z.lt_ge_cases z (2 ^ 31)).
    - rewrite Z.mod_small by mlia. mlia.
    - mlia. }
  rewrite <- (H x Hx), <- (H y Hy). by rewrite E.
Qed.

Lemma str_to_int32_at h pre suf rest :
  at_pos h pre (suf ++ rest) -> length suf = 4%nat -> str_to_int32 b h (pos pre) = Ok (i32 (le_val suf)).
Proof.
  intros Hb Hl. unfold str_to_int32, load32, object. rewrite Hb, bind_ok. unfold pos.
  rewrite le_load_spec by (rewrite !length_app; lia).
  by rewrite drop_app_length, <- Hl, take_app_length, bind_ok.
Qed.

Lemma four_bytes_eq x y :
  Forall is_byte x -> Forall is_byte y -> length x = 4%nat -> length y = 4%nat ->
  i32 (le_val x) = i32 (le_val y) <-> x = y.
Proof.
  intros Hx Hy Lx Ly. split; [|by intros ->]. intros E.
  pose proof (le_val_range x Hx). pose proof (le_val_range y Hy). rewrite Lx, Ly in *.
  apply i32_inj in E; [|simpl in *; lia..]. apply le_val_inj; [done..|lia|done].
Qed.

Lemma http_parse_method_ref h text z req :
  at_pos h [] (text ++ 0 :: z) -> Forall is_byte text ->
  match ref_method text with
  | Some e => http_parse_method b req h 0 (pos text) = Ok (mlength e, set_method req (mask e), mlength e)
  | None => http_parse_method b req h 0 (pos text) = Ok (0, req, 0)
  end.
Proof.
  intros Hb Hf. unfold http_parse_method, UNLIKELY. rewrite Z.sub_0_r.
  destruct text as [|b1 [|b2 [|b3 [|b4 text] ] ] ]; [reflexivity..|].
  destruct (Z.ltb_spec (pos (b1 :: b2 :: b3 :: b4 :: text)) 4) as [H|_]; [unfold pos in H; simpl in H; lia|].
  change (str_to_int32 b h 0) with (str_to_int32 b h (pos [])).
  rewrite (str_to_int32_at h [] [b1; b2; b3; b4] (text ++ 0 :: z)), bind_ok by done.
  cbn [ref_method]. rewrite STR_TO_INT32_le_val by (repeat (apply Forall_cons in Hf as [? Hf]); by rewrite !Forall_cons, Forall_nil).
  by destruct (find_method _ _).
Qed.

Lemma trim_spaces_ref fuel h pre s z :
  at_pos h pre (s ++ 0 :: z) -> (length s <= fuel)%nat ->
  exists sp, s = sp ++ drop_spaces s /\ trim_spaces b fuel h (pos pre) (pos (pre ++ s)) = Ok (pos (pre ++ sp)).
Proof.
  revert fuel pre. induction s as [|c s IH]; intros fuel pre Hb Hf.
  { exists []. split; [done|]. rewrite !app_nil_r. destruct fuel; cbn [trim_spaces]; by rewrite Z.ltb_irrefl. }
  simpl in Hf. destruct fuel as [|fuel]; [lia|].
  cbn [drop_spaces trim_spaces].
  assert (Hlt : pos pre < pos (pre ++ c :: s)) by (rewrite pos_app; unfold pos; simpl; lia).
  destruct (Z.ltb_spec (pos pre) (pos (pre ++ c :: s))) as [_|]; [|lia].
  rewrite (get_at h pre c (s ++ 0 :: z) Hb), bind_ok.
  destruct (Z.eqb_spec c SPACE) as [->|]; [|exists []; by rewrite app_nil_r].
  destruct (IH fuel (pre ++ [SPACE])) as (sp & E & Ht); [apps Hb|lia|].
  exists (SPACE :: sp). cbn [app]. split; [by f_equal|].
  rewrite <- !app_assoc in Ht. cbn [app] in Ht. rewrite <- Ht. f_equal. rewrite pos_app. unfold pos. simpl. lia.
Qed.

Lemma u64_len (pre s : bytes) : pos (pre ++ s) <= INT_MAX -> u64 (pos (pre ++ s) - pos pre) = Z.of_nat (length s).
Proof. intros H. rewrite pos_app in *. unfold u64, pos, INT_MAX in *. rewrite Z.mod_small; lia. Qed.

(** The path fails where [ref_path] does, without touching anything. *)
Lemma http_parse_path_none h pre s z req :
  at_pos h pre (s ++ 0 :: z) -> 0 ∉ s -> pos (pre ++ s) <= INT_MAX -> ref_path s = None ->
  http_parse_path b req h (pos pre) (pos (pre ++ s)) = Ok (0, req, h, pos pre).
Proof.
  unfold ref_path, http_parse_path, UNLIKELY. intros Hb H0 Hmax Hr. rewrite u64_len by done.
  destruct (Z.ltb_spec (Z.of_nat (length s)) 13) as [|Hlen]; [done|].
  destruct (Nat.ltb_spec (length s) 13); [lia|]. destruct s as [|c s]; [done|].
  rewrite (get_at h pre c (s ++ 0 :: z) Hb), bind_ok.
  destruct (c =? SLASH); [|done]. cbn [negb]. apply split_at_none in Hr.
  by rewrite (strchr_nowhere h pre (c :: s) SPACE z Hb), bind_ok.
Qed.

(** The query part: [target] is what stands before the space. *)
Lemma path_query_ref h pre target s z req l :
  at_pos h pre (target ++ SPACE :: s ++ 0 :: z) -> 0 ∉ target -> SPACE ∉ target -> 0 ∉ s ->
  holds (query req) l -> provided (query req) ->
  exists q kv' h' target' ps,
    strchr_off b h (pos pre) QUESTION = Ok q /\
    (match q with
     | Some q =>
         if q <? pos (pre ++ target) then
           h ← put b h q 0;
           parse_query b (Z.to_nat (pos (pre ++ target) - q)) req h (q + 1) (pos (pre ++ target))
         else Ok (req, h)
     | None => Ok (req, h)
     end) = Ok (set_query req kv', h') /\
    at_pos h' (pre ++ target') (SPACE :: s ++ 0 :: z) /\ length target' = length target /\
    str_in (pre ++ target' ++ [0]) (pos pre) (ref_target target).1 /\
    extends (query req) kv' l ps /\ same_others h h' /\
    Forall2 (pair_in (pre ++ target' ++ [0])) ps (ref_target target).2.
Proof.
  intros Hb H0 Hsp Hs Hl Hp. unfold ref_target. destruct (split_at QUESTION target) as [ [p qs] |] eqn:E.
  - apply split_at_some in E as [-> Hq]. exists (Some (pos (pre ++ p))).
    assert (0 ∉ p) by set_solver. assert (Hqs : 0 ∉ qs) by set_solver.
    rewrite <- app_assoc in Hb. cbn [app] in Hb.
    destruct (put_at h pre p QUESTION _ 0 Hb) as (h1 & Eput & Hb1 & S1).
    assert (Hpos : pos (pre ++ p ++ QUESTION :: qs) = pos ((pre ++ p ++ [0]) ++ qs))
      by (rewrite !pos_app; unfold pos; simpl; lia).
    assert (Hq1 : pos (pre ++ p) + 1 = pos (pre ++ p ++ [0])) by (rewrite !pos_app; unfold pos; simpl; lia).
    assert (Hlen : pos ((pre ++ p ++ [0]) ++ qs) - pos (pre ++ p) = 1 + pos qs)
      by (rewrite !pos_app; unfold pos; simpl; lia).
    rewrite Hpos, Eput, Hq1, Hlen.
    destruct (parse_query_ref (Z.to_nat (1 + pos qs)) (length qs) req h1 (pre ++ p ++ [0]) qs s z l Hb1) as
      (kv' & h' & qs' & ps & E1 & Hb' & Hl' & X & S' & HF); [done..|unfold pos; lia|lia|].
    exists kv', h', (p ++ 0 :: qs'), ps. split; [by apply strchr_here with (qs ++ SPACE :: s ++ 0 :: z)|].
    split. { destruct (Z.ltb_spec (pos (pre ++ p)) (pos ((pre ++ p ++ [0]) ++ qs))) as [_|Hge]; [by rewrite bind_ok|].
             pose proof (Nat2Z.is_nonneg (length qs)). fold (pos qs) in *. lia. }
    split; [apps Hb'|]. split; [by rewrite !length_app; simpl; rewrite Hl'|].
    split; [rewrite <- app_assoc; by apply str_in_intro|]. split; [done|].
    split; [by apply (same_others_trans h h1)|].
    repeat (rewrite <- !app_assoc in HF; cbn [app] in HF). by rewrite <- app_assoc.
  - apply split_at_none in E.
    assert (Hs' : exists q, strchr_off b h (pos pre) QUESTION = Ok q /\
      (match q with Some o => pos (pre ++ target) <= o | None => True end)).
    { destruct (strchr_past h pre target SPACE s z QUESTION Hb) as [E'|(o & E' & Ho)]; try done; [by exists None|by exists (Some o)]. }
    destruct Hs' as (q & Hq & Hle). exists q, (query req), h, target, []. rewrite set_query_query.
    split; [done|]. split; [destruct q as [o|]; [|done]; destruct (Z.ltb_spec o (pos (pre ++ target))); [lia|done]|].
    split; [apps Hb|]. split; [done|]. split; [by apply str_in_intro|].
    split_and!; [by apply extends_nil|done|constructor].
Qed.

Lemma http_parse_path_some h pre s z req l target s' :
  at_pos h pre (s ++ 0 :: z) -> 0 ∉ s -> pos (pre ++ s) <= INT_MAX -> ref_path s = Some (target, s') ->
  holds (query req) l -> provided (query req) ->
  exists ret kv' h' mid ps,
    http_parse_path b req h (pos pre) (pos (pre ++ s)) =
      Ok (ret, set_path (set_query req kv') (Ptr b (pos pre)), h', pos (pre ++ mid)) /\
    at_pos h' (pre ++ mid) (s' ++ 0 :: z) /\ pos (pre ++ mid ++ s') = pos (pre ++ s) /\
    str_in (pre ++ mid) (pos pre) (ref_target target).1 /\
    extends (query req) kv' l ps /\ same_others h h' /\
    Forall2 (pair_in (pre ++ mid)) ps (ref_target target).2.
Proof.
  unfold ref_path, http_parse_path, UNLIKELY. intros Hb H0 Hmax Hr Hl Hp. rewrite u64_len by done.
  destruct (Nat.ltb_spec (length s) 13); [done|].
  destruct (Z.ltb_spec (Z.of_nat (length s)) 13); [lia|].
  destruct s as [|c s]; [done|]. rewrite (get_at h pre c (s ++ 0 :: z) Hb), bind_ok.
  destruct (c =? SLASH); [|done]. cbn [negb]. apply split_at_some in Hr as [Hcs Hsp].
  rewrite Hcs in *. assert (Ht0 : 0 ∉ target) by set_solver. assert (Hs0 : 0 ∉ s') by set_solver.
  rewrite <- app_assoc in Hb. cbn [app] in Hb.
  rewrite (strchr_here h pre target SPACE _ Hb), bind_ok by done.
  destruct (path_query_ref h pre target s' z req l Hb Ht0 Hsp Hs0 Hl Hp) as
    (q & kv' & h1 & target' & ps & Eq & E1 & Hb1 & Hlen & Hstr & X & S1 & HF).
  rewrite Eq, bind_ok.
  assert (Hpt : pos (pre ++ target) = pos (pre ++ target')) by (rewrite !pos_app; unfold pos; lia).
  rewrite Hpt in E1 |- *.
  destruct (put_at h1 pre target' SPACE (s' ++ 0 :: z) 0) as (h2 & Eput & Hb2 & S2); [apps Hb1|].
  eexists _, kv', h2, (target' ++ [0]), ps.
  split. { etransitivity; [apply (f_equal (fun r => mbind _ r) E1)|]. rewrite bind_ok, Eput, bind_ok.
           do 2 f_equal. rewrite !pos_app. unfold pos. simpl. lia. }
  split; [done|]. split; [rewrite !pos_app in *; unfold pos in *; simpl; lia|].
  split; [done|]. split; [done|]. split; [by apply (same_others_trans h h1)|done].
Qed.

Lemma HTTP_tag x : Forall is_byte x -> length x = 4%nat ->
  (i32 (le_val x) =? tag "HTTP") = bool_decide (x = bytes_of_string "HTTP").
Proof.
  intros Hx Hl. assert (Hh : Forall is_byte (bytes_of_string "HTTP")) by (unfold is_byte; repeat constructor; lia).
  change (tag "HTTP") with (i32 (le_val (bytes_of_string "HTTP"))).
  destruct (four_bytes_eq x (bytes_of_string "HTTP") Hx Hh Hl eq_refl) as [E1 E2].
  destruct (Z.eqb_spec (i32 (le_val x)) (i32 (le_val (bytes_of_string "HTTP")))) as [E|E].
  - by rewrite bool_decide_eq_true_2 by auto.
  - by rewrite bool_decide_eq_false_2 by auto.
Qed.

(** The protocol, on a text of bytes without NUL. *)
Lemma http_parse_protocol_ref h pre s z req :
  at_pos h pre (s ++ 0 :: z) -> 0 ∉ s -> Forall is_byte s -> pos (pre ++ s) <= INT_MAX ->
  match ref_protocol s with
  | None => http_parse_protocol b req h (pos pre) (pos (pre ++ s)) = Ok (0, req, h, pos pre)
  | Some (proto, rest) =>
      s = proto ++ CR :: rest /\
      exists ret h', http_parse_protocol b req h (pos pre) (pos (pre ++ s)) =
          Ok (ret, set_protocol req (Ptr b (pos pre)), h', pos (pre ++ proto ++ [0]) + 1) /\
        at_pos h' (pre ++ proto ++ [0]) (rest ++ 0 :: z) /\ same_others h h' /\
        str_in (pre ++ proto ++ [0]) (pos pre) proto
  end.
Proof.
  unfold ref_protocol, http_parse_protocol, UNLIKELY. intros Hb H0 Hf Hmax. rewrite u64_len by done.
  destruct (Nat.ltb_spec (length s) 11), (Z.ltb_spec (Z.of_nat (length s)) 11); try done; try lia.
  destruct (split_at CR s) as [ [proto rest] |] eqn:E; cbn [mbind option_bind].
  2: { apply split_at_none in E. by rewrite (strchr_nowhere h pre s CR z Hb), bind_ok. }
  apply split_at_some in E as [Hs Hcr]. subst s. assert (0 ∉ proto) by set_solver.
  pose proof Hb as Hb'. rewrite <- app_assoc in Hb'. cbn [app] in Hb'.
  rewrite (strchr_here h pre proto CR _ Hb'), bind_ok by done.
  set (s := proto ++ CR :: rest) in *.
  assert (Hs4 : at_pos h pre (take 4 s ++ drop 4 s ++ 0 :: z)) by (rewrite app_assoc, take_drop; done).
  rewrite (str_to_int32_at h pre (take 4 s) _ Hs4), bind_ok by (rewrite length_take; lia).
  rewrite HTTP_tag by (try apply Forall_take; done || rewrite length_take; lia).
  destruct (bool_decide (take 4 s = bytes_of_string "HTTP")); [|done]. cbn [negb]. split; [done|].
  destruct (put_at h pre proto CR (rest ++ 0 :: z) 0 Hb') as (h1 & -> & Hb1 & S1). rewrite bind_ok.
  eexists _, h1. split; [do 2 f_equal; rewrite !pos_app; unfold pos; simpl; lia|].
  split; [done|]. split; [done|]. by apply str_in_intro.
Qed.

(** ** Reading back *)

Lemma pairs_read_back h pre suf kv kv' ps strs :
  at_pos h pre suf -> extends kv kv' [] ps -> Forall2 (pair_in pre) ps strs ->
  pair_strings (mem h) kv' = Ok <$> take (Z.to_nat (kv_capacity kv)) strs.
Proof.
  intros Hb (Hl & _ & _) HF. cbn [app] in Hl. set (n := Z.to_nat (kv_capacity kv)) in *.
  apply (Forall2_take _ _ _ n) in HF. revert HF. generalize (take n ps) (take n strs) Hl.
  clear -Hb. intros ps strs (Hs & (rest & Hp) & _ & _) HF. unfold pair_strings. rewrite Hs, Hp, Nat2Z.id.
  rewrite take_app_length' by by rewrite length_fmap.
  clear Hs Hp. induction HF as [|p [k v] ps strs (ok & ov & Hk & Sk & Hv & Sv) HF IH]; [done|].
  cbn [fmap list_fmap]. f_equal; [|exact IH]. cbn [of_option]. rewrite bind_ok, Hk, Hv.
  by rewrite (str_in_load h pre suf ok k Hb Sk), bind_ok, (str_in_load h pre suf ov v Hb Sv), bind_ok.
Qed.

Definition fresh_request (req : http_request) : Prop :=
  method req = 0 /\ path req = NULL /\ protocol req = NULL /\
  holds (query req) [] /\ holds (req_headers req) [] /\ provided (query req) /\ provided (req_headers req).

(** The strings of [r] are what the pointers of [req] read back as. *)
Definition reads (m : gmap block bytes) (req0 req : http_request) (r : parsed) : Prop :=
  method req = p_method r /\
  load_cstr m (path req) = Ok (p_path r) /\
  pair_strings m (query req) = Ok <$> take (Z.to_nat (kv_capacity (query req0))) (p_query r) /\
  load_cstr m (protocol req) = Ok (p_protocol r) /\
  pair_strings m (req_headers req) = Ok <$> take (Z.to_nat (kv_capacity (req_headers req0))) (p_headers r).

(** A matched method longer than the text leaves nothing to parse. *)
Lemma http_parse_path_past h text k o req :
  mem h !! b = Some (text ++ 0 :: replicate k 0) -> pos text < o -> (Z.to_nat o < length text + S k)%nat ->
  pos text <= INT_MAX -> o <= 7 ->
  http_parse_path b req h o (pos text) = Ok (0, req, h, o).
Proof.
  intros Hb Ho Hlen Hmax H7. unfold http_parse_path, UNLIKELY.
  assert (Hu : 13 <= u64 (pos text - o)).
  { unfold u64, pos in *. replace ((Z.of_nat (length text) - o) mod 2 ^ 64) with (2 ^ 64 + (Z.of_nat (length text) - o)); [lia|].
    rewrite <- (Z_mod_plus_full _ 1), Z.mod_small; lia. }
  destruct (Z.ltb_spec (u64 (pos text - o)) 13); [lia|].
  unfold get. destruct (Z_of_nat_complete o) as [i ->]; [unfold pos in Ho; lia|].
  rewrite (load_block _ _ _ _ 0 Hb), bind_ok; [done|].
  unfold pos in Ho. rewrite lookup_app_r by lia. change (0 :: replicate k 0) with (replicate (S k) 0).
  apply lookup_replicate. split; [done|lia].
Qed.

Lemma ref_request_line h pre s z req :
  at_pos h pre (s ++ 0 :: z) -> 0 ∉ s -> Forall is_byte s -> pos (pre ++ s) <= INT_MAX ->
  path req = NULL -> protocol req = NULL ->
  holds (query req) [] -> provided (query req) ->
  match ('(target, s) ← ref_path s; '(proto, rest) ← ref_protocol s; Some (target, proto, rest)) with
  | None => exists req' h' r o, same_others h h' /\
      http_parse_path b req h (pos pre) (pos (pre ++ s)) = Ok (r, req', h', o) /\
      (path req' = NULL \/ path req' <> NULL /\ protocol req' = NULL /\
         exists r' o', http_parse_protocol b req' h' o (pos (pre ++ s)) = Ok (r', req', h', o'))
  | Some (target, proto, rest) => exists kv' h1 h2 r1 r2 mid mid2 ps,
      http_parse_path b req h (pos pre) (pos (pre ++ s)) =
        Ok (r1, set_path (set_query req kv') (Ptr b (pos pre)), h1, pos mid) /\
      http_parse_protocol b (set_path (set_query req kv') (Ptr b (pos pre))) h1 (pos mid) (pos (pre ++ s)) =
        Ok (r2, set_protocol (set_path (set_query req kv') (Ptr b (pos pre))) (Ptr b (pos mid)), h2, pos mid2 + 1) /\
      at_pos h2 mid2 (rest ++ 0 :: z) /\ pos (mid2 ++ rest) = pos (pre ++ s) /\ same_others h h2 /\
      str_in mid2 (pos pre) (ref_target target).1 /\ str_in mid2 (pos mid) proto /\ (0 ∉ rest) /\
      extends (query req) kv' [] ps /\ Forall2 (pair_in mid2) ps (ref_target target).2
  end.
Proof.
  intros Hb H0 Hf Hmax Hpath Hprot Hl Hp.
  destruct (ref_path s) as [ [target s'] |] eqn:E; cbn [mbind option_bind].
  2: { exists req, h, 0, (pos pre). split; [done|]. split; [by apply http_parse_path_none with z|by left]. }
  assert (Hs' : exists u, s = u ++ s').
  { unfold ref_path in E. destruct (length s <? 13)%nat; [done|]. destruct s as [|c s]; [done|].
    destruct (c =? SLASH); [|done]. apply split_at_some in E as [-> _]. exists (target ++ [SPACE]). by rewrite <- app_assoc. }
  destruct Hs' as [u Hu]. assert (Hs0 : 0 ∉ s') by set_solver.
  assert (Hsf : Forall is_byte s') by (rewrite Hu in Hf; apply Forall_app in Hf as [_ ?]; done).
  destruct (http_parse_path_some h pre s z req [] target s' Hb H0 Hmax E Hl Hp) as
    (r1 & kv' & h1 & mid & ps & E1 & Hb1 & Hpos & Hstr & X & S1 & HF).
  rewrite app_assoc in Hpos.
  pose proof (http_parse_protocol_ref h1 (pre ++ mid) s' z
    (set_path (set_query req kv') (Ptr b (pos pre))) Hb1 Hs0 Hsf ltac:(by rewrite Hpos)) as Hpr.
  rewrite Hpos in Hpr. destruct (ref_protocol s') as [ [proto rest] |]; cbn [mbind option_bind].
  - destruct Hpr as (-> & r2 & h2 & E2 & Hb2 & S2 & Hstr2).
    exists kv', h1, h2, r1, r2, (pre ++ mid), ((pre ++ mid) ++ proto ++ [0]), ps.
    split; [done|]. split; [done|]. split; [done|].
    split; [rewrite <- Hpos, !pos_app; unfold pos; simpl; lia|].
    split; [by apply (same_others_trans h h1)|]. split; [by apply str_in_app|]. split; [done|].
    split; [set_solver|]. split; [done|]. eapply Forall2_impl; [exact HF|]. intros. by apply pair_in_app.
  - eexists _, h1, r1, _. split; [done|]. split; [exact E1|]. right. split; [done|]. split; [done|eauto].
Qed.

Lemma drop_spaces_suffix s : exists sp, s = sp ++ drop_spaces s.
Proof.
  induction s as [|c s [sp IH] ]; [by exists []|]. simpl. destruct (c =? SPACE); [|by exists []].
  exists (c :: sp). simpl. by f_equal.
Qed.

Lemma ref_method_in text e : ref_method text = Some e -> (4 <= length text)%nat /\ 3 <= mlength e <= 7 /\ mask e <> 0.
Proof.
  destruct text as [|b1 [|b2 [|b3 [|b4 text] ] ] ]; try done. cbn [ref_method]. intros E. split; [simpl; lia|].
  revert E. unfold methods. cbn [find_method].
  repeat (destruct (strn _ =? _); [intros [= <-]; cbn [mlength mask]; split; [lia|discriminate]|]). done.
Qed.

(** From the request line to the result, starting behind the method. *)
Lemma request_tail_ref h pre s z req :
  at_pos h pre (s ++ 0 :: z) -> 0 ∉ s -> Forall is_byte s -> pos (pre ++ s) <= INT_MAX ->
  path req = NULL -> protocol req = NULL ->
  holds (query req) [] -> holds (req_headers req) [] -> provided (query req) -> provided (req_headers req) ->
  (forall target s' proto rest, ref_path s = Some (target, s') -> ref_protocol s' = Some (proto, rest) ->
     headers_valued (length (drop 1 rest)) (drop 1 rest)) ->
  exists req' h',
    ('(_, req, h, buf) ← http_parse_path b req h (pos pre) (pos (pre ++ s));
     if UNLIKELY (is_null (path req)) then Ok (0, req, h)
     else
       '(_, req, h, buf) ← http_parse_protocol b req h buf (pos (pre ++ s));
       if UNLIKELY (is_null (protocol req)) then Ok (0, req, h)
       else
         '(_, req, h, _) ← http_parse_headers b req h buf (pos (pre ++ s));
         Ok (1, req, h)) =
    Ok (match ('(target, s) ← ref_path s; '(proto, rest) ← ref_protocol s; Some (target, proto, rest)) with
        | Some _ => 1 | None => 0 end, req', h') /\ same_others h h' /\
    match ('(target, s) ← ref_path s; '(proto, rest) ← ref_protocol s; Some (target, proto, rest)) with
    | None => True
    | Some (target, proto, rest) =>
        reads (mem h') req req'
          (Parsed (method req) (ref_target target).1 (ref_target target).2 proto (drop 1 rest)
             (ref_headers (length (drop 1 rest)) (drop 1 rest)))
    end.
Proof.
  intros Hb H0 Hf Hmax Hpath Hprot Hq Hhd Hpq Hph Hv.
  pose proof (ref_request_line h pre s z req Hb H0 Hf Hmax Hpath Hprot Hq Hpq) as HR.
  destruct ('(target, s) ← ref_path s; '(proto, rest) ← ref_protocol s; Some (target, proto, rest))
    as [ [ [target proto] rest] |] eqn:E.
  - destruct HR as (kv' & h1 & h2 & r1 & r2 & mid & mid2 & ps & E1 & E2 & Hb2 & Hpos & S2 & St1 & St2 & Hr0 & X & HF).
    assert (Hv' : headers_valued (length (drop 1 rest)) (drop 1 rest)).
    { destruct (ref_path s) as [ [target' s'] |]; [|done]. cbn [mbind option_bind] in E.
      destruct (ref_protocol s') as [ [proto' rest'] |] eqn:E'; [|done]. injection E as -> -> ->. by eapply Hv. }
    rewrite E1, bind_ok. cbn [path set_path is_null]. unfold UNLIKELY. rewrite E2, bind_ok.
    cbn [protocol set_protocol is_null]. unfold http_parse_headers.
    set (hs := drop 1 rest) in *. set (req2 := set_protocol _ _).
    assert (Hfuel : Z.to_nat (pos (pre ++ s) - (pos mid2 + 1)) = length hs).
    { rewrite <- Hpos, pos_app. unfold hs, pos. rewrite length_drop. lia. }
    rewrite Hfuel, <- Hpos.
    destruct (lines_skip (length hs) (length hs) req2 h2 mid2 rest z [] (lines_ok_all _) Hb2 Hr0) as
      (kvh & h3 & start & suf & psh & E3 & Hb3 & Xh & S3 & HFh); [by rewrite Hpos|done..|].
    rewrite E3, !bind_ok. eexists _, h3. split; [done|]. split; [by apply (same_others_trans h h2)|].
    assert (Hb3' : at_pos h3 (mid2 ++ suf) []) by (unfold at_pos; rewrite app_nil_r; exact Hb3).
    split_and!; cbn [p_method p_path p_query p_protocol p_headers]; [done| | | |].
    + exact (str_in_load h3 mid2 suf _ _ Hb3 St1).
    + eapply (pairs_read_back h3 mid2 suf (query req)); [done|exact X|done].
    + exact (str_in_load h3 mid2 suf _ _ Hb3 St2).
    + eapply (pairs_read_back h3 (mid2 ++ suf) [] (req_headers req)); [done|exact Xh|done].
  - destruct HR as (req' & h' & r & o & S & E1 & Hor). exists req', h'. split; [|done].
    rewrite E1, bind_ok. unfold UNLIKELY. destruct Hor as [->|(Hp & Hq' & r' & o' & E2)]; [done|].
    destruct (is_null (path req')); [done|]. by rewrite E2, bind_ok, Hq'.
Qed.
End buffer.

(** ** The whole parser *)

Lemma http_parse_request_computes (b : block) (text : bytes) (k : nat) (h : heap) (req : http_request)
    (Hb : mem h !! b = Some (text ++ 0 :: replicate k 0)) (Hk : (11 <= length text + S k)%nat)
    (Hmax : Z.of_nat (length text) <= INT_MAX) (Htext : Forall (fun c => 0 < c < 256) text)
    (Hreq : fresh_request req)
    (Hv : forall r, ref_parse text = Some r -> headers_valued (length (p_header_text r)) (p_header_text r)) :
  exists req' h',
    http_parse_request b req h (Z.of_nat (length text)) =
      Ok (match ref_parse text with Some _ => 1 | None => 0 end, req', h') /\
    (forall b', b' <> b -> mem h' !! b' = mem h !! b') /\
    match ref_parse text with Some r => reads (mem h') req req' r | None => True end.
Proof.
  destruct Hreq as (Hm & Hp & Hq & Hlq & Hlh & Hpq & Hph).
  assert (H0 : 0 ∉ text) by (rewrite Forall_forall in Htext; intros H; apply Htext in H; lia).
  assert (Hf : Forall is_byte text) by (eapply Forall_impl; [exact Htext|]; unfold is_byte; simpl; lia).
  unfold http_parse_request, UNLIKELY. fold (pos text) in *.
  pose proof (http_parse_method_ref b h text (replicate k 0) req Hb Hf) as HM.
  unfold ref_parse in *. destruct (ref_method text) as [e|] eqn:Ee; cbn [mbind option_bind] in Hv |- *.
  2: { rewrite HM, bind_ok, Hm. by exists req, h. }
  destruct (ref_method_in text e Ee) as (H4 & He & Hmask).
  rewrite HM, bind_ok. cbn [method set_method].
  destruct (Z.eqb_spec (mask e) 0) as [|_]; [done|]. set (req1 := set_method req (mask e)) in *.
  destruct (Z.lt_ge_cases (pos text) (mlength e)) as [Hover|Hin].
  - exists req1, h. rewrite drop_ge by (unfold pos in Hover; lia). split; [|done].
    assert (Htrim : forall fuel, trim_spaces b fuel h (mlength e) (pos text) = Ok (mlength e)).
    { intros fuel. destruct fuel; cbn [trim_spaces]; destruct (Z.ltb_spec (mlength e) (pos text)); done || lia. }
    assert ((Z.to_nat (mlength e) < length text + S k)%nat) by lia.
    rewrite Htrim, bind_ok, (http_parse_path_past b h text k) by (done || lia).
    rewrite bind_ok. cbn [path req1 set_method]. by rewrite Hp.
  - set (o := Z.to_nat (mlength e)) in *.
    assert (Ho : pos (take o text) = mlength e) by (unfold pos in *; rewrite length_take; lia).
    assert (Htd : take o text ++ drop o text = text) by apply take_drop.
    assert (Hb1 : at_pos b h (take o text) (drop o text ++ 0 :: replicate k 0))
      by (unfold at_pos; rewrite app_assoc, Htd; done).
    destruct (trim_spaces_ref b (Z.to_nat (pos text - mlength e)) h _ _ _ Hb1) as (sp & Hsp & Et).
    { rewrite length_drop. unfold pos in *. lia. }
    rewrite Htd, Ho in Et. rewrite Et, bind_ok.
    set (s := drop_spaces (drop o text)) in *.
    assert (Htext' : text = (take o text ++ sp) ++ s) by (rewrite <- app_assoc, <- Hsp; done).
    destruct (request_tail_ref b h (take o text ++ sp) s (replicate k 0) req1) as (req' & h' & E & S & R); try done.
    + unfold at_pos. rewrite Hb. by rewrite app_assoc, <- Htext'.
    + rewrite Htext' in H0. set_solver.
    + rewrite Htext' in Hf. by apply Forall_app in Hf as [_ ?].
    + rewrite <- Htext'. done.
    + intros target s' proto rest E1 E2.
      refine (Hv (Parsed (mask e) (ref_target target).1 (ref_target target).2 proto (drop 1 rest)
                    (ref_headers (length (drop 1 rest)) (drop 1 rest))) _).
      rewrite E1. cbn [mbind option_bind]. by rewrite E2.
    + rewrite <- Htext' in E. exists req', h'.
      destruct (ref_path s) as [ [target s'] |]; cbn [mbind option_bind] in E, R |- *; [|by split].
      destruct (ref_protocol s') as [ [proto rest] |]; cbn [mbind option_bind] in E, R |- *; [|by split].
      split; [done|]. split; [done|]. exact R.
Qed.

(** ** Properties *)


Lemma fresh_empty : fresh_request empty_request.
Proof. split_and!; try done; by apply holds_init_with_buf. Qed.

Lemma bytes_nonzero (s : bytes) : forallb (fun c => (0 <? c) && (c <? 256)) s = true -> Forall (fun c => 0 < c < 256) s.
Proof.
  intros H. rewrite forallb_forall in H. apply Forall_forall. intros x Hx.
  apply list_elem_of_In, H, andb_true_iff in Hx. lia.
Qed.

