(* ===== verification/HttpRoundTrip.v ===== *)
(** * Printing a request and parsing it

    [print_request] writes a request the way a client does; the parser gets every
    well-formed request back. *)

From S2P Require Import Prelude CMem Kv Http HttpParser HttpParserRef.
Open Scope Z_scope.

Record request_text := Request_text {
  t_name : bytes;                          (* the method as written *)
  t_entry : method_entry;
  t_path : bytes;
  t_query : list (bytes * bytes);
  t_protocol : bytes;
  t_headers : list (bytes * bytes)
}.

Fixpoint print_query (q : list (bytes * bytes)) : bytes :=
  match q with
  | [] => []
  | [(k, v)] => k ++ EQUALS :: v
  | (k, v) :: q => k ++ EQUALS :: v ++ AMPERSAND :: print_query q
  end.

Definition print_target (r : request_text) : bytes :=
  match t_query r with [] => t_path r | q => t_path r ++ QUESTION :: print_query q end.

Fixpoint print_headers (hs : list (bytes * bytes)) : bytes :=
  match hs with
  | [] => CRLF
  | (k, v) :: hs => (k ++ COLON :: SPACE :: v) ++ CRLF ++ print_headers hs
  end.

Definition print_request (r : request_text) : bytes :=
  t_name r ++ SPACE :: print_target r ++ SPACE :: t_protocol r ++ CRLF ++ print_headers (t_headers r).

(** What a client must not put where. *)
Definition query_ok (kv : bytes * bytes) : Prop :=
  (EQUALS ∉ kv.1) /\ (SPACE ∉ kv.1) /\ (AMPERSAND ∉ kv.2) /\ (SPACE ∉ kv.2).

Definition header_ok (kv : bytes * bytes) : Prop :=
  (COLON ∉ kv.1) /\ (CR ∉ kv.1) /\ (CR ∉ kv.2).

Definition well_formed (r : request_text) : Prop :=
  ref_method (t_name r ++ [SPACE]) = Some (t_entry r) /\ Z.of_nat (length (t_name r)) = mlength (t_entry r) /\
  (exists p, t_path r = SLASH :: p) /\ (SPACE ∉ t_path r) /\ (QUESTION ∉ t_path r) /\
  Forall query_ok (t_query r) /\
  take 4 (t_protocol r) = bytes_of_string "HTTP" /\ (8 <= length (t_protocol r))%nat /\ (CR ∉ t_protocol r) /\
  Forall header_ok (t_headers r).

(** The headers before the first line of fewer than five bytes, which the parser
    takes for the end of the section ([sizeof("H: V")] counts the NUL). *)
Fixpoint visible (hs : list (bytes * bytes)) : list (bytes * bytes) :=
  match hs with
  | [] => []
  | (k, v) :: hs => if (length k + 2 + length v <? 5)%nat then [] else (k, v) :: visible hs
  end.

(** The result the parser should give back. *)
Definition parsed_of (r : request_text) : parsed :=
  Parsed (mask (t_entry r)) (t_path r) (t_query r) (t_protocol r) (print_headers (t_headers r)) (visible (t_headers r)).

(** ** The parts *)

Lemma print_query_length q : (length q <= length (print_query q))%nat.
Proof.
  induction q as [|[k v] [|p q] IH]; [done|simpl; rewrite length_app; simpl; lia|].
  change (print_query ((k, v) :: p :: q)) with (k ++ EQUALS :: v ++ AMPERSAND :: print_query (p :: q)).
  rewrite length_app. cbn [length]. rewrite length_app. cbn [length] in *. lia.
Qed.

Lemma split_at_notin c s : c ∉ s -> split_at c s = None.
Proof.
  intros Hc. destruct (split_at c s) as [ [u v] |] eqn:E; [|done].
  apply split_at_some in E as [-> _]. set_solver.
Qed.

Lemma ref_query_print fuel q :
  Forall query_ok q -> (length q <= fuel)%nat -> ref_query fuel (print_query q) = q.
Proof.
  intros Hq. revert fuel. induction Hq as [|[k v] q (Hk & _ & Hv & _) Hq IH]; intros fuel Hf.
  { by destruct fuel. }
  destruct fuel as [|fuel]; [simpl in Hf; lia|]. cbn [fst snd length] in *. destruct q as [|p q].
  - cbn [print_query ref_query]. by rewrite split_at_app, split_at_notin.
  - change (print_query ((k, v) :: p :: q)) with (k ++ EQUALS :: v ++ AMPERSAND :: print_query (p :: q)).
    cbn [ref_query]. rewrite split_at_app, split_at_app by done. f_equal. apply IH. lia.
Qed.

Lemma print_query_no_space q : Forall query_ok q -> SPACE ∉ print_query q.
Proof.
  induction 1 as [|[k v] q (Hk & Hks & Hv & Hvs) Hq IH]; [apply not_elem_of_nil|].
  cbn [fst snd] in *. destruct q; cbn [print_query] in *; set_solver.
Qed.

Lemma header_line k v hs :
  header_ok (k, v) ->
  split_at CR (print_headers ((k, v) :: hs)) = Some (k ++ COLON :: SPACE :: v, 10 :: print_headers hs) /\
  split_at COLON (k ++ COLON :: SPACE :: v) = Some (k, SPACE :: v) /\
  length (k ++ COLON :: SPACE :: v) = (length k + 2 + length v)%nat.
Proof.
  intros (Hk & Hkr & Hvr). cbn [fst snd] in *. split_and!.
  - cbn [print_headers]. change (CRLF ++ print_headers hs) with (CR :: 10 :: print_headers hs).
    apply split_at_app. set_solver.
  - by apply split_at_app.
  - rewrite length_app. cbn [length]. lia.
Qed.

Lemma ref_headers_print fuel hs :
  Forall header_ok hs -> (length hs <= fuel)%nat ->
  ref_headers fuel (print_headers hs) = visible hs /\ headers_valued fuel (print_headers hs).
Proof.
  intros Hhs. revert fuel. induction Hhs as [|[k v] hs Hkv Hhs IH]; intros fuel Hf.
  { destruct fuel; [done|]. split; [reflexivity|]. cbn. left. lia. }
  destruct fuel as [|fuel]; [simpl in Hf; lia|]. simpl in Hf.
  destruct (header_line k v hs Hkv) as (E1 & E2 & Hlen), (IH fuel) as [IH1 IH2]; [lia|].
  cbn [ref_headers headers_valued visible]. rewrite E1, E2, Hlen.
  destruct (Nat.ltb_spec (length k + 2 + length v) 5); [split; [done|by left]|].
  split; [|right; split; [done|exact IH2] ]. cbn [app]. f_equal. exact IH1.
Qed.

Lemma print_headers_length hs : (S (length hs) <= length (print_headers hs))%nat.
Proof.
  induction hs as [|[k v] hs IH]; [simpl; lia|]. cbn [print_headers].
  rewrite !length_app. cbn [length CRLF]. lia.
Qed.

Lemma ref_method_app s x e : ref_method s = Some e -> ref_method (s ++ x) = Some e.
Proof. by destruct s as [|b1 [|b2 [|b3 [|b4 s] ] ] ]. Qed.

(** The reference parser inverts the printer. *)
Lemma ref_parse_print r : well_formed r -> ref_parse (print_request r) = Some (parsed_of r).
Proof.
  intros (Hm & Hml & (p & Hp) & Hps & Hpq & Hq & Hpr & Hprl & Hprc & Hh).
  assert (Ht : SPACE ∉ print_target r).
  { unfold print_target. pose proof (print_query_no_space _ Hq). destruct (t_query r); [done|set_solver]. }
  assert (Htarget : ref_target (print_target r) = (t_path r, t_query r)).
  { unfold ref_target, print_target. destruct (t_query r) as [|kv q] eqn:E; [by rewrite split_at_notin|].
    rewrite split_at_app by done. f_equal. rewrite <- E in *. apply ref_query_print; [done|apply print_query_length]. }
  assert (Hhead : exists x, print_target r = SLASH :: x).
  { unfold print_target. rewrite Hp. destruct (t_query r); eexists; reflexivity. }
  pose proof (print_headers_length (t_headers r)) as Hhl.
  unfold ref_parse, print_request. set (rest := print_target r ++ _).
  replace (t_name r ++ SPACE :: rest) with ((t_name r ++ [SPACE]) ++ rest) by by rewrite <- app_assoc.
  rewrite (ref_method_app _ rest _ Hm). cbn [mbind option_bind].
  rewrite <- app_assoc, <- Hml, Nat2Z.id, drop_app_length. cbn [app drop_spaces]. rewrite Z.eqb_refl.
  assert (Hdrop : drop_spaces rest = rest).
  { unfold rest. destruct Hhead as [x ->]. reflexivity. }
  assert (Hpath : ref_path rest = Some (print_target r, t_protocol r ++ CRLF ++ print_headers (t_headers r))).
  { unfold ref_path. assert (13 <= length rest)%nat.
    { unfold rest. destruct Hhead as [x ->]. cbn [length app]. rewrite !length_app. cbn [length].
      rewrite !length_app. cbn [length CRLF]. lia. }
    destruct (Nat.ltb_spec (length rest) 13); [lia|]. unfold rest.
    rewrite <- (split_at_app SPACE (print_target r)) by done.
    destruct Hhead as [x ->]. reflexivity. }
  rewrite Hdrop, Hpath. cbn [mbind option_bind].
  assert (Hproto : ref_protocol (t_protocol r ++ CRLF ++ print_headers (t_headers r)) =
                   Some (t_protocol r, 10 :: print_headers (t_headers r))).
  { unfold ref_protocol. set (s := t_protocol r ++ _).
    assert (11 <= length s)%nat by (unfold s; rewrite !length_app; cbn [length CRLF]; lia).
    destruct (Nat.ltb_spec (length s) 11); [lia|].
    assert (E : split_at CR s = Some (t_protocol r, 10 :: print_headers (t_headers r))) by by apply split_at_app.
    rewrite E. cbn [mbind option_bind].
    unfold s. rewrite take_app_le by lia. by rewrite Hpr. }
  rewrite Hproto. cbn [mbind option_bind]. change (drop 1 (10 :: ?x)) with x.
  destruct (ref_headers_print (length (print_headers (t_headers r))) _ Hh) as [-> _]; [lia|].
  by rewrite Htarget.
Qed.

(** ** Properties *)

(** C12.  Parsing inverts printing.  A well-formed request written into the zeroed
    receive buffer is accepted by [http_parse_request], and its method, path,
    query pairs and protocol read back exactly, the pairs up to the capacity of the
    two lists (20 in the server).  So do the headers before the first line of
    fewer than five bytes: such a line, [A: B], hides itself and the rest. *)
Theorem http_parse_print (b : block) (r : request_text) (k : nat) (h : heap) (req : http_request)
    (Hr : well_formed r) (Htext : Forall (fun c => 0 < c < 256) (print_request r))
    (Hmax : Z.of_nat (length (print_request r)) <= INT_MAX)
    (Hb : mem h !! b = Some (print_request r ++ 0 :: replicate k 0)) (Hreq : fresh_request req) :
  exists req' h',
    http_parse_request b req h (Z.of_nat (length (print_request r))) = Ok (1, req', h') /\
    reads (mem h') req req' (parsed_of r).
Proof.
  pose proof (ref_parse_print r Hr) as E.
  destruct (http_parse_request_computes b (print_request r) k h req Hb) as (req' & h' & E' & _ & R); [|done|done|done| |].
  - destruct Hr as (_ & _ & _ & _ & _ & _ & _ & H8 & _). unfold print_request.
    rewrite !length_app. cbn [length]. rewrite !length_app. cbn [length]. rewrite !length_app. cbn [length CRLF]. lia.
  - intros r' E1. rewrite E in E1. injection E1 as <-. apply ref_headers_print; [apply Hr|].
    pose proof (print_headers_length (t_headers r)). cbn. lia.
  - rewrite E in E', R. by exists req', h'.
Qed.

Definition sample_text : request_text :=
  Request_text (bytes_of_string "POST") (Method (tag "POST") METHOD_POST 4) (bytes_of_string "/sum")
    [(bytes_of_string "a", bytes_of_string "1"); (bytes_of_string "b", bytes_of_string "2")]
    (bytes_of_string "HTTP/1.1") [(bytes_of_string "Host", bytes_of_string "lab"); (bytes_of_string "A", bytes_of_string "B"); (bytes_of_string "X-Y", bytes_of_string "z")].

(** A byte that does not occur in a closed string. *)
Ltac notin :=
  match goal with
  | |- ?x ∉ ?l => let l' := eval vm_compute in l in change (x ∉ l');
                  repeat (apply not_elem_of_cons; split; [discriminate|]); apply not_elem_of_nil
  end.

Lemma sample_text_ok : well_formed sample_text.
Proof.
  split_and!; try reflexivity; try (vm_compute; lia).
  - by eexists.
  - by notin.
  - by notin.
  - repeat constructor; try (vm_compute; lia); by notin.
  - by notin.
  - repeat constructor; try (vm_compute; lia); by notin.
Qed.

Lemma http_parse_print_witness :
  exists req' h', http_parse_request 1 empty_request
      (Heap {[1%positive := print_request sample_text ++ replicate 16 0]} []) 56 = Ok (1, req', h') /\
    load_cstr (mem h') (path req') = Ok (bytes_of_string "/sum") /\
    pair_strings (mem h') (req_headers req') = [Ok (bytes_of_string "Host", bytes_of_string "lab")].
Proof.
  destruct (http_parse_print 1 sample_text 15 (Heap {[1%positive := print_request sample_text ++ replicate 16 0]} [])
              empty_request) as (req' & h' & E & R).
  - apply sample_text_ok.
  - apply bytes_nonzero. reflexivity.
  - vm_compute. discriminate.
  - reflexivity.
  - apply fresh_empty.
  - exists req', h'. split; [exact E|]. split; apply R.
Defined.
