(* ===== verification/HttpResponse.v ===== *)
(** * Responses (lib/http_parser.c)

    [global_static_router] serves a file, in the two configurations of the build:
    with [WATCH_STATIC_FILES] (the debug build) it opens the file on every request
    and passes the descriptor on, without it (the release build) it maps the file
    once and keeps the mapping in a static variable.  [http_compose_response]
    formats the header lines in a buffer of 1024 bytes on the stack and appends
    them, and a body that is in memory, to the string that is sent. *)

From S2P Require Import Prelude CMem Strbuf Kv Http HttpParser HttpParserRef HttpRoundTrip.
Open Scope Z_scope.

(** ** Serving a file *)

(** What the kernel, libmagic and [mmap] answer about one path. *)
Record file_system := File_system {
  sys_open : bytes -> Z;              (* a descriptor, or a negative error *)
  sys_fstat : Z -> Z * Z;             (* the result, and [st_size] *)
  magic_descriptor : Z -> ptr;        (* the MIME type *)
  sys_mmap : Z -> Z -> ptr;           (* by size and descriptor *)
  MAP_FAILED : ptr
}.

(** The static [data], and the descriptors this function has opened and nobody
    has closed. *)
Record static_state := Static_state { data : ptr; opened : list Z }.

Definition set_status (r : http_response) (x : Z) : http_response :=
  Response x (file r) (file_fd r) (file_sz r) (str r) (res_headers r).
Definition set_file (r : http_response) (x : ptr) : http_response :=
  Response (status r) x (file_fd r) (file_sz r) (str r) (res_headers r).
Definition set_file_fd (r : http_response) (x : Z) : http_response :=
  Response (status r) (file r) x (file_sz r) (str r) (res_headers r).
Definition set_file_sz (r : http_response) (x : Z) : http_response :=
  Response (status r) (file r) (file_fd r) x (str r) (res_headers r).
Definition set_res_headers (r : http_response) (x : kv) : http_response :=
  Response (status r) (file r) (file_fd r) (file_sz r) (str r) x.

(** [SET_RES_HEADER(k, v)] and [SET_RES_MIME(v)] *)
Definition SET_RES_HEADER (response : http_response) (k v : ptr) (h : heap) : result (http_response * heap) :=
  '(kv, h) ← kv_set_ignored (res_headers response) k v h;
  Ok (set_res_headers response kv, h).
Definition SET_RES_MIME (response : http_response) (v : ptr) (h : heap) : result (http_response * heap) :=
  SET_RES_HEADER response (lit "Content-Type"%string) v h.

Section static_router.
Context (fs : file_system) (WATCH_STATIC_FILES : bool).

Definition close_fd (st : static_state) (fd : Z) : static_state :=
  Static_state (data st) (filter (fun x => x <> fd) (opened st)).

(** From [STORE_BUF] on, with the values [filestat.st_size] and [mime_str] have
    there; [None] when the jump has skipped their initialisation. *)
Definition store_buf (response : http_response) (st_size : option Z) (mime_str : option ptr) (h : heap)
    : result (http_response * heap) :=
  st_size ← of_option Uninitialised st_size;
  let response := set_file_sz response (u64 st_size) in
  let response := set_status response 200 in
  mime_str ← of_option Uninitialised mime_str;
  SET_RES_MIME response mime_str h.

Definition global_static_router (response : http_response) (filepath : ptr) (st : static_state) (h : heap)
    : result (Z * http_response * static_state * heap) :=
  if negb WATCH_STATIC_FILES && negb (is_null (data st)) then
    '(response, h) ← store_buf (set_file response (data st)) None None h;
    Ok (HANDLER_ERR_SUCCESS, response, st, h)
  else
    path ← load_cstr (mem h) filepath;
    let fd := sys_open fs path in
    if UNLIKELY (fd <? 0) then Ok (HANDLER_ERR_FILE_NOT_FOUND, response, st, h)
    else
      let st := Static_state (data st) (fd :: opened st) in
      let '(r, st_size) := sys_fstat fs fd in
      if UNLIKELY (r <? 0) then Ok (HANDLER_ERR_GENERAL, response, close_fd st fd, h)
      else
        let mime_str := magic_descriptor fs fd in
        if UNLIKELY (is_null mime_str) then Ok (HANDLER_ERR_GENERAL, response, st, h)
        else if WATCH_STATIC_FILES then
          '(response, h) ← store_buf (set_file_fd response fd) (Some st_size) (Some mime_str) h;
          Ok (HANDLER_ERR_SUCCESS, response, st, h)
        else
          let d := sys_mmap fs st_size fd in
          let st := Static_state d (opened st) in
          if UNLIKELY (bool_decide (d = MAP_FAILED fs)) then Ok (HANDLER_ERR_GENERAL, response, close_fd st fd, h)
          else
            '(response, h) ← store_buf (set_file response d) (Some st_size) (Some mime_str) h;
            Ok (HANDLER_ERR_SUCCESS, response, st, h).
End static_router.

(** ** Composing the header *)

Definition SP : Z := 32.
Definition LF : Z := 10.

(** The three formats. *)
Definition status_line (protocol : bytes) (status : Z) : bytes :=
  protocol ++ SP :: decimal status ++ bytes_of_string " OK" ++ [LF].
Definition header_line (k v : bytes) : bytes := k ++ bytes_of_string ": " ++ v ++ [LF].
Definition length_line (n : Z) : bytes := bytes_of_string "Content-Length: " ++ decimal (i64 n) ++ [LF].

Section compose.
Context `{Platform}.

(** The formatted text and its NUL, through [tmp]. *)
Definition sprintf (tmp : ptr) (text : bytes) (h : heap) : result heap :=
  m ← store_bytes (mem h) tmp (text ++ [0]);
  Ok (Heap m (oom h)).

(** [string_append] with its result ignored. *)
Definition append_ignored (final : option string_t) (src : ptr) (n : Z) (h : heap)
    : result (option string_t * heap) :=
  '(_, final, h) ← string_append final src n h;
  Ok (final, h).

(** [sprintf(tmp, ...); string_append(final, tmp, strlen(tmp));] *)
Definition append_line (tmp : ptr) (text : bytes) (final : option string_t) (h : heap)
    : result (option string_t * heap) :=
  h ← sprintf tmp text h;
  n ← strlen (mem h) tmp;
  append_ignored final tmp n h.

(** [FOREACH_KV(&res->headers, p)] *)
Fixpoint append_headers (tmp : ptr) (l : list (option kv_pair)) (n : nat) (final : option string_t) (h : heap)
    {struct n} : result (option string_t * heap) :=
  match n with
  | O => Ok (final, h)
  | S n =>
      match l with
      | [] => Undef OutOfBounds
      | o :: l =>
          p ← of_option Uninitialised o;
          k ← load_cstr (mem h) (key p);
          v ← load_cstr (mem h) (value p);
          '(final, h) ← append_line tmp (header_line k v) final h;
          append_headers tmp l n final h
      end
  end.

(** The content length, the empty line and a body in memory. *)
Definition append_body (tmp : ptr) (n : Z) (body : option ptr) (final : option string_t) (h : heap)
    : result (option string_t * heap) :=
  '(final, h) ← append_line tmp (length_line n) final h;
  '(final, h) ← append_ignored final (Lit [LF] 0) 1 h;
  match body with
  | Some p => append_ignored final p n h
  | None => Ok (final, h)
  end.

Definition http_compose_response (req : http_request) (res : http_response) (final : option string_t) (h : heap)
    : result (Z * option string_t * heap) :=
  if UNLIKELY (is_null (protocol req)) then Ok (0, final, h)
  else
    let b := fresh (dom (mem h)) in
    let tmp := Ptr b 0 in
    let h := Heap (<[b := replicate 1024 0]> (mem h)) (oom h) in
    let st := if negb (status res =? 0) then status res else 200 in
    proto ← load_cstr (mem h) (protocol req);
    '(final, h) ← append_line tmp (status_line proto st) final h;
    '(final, h) ← (if 0 <? size (res_headers res)
                   then append_headers tmp (pairs (res_headers res)) (Z.to_nat (size (res_headers res))) final h
                   else Ok (final, h));
    '(final, h) ← (if negb (is_null (file res)) then append_body tmp (file_sz res) (Some (file res)) final h
                   else if negb (file_fd res =? 0) then append_body tmp (file_sz res) None final h
                   else
                     s ← of_option NullDeref (str res);
                     append_body tmp (len s) (Some (buf s)) final h);
    Ok (1, final, Heap (delete b (mem h)) (oom h)).
End compose.

(** ** Decimal numbers *)

Lemma pretty_go_digits (k : nat) x s :
  (x < 10 ^ N.of_nat k)%N ->
  (String.length (pretty_N_go x s) <= k + String.length s)%nat /\
  (0 ∉ bytes_of_string s -> 0 ∉ bytes_of_string (pretty_N_go x s)).
Proof.
  revert x s. induction k as [|k IH]; intros x s Hx.
  { replace x with 0%N by (simpl in Hx; lia). rewrite pretty_N_go_0. split; [lia|done]. }
  destruct (decide (x = 0)%N) as [->|Hx0]; [rewrite pretty_N_go_0; split; [lia|done]|].
  rewrite pretty_N_go_step by lia.
  rewrite Nat2N.inj_succ, N.pow_succ_r' in Hx.
  destruct (IH (x `div` 10)%N (String (pretty_N_char (x `mod` 10)) s)) as [IH1 IH2].
  { apply N.Div0.div_lt_upper_bound. lia. }
  simpl in IH1. split; [lia|]. intros Hs. apply IH2.
  change (bytes_of_string (String ?a s)) with (Z.of_N (N_of_ascii a) :: bytes_of_string s).
  apply not_elem_of_cons. split; [|done]. unfold pretty_N_char. by repeat case_match.
Qed.

Lemma pretty_N_digits (n : N) :
  (n < 10 ^ 19)%N -> (length (bytes_of_string (pretty n)) <= 19)%nat /\ 0 ∉ bytes_of_string (pretty n).
Proof.
  intros Hn. assert (Hlen : forall s, length (bytes_of_string s) = String.length s).
  { intros s. unfold bytes_of_string. rewrite length_fmap. induction s; simpl; congruence. }
  rewrite Hlen. unfold pretty, pretty_N. case_decide.
  - split; [simpl; lia|]. by apply not_elem_of_cons; split; [|apply not_elem_of_nil].
  - destruct (pretty_go_digits 19 n "") as [H1 H2]; [done|]. simpl in H1. split; [lia|].
    apply H2, not_elem_of_nil.
Qed.

Lemma decimal_ok z : - 2 ^ 63 <= z < 2 ^ 63 -> (length (decimal z) <= 20)%nat /\ 0 ∉ decimal z.
Proof.
  intros Hz. destruct z as [|p|p].
  - split; [vm_compute; lia|]. by apply not_elem_of_cons; split; [|apply not_elem_of_nil].
  - destruct (pretty_N_digits (N.pos p)) as [H1 H2]; [lia|].
    split; [apply (Nat.le_trans _ 19); [exact H1|lia]|exact H2].
  - destruct (pretty_N_digits (N.pos p)) as [H1 H2]; [lia|].
    change (decimal (Z.neg p)) with (45 :: bytes_of_string (pretty (N.pos p))).
    split; [simpl; lia|by apply not_elem_of_cons].
Qed.

(** ** The parts of a response *)

Lemma load_cstr_keeps m m' p b s : load_cstr m p = Ok s -> outside p b -> keeps m m' b -> load_cstr m' p = Ok s.
Proof.
  unfold load_cstr, object. intros E Ho Hk. destruct p as [|b' o|]; try done.
  simpl in Ho. destruct (m !! b') eqn:Eb; [|done]. by rewrite (Hk _ _ Ho Eb).
Qed.

Lemma load_cstr_nul_free m p s : load_cstr m p = Ok s -> 0 ∉ s.
Proof.
  unfold load_cstr. intros E. apply bind_Ok_inv in E as ([bs o] & _ & E).
  apply bind_Ok_inv in E as (x & _ & E). destruct (until_nul x) eqn:Eu; [|done].
  injection E as <-. apply until_nul_inv in Eu as (r & _ & ?). done.
Qed.

Lemma length_line_ok n : - 2 ^ 63 <= n < 2 ^ 63 -> (length (length_line n) <= 37)%nat /\ 0 ∉ length_line n.
Proof.
  intros Hn. unfold length_line. rewrite i64_small by done. destruct (decimal_ok n Hn) as [H1 H2].
  rewrite !length_app. split; [simpl; lia|].
  assert (0 ∉ bytes_of_string "Content-Length: ") by (apply (bool_decide_unpack _); reflexivity).
  assert (0 ∉ [LF]) by (apply (bool_decide_unpack _); reflexivity). set_solver.
Qed.

Section composing.
Context `{Platform}.
Context (m0 : gmap block bytes) (l0 : list bool) (fb tb : block) (len0 cap0 : Z).

(** [txt] is composed so far and [n] bytes have been counted; [m0] is the memory
    when the function was entered. *)
Definition composing (final : option string_t) (h : heap) (txt : bytes) (n : Z) : Prop :=
  exists s, final = Some s /\ repr h s fb txt /\ len s = len0 + n /\ capacity s = cap0 /\
    (exists bt, mem h !! tb = Some bt /\ length bt = 1024%nat) /\ keeps m0 (mem h) fb /\ oom h = l0.

Hypothesis tb_fb : tb <> fb.
Hypothesis tb_new : m0 !! tb = None.

Lemma append_copied final h txt n src k t :
  composing final h txt n -> 0 <= k -> len0 + n + k < cap0 -> copied (mem h) src k t ->
  exists final' h', append_ignored final src k h = Ok (final', h') /\ composing final' h' (txt ++ t) (n + k).
Proof using tb_fb.
  intros (s & -> & Hs & Hl & Hc & (bt & Hbt & Hbl) & Hk & Ho) Hk0 Hfit Hsrc.
  destruct (string_append_fits h s fb txt src k t Hs Hk0 Hsrc ltac:(lia)) as
    (s' & h' & E & Hs' & Hl' & Hc' & Hk' & Ho').
  exists (Some s'), h'. unfold append_ignored. rewrite E, bind_ok. split; [done|].
  exists s'. split_and!; [done|done|lia|lia| | |congruence].
  - exists bt. split; [|done]. by apply Hk'.
  - intros b' bs Hb' Hbs. apply Hk'; [done|]. by apply Hk.
Qed.

Lemma append_line_ok final h txt n text :
  composing final h txt n -> 0 ∉ text -> (length text < 1024)%nat ->
  len0 + n + Z.of_nat (length text) < cap0 ->
  exists final' h', append_line (Ptr tb 0) text final h = Ok (final', h') /\
    composing final' h' (txt ++ text) (n + Z.of_nat (length text)).
Proof using tb_fb tb_new.
  intros (s & -> & Hs & Hl & Hc & (bt & Hbt & Hbl) & Hk & Ho) H0 Hlen Hfit.
  unfold append_line, sprintf, store_bytes. rewrite Hbt.
  rewrite (blit_ok bt 0) by (rewrite length_app; simpl; lia). rewrite !bind_ok.
  set (new := take 0 bt ++ _). assert (Hnew : new = text ++ 0 :: drop (length text + 1) bt).
  { subst new. rewrite take_0, length_app. simpl. by rewrite <- app_assoc. }
  set (h1 := Heap _ _). assert (Hb1 : mem h1 !! tb = Some new) by apply lookup_insert_eq.
  assert (Hs1 : composing (Some s) h1 txt n).
  { exists s. split; [done|]. destruct Hs as (Hbuf & (r & Hm & Hr) & Hs). split_and!; try done.
    - split; [done|]. split; [|done]. exists r. split; [|done]. simpl. by rewrite lookup_insert_ne.
    - exists new. split; [done|]. rewrite Hnew, length_app. simpl. rewrite length_drop. lia.
    - intros b' bs Hb' Hbs. simpl. rewrite lookup_insert_ne by congruence. by apply Hk. }
  rewrite Hnew in Hb1. unfold strlen. rewrite (load_cstr_block0 _ _ _ _ Hb1), !bind_ok by done.
  apply append_copied; [done|lia|done|].
  exists (text ++ 0 :: drop (length text + 1) bt), 0%nat. unfold object. rewrite Hb1.
  split; [done|]. split; [lia|]. rewrite Nat2Z.id. by apply take_cstr_full.
Qed.

Lemma composing_keeps final h txt n : composing final h txt n -> keeps m0 (mem h) fb.
Proof. by intros (s & _ & _ & _ & _ & _ & ? & _). Qed.

(** A pair of C strings outside the string that is built. *)
Definition reads_pair (p : kv_pair) (kv : bytes * bytes) : Prop :=
  load_cstr m0 (key p) = Ok kv.1 /\ outside (key p) fb /\
  load_cstr m0 (value p) = Ok kv.2 /\ outside (value p) fb.

Definition header_text (hs : list (bytes * bytes)) : bytes := concat ((fun kv => header_line kv.1 kv.2) <$> hs).

Lemma append_headers_ok ps hs rest final h txt n :
  composing final h txt n -> Forall2 reads_pair ps hs ->
  Forall (fun kv => (length (header_line kv.1 kv.2) < 1024)%nat) hs ->
  len0 + n + Z.of_nat (length (header_text hs)) < cap0 ->
  exists final' h',
    append_headers (Ptr tb 0) ((Some <$> ps) ++ rest) (length ps) final h = Ok (final', h') /\
    composing final' h' (txt ++ header_text hs) (n + Z.of_nat (length (header_text hs))).
Proof using tb_fb tb_new.
  intros Hc Hps. revert final h txt n Hc.
  induction Hps as [|p [k v] ps hs (Ek & Ok & Ev & Ov) Hps IH]; intros final h txt n Hc Hlen Hfit.
  { exists final, h. split; [done|]. by rewrite app_nil_r, Z.add_0_r. }
  apply Forall_cons in Hlen as [Hlen1 Hlen]. cbn [fst snd] in *.
  assert (Ht : header_text ((k, v) :: hs) = header_line k v ++ header_text hs) by done.
  rewrite Ht in Hfit |- *. rewrite length_app in Hfit |- *.
  cbn [fmap list_fmap app length append_headers of_option]. rewrite bind_ok.
  pose proof (composing_keeps _ _ _ _ Hc) as Hk.
  rewrite (load_cstr_keeps _ _ _ _ _ Ek Ok Hk), bind_ok, (load_cstr_keeps _ _ _ _ _ Ev Ov Hk), bind_ok.
  destruct (append_line_ok final h txt n (header_line k v) Hc) as (final1 & h1 & -> & Hc1); [|done|lia|].
  { apply load_cstr_nul_free in Ek, Ev. unfold header_line. change (bytes_of_string ": ") with [58; 32]. set_solver. }
  rewrite bind_ok. destruct (IH final1 h1 _ _ Hc1 Hlen ltac:(lia)) as (final2 & h2 & E & Hc2).
  exists final2, h2. split; [done|]. rewrite <- app_assoc in Hc2.
  by replace (n + Z.of_nat (length (header_line k v) + length (header_text hs)))
    with (n + Z.of_nat (length (header_line k v)) + Z.of_nat (length (header_text hs))) by lia.
Qed.

(** The lines of a key-value list, if it has any. *)
Lemma append_header_list kv l hs final h txt n :
  composing final h txt n -> holds kv l -> Forall2 reads_pair l hs ->
  Forall (fun kv => (length (header_line kv.1 kv.2) < 1024)%nat) hs ->
  len0 + n + Z.of_nat (length (header_text hs)) < cap0 ->
  exists final' h',
    (if 0 <? size kv then append_headers (Ptr tb 0) (pairs kv) (Z.to_nat (size kv)) final h else Ok (final, h)) =
      Ok (final', h') /\
    composing final' h' (txt ++ header_text hs) (n + Z.of_nat (length (header_text hs))).
Proof using tb_fb tb_new.
  intros Hc (Hsz & (rest & Hp) & _) Hpairs Hlines Hfit. rewrite Hsz, Hp, Nat2Z.id.
  destruct (Z.ltb_spec 0 (Z.of_nat (length l))) as [_|Hl]; [by eapply append_headers_ok|].
  destruct Hpairs; [|simpl in Hl; lia]. exists final, h. split; [done|]. cbn. by rewrite app_nil_r, Z.add_0_r.
Qed.

(** What [body] contributes: [n] bytes counted, the text [t] copied. *)
Definition body_text (body : option ptr) (n : Z) (t : bytes) : Prop :=
  match body with Some p => copied m0 p n t /\ outside p fb | None => t = [] end.
Definition counted (body : option ptr) (n : Z) : Z := match body with Some _ => n | None => 0 end.

Lemma append_body_ok final h txt c n body t :
  composing final h txt c -> 0 <= n < 2 ^ 63 -> body_text body n t ->
  len0 + c + Z.of_nat (length (length_line n)) + 1 + counted body n < cap0 ->
  exists final' h', append_body (Ptr tb 0) n body final h = Ok (final', h') /\
    composing final' h' (txt ++ length_line n ++ [LF] ++ t)
      (c + Z.of_nat (length (length_line n)) + 1 + counted body n).
Proof using tb_fb tb_new.
  intros Hc Hn Hb Hfit. destruct (length_line_ok n ltac:(lia)) as [Hl H0].
  assert (0 <= counted body n) by (destruct body; simpl; lia).
  unfold append_body. destruct (append_line_ok final h txt c (length_line n) Hc H0) as (f1 & h1 & -> & Hc1); [lia..|].
  rewrite bind_ok.
  destruct (append_copied f1 h1 _ _ (Lit [LF] 0) 1 [LF] Hc1) as (f2 & h2 & -> & Hc2); [lia|lia| |].
  { exists [LF; 0], 0%nat. split; [done|]. split; [simpl; lia|reflexivity]. }
  rewrite bind_ok. rewrite <- app_assoc in Hc2. destruct body as [p|]; cbn [counted body_text] in *.
  - destruct Hb as [Hcp Ho]. pose proof (composing_keeps _ _ _ _ Hc2) as Hk.
    destruct (append_copied f2 h2 _ _ p n t Hc2) as (f3 & h3 & E & Hc3); [lia|lia|by eapply copied_frame|].
    exists f3, h3. split; [done|]. by repeat rewrite <- app_assoc in Hc3.
  - subst t. exists f2, h2. split; [done|]. rewrite Z.add_0_r, app_nil_r. done.
Qed.
End composing.

(** The body, and the length announced for it: in memory, in a descriptor that is
    spliced later, or the string the handler appended to. *)
Definition body_of (res : http_response) : option (option ptr * Z) :=
  if negb (is_null (file res)) then Some (Some (file res), file_sz res)
  else if negb (file_fd res =? 0) then Some (None, file_sz res)
  else s ← str res; Some (Some (buf s), len s).

Lemma body_dispatch `{Platform} res body n tmp final h : body_of res = Some (body, n) ->
  (if negb (is_null (file res)) then append_body tmp (file_sz res) (Some (file res)) final h
   else if negb (file_fd res =? 0) then append_body tmp (file_sz res) None final h
   else s ← of_option NullDeref (str res); append_body tmp (len s) (Some (buf s)) final h) = append_body tmp n body final h.
Proof.
  unfold body_of. destruct (negb (is_null (file res))); [by intros [= <- <-]|].
  destruct (negb (file_fd res =? 0)); [by intros [= <- <-]|]. destruct (str res); [|done]. cbn. by intros [= <- <-].
Qed.

Definition status_of (res : http_response) : Z := if negb (status res =? 0) then status res else 200.

Definition response_head (proto : bytes) (res : http_response) (hs : list (bytes * bytes)) (n : Z) : bytes :=
  status_line proto (status_of res) ++ header_text hs ++ length_line n ++ [LF].

Lemma status_line_nul_free proto z : 0 ∉ proto -> INT_MIN <= z <= INT_MAX -> 0 ∉ status_line proto z.
Proof.
  unfold INT_MIN, INT_MAX. intros Hp Hz. destruct (decimal_ok z ltac:(lia)) as [_ H0]. unfold status_line.
  assert (0 ∉ bytes_of_string " OK" ++ [LF]) by (apply (bool_decide_unpack _); reflexivity).
  assert (SP <> 0) by done. set_solver.
Qed.

(** The buffer on the stack is a new block. *)
Lemma composing_start h s fb txt (tb := fresh (dom (mem h))) :
  repr h s fb txt -> tb <> fb /\ mem h !! tb = None /\
  let h0 := Heap (<[tb := replicate 1024 0]> (mem h)) (oom h) in
  keeps (mem h) (mem h0) fb /\ composing (mem h) (oom h) fb tb (len s) (capacity s) (Some s) h0 txt 0.
Proof.
  intros Hs. assert (Hnew : mem h !! tb = None) by apply not_elem_of_dom, is_fresh.
  pose proof Hs as (Hbuf & (r & Hm & Hr) & Hs'). assert (Hne : tb <> fb) by congruence. split; [done|]. split; [done|].
  assert (Hk0 : keeps (mem h) (<[tb := replicate 1024 0]> (mem h)) fb).
  { intros b' bs ? Hbs. rewrite lookup_insert_ne; congruence. }
  split; [exact Hk0|]. exists s. split_and!; try done; [|lia|].
  - split; [done|]. split; [|done]. exists r. split; [|done]. simpl. by rewrite lookup_insert_ne.
  - exists (replicate 1024 0). split; [apply lookup_insert_eq|apply length_replicate].
Qed.

Lemma compose_run `{Platform} (req : http_request) (res : http_response)
    (s : string_t) (h : heap) (fb : block) (txt proto : bytes)
    (l : list kv_pair) (hs : list (bytes * bytes)) (body : option ptr) (n : Z) (t : bytes)
    (Hs : repr h s fb txt) (Hproto : load_cstr (mem h) (protocol req) = Ok proto) (Hout : outside (protocol req) fb)
    (Hstatus : INT_MIN <= status res <= INT_MAX)
    (Hheaders : holds (res_headers res) l) (Hpairs : Forall2 (reads_pair (mem h) fb) l hs)
    (Hbody : body_of res = Some (body, n)) (Hn : 0 <= n < 2 ^ 63) (Ht : body_text (mem h) fb body n t)
    (Hline : (length (status_line proto (status_of res)) < 1024)%nat)
    (Hlines : Forall (fun kv => (length (header_line kv.1 kv.2) < 1024)%nat) hs)
    (Hfit : len s + Z.of_nat (length (response_head proto res hs n)) + counted body n < capacity s) :
  exists s' h', http_compose_response req res (Some s) h = Ok (1, Some s', h') /\
    repr h' s' fb (txt ++ response_head proto res hs n ++ t) /\
    len s' = len s + Z.of_nat (length (response_head proto res hs n)) + counted body n /\
    keeps (mem h) (mem h') fb /\ oom h' = oom h /\ capacity s' = capacity s.
Proof.
  destruct (composing_start h s fb txt Hs) as (Hne & Hnew & Hk0 & Hc0).
  unfold http_compose_response, UNLIKELY. set (tb := fresh (dom (mem h))) in *. fold (status_of res).
  destruct (is_null (protocol req)) eqn:En; [destruct (protocol req); done|].
  set (h0 := Heap _ _) in *. rewrite (load_cstr_keeps _ _ _ _ _ Hproto Hout Hk0), bind_ok.
  unfold response_head in *. rewrite !length_app in Hfit. cbn [length] in Hfit.
  assert (Hst : INT_MIN <= status_of res <= INT_MAX).
  { unfold status_of. destruct (status res =? 0); [done|done]. }
  assert (0 <= counted body n) by (destruct body; simpl; lia).
  destruct (append_line_ok (mem h) (oom h) fb tb _ _ Hne Hnew _ _ _ _ (status_line proto (status_of res)) Hc0)
    as (f1 & h1 & -> & Hc1); [apply status_line_nul_free; [by eapply load_cstr_nul_free|done]|done|lia|].
  rewrite bind_ok.
  destruct (append_header_list (mem h) (oom h) fb tb _ _ Hne Hnew _ l hs _ _ _ _ Hc1 Hheaders Hpairs Hlines)
    as (f2 & h2 & E2 & Hc2); [lia|].
  destruct (append_body_ok (mem h) (oom h) fb tb _ _ Hne Hnew _ _ _ _ n body t Hc2 Hn Ht) as (f3 & h3 & E3 & Hc3);
    [lia|].
  rewrite E2, bind_ok, (body_dispatch res body n _ _ _ Hbody), E3, bind_ok.
  destruct Hc3 as (s' & -> & Hs3 & Hl3 & Hc & _ & Hk3 & Ho3).
  eexists s', _. split; [done|]. repeat rewrite <- app_assoc in Hs3. repeat rewrite <- app_assoc.
  split_and!; [| |intros b' bs Hb' Hbs; simpl; rewrite lookup_delete_ne by congruence; by apply Hk3|done|done].
  - destruct Hs3 as (Hb3 & (r3 & Hm3 & Hr3) & Hs3). split; [done|]. split; [|done].
    exists r3. split; [|done]. simpl. by rewrite lookup_delete_ne.
  - rewrite Hl3, !length_app. cbn [length]. lia.
Qed.

(** ** Properties *)

(** C17.  [http_compose_response] appends exactly the response: the status line with
    the request's protocol and the status (200 when none was set), one line per
    header in insertion order, the content length, an empty line and the body if
    it is in memory.  It holds on every platform while the lines fit the 1024-byte
    buffer and the total fits the string; no other object changes and the stack
    buffer is gone. *)
Theorem http_compose_response_spec `{Platform} (req : http_request) (res : http_response)
    (s : string_t) (h : heap) (fb : block) (txt proto : bytes)
    (l : list kv_pair) (hs : list (bytes * bytes)) (body : option ptr) (n : Z) (t : bytes)
    (Hs : repr h s fb txt) (Hproto : load_cstr (mem h) (protocol req) = Ok proto) (Hout : outside (protocol req) fb)
    (Hstatus : INT_MIN <= status res <= INT_MAX)
    (Hheaders : holds (res_headers res) l) (Hpairs : Forall2 (reads_pair (mem h) fb) l hs)
    (Hbody : body_of res = Some (body, n)) (Hn : 0 <= n < 2 ^ 63) (Ht : body_text (mem h) fb body n t)
    (Hline : (length (status_line proto (status_of res)) < 1024)%nat)
    (Hlines : Forall (fun kv => (length (header_line kv.1 kv.2) < 1024)%nat) hs)
    (Hfit : len s + Z.of_nat (length (response_head proto res hs n)) + counted body n < capacity s) :
  exists s' h', http_compose_response req res (Some s) h = Ok (1, Some s', h') /\
    repr h' s' fb (txt ++ response_head proto res hs n ++ t) /\
    len s' = len s + Z.of_nat (length (response_head proto res hs n)) + counted body n /\
    keeps (mem h) (mem h') fb /\ oom h' = oom h /\ capacity s' = capacity s.
Proof. by eapply compose_run. Qed.

Lemma http_compose_response_spec_witness :
  let h := Heap {[1%positive := replicate 256 0]} [] in
  let res := Response 0 (lit "hello"%string) 0 5 None (Kv 1 0 1 [Some (Kv_pair (lit "K"%string) (lit "v"%string))]) in
  let req := Request METHOD_GET NULL (lit "HTTP/1.1"%string) None (Kv 0 0 0 []) (Kv 0 0 0 []) in
  exists s' h', http_compose_response (H := x86) req res (Some (String_t 256 0 (Ptr 1 0))) h = Ok (1, Some s', h') /\
    repr h' s' 1 (bytes_of_string "HTTP/1.1 200 OK" ++ [LF] ++ bytes_of_string "K: v" ++ [LF] ++
                  bytes_of_string "Content-Length: 5" ++ [LF; LF] ++ bytes_of_string "hello").
Proof.
  intros h res req.
  destruct (http_compose_response_spec (H := x86) req res (String_t 256 0 (Ptr 1 0)) h 1 [] (bytes_of_string "HTTP/1.1")
              [Kv_pair (lit "K"%string) (lit "v"%string)] [(bytes_of_string "K", bytes_of_string "v")]
              (Some (lit "hello"%string)) 5 (bytes_of_string "hello")) as (s' & h' & E & R & _).
  - split; [reflexivity|]. split; [|split; [apply not_elem_of_nil|simpl; lia] ].
    exists (replicate 255 0). split; reflexivity.
  - reflexivity.
  - exact I.
  - vm_compute. split; discriminate.
  - split; [reflexivity|]. split; [by exists []|]. vm_compute. split; [reflexivity|discriminate].
  - constructor; [|constructor]. repeat split.
  - reflexivity.
  - lia.
  - split; [|exact I]. exists (bytes_of_string "hello" ++ [0]), 0%nat. split; [reflexivity|]. split; [simpl; lia|reflexivity].
  - vm_compute. lia.
  - constructor; [|constructor]. vm_compute. lia.
  - vm_compute. reflexivity.
  - exists s', h'. split; [exact E|exact R].
Defined.

Lemma load_cstr_live m p s b : load_cstr m p = Ok s -> m !! b = None -> outside p b.
Proof.
  unfold load_cstr, object. destruct p as [|b' o|]; try done. intros E Hb ->. by rewrite Hb in E.
Qed.

Lemma sprintf_overflow h b bs text :
  mem h !! b = Some bs -> (length bs <= length text)%nat -> sprintf (Ptr b 0) text h = Undef OutOfBounds.
Proof.
  intros Hb Hl. unfold sprintf, store_bytes. rewrite Hb, (blit_oob bs 0); [done|].
  rewrite length_app. simpl. lia.
Qed.

Lemma compose_overflow `{Platform} req res final h proto :
  load_cstr (mem h) (protocol req) = Ok proto -> (1024 <= length (status_line proto (status_of res)))%nat ->
  http_compose_response req res final h = Undef OutOfBounds.
Proof.
  intros Hp Hlen. set (tb := fresh (dom (mem h))).
  assert (Hnew : mem h !! tb = None) by apply not_elem_of_dom, is_fresh.
  unfold http_compose_response, UNLIKELY. fold tb. fold (status_of res).
  destruct (is_null (protocol req)) eqn:En; [destruct (protocol req); done|].
  set (h0 := Heap _ _).
  assert (Hk0 : keeps (mem h) (mem h0) tb) by (intros b' bs ? Hbs; simpl; by rewrite lookup_insert_ne).
  rewrite (load_cstr_keeps _ _ _ _ _ Hp (load_cstr_live _ _ _ _ Hp Hnew) Hk0), bind_ok.
  unfold append_line. rewrite (sprintf_overflow h0 tb (replicate 1024 0)); [done| |by rewrite length_replicate].
  apply lookup_insert_eq.
Qed.

(** C34.  A client overflows the stack.  A well-formed request whose protocol has at
    least 1019 bytes (it need only start with [HTTP]) is accepted by the parser,
    and composing the response, whatever the handler answered, then writes past
    the 1024-byte buffer. *)
Theorem long_protocol_overflows `{Platform} (b : block) (r : request_text) (k : nat) (h : heap) (req : http_request)
    (Hr : well_formed r) (Htext : Forall (fun c => 0 < c < 256) (print_request r))
    (Hmax : Z.of_nat (length (print_request r)) <= INT_MAX)
    (Hb : mem h !! b = Some (print_request r ++ 0 :: replicate k 0)) (Hreq : fresh_request req)
    (Hlong : (1019 <= length (t_protocol r))%nat) :
  exists req' h',
    http_parse_request b req h (Z.of_nat (length (print_request r))) = Ok (1, req', h') /\
    forall res final, http_compose_response req' res final h' = Undef OutOfBounds.
Proof.
  pose proof (ref_parse_print r Hr) as E.
  destruct (http_parse_request_computes b (print_request r) k h req Hb) as (req' & h' & E' & _ & R); [|done|done|done| |].
  - unfold print_request. rewrite !length_app. cbn [length]. rewrite !length_app. cbn [length].
    rewrite !length_app. cbn [length CRLF]. lia.
  - intros r' E1. rewrite E in E1. injection E1 as <-. apply ref_headers_print; [apply Hr|].
    pose proof (print_headers_length (t_headers r)). cbn. lia.
  - rewrite E in E', R. exists req', h'. split; [exact E'|]. intros res final.
    destruct R as (_ & _ & _ & Hp & _). apply (compose_overflow _ _ _ _ _ Hp).
    unfold status_line. rewrite length_app. cbn [length]. rewrite !length_app. simpl. lia.
Qed.

Definition long_request : request_text :=
  Request_text (bytes_of_string "GET") (Method (tag "GET ") METHOD_GET 3) (bytes_of_string "/fib") []
    (bytes_of_string "HTTP" ++ replicate 1015 49) [].

Lemma long_request_ok : well_formed long_request.
Proof.
  split_and!; try reflexivity.
  - by eexists.
  - by notin.
  - by notin.
  - constructor.
  - apply Nat.leb_le. reflexivity.
  - cbn [t_protocol long_request]. apply not_elem_of_app. split; [by notin|]. intros H.
    apply elem_of_replicate in H as [? _]. done.
  - constructor.
Qed.

Lemma long_protocol_overflows_witness :
  exists req' h',
    http_parse_request 1 empty_request (Heap {[1%positive := print_request long_request ++ replicate 16 0]} []) 1032 = Ok (1, req', h') /\
    http_compose_response (H := x86) req' (Response 0 NULL 0 0 None (Kv 0 0 0 [])) None h' = Undef OutOfBounds.
Proof.
  destruct (long_protocol_overflows (H := x86) 1 long_request 15
              (Heap {[1%positive := print_request long_request ++ replicate 16 0]} []) empty_request) as (req' & h' & E & O).
  - apply long_request_ok.
  - apply bytes_nonzero. vm_compute. reflexivity.
  - vm_compute. discriminate.
  - reflexivity.
  - apply fresh_empty.
  - apply Nat.leb_le. reflexivity.
  - exists req', h'. split; [exact E|apply O].
Defined.

(** ** Properties of the file route *)

Lemma SET_RES_MIME_ok response l v h :
  holds (res_headers response) l -> provided (res_headers response) ->
  exists kv, SET_RES_MIME response v h = Ok (set_res_headers response kv, h) /\
    holds kv (take (Z.to_nat (kv_capacity (res_headers response))) (l ++ [Kv_pair (lit "Content-Type"%string) v])).
Proof.
  intros Hl Hp. destruct (kv_set_ignored_provided (res_headers response) l (lit "Content-Type"%string) v h Hl Hp)
    as (kv & E & Hkv & _). exists kv. unfold SET_RES_MIME, SET_RES_HEADER. by rewrite E, bind_ok.
Qed.

Lemma filter_not_in (fd : Z) (l : list Z) : fd ∉ l -> filter (fun x => x <> fd) l = l.
Proof.
  induction l as [|x l IH]; intros H; [done|]. apply not_elem_of_cons in H as [Hx H].
  rewrite filter_cons_True by congruence. by rewrite IH.
Qed.

Lemma store_buf_ok response l sz mime h :
  holds (res_headers response) l -> provided (res_headers response) -> 0 <= sz < 2 ^ 63 ->
  exists response', store_buf response (Some sz) (Some mime) h = Ok (response', h) /\
    status response' = 200 /\ file_fd response' = file_fd response /\ file_sz response' = sz /\
    file response' = file response /\ str response' = str response /\
    holds (res_headers response') (take (Z.to_nat (kv_capacity (res_headers response)))
      (l ++ [Kv_pair (lit "Content-Type"%string) mime])).
Proof.
  intros Hl Hp Hsz. unfold store_buf. cbn [of_option]. rewrite !bind_ok.
  destruct (SET_RES_MIME_ok (set_status (set_file_sz response (u64 sz)) 200) l mime h Hl Hp) as (kv & -> & Hkv).
  eexists. split; [done|]. split_and!; try done. cbn. by rewrite u64_small by lia.
Qed.

(** C35.  [global_static_router] in the build that watches the files, on every
    branch: an unreadable path is [FILE_NOT_FOUND]; a failing [fstat] is [GENERAL]
    with the descriptor closed again; an unknown type is [GENERAL] too but leaves
    the descriptor open; otherwise the response has the descriptor, the size,
    status 200 and the type as its [Content-Type], and owns the open descriptor. *)
Theorem global_static_router_watch (fs : file_system) (response : http_response) (filepath : ptr)
    (st : static_state) (h : heap) (name : bytes) (l : list kv_pair)
    (Hname : load_cstr (mem h) filepath = Ok name)
    (Hl : holds (res_headers response) l) (Hp : provided (res_headers response))
    (Hnew : sys_open fs name ∉ opened st) (Hsize : 0 <= (sys_fstat fs (sys_open fs name)).2 < 2 ^ 63) :
  let fd := sys_open fs name in
  exists ret response' st', global_static_router fs true response filepath st h = Ok (ret, response', st', h) /\
    data st' = data st /\
    ((fd < 0 /\ ret = HANDLER_ERR_FILE_NOT_FOUND /\ response' = response /\ opened st' = opened st) \/
     (0 <= fd /\ (sys_fstat fs fd).1 < 0 /\ ret = HANDLER_ERR_GENERAL /\ response' = response /\
        opened st' = opened st) \/
     (0 <= fd /\ 0 <= (sys_fstat fs fd).1 /\ magic_descriptor fs fd = NULL /\
        ret = HANDLER_ERR_GENERAL /\ response' = response /\ opened st' = fd :: opened st) \/
     (0 <= fd /\ 0 <= (sys_fstat fs fd).1 /\ magic_descriptor fs fd <> NULL /\
        ret = HANDLER_ERR_SUCCESS /\ opened st' = fd :: opened st /\
        status response' = 200 /\ file_fd response' = fd /\ file_sz response' = (sys_fstat fs fd).2 /\
        file response' = file response /\ str response' = str response /\
        holds (res_headers response') (take (Z.to_nat (kv_capacity (res_headers response)))
          (l ++ [Kv_pair (lit "Content-Type"%string) (magic_descriptor fs fd)])))).
Proof.
  intros fd. unfold global_static_router, UNLIKELY. cbn [negb andb]. rewrite Hname, bind_ok. fold fd in Hnew, Hsize |- *.
  destruct (Z.ltb_spec fd 0) as [Hfd|Hfd]; [eexists _, _, _; split; [done|]; split; [done|]; by left|].
  destruct (sys_fstat fs fd) as [r sz] eqn:Er. cbn [fst snd] in *.
  destruct (Z.ltb_spec r 0) as [Hr|Hr].
  { eexists _, _, _. split; [done|]. split; [done|]. right. left. split_and!; try done.
    cbn [close_fd opened]. rewrite filter_cons_False by (intros F; by apply F).
    by apply filter_not_in. }
  destruct (magic_descriptor fs fd) as [|mb mo|ms mo] eqn:Em; cbn [is_null].
  { eexists _, _, _. split; [done|]. split; [done|]. right. right. by left. }
  all: edestruct (store_buf_ok (set_file_fd response fd)) as (response' & -> & E1 & E2 & E3 & E4 & E5 & E6);
    [exact Hl|exact Hp|exact Hsize|]; rewrite bind_ok; eexists _, _, _; (split; [done|]); (split; [done|]);
    right; right; right; by split_and!.
Qed.

Lemma global_static_router_watch_witness :
  let fs := File_system (fun _ => 7) (fun _ => (0, 1234)) (fun _ => lit "text/html"%string) (fun _ _ => NULL) NULL in
  let res := Response 0 NULL 0 0 None (KV_INIT_WITH_BUF (replicate 20 None) 20) in
  exists response', global_static_router fs true res (lit "tests/fib.html"%string) (Static_state NULL []) (Heap ∅ []) =
    Ok (0, response', Static_state NULL [7], Heap ∅ []) /\ file_fd response' = 7 /\ file_sz response' = 1234.
Proof.
  intros fs res.
  destruct (global_static_router_watch fs res (lit "tests/fib.html"%string) (Static_state NULL []) (Heap ∅ [])
              (bytes_of_string "tests/fib.html") []) as (ret & res' & st' & E & D & P).
  - reflexivity.
  - by apply holds_init_with_buf.
  - reflexivity.
  - apply not_elem_of_nil.
  - simpl. lia.
  - exists res'. destruct P as [[F _]|[(_ & F & _)|[(_ & _ & F & _)|(_ & _ & _ & -> & O & _ & F1 & F2 & _)]]];
      [discriminate F|discriminate F|discriminate F|].
    split; [|split; [exact F1|exact F2] ]. destruct st' as [d o]. cbn in D, O. rewrite D, O in E. exact E.
Defined.

(** C38.  The release build serves a file once.  After a call that has served a file,
    or one whose [mmap] failed, every later call, for any static route, jumps over
    the initialisation of [filestat] and [mime_str] and then reads them: undefined
    behaviour, whatever the file system answers. *)
Theorem global_static_router_release (fs : file_system) (response response' : http_response)
    (filepath : ptr) (st st' : static_state) (h h' : heap) (ret : Z)
    (Hcall : global_static_router fs false response filepath st h = Ok (ret, response', st', h'))
    (Hmmap : forall sz fd, sys_mmap fs sz fd <> NULL)
    (Hret : ret = HANDLER_ERR_SUCCESS \/ data st' <> data st) :
  forall fs2 response2 filepath2 h2,
    global_static_router fs2 false response2 filepath2 st' h2 = Undef Uninitialised.
Proof.
  intros fs2 response2 filepath2 h2.
  assert (Hd : is_null (data st') = false); [|by unfold global_static_router; rewrite Hd].
  unfold global_static_router, UNLIKELY in Hcall. cbn [negb andb] in Hcall.
  destruct (is_null (data st)) eqn:Ed; cbn [negb] in Hcall; [|discriminate Hcall].
  apply bind_Ok_inv in Hcall as (name & _ & Hcall).
  assert (Hfail : forall o, ret = HANDLER_ERR_FILE_NOT_FOUND \/ ret = HANDLER_ERR_GENERAL ->
    st' = Static_state (data st) o -> is_null (data st') = false).
  { intros o Hr ->. destruct Hret as [->|Hret]; [by destruct Hr|done]. }
  destruct (sys_open fs name <? 0).
  { injection Hcall as <- _ <- _. apply (Hfail (opened st)); [by left|by destruct st]. }
  destruct (sys_fstat fs (sys_open fs name)) as [r sz].
  destruct (r <? 0); [injection Hcall as <- _ <- _; eapply Hfail; [by right|done]|].
  destruct (is_null (magic_descriptor fs (sys_open fs name)));
    [injection Hcall as <- _ <- _; eapply Hfail; [by right|done]|].
  set (d := sys_mmap fs sz (sys_open fs name)) in *.
  assert (Hd : is_null d = false) by (specialize (Hmmap sz (sys_open fs name)); fold d in Hmmap; by destruct d).
  destruct (bool_decide (d = MAP_FAILED fs)); [by injection Hcall as _ _ <- _|].
  apply bind_Ok_inv in Hcall as ([res1 h1] & _ & Hcall). by injection Hcall as _ _ <- _.
Qed.

Lemma global_static_router_release_witness :
  let fs := File_system (fun _ => 7) (fun _ => (0, 5)) (fun _ => lit "text/html"%string) (fun _ _ => lit "hello"%string)
              (Lit [] (-1)) in
  let res := Response 0 NULL 0 0 None (KV_INIT_WITH_BUF (replicate 20 None) 20) in
  global_static_router fs false res (lit "b.html"%string) (Static_state (lit "hello"%string) [7]) (Heap ∅ []) =
    Undef Uninitialised.
Proof.
  intros fs res.
  apply (global_static_router_release fs res
    (Response 200 (lit "hello"%string) 0 5 None
       (Kv 1 0 20 (Some (Kv_pair (lit "Content-Type"%string) (lit "text/html"%string)) :: replicate 19 None)))
    (lit "a.html"%string) (Static_state NULL []) (Static_state (lit "hello"%string) [7]) (Heap ∅ []) (Heap ∅ []) 0).
  - vm_compute. reflexivity.
  - intros sz fd. discriminate.
  - left. reflexivity.
Defined.
