(* ===== verification/Swap.v ===== *)
(** * Context switching (lib/coro.c, the naked function [swap_context])

    The assembly of [swap_context] is interpreted: a machine state is a register
    file, a memory of 64-bit words and an instruction pointer.  The layout of
    [coroutine] (include/coro.h) fixes where the two contexts, the yielded value,
    the overflow guard and the stack are. *)

From S2P Require Import Prelude.
Open Scope Z_scope.

(** ** The machine *)

Inductive reg :=
| RAX | RBX | RCX | RDX | RSI | RDI | RBP | RSP
| R8 | R9 | R10 | R11 | R12 | R13 | R14 | R15.

#[export] Instance reg_eq_dec : EqDecision reg.
Proof. solve_decision. Defined.

Record cpu := Cpu { regs : reg -> Z; words : gmap Z Z; rip : Z }.

(** The operands in AT&T order, source first. *)
Inductive instr :=
| Movq_to (src : reg) (d : Z) (base : reg)       (* movq %src, d(%base) *)
| Movq_from (d : Z) (base dst : reg)             (* movq d(%base), %dst *)
| Leaq (d : Z) (base dst : reg)                  (* leaq d(%base), %dst *)
| Jmpq (r : reg).                                (* jmpq *%r *)

Definition set_reg (r : reg) (v : Z) (f : reg -> Z) : reg -> Z :=
  fun r' => if bool_decide (r = r') then v else f r'.

(** Words that are not mapped fault. *)
Definition load_word (m : gmap Z Z) (a : Z) : result Z := of_option OutOfBounds (m !! a).
Definition store_word (m : gmap Z Z) (a v : Z) : result (gmap Z Z) :=
  _ ← load_word m a; Ok (<[a := v]> m).

Definition step (i : instr) (s : cpu) : result cpu :=
  match i with
  | Movq_to src d base =>
      m ← store_word (words s) (u64 (regs s base + d)) (regs s src);
      Ok (Cpu (regs s) m (rip s))
  | Movq_from d base dst =>
      v ← load_word (words s) (u64 (regs s base + d));
      Ok (Cpu (set_reg dst v (regs s)) (words s) (rip s))
  | Leaq d base dst => Ok (Cpu (set_reg dst (u64 (regs s base + d)) (regs s)) (words s) (rip s))
  | Jmpq r => Ok (Cpu (regs s) (words s) (regs s r))
  end.

Fixpoint exec (p : list instr) (s : cpu) : result cpu :=
  match p with [] => Ok s | i :: p => s ← step i s; exec p s end.

Definition save_context : list instr :=
  [ Movq_to RBX 0 RDI; Movq_to RBP 8 RDI; Movq_to R12 16 RDI; Movq_to R13 24 RDI;
    Movq_to R14 32 RDI; Movq_to R15 40 RDI; Movq_to RDI 48 RDI; Movq_to RSI 56 RDI;
    Movq_to RDX 64 RDI; Movq_to RCX 72 RDI; Movq_to R8 80 RDI; Movq_to R9 88 RDI;
    Movq_from 0 RSP RCX; Movq_to RCX 96 RDI;
    Leaq 8 RSP RCX; Movq_to RCX 104 RDI ].

Definition restore_context : list instr :=
  [ Movq_from 104 RSI RSP;
    Movq_from 0 RSI RBX; Movq_from 8 RSI RBP; Movq_from 16 RSI R12; Movq_from 24 RSI R13;
    Movq_from 32 RSI R14; Movq_from 40 RSI R15; Movq_from 48 RSI RDI; Movq_from 64 RSI RDX;
    Movq_from 72 RSI RCX; Movq_from 80 RSI R8; Movq_from 88 RSI R9; Movq_from 96 RSI R10;
    Movq_from 56 RSI RSI; Jmpq R10 ].

Definition swap_context : list instr := save_context ++ restore_context.

(** [call f] with return address [ra]: the address is pushed. *)
Definition call (ra : Z) (s : cpu) : result cpu :=
  let sp := u64 (regs s RSP - 8) in
  m ← store_word (words s) sp ra;
  Ok (Cpu (set_reg RSP sp (regs s)) m (rip s)).

(** ** Contexts in memory *)

(** [l] is stored in consecutive words from [a] on. *)
Definition context_at (m : gmap Z Z) (a : Z) (l : list Z) : Prop :=
  forall i v, l !! i = Some v -> m !! (a + 8 * Z.of_nat i) = Some v.

(** What [swap_context] stores, in the order of [co_context]. *)
Definition saved (r : reg -> Z) (ra : Z) : list Z :=
  [ r RBX; r RBP; r R12; r R13; r R14; r R15; r RDI; r RSI; r RDX; r RCX; r R8; r R9;
    ra; u64 (r RSP + 8) ].

(** The registers after a context has been restored. *)
Definition restored (l : list Z) (s : cpu) : Prop :=
  exists rbx rbp r12 r13 r14 r15 rdi rsi rdx rcx r8 r9 pc sp,
    l = [rbx; rbp; r12; r13; r14; r15; rdi; rsi; rdx; rcx; r8; r9; pc; sp] /\
    regs s RBX = rbx /\ regs s RBP = rbp /\ regs s R12 = r12 /\ regs s R13 = r13 /\
    regs s R14 = r14 /\ regs s R15 = r15 /\ regs s RDI = rdi /\ regs s RSI = rsi /\
    regs s RDX = rdx /\ regs s RCX = rcx /\ regs s R8 = r8 /\ regs s R9 = r9 /\
    rip s = pc /\ regs s RSP = sp.

(** A context's 14 words are mapped and do not wrap around. *)
Definition context_room (m : gmap Z Z) (a : Z) : Prop :=
  0 <= a < 2 ^ 64 - 112 /\ forall i, 0 <= i < 14 -> is_Some (m !! (a + 8 * i)).

Definition disjoint_contexts (a b : Z) : Prop := a + 112 <= b \/ b + 112 <= a.

Lemma exec_app p q s : exec (p ++ q) s = s' ← exec p s; exec q s'.
Proof.
  revert s. induction p as [|i p IH]; intros s; [done|]. cbn [app exec].
  destruct (step i s) as [s1| |]; [|done|done]. cbn. apply IH.
Qed.

(** ** Saving and restoring *)

Definition store_context (m : gmap Z Z) (a : Z) (l : list Z) : gmap Z Z :=
  fold_left (fun m '(i, v) => <[a + i := v]> m)
    (zip [0; 8; 16; 24; 32; 40; 48; 56; 64; 72; 80; 88; 96; 104] l) m.

Lemma store_word_ok m a v : is_Some (m !! a) -> store_word m a v = Ok (<[a := v]> m).
Proof. intros [x Hx]. unfold store_word, load_word. by rewrite Hx. Qed.

Lemma context_room_insert m a a' v : context_room m a -> context_room (<[a' := v]> m) a.
Proof.
  intros [Ha Hm]. split; [done|]. intros i Hi. destruct (Hm i Hi) as [x Hx].
  destruct (decide (a' = a + 8 * i)) as [->|]; [rewrite lookup_insert_eq; eauto|].
  rewrite lookup_insert_ne by done. eauto.
Qed.

Lemma store_slot m a d v : context_room m a -> (exists i, d = 8 * i /\ 0 <= i < 14) ->
  store_word m (u64 (a + d)) v = Ok (<[a + d := v]> m).
Proof.
  intros [Ha Hm] (i & -> & Hi). rewrite u64_small by lia. apply store_word_ok, Hm. lia.
Qed.

Lemma exec_store src k (p : list instr) s a :
  regs s RDI = a -> context_room (words s) a -> 0 <= k < 14 ->
  exec (Movq_to src (8 * k) RDI :: p) s =
  exec p (Cpu (regs s) (<[a + 8 * k := regs s src]> (words s)) (rip s)).
Proof.
  intros Ha Hm Hk. cbn [exec step]. rewrite Ha, store_slot by (done || by exists k).
  by rewrite !bind_ok.
Qed.

Lemma lookup_store_context m a l x :
  (x < a \/ a + 104 < x) -> store_context m a l !! x = m !! x.
Proof.
  intros Hx. unfold store_context.
  assert (H : forall z, Forall (fun p => 0 <= p.1 <= 104) z ->
    forall m : gmap Z Z, fold_left (fun m '(i, v) => <[a + i := v]> m) z m !! x = m !! x).
  { intros z Hz. induction Hz as [|[i v] z Hi Hz IH]; intros m'; [done|]. cbn in Hi |- *.
    rewrite IH, lookup_insert_ne by lia. done. }
  apply H. apply Forall_forall. intros [i v] Hin. apply elem_of_zip_l in Hin. cbn.
  repeat (apply elem_of_cons in Hin as [->|Hin]; [lia|]). by apply not_elem_of_nil in Hin.
Qed.

Ltac room :=
  cbn [words];
  repeat lazymatch goal with |- context_room (<[_ := _]> _) _ => apply context_room_insert end; assumption.

Lemma exec_lea d base dst p s :
  exec (Leaq d base dst :: p) s = exec p (Cpu (set_reg dst (u64 (regs s base + d)) (regs s)) (words s) (rip s)).
Proof. reflexivity. Qed.

(** Executes the store of register [r] into slot [k]. *)
Ltac save r k a :=
  rewrite (exec_store r k _ _ a); [|assumption|room|lia]; cbn [regs words rip].

Lemma save_context_spec s a ra :
  regs s RDI = a -> context_room (words s) a ->
  0 <= regs s RSP < 2 ^ 64 -> (regs s RSP < a \/ a + 104 < regs s RSP) ->
  words s !! regs s RSP = Some ra ->
  exists s', exec save_context s = Ok s' /\
    words s' = store_context (words s) a (saved (regs s) ra) /\
    (forall r, r <> RCX -> regs s' r = regs s r).
Proof.
  intros Ha Hm Hsp Hout Hra. unfold save_context.
  save RBX 0 a. save RBP 1 a. save R12 2 a. save R13 3 a. save R14 4 a. save R15 5 a.
  save RDI 6 a. save RSI 7 a. save RDX 8 a. save RCX 9 a. save R8 10 a. save R9 11 a.
  cbn [regs words rip].
  match goal with |- context [exec (_ :: ?p) ?st] =>
    assert (E : exec (Movq_from 0 RSP RCX :: p) st = exec p (Cpu (set_reg RCX ra (regs st)) (words st) (rip st)))
  end.
  { cbn [exec step words regs rip]. replace (regs s RSP + 0) with (regs s RSP) by lia. rewrite u64_small by done. unfold load_word.
    rewrite !lookup_insert_ne by lia. rewrite Hra. cbn [of_option]. by rewrite bind_ok. }
  rewrite E. clear E. save RCX 12 a.
  rewrite exec_lea. save RCX 13 a.
  eexists. split; [reflexivity|]. split; [reflexivity|].
  intros r Hr. cbn [regs]. unfold set_reg. by rewrite !bool_decide_false by congruence.
Qed.

(** The stored words, read back. *)
Lemma store_context_at m a l : length l = 14%nat -> context_at (store_context m a l) a l.
Proof.
  intros Hl. do 15 (destruct l as [|? l]; try discriminate Hl).
  intros i v Hi. do 14 (destruct i as [|i]; [injection Hi as <-; cbn [store_context zip zip_with fold_left];
    repeat first [by rewrite lookup_insert_eq | rewrite lookup_insert_ne by lia]|]).
  destruct i; discriminate Hi.
Qed.

(** ** Restoring *)

Lemma exec_load k dst (p : list instr) s a l v :
  regs s RSI = a -> 0 <= a < 2 ^ 64 - 112 -> context_at (words s) a l -> l !! k = Some v -> (k < 14)%nat ->
  exec (Movq_from (8 * Z.of_nat k) RSI dst :: p) s = exec p (Cpu (set_reg dst v (regs s)) (words s) (rip s)).
Proof.
  intros Ha Hr Hl Hv Hk. cbn [exec step]. rewrite Ha, u64_small by lia. unfold load_word.
  rewrite (Hl k v Hv). cbn [of_option]. by rewrite !bind_ok.
Qed.

(** Executes the load of slot [k] into register [r]. *)
Ltac load k r a l := erewrite (exec_load k r _ _ a l); [|assumption|assumption|assumption|reflexivity|lia]; cbn [regs words rip].

Lemma restore_context_spec s a l :
  length l = 14%nat -> regs s RSI = a -> 0 <= a < 2 ^ 64 - 112 -> context_at (words s) a l ->
  exists s', exec restore_context s = Ok s' /\ words s' = words s /\ restored l s'.
Proof.
  intros Hl Ha Hr Hm. do 15 (destruct l as [|? l]; try discriminate Hl). unfold restore_context.
  match type of Hm with context_at _ _ ?l => 
  load 13%nat RSP a l; load 0%nat RBX a l; load 1%nat RBP a l; load 2%nat R12 a l; load 3%nat R13 a l;
  load 4%nat R14 a l; load 5%nat R15 a l; load 6%nat RDI a l; load 8%nat RDX a l; load 9%nat RCX a l;
  load 10%nat R8 a l; load 11%nat R9 a l; load 12%nat R10 a l; load 7%nat RSI a l end.
  eexists. split; [reflexivity|]. split; [reflexivity|].
  do 14 eexists. split; [reflexivity|]. by split_and!.
Qed.

(** [swap_context(old, new)]: the current context, with the return address as its
    instruction pointer and the stack pointer as after the return, is stored at
    [old], and the context at [new] is entered. *)
Lemma swap_context_spec s old new ra l :
  regs s RDI = old -> regs s RSI = new ->
  context_room (words s) old -> 0 <= new < 2 ^ 64 - 112 -> disjoint_contexts old new ->
  0 <= regs s RSP < 2 ^ 64 -> (regs s RSP < old \/ old + 104 < regs s RSP) ->
  words s !! regs s RSP = Some ra -> length l = 14%nat -> context_at (words s) new l ->
  exists s', exec swap_context s = Ok s' /\
    words s' = store_context (words s) old (saved (regs s) ra) /\ restored l s'.
Proof.
  intros Hold Hnew Hroom Hr Hd Hsp Hout Hra Hl Hm. unfold swap_context. rewrite exec_app.
  destruct (save_context_spec s old ra Hold Hroom Hsp Hout Hra) as (s1 & -> & Hw & Hregs). rewrite bind_ok.
  destruct (restore_context_spec s1 new l Hl) as (s2 & E & Hw2 & Hrest); [by rewrite Hregs|done| |].
  - intros i v Hi. rewrite Hw, lookup_store_context; [by apply Hm|].
    apply lookup_lt_Some in Hi. unfold disjoint_contexts in Hd. lia.
  - exists s2. by rewrite E, Hw2, Hw.
Qed.

(** ** The coroutine object *)

Definition STACK_SZ : Z := Z.shiftl 1 15.

(** Offsets of the members of [coroutine]; [status] is an [int], so the next
    member is aligned up. *)
Definition CO_CONTEXT : Z := 0.
Definition CO_CALLER : Z := CO_CONTEXT + 14 * 8.
Definition CO_YIELDED : Z := CO_CALLER + 14 * 8.
Definition CO_STATUS : Z := CO_YIELDED + 8.
Definition CO_PADDING : Z := CO_STATUS + 8.
Definition CO_STACK : Z := CO_PADDING + 8.
Definition CO_SIZE : Z := CO_STACK + STACK_SZ.

Definition CO_STATUS_CREATED : Z := 0.
Definition CO_STATUS_STARTED : Z := 1.
Definition CO_STATUS_STOPPED : Z := 2.

(** [memset(co, 0, sizeof(coroutine))], [n] words. *)
Fixpoint zero_words (a : Z) (n : nat) (m : gmap Z Z) : gmap Z Z :=
  match n with O => m | S n => <[a := 0]> (zero_words (a + 8) n m) end.

(** [rsp & ~0xFul] *)
Definition align16 (a : Z) : Z := Z.land a (u64 (Z.lnot 15)).

(** [posix_memalign] gives an address or fails; [entry_point] is the address of
    that function. *)
Definition co_new (memalign : option Z) (entry_point func data : Z) (m : gmap Z Z) : option Z * gmap Z Z :=
  match memalign with
  | None => (None, m)
  | Some co =>
      let m := zero_words co (Z.to_nat (CO_SIZE / 8)) m in
      let m := <[co + CO_STATUS := CO_STATUS_CREATED]> m in
      let m := <[co + CO_CONTEXT + 8 * 6 := co]> m in
      let m := <[co + CO_CONTEXT + 8 * 7 := func]> m in
      let m := <[co + CO_CONTEXT + 8 * 8 := data]> m in
      let m := <[co + CO_CONTEXT + 8 * 12 := entry_point]> m in
      let rsp := u64 (co + CO_STACK + STACK_SZ) in
      let m := <[co + CO_CONTEXT + 8 * 13 := u64 (align16 rsp - 8)]> m in
      (Some co, m)
  end.

(** [free(co)]: the words are no longer there; freeing a null pointer does
    nothing. *)
Fixpoint drop_words (a : Z) (n : nat) (m : gmap Z Z) : gmap Z Z :=
  match n with O => m | S n => delete a (drop_words (a + 8) n m) end.

Definition co_free (co : option Z) (m : gmap Z Z) : gmap Z Z :=
  match co with None => m | Some co => drop_words co (Z.to_nat (CO_SIZE / 8)) m end.

(** The compiled call [swap_context(from, to)] with return address [ra]. *)
Definition call_swap (ra from to : Z) (s : cpu) : result cpu :=
  s ← call ra (Cpu (set_reg RSI to (set_reg RDI from (regs s))) (words s) (rip s));
  exec swap_context s.

(** The overflow guard of the three functions below. *)
Definition check_padding (co : Z) (s : cpu) : result unit :=
  p ← load_word (words s) (co + CO_PADDING);
  if UNLIKELY (negb (p =? 0)) then Exited (-1) else Ok tt.

Definition set_yielded (co value : Z) (s : cpu) : result cpu :=
  m ← store_word (words s) (co + CO_YIELDED) (u64 value);
  Ok (Cpu (regs s) m (rip s)).

(** [co_yield], [co_resume] and [co_resume_value] up to the instruction at which
    control is on the other side; [ra] is where their call returns. *)
Definition co_yield (ra co value : Z) (s : cpu) : result cpu :=
  _ ← check_padding co s;
  s ← set_yielded co value s;
  call_swap ra (co + CO_CONTEXT) (co + CO_CALLER) s.

Definition co_resume (ra co : Z) (s : cpu) : result cpu :=
  _ ← check_padding co s;
  call_swap ra (co + CO_CALLER) (co + CO_CONTEXT) s.

Definition co_resume_value (ra co value : Z) (s : cpu) : result cpu :=
  _ ← check_padding co s;
  s ← set_yielded co value s;
  call_swap ra (co + CO_CALLER) (co + CO_CONTEXT) s.

(** [return co->yielded;] *)
Definition co_result (co : Z) (s : cpu) : result Z :=
  v ← load_word (words s) (co + CO_YIELDED);
  Ok (i64 v).

(** ** Switching between a caller and a coroutine *)

(** The context a side leaves behind: it continues at [ra] with its stack pointer
    and callee-saved registers as before the call. *)
Definition left_behind (s : cpu) (ra from to : Z) : list Z :=
  saved (set_reg RSP (u64 (regs s RSP - 8)) (set_reg RSI to (set_reg RDI from (regs s)))) ra.

(** The word below the stack pointer can be pushed to and is in no context. *)
Definition can_push (s : cpu) (from to : Z) : Prop :=
  8 <= regs s RSP < 2 ^ 64 /\ is_Some (words s !! (regs s RSP - 8)) /\
  (regs s RSP - 8 < from \/ from + 104 < regs s RSP - 8) /\
  (regs s RSP - 8 < to \/ to + 104 < regs s RSP - 8).

Lemma call_swap_spec s ra from to l :
  context_room (words s) from -> 0 <= to < 2 ^ 64 - 112 -> disjoint_contexts from to ->
  can_push s from to -> length l = 14%nat -> context_at (words s) to l ->
  exists s', call_swap ra from to s = Ok s' /\ restored l s' /\
    context_at (words s') from (left_behind s ra from to) /\
    (forall a, (a < from \/ from + 104 < a) -> a <> regs s RSP - 8 -> words s' !! a = words s !! a).
Proof.
  intros Hf Ht Hd (Hsp & Hmap & Hof & Hot) Hl Hm. unfold call_swap, call. cbn [regs words rip].
  change (set_reg RSI to (set_reg RDI from (regs s)) RSP) with (regs s RSP).
  rewrite u64_small, store_word_ok, !bind_ok by (done || lia).
  set (sp := regs s RSP - 8) in *. set (m := <[sp := ra]> (words s)).
  set (s1 := Cpu _ _ _).
  destruct (swap_context_spec s1 from to ra l) as (s2 & -> & Hw & Hr); try done.
  - unfold s1. cbn [words]. by apply context_room_insert.
  - change (regs s1 RSP) with sp. unfold sp in *. lia.
  - apply lookup_insert_eq.
  - intros i v Hi. apply lookup_lt_Some in Hi as Hi'. unfold s1, m. cbn [words].
    rewrite lookup_insert_ne by lia. by apply Hm.
  - exists s2. split; [done|]. split; [done|]. rewrite Hw. split.
    + unfold left_behind. rewrite u64_small by lia. apply store_context_at. done.
    + intros a Ha Hne. rewrite lookup_store_context by done. unfold s1, m. cbn [words].
      by rewrite lookup_insert_ne.
Qed.

(** A live coroutine object whose guard has not been overwritten. *)
Definition co_live (m : gmap Z Z) (co : Z) : Prop :=
  0 <= co < 2 ^ 63 /\
  (forall i, 0 <= i < CO_SIZE / 8 -> is_Some (m !! (co + 8 * i))) /\
  m !! (co + CO_PADDING) = Some 0.

Ltac co_offsets := unfold CO_SIZE, CO_STACK, CO_PADDING, CO_STATUS, CO_YIELDED, CO_CALLER, CO_CONTEXT, STACK_SZ in *;
  change (Z.shiftl 1 15) with 32768 in *.

Lemma co_live_room m co : co_live m co ->
  context_room m (co + CO_CONTEXT) /\ context_room m (co + CO_CALLER) /\ is_Some (m !! (co + CO_YIELDED)).
Proof.
  intros (Hco & Hm & _). change (CO_SIZE / 8) with 4127 in Hm. co_offsets.
  split; [split; [lia|]|split; [split; [lia|]|] ].
  - intros i Hi. replace (co + 0 + 8 * i) with (co + 8 * i) by lia. apply Hm. lia.
  - intros i Hi. replace (co + (0 + 14 * 8) + 8 * i) with (co + 8 * (14 + i)) by lia. apply Hm. lia.
  - replace (co + (0 + 14 * 8 + 14 * 8)) with (co + 8 * 28) by lia. apply Hm. lia.
Qed.

Lemma check_padding_ok s co : co_live (words s) co -> check_padding co s = Ok tt.
Proof. intros (_ & _ & Hp). unfold check_padding, load_word. by rewrite Hp. Qed.

Lemma set_yielded_ok s co v : co_live (words s) co ->
  set_yielded co v s = Ok (Cpu (regs s) (<[co + CO_YIELDED := u64 v]> (words s)) (rip s)).
Proof.
  intros Hco. destruct (co_live_room _ _ Hco) as (_ & _ & Hy). unfold set_yielded.
  by rewrite store_word_ok, bind_ok.
Qed.

Lemma i64_u64 v : - 2 ^ 63 <= v < 2 ^ 63 -> i64 (u64 v) = v.
Proof. intros Hv. unfold i64, u64. mlia. Qed.

(** The outcome of both directions: [co_yield] and [co_resume_value] with the two
    contexts exchanged. *)
Lemma switch_spec s ra co v from to l :
  co_live (words s) co ->
  (from = co + CO_CONTEXT /\ to = co + CO_CALLER \/ from = co + CO_CALLER /\ to = co + CO_CONTEXT) ->
  can_push s from to -> (regs s RSP - 8 < co \/ co + CO_STACK <= regs s RSP - 8) ->
  length l = 14%nat -> context_at (words s) to l ->
  exists s', (_ ← check_padding co s; s ← set_yielded co v s; call_swap ra from to s) = Ok s' /\
    restored l s' /\ context_at (words s') from (left_behind s ra from to) /\
    words s' !! (co + CO_YIELDED) = Some (u64 v) /\
    (forall a, (a < from \/ from + 104 < a) -> a <> regs s RSP - 8 -> a <> co + CO_YIELDED ->
       words s' !! a = words s !! a).
Proof.
  intros Hco Hft Hpush Hst Hl Hm. rewrite check_padding_ok, bind_ok, set_yielded_ok, bind_ok by done.
  set (s1 := Cpu _ _ _). pose proof Hpush as (Hsp & Hmap & Hof & Hot).
  destruct (co_live_room _ _ Hco) as (R1 & R2 & Hy). pose proof Hco as ((Hco0 & Hco1) & _).
  destruct (call_swap_spec s1 ra from to l) as (s2 & E & Hr & Hc & Hframe).
  - unfold s1. cbn [words]. apply context_room_insert. by destruct Hft as [ [-> _]|[-> _] ].
  - co_offsets. lia.
  - unfold disjoint_contexts. co_offsets. lia.
  - split; [done|]. split; [|done]. unfold s1. cbn [words regs].
    rewrite lookup_insert_ne by (co_offsets; lia). done.
  - done.
  - intros i x Hi. apply lookup_lt_Some in Hi as Hi'. unfold s1. cbn [words].
    rewrite lookup_insert_ne by (co_offsets; lia). by apply Hm.
  - exists s2. split; [exact E|]. split; [done|]. split; [exact Hc|]. cbn [words regs s1] in Hframe. split.
    + rewrite Hframe by (co_offsets; lia). apply lookup_insert_eq.
    + intros a Ha Hne Hy'. rewrite Hframe by done. by rewrite lookup_insert_ne.
Qed.

(** ** A new coroutine *)

Lemma zero_words_spec n a m x :
  (forall i, 0 <= i < Z.of_nat n -> x = a + 8 * i -> zero_words a n m !! x = Some 0) /\
  ((x < a \/ a + 8 * Z.of_nat n <= x) -> zero_words a n m !! x = m !! x).
Proof.
  revert a. induction n as [|n IH]; intros a; cbn [zero_words]; [split; [lia|done]|].
  destruct (IH (a + 8)) as [IH1 IH2]. split.
  - intros i Hi ->. destruct (decide (i = 0)) as [->|]; [by rewrite Z.mul_0_r, Z.add_0_r, lookup_insert_eq|].
    rewrite lookup_insert_ne by lia. apply (IH1 (i - 1)); lia.
  - intros Hx. rewrite lookup_insert_ne by lia. apply IH2. lia.
Qed.

#[global] Opaque zero_words.

Lemma align16_spec a : 0 <= a < 2 ^ 64 -> align16 a = 16 * (a / 16).
Proof.
  intros Ha. unfold align16. change (u64 (Z.lnot 15)) with (Z.shiftl (Z.ones 60) 4).
  apply Z.bits_inj'. intros n Hn. rewrite Z.land_spec, Z.shiftl_spec by done.
  replace (16 * (a / 16)) with (Z.shiftl (Z.shiftr a 4) 4)
    by (rewrite Z.shiftl_mul_pow2, Z.shiftr_div_pow2 by lia; change (2 ^ 4) with 16; lia).
  rewrite Z.shiftl_spec by done. destruct (Z.lt_ge_cases n 4).
  - rewrite !(Z.testbit_neg_r _ (n - 4)) by lia. apply andb_false_r.
  - rewrite Z.shiftr_spec by lia. replace (n - 4 + 4) with n by lia.
    destruct (Z.lt_ge_cases n 64).
    + rewrite Z.ones_spec_low by lia. apply andb_true_r.
    + rewrite (high_bits_zero 64 a n) by lia. apply andb_false_l.
Qed.

(** Where the stack starts: the top is aligned down to 16 and 8 is taken off. *)
Definition initial_rsp (co : Z) : Z := u64 (align16 (u64 (co + CO_STACK + STACK_SZ)) - 8).

Definition initial_context (co entry_point func data : Z) : list Z :=
  [0; 0; 0; 0; 0; 0; co; func; data; 0; 0; 0; entry_point; initial_rsp co].

Lemma initial_rsp_spec co : 0 <= co < 2 ^ 63 -> (64 | co) ->
  initial_rsp co = co + CO_SIZE - 16 /\ initial_rsp co mod 16 = 8.
Proof.
  intros Hco [q ->]. unfold initial_rsp. change (q * 64 + CO_STACK + STACK_SZ) with (q * 64 + CO_STACK + 32768).
  co_offsets. rewrite (u64_small (q * 64 + _ + 32768)), align16_spec by lia.
  replace ((q * 64 + (0 + 14 * 8 + 14 * 8 + 8 + 8 + 8) + 32768) / 16) with (q * 4 + 2063) by mlia.
  rewrite u64_small by lia. split; [lia|mlia].
Qed.

Lemma lookup_insert_pick (m : gmap Z Z) a b v w :
  (a = b /\ v = w) \/ (a <> b /\ m !! a = Some w) -> <[b := v]> m !! a = Some w.
Proof. intros [ [-> ->]|[Hne Hm] ]; [apply lookup_insert_eq|by rewrite lookup_insert_ne]. Qed.

Lemma co_new_spec co entry func data m m' :
  0 <= co < 2 ^ 63 -> co_new (Some co) entry func data m = (Some co, m') ->
  co_live m' co /\ context_at m' (co + CO_CONTEXT) (initial_context co entry func data) /\
  m' !! (co + CO_STATUS) = Some CO_STATUS_CREATED /\
  (forall i, 14 <= i < 4127 -> m' !! (co + 8 * i) = Some 0) /\
  (forall a, a < co \/ co + CO_SIZE <= a -> m' !! a = m !! a).
Proof.
  unfold co_new. intros Hco E. apply (f_equal snd) in E. cbn [snd] in E. subst m'.
  change (CO_SIZE / 8) with 4127. fold (initial_rsp co).
  set (z := zero_words co (Z.to_nat 4127) m).
  assert (Hz : forall x i, 0 <= i < 4127 -> x = co + 8 * i -> z !! x = Some 0).
  { intros x i Hi. apply (proj1 (zero_words_spec (Z.to_nat 4127) co m x)). lia. }
  assert (Hout : forall a, a < co \/ co + CO_SIZE <= a -> z !! a = m !! a).
  { intros a Ha. apply zero_words_spec. co_offsets. lia. }
  clearbody z. change CO_STATUS_CREATED with 0. unfold initial_context. generalize (initial_rsp co). intros sp. co_offsets.
  assert (Hmid : forall i, 14 <= i < 4127 ->
    <[co + 0 + 8 * 13 := sp]> (<[co + 0 + 8 * 12 := entry]> (<[co + 0 + 8 * 8 := data]>
      (<[co + 0 + 8 * 7 := func]> (<[co + 0 + 8 * 6 := co]> (<[co + (0 + 14 * 8 + 14 * 8 + 8) := 0]> z))))) !! (co + 8 * i) = Some 0).
  { intros i Hi. pose proof (Hz _ i ltac:(lia) eq_refl). rewrite !lookup_insert. repeat case_decide; done || lia. }
  split; [split; [lia|split]|split; [|split; [|split] ] ].
  - change (_ / 8) with 4127. intros i Hi. pose proof (Hz _ i Hi eq_refl).
    rewrite !lookup_insert. repeat case_decide; eauto.
  - rewrite <- (Hmid 30 ltac:(lia)). f_equal; lia.
  - assert (Hz' : forall k : nat, (k < 14)%nat -> z !! (co + 0 + 8 * Z.of_nat k) = Some 0).
    { intros k Hk. apply (Hz _ (Z.of_nat k)); lia. }
    intros i v Hi. do 14 (destruct i as [|i];
      [injection Hi as <-; rewrite !lookup_insert; repeat case_decide;
       first [done | lia | apply Hz'; lia]|]).
    destruct i; discriminate Hi.
  - rewrite <- (Hmid 29 ltac:(lia)). f_equal; lia.
  - exact Hmid.
  - intros a Ha. rewrite !lookup_insert. repeat case_decide; [lia..|]. by apply Hout.
Qed.

Lemma drop_words_spec n a m x :
  (forall i, 0 <= i < Z.of_nat n -> x = a + 8 * i -> drop_words a n m !! x = None) /\
  ((forall i, 0 <= i < Z.of_nat n -> x <> a + 8 * i) -> drop_words a n m !! x = m !! x).
Proof.
  revert a. induction n as [|n IH]; intros a; cbn [drop_words]; [split; [lia|done]|].
  destruct (IH (a + 8)) as [IH1 IH2]. split.
  - intros i Hi ->. destruct (decide (i = 0)) as [->|Hne].
    + replace (a + 8 * 0) with a by lia. apply lookup_delete_eq.
    + rewrite lookup_delete_ne by lia. apply (IH1 (i - 1)); lia.
  - intros Hx. rewrite lookup_delete_ne by (specialize (Hx 0 ltac:(lia)); lia).
    apply IH2. intros i Hi. specialize (Hx (i + 1) ltac:(lia)). lia.
Qed.

#[global] Opaque drop_words.

(** After [co_new] and [co_free], no word of the object is left and the rest of
    the memory is as before. *)
Lemma co_new_free co entry func data m m' :
  0 <= co < 2 ^ 63 -> co_new (Some co) entry func data m = (Some co, m') ->
  (forall i, 0 <= i < CO_SIZE / 8 -> co_free (Some co) m' !! (co + 8 * i) = None) /\
  (forall a, a < co \/ co + CO_SIZE <= a -> co_free (Some co) m' !! a = m !! a).
Proof.
  intros Hco E. destruct (co_new_spec co entry func data m m' Hco E) as (_ & _ & _ & _ & Hframe).
  unfold co_free. change (CO_SIZE / 8) with 4127. split.
  - intros i Hi. apply (proj1 (drop_words_spec (Z.to_nat 4127) co m' (co + 8 * i)) i); lia.
  - intros a Ha. rewrite (proj2 (drop_words_spec (Z.to_nat 4127) co m' a)); [by apply Hframe|].
    co_offsets. lia.
Qed.

(** ** Properties *)

(** C16.  Control comes back.  A caller that resumes a coroutine enters it with the
    registers the coroutine left behind and the value stored; whatever the
    coroutine then does to memory and registers, as long as it spares the saved
    caller context and the guard and yields on its own stack, [co_yield] continues
    the caller right after its call, with the caller's stack pointer and
    callee-saved registers, and the call returns the yielded value.  The
    coroutine's own state is left in its context, so the next resumption continues
    after its [co_yield]. *)
Theorem resume_yield_returns (s : cpu) (co ra v : Z) (l : list Z)
    (Hco : co_live (words s) co) (Hl : length l = 14%nat) (Hctx : context_at (words s) (co + CO_CONTEXT) l)
    (Hsp : 8 <= regs s RSP < 2 ^ 64) (Hpush : is_Some (words s !! (regs s RSP - 8)))
    (Hout : regs s RSP <= co \/ co + CO_SIZE + 8 <= regs s RSP) :
  exists s1, co_resume_value ra co v s = Ok s1 /\ restored l s1 /\ co_live (words s1) co /\ co_result co s1 = Ok (i64 (u64 v)) /\
    forall s2 ra2 w,
      co_live (words s2) co ->
      (forall a, co + CO_CALLER <= a < co + CO_YIELDED -> words s2 !! a = words s1 !! a) ->
      co + CO_STACK + 8 <= regs s2 RSP <= co + CO_SIZE -> is_Some (words s2 !! (regs s2 RSP - 8)) ->
      - 2 ^ 63 <= w < 2 ^ 63 ->
      exists s3, co_yield ra2 co w s2 = Ok s3 /\ rip s3 = ra /\
        (forall r, r ∈ [RSP; RBX; RBP; R12; R13; R14; R15] -> regs s3 r = regs s r) /\
        co_result co s3 = Ok w /\
        context_at (words s3) (co + CO_CONTEXT) (left_behind s2 ra2 (co + CO_CONTEXT) (co + CO_CALLER)).
Proof.
  pose proof Hco as ((Hco0 & Hco1) & Hmap & Hpad).
  destruct (switch_spec s ra co v (co + CO_CALLER) (co + CO_CONTEXT) l) as (s1 & E1 & R1 & C1 & Y1 & F1);
    [done|by right|split; [done|split; [done|co_offsets; lia]]|co_offsets; lia|done|done|].
  exists s1. split; [exact E1|]. split; [done|].
  assert (Hco' : co_live (words s1) co).
  { split; [done|]. change (CO_SIZE / 8) with 4127 in *. split; [|rewrite F1; [done|co_offsets; lia..] ].
    intros i Hi. destruct (decide (14 <= i < 28)) as [Hin|Hno].
    - assert (exists x, left_behind s ra (co + CO_CALLER) (co + CO_CONTEXT) !! Z.to_nat (i - 14) = Some x) as [x Hx].
      { apply lookup_lt_is_Some_2. change (length _) with 14%nat. lia. }
      apply C1 in Hx. replace (co + CO_CALLER + 8 * Z.of_nat (Z.to_nat (i - 14))) with (co + 8 * i) in Hx by (co_offsets; lia).
      eauto.
    - destruct (decide (i = 28)) as [->|H28].
      + replace (co + 8 * 28) with (co + CO_YIELDED) by (co_offsets; lia). eauto.
      + rewrite F1; [by apply Hmap|co_offsets; lia..]. }
  split; [done|]. split; [unfold co_result, load_word; by rewrite Y1|].
  intros s2 ra2 w Hco2 Hkeep Hsp2 Hpush2 Hw.
  assert (C2 : context_at (words s2) (co + CO_CALLER) (left_behind s ra (co + CO_CALLER) (co + CO_CONTEXT))).
  { intros i x Hi. apply lookup_lt_Some in Hi as Hi'. change (length _) with 14%nat in Hi'.
    rewrite Hkeep by (co_offsets; lia). by apply C1. }
  destruct (switch_spec s2 ra2 co w (co + CO_CONTEXT) (co + CO_CALLER)
    (left_behind s ra (co + CO_CALLER) (co + CO_CONTEXT)) Hco2) as (s3 & E3 & R3 & C3 & Y3 & F3);
    [by left|split; [co_offsets; lia|split; [done|co_offsets; lia]]|co_offsets; lia|done|exact C2|].
  exists s3. split; [exact E3|].
  destruct R3 as (? & ? & ? & ? & ? & ? & ? & ? & ? & ? & ? & ? & ? & ? & [= <- <- <- <- <- <- <- <- <- <- <- <- <- <-] & H).
  destruct H as (HBX & HBP & H12 & H13 & H14 & H15 & _ & _ & _ & _ & _ & _ & Hrip & HSP).
  split; [done|]. split; [|split; [|done] ].
  - intros r Hr. repeat (apply elem_of_cons in Hr as [->|Hr]; [try done|]); [|by apply not_elem_of_nil in Hr].
    rewrite HSP. change (set_reg RSP ?x _ RSP) with x. rewrite (u64_small (regs s RSP - 8)), u64_small; lia.
  - unfold co_result, load_word. rewrite Y3. cbn [of_option]. by rewrite bind_ok, i64_u64.
Qed.

Lemma resume_yield_returns_witness :
  let m := (co_new (Some 64) 4096 8192 0 {[60000 := 0]}).2 in
  let s := Cpu (fun _ => 60008) m 0 in
  exists s1, co_resume_value 5555 64 7 s = Ok s1 /\ rip s1 = 4096 /\
    exists s3, co_yield 6666 64 9 (Cpu (set_reg RSP 33000 (regs s1)) (words s1) 0) = Ok s3 /\ rip s3 = 5555 /\
      regs s3 RSP = 60008.
Proof.
  intros m s.
  destruct (co_new_spec 64 4096 8192 0 {[60000 := 0]} m) as (Hlive & Hctx & _ & _ & Hout); [lia|reflexivity|].
  destruct (resume_yield_returns s 64 5555 7 (initial_context 64 4096 8192 0)) as (s1 & E1 & R1 & L1 & _ & K).
  - exact Hlive.
  - reflexivity.
  - exact Hctx.
  - cbn [regs s]. lia.
  - cbn [words regs s]. rewrite Hout by (co_offsets; lia). by exists 0.
  - right. cbn [regs s]. co_offsets. lia.
  - exists s1. split; [exact E1|]. split.
    + destruct R1 as (? & ? & ? & ? & ? & ? & ? & ? & ? & ? & ? & ? & ? & ? & Heq & H).
      injection Heq as <- <- <- <- <- <- <- <- <- <- <- <- <- <-. apply H.
    + destruct (K (Cpu (set_reg RSP 33000 (regs s1)) (words s1) 0) 6666 9) as (s3 & E3 & Hrip & Hr & _).
      * exact L1.
      * intros a _. reflexivity.
      * change (regs _ RSP) with 33000. co_offsets. lia.
      * change (regs _ RSP) with 33000. cbn [words]. destruct L1 as (_ & L1 & _).
        change (33000 - 8) with (64 + 8 * 4116). apply L1. change (CO_SIZE / 8) with 4127. lia.
      * lia.
      * exists s3. split; [exact E3|]. split; [exact Hrip|]. apply Hr. by left.
Defined.

(** C23.  A fresh coroutine starts correctly.  After [co_new] on a 64-byte-aligned
    object, the first resumption enters [entry_point] with the coroutine, the
    function and its data as arguments, and a stack pointer of the form 16n + 8
    inside the coroutine's stack, as at the first instruction of a called
    function.  The word there is zero: there is no caller to return to. *)
Theorem co_new_entry (co entry func data ra v : Z) (m m' : gmap Z Z) (f : reg -> Z) (pc : Z)
    (Hco : 0 <= co < 2 ^ 63) (Halign : (64 | co))
    (Hnew : co_new (Some co) entry func data m = (Some co, m'))
    (Hsp : 8 <= f RSP < 2 ^ 64) (Hpush : is_Some (m !! (f RSP - 8)))
    (Hout : f RSP <= co \/ co + CO_SIZE + 8 <= f RSP) :
  exists s1, co_resume_value ra co v (Cpu f m' pc) = Ok s1 /\
    rip s1 = entry /\ regs s1 RDI = co /\ regs s1 RSI = func /\ regs s1 RDX = data /\
    regs s1 RSP mod 16 = 8 /\ co + CO_STACK <= regs s1 RSP /\ regs s1 RSP + 8 <= co + CO_SIZE /\
    words s1 !! regs s1 RSP = Some 0.
Proof.
  destruct (co_new_spec co entry func data m m' Hco Hnew) as (Hlive & Hctx & _ & Hzero & Hframe).
  destruct (switch_spec (Cpu f m' pc) ra co v (co + CO_CALLER) (co + CO_CONTEXT) (initial_context co entry func data))
    as (s1 & E1 & R1 & _ & _ & F1); cbn [regs words].
  - done.
  - by right.
  - split; [done|]. cbn [regs words]. rewrite Hframe by (co_offsets; lia). split; [done|co_offsets; lia].
  - co_offsets. lia.
  - done.
  - done.
  - exists s1. split; [exact E1|]. cbn [regs words] in F1.
    destruct R1 as (? & ? & ? & ? & ? & ? & ? & ? & ? & ? & ? & ? & ? & ? & Heq & H).
    injection Heq as <- <- <- <- <- <- <- <- <- <- <- <- <- <-.
    destruct H as (_ & _ & _ & _ & _ & _ & -> & -> & -> & _ & _ & _ & -> & ->).
    destruct (initial_rsp_spec co Hco Halign) as [Hsp1 Hmod]. rewrite Hsp1 in *.
    split_and!; [done..|co_offsets; lia|co_offsets; lia|].
    rewrite F1 by (co_offsets; lia). rewrite <- (Hzero 4125 ltac:(lia)). f_equal. co_offsets. lia.
Qed.

Lemma co_new_entry_witness :
  exists s1, co_resume_value 5555 64 7 (Cpu (fun _ => 60008) (co_new (Some 64) 4096 8192 77 {[60000 := 0]}).2 0) = Ok s1 /\
    rip s1 = 4096 /\ regs s1 RDX = 77.
Proof.
  destruct (co_new_entry 64 4096 8192 77 5555 7 {[60000 := 0]} (co_new (Some 64) 4096 8192 77 {[60000 := 0]}).2
              (fun _ => 60008) 0) as (s1 & E & Hrip & _ & _ & Hdx & _).
  - lia.
  - by exists 1.
  - reflexivity.
  - lia.
  - by exists 0.
  - right. co_offsets. lia.
  - exists s1. split; [exact E|]. by split.
Defined.
