(* ===== verification/Coro.v ===== *)
(** * Coroutines (lib/coro.c, include/coro.h)

    [Swap.v] shows that [swap_context] transfers control between a caller and a
    coroutine and back.  Here a coroutine is what the caller sees of it: the value
    last passed, the status, the overflow guard, the function whose [co_yield] it
    waits in, and the local state of its body there.

    A body is given by what it does between two resumptions: from its local state
    and the value in [co->yielded] it changes the world and either yields again or
    returns; before that, its stack may grow into the guard below it.  [entry_point]
    wraps it: the first entry sets the status to STARTED, a return sets it to STOPPED
    and yields -1.  Where a resumption continues is decided by the saved context and
    not by the status, which only the callers read. *)

From S2P Require Import Prelude.
Open Scope Z_scope.

Inductive co_status := CO_STATUS_CREATED | CO_STATUS_STARTED | CO_STATUS_STOPPED.

#[export] Instance co_status_eq_dec : EqDecision co_status.
Proof. solve_decision. Defined.

(** [Overrun]: the stack reaches the word below it, [padding], and leaves [guard]
    there. *)
Inductive event (S : Type) := Yield (value : Z) (s : S) | Return | Overrun (guard : Z) (e : event S).
Arguments Yield {S} value s.
Arguments Return {S}.
Arguments Overrun {S} guard e.

(** What the saved instruction pointer says: the coroutine is at the first
    instruction of [entry_point], or in a [co_yield] called by its function or by
    [entry_point]. *)
Inductive place := At_entry_point | In_func | In_entry_point.

#[export] Instance place_eq_dec : EqDecision place.
Proof. solve_decision. Defined.

(** A [co_func] over a local state [S] and a world [W]. *)
Definition co_func (S W : Type) : Type := S -> Z -> W -> result (event S * W).

Record coroutine (S : Type) := Coroutine {
  context : S;
  yielded : Z;
  co_stat : co_status;
  padding : Z;
  waits : place
}.
Arguments Coroutine {S} _ _ _ _ _.
Arguments context {S} _.
Arguments yielded {S} _.
Arguments co_stat {S} _.
Arguments padding {S} _.
Arguments waits {S} _.

Section coroutines.
Context {S W : Type}.
Variable func : co_func S W.

Definition co_set_status (co : coroutine S) (st : co_status) : coroutine S :=
  Coroutine (context co) (yielded co) st (padding co) (waits co).
Definition co_set_padding (co : coroutine S) (guard : Z) : coroutine S :=
  Coroutine (context co) (yielded co) (co_stat co) guard (waits co).

(** [memset] to zero, then CREATED; [None] when the allocation fails. *)
Definition co_new (memalign_ok : bool) (s0 : S) : option (coroutine S) :=
  if UNLIKELY (negb memalign_ok) then None else Some (Coroutine s0 0 CO_STATUS_CREATED 0 At_entry_point).

(** The coroutine's side: called at [p], with local state [s]; [value] is handed out. *)
Definition co_yield (co : coroutine S) (value : Z) (p : place) (s : S) : result (coroutine S) :=
  if UNLIKELY (negb (padding co =? 0)) then Exited (-1)
  else Ok (Coroutine s value (co_stat co) (padding co) p).

(** From what [func] does up to the next [co_yield], its own or that at the end of
    [entry_point]. *)
Fixpoint finish (co : coroutine S) (e : event S) : result (coroutine S) :=
  match e with
  | Yield value s => co_yield co value In_func s
  | Return => co_yield (co_set_status co CO_STATUS_STOPPED) (-1) In_entry_point (context co)
  | Overrun guard e => finish (co_set_padding co guard) e
  end.

Definition run (co : coroutine S) (w : W) : result (coroutine S * W) :=
  '(e, w) ← func (context co) (yielded co) w;
  co ← finish co e;
  Ok (co, w).

(** [swap_context(&co->caller, &co->context)] and what [entry_point] does from where
    it waits.  When its own [co_yield] returns it returns too, to the word above its
    frame; [co_new] leaves zero there ([Swap.co_new_entry]), which is no code. *)
Definition entry_point (co : coroutine S) (w : W) : result (coroutine S * W) :=
  match waits co with
  | At_entry_point => run (co_set_status co CO_STATUS_STARTED) w
  | In_func => run co w
  | In_entry_point => Undef BadResume
  end.

Definition co_resume (co : coroutine S) (w : W) : result (Z * coroutine S * W) :=
  if UNLIKELY (negb (padding co =? 0)) then Exited (-1)
  else '(co, w) ← entry_point co w; Ok (yielded co, co, w).

Definition co_resume_value (co : coroutine S) (value : Z) (w : W) : result (Z * coroutine S * W) :=
  if UNLIKELY (negb (padding co =? 0)) then Exited (-1)
  else
    let co := Coroutine (context co) value (co_stat co) (padding co) (waits co) in
    '(co, w) ← entry_point co w; Ok (yielded co, co, w).

(** [while (co->status != CO_STATUS_STOPPED) co_resume(co);] with the values the
    resumptions return. *)
Fixpoint drive (fuel : nat) (co : coroutine S) (w : W) : result (list Z * coroutine S * W) :=
  if bool_decide (co_stat co = CO_STATUS_STOPPED) then Ok ([], co, w)
  else
    match fuel with
    | O => Undef OutOfFuel
    | Datatypes.S fuel =>
        '(v, co, w) ← co_resume co w;
        '(vs, co, w) ← drive fuel co w;
        Ok (v :: vs, co, w)
    end.

(** ** What a body does *)

(** [behaves s v w vs w']: entered at [s] with [v] stored, the body yields the
    values [vs], each resumption leaving the stored value alone, and returns in
    the world [w']. *)
Inductive behaves : S -> Z -> W -> list Z -> W -> Prop :=
| behaves_return s v w w' : func s v w = Ok (Return, w') -> behaves s v w [] w'
| behaves_yield s v w v' s' w' vs w'' :
    func s v w = Ok (Yield v' s', w') -> behaves s' v' w' vs w'' -> behaves s v w (v' :: vs) w''.

(** Coroutines that come out of [co_new] and resumptions. *)
Inductive reachable : coroutine S -> W -> Prop :=
| reachable_new s0 co w : co_new true s0 = Some co -> reachable co w
| reachable_resume co w v co' w' :
    reachable co w -> co_resume co w = Ok (v, co', w') -> reachable co' w'
| reachable_resume_value co w x v co' w' :
    reachable co w -> co_resume_value co x w = Ok (v, co', w') -> reachable co' w'.

(** The status says where the coroutine waits. *)
Definition agrees (co : coroutine S) : Prop :=
  co_stat co = match waits co with
               | At_entry_point => CO_STATUS_CREATED
               | In_func => CO_STATUS_STARTED
               | In_entry_point => CO_STATUS_STOPPED
               end.

(** It can be resumed. *)
Definition can_resume (co : coroutine S) : Prop := agrees co /\ waits co <> In_entry_point.

(** What a resumption of a body that was at [s0] ends with, when [guard] is in the
    word below its stack: the value that the caller gets, and the coroutine. *)
Fixpoint handed_over (s0 : S) (guard : Z) (e : event S) : result (Z * coroutine S) :=
  match e with
  | Overrun guard e => handed_over s0 guard e
  | Yield v s => if guard =? 0 then Ok (v, Coroutine s v CO_STATUS_STARTED 0 In_func) else Exited (-1)
  | Return => if guard =? 0 then Ok (-1, Coroutine s0 (-1) CO_STATUS_STOPPED 0 In_entry_point) else Exited (-1)
  end.

Lemma can_resume_not_stopped co : can_resume co -> co_stat co <> CO_STATUS_STOPPED.
Proof. intros [Ha Hw]. rewrite Ha. by destruct (waits co). Qed.

Lemma handed_over_yielded s0 g e v co :
  handed_over s0 g e = Ok (v, co) -> yielded co = v /\ agrees co /\ padding co = 0 /\
  (can_resume co \/ co_stat co = CO_STATUS_STOPPED).
Proof.
  revert g. induction e as [x s| |g' e IH]; intros g; cbn [handed_over]; [| |apply IH];
    (destruct (g =? 0); [|done]); intros [= <- <-]; (split; [done|split; [done|split; [done|] ] ]); [by left|by right].
Qed.

Lemma finish_steps co e : co_stat co = CO_STATUS_STARTED ->
  finish co e = '(_, co) ← handed_over (context co) (padding co) e; Ok co.
Proof.
  revert co. induction e as [v s| |g e IH]; intros co Hs; cbn [finish handed_over].
  - unfold co_yield, UNLIKELY. destruct (Z.eqb_spec (padding co) 0) as [Hp|]; [|done]. cbn [negb]. by rewrite bind_ok, Hs, Hp.
  - unfold co_yield, UNLIKELY. cbn [padding co_set_status context]. destruct (Z.eqb_spec (padding co) 0) as [Hp|]; [|done].
    cbn [negb]. by rewrite bind_ok, Hp.
  - by apply (IH (co_set_padding co g)).
Qed.

(** What a resumption amounts to while the coroutine can be resumed. *)
Lemma entry_point_steps co w :
  padding co = 0 -> can_resume co ->
  entry_point co w =
  ('(e, w) ← func (context co) (yielded co) w; '(_, co) ← handed_over (context co) 0 e; Ok (co, w)).
Proof.
  intros Hp [Ha Hw]. unfold entry_point, run. unfold agrees in Ha.
  destruct (waits co); [| |done]; cbn [context yielded co_set_status]; destruct (func _ _ w) as [ [e w1]| |]; try done;
    rewrite !bind_ok, finish_steps by done; cbn [context padding co_set_status]; rewrite Hp;
    by destruct (handed_over _ 0 e) as [ [??]| |].
Qed.

Lemma reachable_agrees co w : reachable co w -> agrees co /\ padding co = 0.
Proof.
  assert (Hstep : forall co w co' w', agrees co -> padding co = 0 -> entry_point co w = Ok (co', w') -> agrees co' /\ padding co' = 0).
  { intros co1 w1 co' w' Ha Hp E. destruct (decide (waits co1 = In_entry_point)) as [Hw|Hw]; [unfold entry_point in E; by rewrite Hw in E|].
    rewrite entry_point_steps in E by done. apply bind_Ok_inv in E as ([e w2] & _ & E).
    apply bind_Ok_inv in E as ([v co2] & E2 & [= <- _]). apply handed_over_yielded in E2. by destruct E2 as (_ & ? & ? & _). }
  induction 1 as [s0 co w E|co w v co' w' _ [Ha Hp] E|co w x v co' w' _ [Ha Hp] E].
  - by injection E as <-.
  - unfold co_resume, UNLIKELY in E. destruct (negb _); [done|].
    apply bind_Ok_inv in E as ([co1 w1] & E & [= _ <- <-]). by apply (Hstep _ _ _ _ Ha Hp E).
  - unfold co_resume_value, UNLIKELY in E. destruct (negb _); [done|].
    apply bind_Ok_inv in E as ([co1 w1] & E & [= _ <- <-]). by eapply Hstep; [| |exact E].
Qed.

(** One resumption of a coroutine that can be resumed. *)
Lemma resume_steps co w : padding co = 0 -> can_resume co ->
  co_resume co w = '(e, w) ← func (context co) (yielded co) w; '(v, co) ← handed_over (context co) 0 e; Ok (v, co, w).
Proof.
  intros Hp Hl. unfold co_resume, UNLIKELY. rewrite Hp. cbn [Z.eqb negb]. rewrite entry_point_steps by done.
  destruct (func _ _ w) as [ [e w1]| |]; try done. rewrite !bind_ok.
  destruct (handed_over _ 0 e) as [ [v co1]| |] eqn:E; try done. rewrite !bind_ok.
  by apply handed_over_yielded in E as [-> _].
Qed.

Lemma resume_value_steps co x w : padding co = 0 -> can_resume co ->
  co_resume_value co x w = '(e, w) ← func (context co) x w; '(v, co) ← handed_over (context co) 0 e; Ok (v, co, w).
Proof.
  intros Hp Hl. by apply (resume_steps (Coroutine (context co) x (co_stat co) (padding co) (waits co))).
Qed.

(** A body that returns is driven to its end. *)
Lemma drive_started s v w vs w' co :
  behaves s v w vs w' -> context co = s -> yielded co = v -> padding co = 0 -> can_resume co ->
  forall fuel, (length vs < fuel)%nat ->
  exists co', drive fuel co w = Ok (vs ++ [-1], co', w') /\ co_stat co' = CO_STATUS_STOPPED.
Proof.
  intros Hb. revert co. induction Hb as [s v w w' E|s v w v' s' w1 vs w' E Hb IH]; intros co <- <- Hp Hl fuel Hf;
    (destruct fuel as [|fuel]; [simpl in Hf; lia|]); cbn [drive];
    rewrite bool_decide_false by (by apply can_resume_not_stopped); rewrite resume_steps, E, !bind_ok by done; cbn [handed_over Z.eqb]; rewrite !bind_ok.
  - eexists. split; [by destruct fuel|done].
  - destruct (IH (Coroutine s' v' CO_STATUS_STARTED 0 In_func)) with (fuel := fuel) as (co' & -> & Hst'); [done..|simpl in Hf; lia|].
    rewrite bind_ok. by exists co'.
Qed.
End coroutines.

(** ** Properties *)


(** The body of tests/coro.c: yields 0, 1, ..., n - 1. *)
Definition count_to (n : Z) : co_func Z unit :=
  fun i _ w => if i <? n then Ok (Yield i (i + 1), w) else Ok (Return, w).

(** ** The test program (tests/coro.c)

    Its output is the world, a line at a time. *)

Inductive line :=
| Hello | Number (i : Z) | Size_of_context (n : Z) | Size_of_coroutine (n : Z) | No_buffer | No_coroutine.

(** The body [f], before its first resumption and at its [co_yield]. *)
Definition f : co_func (option Z) (list line) := fun s _ out =>
  let '(i, out) := match s with None => (0, out ++ [Hello]) | Some i => (i + 1, out) end in
  if i <? 100 then Ok (Yield i (Some i), out ++ [Number i]) else Ok (Return, out).

Definition sizeof_co_context : Z := 14 * 8.
Definition sizeof_coroutine : Z := sizeof_co_context + sizeof_co_context + 8 + 8 + 8 + 2 ^ 15.

(** A failed allocation is reported, and then the null coroutine is read. *)
Definition coro_main (malloc_ok memalign_ok : bool) (fuel : nat) : result (list line) :=
  let out := if malloc_ok then [] else [No_buffer] in
  let co := co_new memalign_ok None in
  let out := out ++ match co with Some _ => [] | None => [No_coroutine] end in
  let out := out ++ [Size_of_context sizeof_co_context; Size_of_coroutine sizeof_coroutine] in
  co ← of_option NullDeref co;
  '(_, _, out) ← drive f fuel co out;
  Ok out.

(** It counts to 99 in 101 resumptions. *)
Example coro_main_counts :
  coro_main true true 101 =
    Ok ([Size_of_context 112; Size_of_coroutine 33016; Hello] ++ (Number ∘ Z.of_nat <$> seq 0 100)).
Proof. by vm_compute. Qed.

(** A body that overruns its stack does not get to yield. *)
Definition deep : co_func unit unit := fun _ _ w => Ok (Overrun 1 (Yield 3 tt), w).


(** C39.  Driving a coroutine terminates.  If the body yields the values [vs] and
    returns, the loop of the test program that resumes until STOPPED ends after
    one resumption more than there are values, having received exactly [vs] and
    then -1. *)
Theorem drive_behaves {S W : Type} (func : co_func S W) (s0 : S) (co : coroutine S) (w w' : W) (vs : list Z)
    (Hco : co_new true s0 = Some co) (Hbody : behaves func s0 0 w vs w') :
  exists co', drive func (Datatypes.S (length vs)) co w = Ok (vs ++ [-1], co', w') /\
    co_stat co' = CO_STATUS_STOPPED.
Proof. injection Hco as <-. by apply (drive_started func s0 0); [..|lia]. Qed.

Lemma drive_behaves_witness :
  exists co co', co_new true 0 = Some co /\
    drive (count_to 3) 4 co tt = Ok ([0; 1; 2; -1], co', tt) /\ co_stat co' = CO_STATUS_STOPPED.
Proof.
  eexists. destruct (drive_behaves (count_to 3) 0 (Coroutine 0 0 CO_STATUS_CREATED 0 At_entry_point) tt tt [0; 1; 2]) as (co' & E & H).
  - reflexivity.
  - do 3 (eapply behaves_yield; [reflexivity|]). by apply behaves_return.
  - exists co'. split; [reflexivity|]. split; [exact E|exact H].
Defined.
