(* ===== verification/IoUring.v ===== *)
(** * Submission queue entries (lib/iouring_utils.c, include/iouring_utils.h)

    The five [io_uring_push_*] functions take an entry from the submission queue,
    fill it in with one of liburing's [io_uring_prep_*], and record on the
    connection which operation it waits for; a send or a splice also counts as a
    step of the response.

    liburing is not part of the source: an entry is the data the prep functions
    were given, and whether [io_uring_get_sqe] still has an entry, given those
    queued since the last submission, is a parameter.  The source does not check
    its result: without an entry the prep function is called on a null pointer. *)

From S2P Require Import Prelude CMem Strbuf Coro.
Open Scope Z_scope.

Definition IO_URING_OP_ACCEPT : Z := 1.
Definition IO_URING_OP_RECV : Z := 2.
Definition IO_URING_OP_SEND : Z := 3.
Definition IO_URING_OP_SPLICE : Z := 4.

(** A connection is known by its slot in [svr->conns]. *)
Abbreviation conn_id := Z (only parsing).

(** Memory handed to the kernel: an object of the heap; or an array of a block of
    the handler, with what it holds while the block is active.  The block ends before
    the handler yields, and the queue is submitted only after that: when the kernel
    reads such an array, it is not an object any more. *)
Inductive sqe_buf :=
| Buf (p : ptr)
| Local (bs : bytes).

Inductive sqe_op :=
| Accept (fd : Z)
| Read (fd : Z) (buf : sqe_buf) (len : Z)
| Recv (fd : Z) (buf : sqe_buf) (len : Z)
| Send (fd : Z) (buf : sqe_buf) (len : Z) (send_flags : Z)
| Splice (fd_in off_in fd_out off_out len splice_flags : Z).

Record sqe := Sqe { op : sqe_op; user_data : option conn_id; sqe_flags : Z }.

(** Constants of the kernel's interface. *)
Class Abi := { MSG_MORE : Z; IOSQE_IO_LINK : Z; SPLICE_F_NONBLOCK : Z; EAGAIN : Z }.

Definition linux : Abi := {| MSG_MORE := 32768; IOSQE_IO_LINK := 4; SPLICE_F_NONBLOCK := 2; EAGAIN := 11 |}.

(** [struct server_connection]; [conn_svr] says whether [svr] has been set. *)
Record server_connection (S : Type) := Connection {
  conn_fd : Z;
  action : Z;
  cur_steps : Z;
  total_steps : Z;
  coro : option (coroutine S);
  conn_str : option string_t;
  conn_svr : bool
}.
Arguments Connection {S} _ _ _ _ _ _ _.
Arguments conn_fd {S} _.
Arguments action {S} _.
Arguments cur_steps {S} _.
Arguments total_steps {S} _.
Arguments coro {S} _.
Arguments conn_str {S} _.
Arguments conn_svr {S} _.

Section push.
Context {S : Type} `{Abi}.
Variable room : list sqe -> bool.

Definition set_action (c : server_connection S) (a : Z) : server_connection S :=
  Connection (conn_fd c) a (cur_steps c) (total_steps c) (coro c) (conn_str c) (conn_svr c).
Definition set_steps (c : server_connection S) (cur total : Z) : server_connection S :=
  Connection (conn_fd c) (action c) cur total (coro c) (conn_str c) (conn_svr c).
Definition set_coro (c : server_connection S) (co : option (coroutine S)) : server_connection S :=
  Connection (conn_fd c) (action c) (cur_steps c) (total_steps c) co (conn_str c) (conn_svr c).
Definition set_conn_str (c : server_connection S) (s : option string_t) : server_connection S :=
  Connection (conn_fd c) (action c) (cur_steps c) (total_steps c) (coro c) s (conn_svr c).

(** [x++] on [int]. *)
Definition int_succ (x : Z) : result Z := if x <? INT_MAX then Ok (x + 1) else Undef IntOverflow.

(** [io_uring_get_sqe] and the prep function on its result. *)
Definition get_sqe (ring : list sqe) (e : sqe) : result (list sqe) :=
  if room ring then Ok (ring ++ [e]) else Undef NullDeref.

Definition io_uring_push_accept (ring : list sqe) (fd : Z) (id : conn_id) (conn : server_connection S) (flags : Z)
    : result (list sqe * server_connection S) :=
  ring ← get_sqe ring (Sqe (Accept fd) (Some id) flags);
  Ok (ring, set_action conn IO_URING_OP_ACCEPT).

Definition io_uring_push_read (ring : list sqe) (fd : Z) (buf : sqe_buf) (buflen flags : Z) : result (list sqe) :=
  get_sqe ring (Sqe (Read fd buf (u32 buflen)) None flags).

Definition io_uring_push_recv (ring : list sqe) (fd : Z) (buf : sqe_buf) (buflen : Z)
    (id : conn_id) (conn : server_connection S) (flags : Z) : result (list sqe * server_connection S) :=
  ring ← get_sqe ring (Sqe (Recv fd buf buflen) (Some id) flags);
  Ok (ring, set_action conn IO_URING_OP_RECV).

Definition io_uring_push_send (ring : list sqe) (fd : Z) (buf : sqe_buf) (buflen : Z)
    (id : conn_id) (conn : server_connection S) (send_flags flags : Z) : result (list sqe * server_connection S) :=
  ring ← get_sqe ring (Sqe (Send fd buf buflen send_flags) (Some id) flags);
  let conn := set_action conn IO_URING_OP_SEND in
  t ← int_succ (total_steps conn);
  Ok (ring, set_steps conn (cur_steps conn) t).

Definition io_uring_push_splice (ring : list sqe) (fd_in off_in fd_out off_out len : Z)
    (id : conn_id) (conn : server_connection S) (flags : Z) : result (list sqe * server_connection S) :=
  ring ← get_sqe ring (Sqe (Splice fd_in off_in fd_out off_out (u32 len) SPLICE_F_NONBLOCK) (Some id) flags);
  let conn := set_action conn IO_URING_OP_SPLICE in
  t ← int_succ (total_steps conn);
  Ok (ring, set_steps conn (cur_steps conn) t).
End push.
