(* ===== verification/IoLoop.v ===== *)
(** * The server loop (lib/io_loop.c, include/iohandler.h)

    One thread of the server: the coroutine that serves a connection, the
    preparation of a connection on its first accept, and the loop that submits
    queued operations, waits, and hands each completion to its connection.

    The world is what the thread can reach: the connection slots, the submission
    queue, the descriptors it has closed, the heap, and the state of the file
    route.  The handlers of dynamic routes are user code and libmagic, [mmap] and
    the file system are outside the source: they are parameters. *)

From S2P Require Import Prelude CMem Strbuf Kv Http HttpParser HttpResponse Coro IoUring.
Open Scope Z_scope.

(** The local variables of [io_uring_co_http_handler].  The three lists share the
    array [static_kv_pairs] in disjoint parts of 20 pairs. *)
Record locals := Locals {
  req : http_request;
  res : http_response;
  fresstr : option string_t
}.

Definition set_req (l : locals) (r : http_request) : locals := Locals r (res l) (fresstr l).
Definition set_res (l : locals) (r : http_response) : locals := Locals (req l) r (fresstr l).
Definition set_fresstr (l : locals) (s : option string_t) : locals := Locals (req l) (res l) s.

(** A connection of the server; its coroutine has no locals before its first
    entry. *)
Abbreviation connection := (server_connection (option locals)).

Record world := World {
  conns : gmap Z connection;
  ring : list sqe;            (* queued and not yet submitted *)
  closed : list Z;            (* the arguments of [__close], latest first *)
  wheap : heap;
  statics : static_state
}.

Definition set_conns (w : world) (x : gmap Z connection) : world :=
  World x (ring w) (closed w) (wheap w) (statics w).
Definition set_heap (w : world) (h : heap) : world :=
  World (conns w) (ring w) (closed w) h (statics w).
Definition close_in (w : world) (fd : Z) : world :=
  World (conns w) (ring w) (fd :: closed w) (wheap w) (statics w).

(** [svr->conns[i]] *)
Definition get_conn (w : world) (i : Z) : result connection := of_option OutOfBounds (conns w !! i).
Definition put_conn (w : world) (i : Z) (c : connection) : world := set_conns w (<[i := c]> (conns w)).

(** A dynamic handler: it may change the request and the response. *)
Definition handler_fn : Type := http_request -> http_response -> heap -> result (Z * http_request * http_response * heap).

Section server.
Context `{Platform} `{Abi}.
Variable room : list sqe -> bool.                    (* liburing: an entry is left *)
Variable fs : file_system.
Variable WATCH_STATIC_FILES : bool.
Variable table : list (router handler_fn).           (* collected by the linker *)
Variable pipefds : Z * Z.
Variable listen_fd : Z.

(** A push, with the connection written back. *)
Definition push (w : world) (i : Z) (f : list sqe -> connection -> result (list sqe * connection)) : result world :=
  c ← get_conn w i;
  '(r, c) ← f (ring w) c;
  Ok (World (<[i := c]> (conns w)) r (closed w) (wheap w) (statics w)).

Definition push_send (w : world) (i : Z) (buf : sqe_buf) (n send_flags flags : Z) : result world :=
  c ← get_conn w i;
  push w i (fun r c' => io_uring_push_send room r (conn_fd c) buf n i c' send_flags flags).

(** [char buf[] = RESPONSE_...; io_uring_push_send(..., buf, strlen(buf), ...)] *)
Definition send_canned (w : world) (i : Z) (text : bytes) : result world :=
  push_send w i (Local text) (Z.of_nat (length text)) 0 0.

(** The call through [rt->fp]. *)
Definition call_handler (rt : router handler_fn) (l : locals) (w : world) : result (Z * locals * world) :=
  if negb (is_null (filepath rt)) then
    '(e, r, st, h) ← global_static_router fs WATCH_STATIC_FILES (res l) (filepath rt) (statics w) (wheap w);
    Ok (e, set_res l r, World (conns w) (ring w) (closed w) h st)
  else
    '(e, q, r, h) ← fp rt (req l) (res l) (wheap w);
    Ok (e, set_res (set_req l q) r, set_heap w h).

(** The pushes of a composed response. *)
Definition send_response (w : world) (i : Z) (l : locals) : result world :=
  s ← of_option NullDeref (fresstr l);
  if WATCH_STATIC_FILES then
    w ← push_send w i (Buf (buf s)) (len s) MSG_MORE IOSQE_IO_LINK;
    c ← get_conn w i;
    w ← push w i (fun r c' => io_uring_push_splice room r (file_fd (res l)) 0 pipefds.2 (-1) (file_sz (res l)) i c' IOSQE_IO_LINK);
    push w i (fun r c' => io_uring_push_splice room r pipefds.1 (-1) (conn_fd c) (-1) (file_sz (res l)) i c' 0)
  else push_send w i (Buf (buf s)) (len s) 0 0.

(** [http_parse_request(&req, conn->str->buf, yielded)] *)
Definition parse (q : http_request) (p : ptr) (n : Z) (h : heap) : result (Z * http_request * heap) :=
  match p with
  | NULL => Undef NullDeref
  | Ptr b o => if o =? 0 then http_parse_request b q h n else Undef OutOfBounds
  | Lit _ _ => Undef OutOfBounds
  end.

(** From the call of the handler to [goto YIELD]. *)
Definition respond (i : Z) (rt : router handler_fn) (l : locals) (w : world) : result (locals * world) :=
  '(handle_err, l, w) ← call_handler rt l w;
  if UNLIKELY (handle_err =? HANDLER_ERR_FILE_NOT_FOUND) then w ← send_canned w i RESPONSE_404; Ok (l, w)
  else if UNLIKELY (handle_err =? HANDLER_ERR_GENERAL) then w ← send_canned w i RESPONSE_500; Ok (l, w)
  else
    '(ok, s, h) ← http_compose_response (req l) (res l) (fresstr l) (wheap w);
    let l := set_fresstr l s in
    let w := set_heap w h in
    if negb (ok =? 0) then w ← send_response w i l; Ok (l, w)
    else w ← send_canned w i RESPONSE_400; Ok (l, w).

(** [case IO_URING_OP_RECV], from the parse on: what is left is [goto YIELD]. *)
Definition serve (i : Z) (l : locals) (p : ptr) (n : Z) (w : world) : result (locals * world) :=
  '(ok, q, h) ← parse (req l) p n (wheap w);
  let l := set_req l q in
  let w := set_heap w h in
  if ok =? 0 then w ← send_canned w i RESPONSE_400; Ok (l, w)
  else
    rt ← find_router table (mem (wheap w)) (path q) (method q);
    match rt with
    | None => w ← send_canned w i RESPONSE_404; Ok (l, w)
    | Some rt => respond i rt l w
    end.

Definition reset_kv (k : kv) : kv :=
  Kv 0 (flag k) (kv_capacity k) (replicate (length (pairs k)) (Some (Kv_pair NULL NULL))).

(** From the label [RESET] to the yield. *)
Definition reset (i : Z) (l : locals) (w : world) : result (locals * world) :=
  c ← get_conn w i;
  let w := close_in w (conn_fd c) in
  let w := put_conn w i (set_steps c 0 0) in
  let q := Request 0 NULL NULL (req_conn (req l)) (reset_kv (query (req l))) (reset_kv (req_headers (req l))) in
  '(s, h) ← string_reset (conn_str c) (wheap w);
  '(rs, h) ← string_reset (str (res l)) h;
  '(fr, h) ← string_reset (fresstr l) h;
  let w := set_heap (put_conn w i (set_conn_str (set_steps c 0 0) s)) h in
  Ok (Locals q (Response 0 NULL 0 0 rs (reset_kv (res_headers (res l)))) fr, w).

(** One turn of [while (1)], resumed with [co->yielded]. *)
Definition turn (i : Z) (l : locals) (yielded : Z) (w : world) : result (locals * world) :=
  c ← get_conn w i;
  if action c =? IO_URING_OP_RECV then
    if UNLIKELY (yielded <? 0) then Ok (l, w)
    else if UNLIKELY (yielded =? 0) then reset i l w
    else
      s ← of_option NullDeref (conn_str c);
      if UNLIKELY (yielded =? i64 (capacity s)) then w ← send_canned w i RESPONSE_413; Ok (l, w)
      else serve i l (buf s) yielded w
  else if (action c =? IO_URING_OP_SEND) || (action c =? IO_URING_OP_SPLICE) then
    cur ← int_succ (cur_steps c);
    let w := put_conn w i (set_steps c cur (total_steps c)) in
    if cur =? total_steps c then reset i l w else Ok (l, w)
  else reset i l w.

(** The part before the loop; [None] is [goto EXIT]. *)
Definition init_locals (i : Z) (h : heap) : result (option locals * heap) :=
  let pairs := replicate 20 None in
  let q := Request 0 NULL NULL None (KV_INIT_WITH_BUF pairs 20) (KV_INIT_WITH_BUF pairs 20) in
  '(rs, h) ← string_init 1024 h;
  match rs with
  | None => Ok (None, h)
  | Some rs =>
      '(fr, h) ← string_init 2048 h;
      match fr with
      | None => Ok (None, string_free (Some rs) h)
      | Some fr =>
          let q := Request 0 NULL NULL (Some i) (query q) (req_headers q) in
          Ok (Some (Locals q (Response 0 NULL 0 0 (Some rs) (KV_INIT_WITH_BUF pairs 20)) (Some fr)), h)
      end
  end.

(** The coroutine's body between two yields; [i] is [data]. *)
Definition io_uring_co_http_handler (i : Z) : co_func (option locals) world := fun s yielded w =>
  '(l, w) ←
    (match s with
     | Some l => Ok (Some l, w)
     | None => '(l, h) ← init_locals i (wheap w); Ok (l, set_heap w h)
     end);
  match l with
  | None => Ok (Return, w)
  | Some l => '(l, w) ← turn i l yielded w; Ok (Yield 0 (Some l), w)
  end.

(** [__prepare_connection(svr, fd, io_uring_co_http_handler)]; the coroutine
    object is allocated by [posix_memalign], which may fail as [malloc] does. *)
Definition prepare_connection (w : world) (fd : Z) : result (Z * world) :=
  conn ← get_conn w fd;
  let '(ok, h) := malloc_struct 33016 (wheap w) in
  let w := set_heap w h in
  let co := co_new ok None in
  let conn := set_coro conn co in
  let w := put_conn w fd conn in
  match co with
  | None => Ok (-1, w)
  | Some _ =>
      '(ok, conn, h) ←
        (match conn_str conn with
         | Some _ => Ok (true, conn, wheap w)
         | None =>
             '(s, h) ← string_init DEFAULT_SVR_BUFLEN (wheap w);
             Ok (bool_decide (is_Some s), set_conn_str conn s, h)
         end);
      let w := put_conn (set_heap w h) fd conn in
      if UNLIKELY (negb ok) then Ok (-1, w)
      else Ok (0, put_conn w fd (Connection fd 0 (cur_steps conn) (total_steps conn) (coro conn) (conn_str conn) true))
  end.

(** [ACCEPT_AGAIN] *)
Definition accept_again (w : world) : result world :=
  push w listen_fd (fun r c => io_uring_push_accept room r listen_fd listen_fd c 0).

(** The body of [io_uring_for_each_cqe]: one completion. *)
Definition handle_cqe (data : option Z) (ret : Z) (w : world) : result world :=
  match data with
  | None => Exited (-1)
  | Some i =>
      conn ← get_conn w i;
      if action conn =? IO_URING_OP_ACCEPT then
        if UNLIKELY (ret <? 0) then
          if ret =? - EAGAIN then accept_again w else Exited 1
        else
          conn ← get_conn w ret;
          '(ready, w) ←
            (match coro conn with
             | Some _ => Ok (true, w)
             | None => '(e, w) ← prepare_connection w ret; Ok (0 <=? e, w)
             end);
          if negb ready then accept_again (close_in w ret)
          else
            conn ← get_conn w ret;
            s ← of_option NullDeref (conn_str conn);
            w ← push w ret (fun r c => io_uring_push_recv room r ret (Buf (buf s)) (capacity s) ret c 0);
            accept_again w
      else
        co ← of_option NullDeref (coro conn);
        '(_, co, w) ← co_resume_value (io_uring_co_http_handler i) co ret w;
        conn ← get_conn w i;
        Ok (put_conn w i (set_coro conn (Some co)))
  end.

(** [io_uring_for_each_cqe]: the completions of one batch, each the operation's
    [user_data] and its result. *)
Fixpoint for_each_cqe (cqes : list (option Z * Z)) (w : world) : result world :=
  match cqes with
  | [] => Ok w
  | (data, ret) :: cqes => w ← handle_cqe data ret w; for_each_cqe cqes w
  end.

(** [io_uring_submit_and_wait]: the queue goes to the kernel. *)
Definition submit (w : world) : list sqe * world :=
  (ring w, World (conns w) [] (closed w) (wheap w) (statics w)).

(** One turn of [while (1)]: what was submitted, and the world after the batch;
    [h] is the memory when the wait returns, with what the kernel has written. *)
Definition loop_turn (h : heap) (cqes : list (option Z * Z)) (w : world) : result (list sqe * world) :=
  let '(q, w) := submit w in
  w ← for_each_cqe cqes (set_heap w h);
  Ok (q, w).

(** The first accept, before [while (1)]. *)
Definition start (w : world) : result world :=
  push w listen_fd (fun r c => io_uring_push_accept room r listen_fd listen_fd c 0).

(** [io_uring_listen_loop] up to [while (1)]: liburing's result and whether the
    kernel offers [IORING_FEAT_FAST_POLL]; [None] when the function returns. *)
Definition io_uring_listen_loop (tmp : Z) (fast_poll : bool) (w : world) : result (option world) :=
  if UNLIKELY (tmp <? 0) then Ok None
  else if UNLIKELY (negb fast_poll) then Ok None
  else w ← start w; Ok (Some w).
End server.
