(* ===== verification/IoLoopInv.v ===== *)
(** * What the loop keeps true

    The loop against the kernel: queued operations are submitted, and every
    submitted operation completes once, with any result the kernel may give.  The
    invariant says which operations are outstanding for which connection. *)

From S2P Require Import Prelude CMem Strbuf Kv Http HttpParser HttpResponse Coro IoUring IoLoop.
Open Scope Z_scope.

(** ** The effect of one turn of a connection's coroutine *)

(** Whether an operation is a step of a response. *)
Definition is_step (o : sqe_op) : bool :=
  match o with Send _ _ _ _ | Splice _ _ _ _ _ _ => true | _ => false end.
Definition is_recv (o : sqe_op) : bool := match o with Recv _ _ _ => true | _ => false end.
Definition is_accept (o : sqe_op) : bool := match o with Accept _ => true | _ => false end.

Definition sending (c : connection) : Prop := action c = IO_URING_OP_SEND \/ action c = IO_URING_OP_SPLICE.

(** [w'] is [w] with slot [i] changed from [c] to [c'], the operations [new]
    queued and the descriptors [xs] closed; heap and file route apart. *)
Record moved (i : Z) (w w' : world) (c c' : connection) (new : list sqe) (xs : list Z) : Prop := Moved {
  moved_from : conns w !! i = Some c;
  moved_conns : conns w' = <[i := c']> (conns w);
  moved_ring : ring w' = ring w ++ new;
  moved_closed : closed w' = xs ++ closed w;
  moved_coro : coro c' = coro c;
  moved_fd : conn_fd c' = conn_fd c;
  moved_svr : conn_svr c' = conn_svr c;
  moved_str : is_Some (conn_str c) -> is_Some (conn_str c')
}.

(** A response: its operations are steps of connection [i], one or three. *)
Definition responded (i : Z) (c c' : connection) (new : list sqe) : Prop :=
  (length new = 1%nat \/ length new = 3%nat) /\
  Forall (fun e => user_data e = Some i /\ is_step (op e) = true) new /\
  sending c' /\ cur_steps c' = cur_steps c /\ total_steps c' = total_steps c + Z.of_nat (length new).

(** Same slots, queue and closed descriptors. *)
Definition same_io (w w' : world) : Prop := conns w' = conns w /\ ring w' = ring w /\ closed w' = closed w.

Lemma moved_same i w0 w w' c c' new xs : same_io w0 w -> moved i w w' c c' new xs -> moved i w0 w' c c' new xs.
Proof. intros (E1 & E2 & E3) []. constructor; try congruence; done. Qed.

Lemma moved_refl i w w' c : conns w !! i = Some c -> same_io w w' -> moved i w w' c c [] [].
Proof. intros Hc (E1 & E2 & E3). constructor; try done; [by rewrite E1, insert_id|by rewrite app_nil_r]. Qed.

Lemma get_conn_inv w i c : get_conn w i = Ok c -> conns w !! i = Some c.
Proof. unfold get_conn. by destruct (conns w !! i); intros [= ->]. Qed.

Lemma get_conn_ok w i c : conns w !! i = Some c -> get_conn w i = Ok c.
Proof. unfold get_conn. by intros ->. Qed.

Section effects.
Context `{Platform} `{Abi}.
Variable room : list sqe -> bool.
Variable fs : file_system.
Variable watch : bool.
Variable table : list (router handler_fn).
Variable pipefds : Z * Z.

Lemma get_sqe_inv r e r' : get_sqe room r e = Ok r' -> r' = r ++ [e].
Proof. unfold get_sqe. destruct (room r); [by intros [= ->]|done]. Qed.

Lemma int_succ_inv x y : int_succ x = Ok y -> y = x + 1.
Proof. unfold int_succ. destruct (x <? INT_MAX); [by intros [= ->]|done]. Qed.

(** A send or a splice. *)
Definition one_step (i : Z) (c c' : connection) (e : sqe) : Prop :=
  user_data e = Some i /\ is_step (op e) = true /\ sending c' /\
  cur_steps c' = cur_steps c /\ total_steps c' = total_steps c + 1.

Lemma push_step i w w' (f : list sqe -> connection -> result (list sqe * connection)) :
  (forall r c r' c', f r c = Ok (r', c') ->
     exists e, r' = r ++ [e] /\ one_step i c c' e /\ coro c' = coro c /\ conn_fd c' = conn_fd c /\
       conn_svr c' = conn_svr c /\ conn_str c' = conn_str c) ->
  push w i f = Ok w' ->
  exists c c' e, moved i w w' c c' [e] [] /\ one_step i c c' e.
Proof.
  intros Hf E. unfold push in E. apply bind_Ok_inv in E as (c & Ec & E).
  apply bind_Ok_inv in E as ([r c'] & Ef & [= <-]).
  apply Hf in Ef as (e & -> & Hs & E1 & E2 & E3 & E4). exists c, c', e. split; [|done].
  apply get_conn_inv in Ec. by constructor; rewrite ?E4.
Qed.

Lemma push_send_step i r fd buf n c sf fl r' c' :
  io_uring_push_send room r fd buf n i c sf fl = Ok (r', c') ->
  exists e, r' = r ++ [e] /\ one_step i c c' e /\ coro c' = coro c /\ conn_fd c' = conn_fd c /\
       conn_svr c' = conn_svr c /\ conn_str c' = conn_str c.
Proof.
  unfold io_uring_push_send. intros E. apply bind_Ok_inv in E as (r1 & E1 & E).
  apply bind_Ok_inv in E as (t & E2 & [= <- <-]). apply get_sqe_inv in E1 as ->. apply int_succ_inv in E2 as ->.
  eexists. split; [done|]. split; [|done]. split; [done|]. split; [done|]. split; [by left|done].
Qed.

Lemma push_splice_step i r a1 a2 a3 a4 n c fl r' c' :
  io_uring_push_splice room r a1 a2 a3 a4 n i c fl = Ok (r', c') ->
  exists e, r' = r ++ [e] /\ one_step i c c' e /\ coro c' = coro c /\ conn_fd c' = conn_fd c /\
       conn_svr c' = conn_svr c /\ conn_str c' = conn_str c.
Proof.
  unfold io_uring_push_splice. intros E. apply bind_Ok_inv in E as (r1 & E1 & E).
  apply bind_Ok_inv in E as (t & E2 & [= <- <-]). apply get_sqe_inv in E1 as ->. apply int_succ_inv in E2 as ->.
  eexists. split; [done|]. split; [|done]. split; [done|]. split; [done|]. split; [by right|done].
Qed.

Lemma send_step w i buf n sf fl w' : push_send room w i buf n sf fl = Ok w' ->
  exists c c' e, moved i w w' c c' [e] [] /\ one_step i c c' e.
Proof.
  unfold push_send. intros E. apply bind_Ok_inv in E as (c & Ec & E).
  eapply push_step; [|exact E]. intros r0 c0 r' c' E'. cbv beta in E'. exact (push_send_step _ _ _ _ _ _ _ _ _ _ E').
Qed.

Lemma moved_trans i w1 w2 w3 c1 c2 c2' c3 n1 n2 x1 x2 :
  moved i w1 w2 c1 c2 n1 x1 -> moved i w2 w3 c2' c3 n2 x2 ->
  c2' = c2 /\ moved i w1 w3 c1 c3 (n1 ++ n2) (x2 ++ x1).
Proof.
  intros [A1 A2 A3 A4 A5 A6 A7 A8] [B1 B2 B3 B4 B5 B6 B7 B8].
  assert (c2' = c2) as -> by (rewrite A2, lookup_insert_eq in B1; by injection B1).
  split; [done|]. constructor; try congruence.
  - by rewrite B2, A2, insert_insert_eq.
  - by rewrite B3, A3, app_assoc.
  - by rewrite B4, A4, app_assoc.
  - auto.
Qed.

Lemma one_responded i c c' e : one_step i c c' e -> responded i c c' [e].
Proof. intros (? & ? & ? & ? & ?). split_and!; try done; [by left|by repeat constructor]. Qed.

Lemma send_canned_responds w i text w' : send_canned room w i text = Ok w' ->
  exists c c' new, moved i w w' c c' new [] /\ responded i c c' new.
Proof.
  intros E. apply send_step in E as (c & c' & e & Hm & Hs). exists c, c', [e]. split; [done|]. by apply one_responded.
Qed.

Lemma send_response_responds w i l w' : send_response room watch pipefds w i l = Ok w' ->
  exists c c' new, moved i w w' c c' new [] /\ responded i c c' new.
Proof.
  unfold send_response. intros E. apply bind_Ok_inv in E as (s & _ & E). destruct watch.
  - apply bind_Ok_inv in E as (w1 & E1 & E). apply bind_Ok_inv in E as (cc & _ & E).
    apply bind_Ok_inv in E as (w2 & E2 & E3).
    apply send_step in E1 as (c1 & c1' & e1 & M1 & U1 & K1 & _ & Cu1 & T1).
    apply (push_step i) in E2 as (c2 & c2' & e2 & M2 & U2 & K2 & _ & Cu2 & T2); [|intros r0 c0 r' c' E'; cbv beta in E'; exact (push_splice_step _ _ _ _ _ _ _ _ _ _ _ E')].
    apply (push_step i) in E3 as (c3 & c3' & e3 & M3 & U3 & K3 & S3 & Cu3 & T3); [|intros r0 c0 r' c' E'; cbv beta in E'; exact (push_splice_step _ _ _ _ _ _ _ _ _ _ _ E')].
    destruct (moved_trans _ _ _ _ _ _ _ _ _ _ _ _ M1 M2) as [-> M12].
    destruct (moved_trans _ _ _ _ _ _ _ _ _ _ _ _ M12 M3) as [-> M].
    exists c1, c3', [e1; e2; e3]. split; [exact M|]. split_and!; [by right|by repeat constructor|done|congruence|].
    simpl. lia.
  - apply send_step in E as (c & c' & e & Hm & Hs). exists c, c', [e]. split; [done|]. by apply one_responded.
Qed.

Lemma call_handler_io rt l w e l' w' : call_handler fs watch rt l w = Ok (e, l', w') -> same_io w w'.
Proof.
  unfold call_handler. intros E. destruct (negb _).
  - by apply bind_Ok_inv in E as ([ [ [? ?] ?] ?] & _ & [= _ _ <-]).
  - by apply bind_Ok_inv in E as ([ [ [? ?] ?] ?] & _ & [= _ _ <-]).
Qed.

(** Whatever was received, exactly one response is queued. *)
Lemma serve_responds i l p n w l' w' : serve room fs watch table pipefds i l p n w = Ok (l', w') ->
  exists c c' new, moved i w w' c c' new [] /\ responded i c c' new.
Proof.
  unfold serve. intros E. apply bind_Ok_inv in E as ([ [ok q] h] & _ & E).
  set (w1 := set_heap w h) in *. assert (S1 : same_io w w1) by done. clearbody w1.
  assert (Hcanned : forall l0 w2 text, same_io w w2 ->
    (w ← send_canned room w2 i text; Ok (l0, w)) = Ok (l', w') ->
    exists c c' new, moved i w w' c c' new [] /\ responded i c c' new).
  { intros l0 w2 text S2 E'. apply bind_Ok_inv in E' as (w3 & E' & [= _ <-]).
    apply send_canned_responds in E' as (c & c' & new & M & R). exists c, c', new.
    split; [by eapply moved_same|done]. }
  destruct (ok =? 0); [exact (Hcanned _ _ _ S1 E)|]. apply bind_Ok_inv in E as ([rt|] & _ & E); [|exact (Hcanned _ _ _ S1 E)].
  unfold respond in E.
  apply bind_Ok_inv in E as ([ [e l1] w2] & Ec & E). apply call_handler_io in Ec.
  assert (S2 : same_io w w2) by (destruct S1 as (? & ? & ?), Ec as (? & ? & ?); split_and!; congruence).
  destruct (UNLIKELY _); [exact (Hcanned _ _ _ S2 E)|]. destruct (UNLIKELY _); [exact (Hcanned _ _ _ S2 E)|].
  apply bind_Ok_inv in E as ([ [ok2 s2] h2] & _ & E). destruct (negb (ok2 =? 0)); [|exact (Hcanned _ (set_heap w2 h2) _ S2 E)].
  apply bind_Ok_inv in E as (w3 & E & [= _ <-]).
  apply send_response_responds in E as (c & c' & new & M & R). exists c, c', new.
  split; [exact (moved_same i w (set_heap w2 h2) _ _ _ _ _ S2 M)|done].
Qed.

(** [RESET] closes the connection's descriptor and clears the counters. *)
Lemma reset_closes i l w l' w' : reset i l w = Ok (l', w') ->
  exists c c', moved i w w' c c' [] [conn_fd c] /\ cur_steps c' = 0 /\ total_steps c' = 0 /\ action c' = action c.
Proof.
  unfold reset. intros E. apply bind_Ok_inv in E as (c & Ec & E). apply get_conn_inv in Ec.
  apply bind_Ok_inv in E as ([s h] & Es & E). apply bind_Ok_inv in E as ([rs h1] & _ & E).
  apply bind_Ok_inv in E as ([fr h2] & _ & [= _ <-]).
  exists c, (set_conn_str (set_steps c 0 0) s). split; [constructor|]; cbn [conns ring closed set_heap put_conn set_conns close_in]; try done.
  - by rewrite insert_insert_eq.
  - by rewrite app_nil_r.
  - cbn. intros [x Hx]. rewrite Hx in Es. unfold string_reset in Es.
    apply bind_Ok_inv in Es as (m & _ & [= <- _]). by eexists.
Qed.

(** The four things a turn can do, by the connection's action and the result. *)
Inductive outcome (i yielded : Z) (w w' : world) (c c' : connection) : list sqe -> list Z -> Prop :=
| outcome_failed :                                  (* a receive failed: nothing happens *)
    action c = IO_URING_OP_RECV -> yielded < 0 -> moved i w w' c c' [] [] -> c' = c ->
    outcome i yielded w w' c c' [] []
| outcome_replied new :                             (* a request: one response is queued *)
    action c = IO_URING_OP_RECV -> 0 < yielded -> moved i w w' c c' new [] -> responded i c c' new ->
    outcome i yielded w w' c c' new []
| outcome_waiting :                                 (* a step of a response: more to come *)
    sending c -> cur_steps c + 1 <> total_steps c -> moved i w w' c c' [] [] ->
    action c' = action c -> cur_steps c' = cur_steps c + 1 -> total_steps c' = total_steps c ->
    outcome i yielded w w' c c' [] []
| outcome_closed :                                  (* the peer has closed, or the last step *)
    (action c = IO_URING_OP_RECV /\ yielded = 0) \/ (sending c /\ cur_steps c + 1 = total_steps c) \/
      (action c <> IO_URING_OP_RECV /\ ~ sending c) ->
    moved i w w' c c' [] [conn_fd c] -> cur_steps c' = 0 -> total_steps c' = 0 -> action c' = action c ->
    outcome i yielded w w' c c' [] [conn_fd c].

Lemma turn_outcome i l yielded w l' w' :
  turn room fs watch table pipefds i l yielded w = Ok (l', w') ->
  exists c c' new xs, outcome i yielded w w' c c' new xs.
Proof.
  unfold turn. intros E. apply bind_Ok_inv in E as (c & Ec & E). apply get_conn_inv in Ec.
  assert (Hreset : forall (cc : connection) w1 l1, moved i w w1 c cc [] [] -> action cc = action c ->
    ((action c = IO_URING_OP_RECV /\ yielded = 0) \/ (sending c /\ cur_steps c + 1 = total_steps c) \/
      (action c <> IO_URING_OP_RECV /\ ~ sending c)) ->
    reset i l1 w1 = Ok (l', w') -> exists c c' new xs, outcome i yielded w w' c c' new xs).
  { intros cc w1 l1 M1 Ha Hwhy E1. apply reset_closes in E1 as (c1 & c' & M & H1 & H2 & H3).
    destruct (moved_trans _ _ _ _ _ _ _ _ _ _ _ _ M1 M) as [-> M'].
    rewrite (moved_fd _ _ _ _ _ _ _ M1) in M'.
    exists c, c', [], [conn_fd c]. apply outcome_closed; try done. congruence. }
  pose proof (moved_refl i w w c Ec ltac:(done)) as M0. unfold UNLIKELY in E.
  destruct (Z.eqb_spec (action c) IO_URING_OP_RECV) as [Ha|Ha].
  - destruct (Z.ltb_spec yielded 0).
    { injection E as _ <-. exists c, c, [], []. by apply outcome_failed. }
    destruct (Z.eqb_spec yielded 0) as [->|Hy]; [by eapply Hreset; [exact M0|done|by left|]|].
    apply bind_Ok_inv in E as (s & _ & E).
    assert (Hrep : exists c1 c' new, moved i w w' c1 c' new [] /\ responded i c1 c' new).
    { destruct (yielded =? i64 (capacity s)).
      - apply bind_Ok_inv in E as (w1 & E & [= _ <-]). by eapply send_canned_responds.
      - by eapply serve_responds. }
    destruct Hrep as (c1 & c' & new & M & R).
    assert (c1 = c) as -> by (pose proof (moved_from _ _ _ _ _ _ _ M); congruence).
    exists c, c', new, []. apply outcome_replied; try done. lia.
  - destruct ((action c =? IO_URING_OP_SEND) || (action c =? IO_URING_OP_SPLICE)) eqn:Es.
    + assert (Hs : sending c) by (unfold sending; apply orb_true_iff in Es as [?%Z.eqb_eq|?%Z.eqb_eq]; auto).
      apply bind_Ok_inv in E as (cur & Ecur & E). apply int_succ_inv in Ecur as ->.
      set (c1 := set_steps c (cur_steps c + 1) (total_steps c)) in *.
      assert (M1 : moved i w (put_conn w i c1) c c1 [] []) by (constructor; try done; by rewrite app_nil_r).
      destruct (Z.eqb_spec (cur_steps c + 1) (total_steps c)) as [Hlast|Hlast].
      * eapply Hreset; [exact M1|done| |exact E]. right. by left.
      * injection E as _ <-. exists c, c1, [], []. by apply outcome_waiting.
    + eapply Hreset; [exact M0|done| |exact E]. right. right. split; [done|].
      apply orb_false_iff in Es as [E1%Z.eqb_neq E2%Z.eqb_neq]. by intros [?|?].
Qed.
End effects.

(** ** The loop and the kernel *)

Record sys := Sys {
  server : world;
  inflight : list sqe;      (* submitted, not yet completed *)
  opens : gset Z            (* descriptors accepted and not yet closed *)
}.

(** The operations queued or in flight, and those of one connection. *)
Definition ops (s : sys) : list sqe := inflight s ++ ring (server s).
Definition ops_of (i : Z) (q : list sqe) : list sqe := filter (fun e => user_data e = Some i) q.

(** The descriptors closed between two worlds. *)
Definition newly_closed (w w' : world) : list Z := take (length (closed w') - length (closed w)) (closed w').

(** [accept] returns a descriptor that is not open. *)
Definition kernel_ok (listen_fd : Z) (s : sys) (e : sqe) (ret : Z) : Prop :=
  is_accept (op e) = true -> 0 <= ret -> (ret ∉ opens s) /\ ret <> listen_fd.

Definition accepted (e : sqe) (ret : Z) : gset Z :=
  if is_accept (op e) && (0 <=? ret) then {[ret]} else ∅.

Section system.
Context `{Platform} `{Abi}.
Variable room : list sqe -> bool.
Variable fs : file_system.
Variable watch : bool.
Variable table : list (router handler_fn).
Variable pipefds : Z * Z.
Variable listen_fd : Z.

(** [io_uring_submit_and_wait] submits; each completion is handled with whatever
    result the kernel gave, and whatever it has written to memory by then. *)
Inductive sys_step : sys -> sys -> Prop :=
| sys_submit s :
    sys_step s (Sys (World (conns (server s)) [] (closed (server s)) (wheap (server s)) (statics (server s)))
                    (ops s) (opens s))
| sys_complete s pre e post ret h w' :
    inflight s = pre ++ e :: post -> kernel_ok listen_fd s e ret ->
    handle_cqe room fs watch table pipefds listen_fd (user_data e) ret (set_heap (server s) h) = Ok w' ->
    sys_step s (Sys w' (pre ++ post)
                    ((accepted e ret ∪ opens s) ∖ list_to_set (newly_closed (server s) w'))).

(** [create_server] zeroes the slots; the loop starts by queueing an accept. *)
Definition zero_conn : connection := Connection 0 0 0 0 None None false.

Inductive sys_reachable : sys -> Prop :=
| sys_init w w' : (forall i c, conns w !! i = Some c -> c = zero_conn) -> ring w = [] ->
    start room listen_fd w = Ok w' -> sys_reachable (Sys w' [] ∅)
| sys_next s s' : sys_reachable s -> sys_step s s' -> sys_reachable s'.

(** ** The invariant *)

(** What is outstanding for a connection: nothing, one receive, or the rest of a
    response. *)
Definition shape (i : Z) (o : gset Z) (c : connection) (q : list sqe) : Prop :=
  (length q = 0%nat /\ cur_steps c = 0 /\ total_steps c = 0) \/
  (length q = 1%nat /\ Forall (fun e => is_recv (op e) = true) q /\ action c = IO_URING_OP_RECV /\
     cur_steps c = 0 /\ total_steps c = 0 /\ i ∈ o) \/
  ((0 < length q)%nat /\ Forall (fun e => is_step (op e) = true) q /\ sending c /\
     0 <= cur_steps c /\ cur_steps c + Z.of_nat (length q) = total_steps c /\ i ∈ o).

(** A connection with something outstanding has a coroutine that can be resumed. *)
Definition resumable (c : connection) : Prop :=
  exists co, coro c = Some co /\ can_resume co /\ padding co = 0 /\
    (sending c -> is_Some (context co)).

Record slot_ok (i : Z) (o : gset Z) (c : connection) (q : list sqe) : Prop := Slot_ok {
  slot_shape : shape i o c q;
  slot_live : (0 < length q)%nat -> resumable c /\ is_Some (conn_str c);
  slot_fd : forall co, coro c = Some co -> is_Some (conn_str c) -> conn_fd c = i;
  slot_stopped : forall co, coro c = Some co -> i ∉ o -> can_resume co /\ padding co = 0
}.

Record inv (s : sys) : Prop := Inv {
  inv_listen : exists e, ops_of listen_fd (ops s) = [e] /\ is_accept (op e) = true;
  inv_listen_slot : exists c, conns (server s) !! listen_fd = Some c /\ action c = IO_URING_OP_ACCEPT;
  inv_known : Forall (fun e => exists i c, user_data e = Some i /\ conns (server s) !! i = Some c) (ops s);
  inv_slots : forall i c, i <> listen_fd -> conns (server s) !! i = Some c ->
    slot_ok i (opens s) c (ops_of i (ops s));
  inv_listen_open : listen_fd ∉ opens s
}.

(** ** Lemmas on operations *)

Lemma ops_of_app i p q : ops_of i (p ++ q) = ops_of i p ++ ops_of i q.
Proof. apply filter_app. Qed.

Lemma ops_of_all i q : Forall (fun e => user_data e = Some i) q -> ops_of i q = q.
Proof.
  induction 1 as [|e q He _ IH]; [done|]. unfold ops_of. rewrite filter_cons_True by done. by f_equal.
Qed.

Lemma ops_of_none i j q : i <> j -> Forall (fun e => user_data e = Some j) q -> ops_of i q = [].
Proof.
  intros Hij. induction 1 as [|e q He _ IH]; [done|]. unfold ops_of. rewrite filter_cons_False by congruence. done.
Qed.

Lemma ops_of_cons_in i e q : user_data e = Some i -> ops_of i (e :: q) = e :: ops_of i q.
Proof. intros. unfold ops_of. by rewrite filter_cons_True. Qed.
Lemma ops_of_cons_out i e q : user_data e <> Some i -> ops_of i (e :: q) = ops_of i q.
Proof. intros. unfold ops_of. by rewrite filter_cons_False. Qed.

Lemma newly_closed_spec w w' xs : closed w' = xs ++ closed w -> newly_closed w w' = xs.
Proof.
  intros E. unfold newly_closed. rewrite E, length_app.
  by rewrite (Nat.add_sub (length xs)), take_app_length.
Qed.

(** ** One connection's slot across a completion *)

Lemma outcome_same i y w0 w w' c c' new xs :
  same_io w0 w -> outcome i y w w' c c' new xs -> outcome i y w0 w' c c' new xs.
Proof.
  intros S O. destruct O; [apply outcome_failed|apply outcome_replied|apply outcome_waiting|apply outcome_closed];
    try done; by eapply moved_same.
Qed.

Lemma outcome_moved i y w w' c c' new xs : outcome i y w w' c c' new xs -> moved i w w' c c' new xs.
Proof. by destruct 1. Qed.

Lemma init_locals_io i w l w1 :
  ('(l, h) ← init_locals i (wheap w); Ok (l, set_heap w h)) = Ok (l, w1) -> same_io w w1.
Proof.
  intros E. apply bind_Ok_inv in E as (x & _ & E). destruct x as [l1 h1]. injection E as _ <-.
  split; [reflexivity|]. split; reflexivity.
Qed.

(** A resumption either returns from the handler, which needs the first entry, or
    makes a turn. *)
Lemma resume_outcome i co ret w v co' w' :
  padding co = 0 -> can_resume co ->
  co_resume_value (io_uring_co_http_handler room fs watch table pipefds i) co ret w = Ok (v, co', w') ->
  (context co = None /\ same_io w w' /\ co_stat co' = CO_STATUS_STOPPED) \/
  exists c c' new xs l, outcome i ret w w' c c' new xs /\ co' = Coroutine (Some l) 0 CO_STATUS_STARTED 0 In_func.
Proof.
  intros Hp Hs E. rewrite resume_value_steps in E by done.
  apply bind_Ok_inv in E as ([ev w2] & Ef & E). apply bind_Ok_inv in E as ([v1 co1] & Eo & [= _ <- <-]).
  unfold io_uring_co_http_handler in Ef. apply bind_Ok_inv in Ef as ([l w3] & El & Ef).
  assert (Sl : same_io w w3 /\ (context co = None \/ is_Some l)).
  { destruct (context co) as [lc|]; [injection El as <- <-; split; [done|right; eauto]|].
    split; [by eapply init_locals_io|by left]. }
  destruct Sl as [S3 Hl]. destruct l as [l|].
  - right. apply bind_Ok_inv in Ef as ([l' w4] & Et & [= <- <-]).
    apply turn_outcome in Et as (c & c' & new & xs & O).
    exists c, c', new, xs, l'. split; [by eapply outcome_same|]. by injection Eo as <- <-.
  - left. injection Ef as <- <-. injection Eo as <- <-. destruct Hl as [|[? ?]]; [|done]. split_and!; [done|apply S3..|done].
Qed.

End system.

(** The slot after its completion [e] and the turn it caused. *)
Lemma slot_turn i o c u e v y w w' c' new xs l :
  slot_ok i o c (u ++ e :: v) -> outcome i y w w' c c' new xs ->
  slot_ok i (o ∖ list_to_set xs) (set_coro c' (Some (Coroutine (Some l) 0 CO_STATUS_STARTED 0 In_func))) ((u ++ v) ++ new).
Proof.
  intros [Hshape Hlive Hfd Hst] O.
  assert (Hlen : length (u ++ e :: v) = S (length (u ++ v))) by (rewrite !length_app; simpl; lia).
  destruct Hlive as [(co & Hco & _) Hstr]; [lia|].
  pose proof (outcome_moved _ _ _ _ _ _ _ _ O) as M. pose proof (moved_str _ _ _ _ _ _ _ M Hstr) as Hstr'.
  constructor.
  2: { intros _. split; [|done]. eexists. split; [done|]. split; [done|]. split; [done|]. intros _. by eexists. }
  2: { intros co' _ _. change (conn_fd c' = i). rewrite (moved_fd _ _ _ _ _ _ _ M). by eapply Hfd. }
  2: { intros co' [= <-] _. done. }
  unfold shape, sending in *. cbn [action cur_steps total_steps set_coro].
  destruct Hshape as [(Hl & _)|[(Hl & _ & Ha & Hc & Ht & Hi)|(Hl & Hf & Ha & Hc & Ht & Hi)]]; [lia| |].
  - assert (u ++ v = []) as -> by (apply length_zero_iff_nil; lia). cbn [app].
    destruct O as [_ _ _ ->|new _ _ _ ([Hn|Hn] & Hf & Hs & Hc' & Ht')|[Hs|Hs] _ _ _ _ _|Hwhy _ Hc' Ht' _];
      try (rewrite Ha in Hs; discriminate Hs).
    + left. done.
    + right. right. cbn [list_to_set]. split; [lia|]. split; [eapply Forall_impl; [exact Hf|]; by intros ? [_ ?]|].
      split; [done|]. split; [lia|]. split; [lia|]. set_solver.
    + right. right. cbn [list_to_set]. split; [lia|]. split; [eapply Forall_impl; [exact Hf|]; by intros ? [_ ?]|].
      split; [done|]. split; [lia|]. split; [lia|]. set_solver.
    + left. done.
  - apply Forall_middle in Hf as [_ Hf]. rewrite Hlen in Ht.
    destruct O as [Ha' _ _ _|new Ha' _ _ _|Hs Hne _ Ha' Hc' Ht'|Hwhy _ Hc' Ht' _].
    + rewrite Ha' in Ha. by destruct Ha.
    + rewrite Ha' in Ha. by destruct Ha.
    + right. right. rewrite app_nil_r. cbn [list_to_set]. split; [lia|]. split; [done|].
      split; [by rewrite Ha'|]. split; [lia|]. split; [lia|]. set_solver.
    + left. rewrite app_nil_r. split; [|done]. destruct Hwhy as [[Ha' _]|[[_ ?]|[_ ?]]]; [rewrite Ha' in Ha; by destruct Ha|lia|done].
Qed.

(** ** Preservation *)

Lemma ops_of_in i e q : e ∈ q -> user_data e = Some i -> e ∈ ops_of i q.
Proof. intros He Hi. unfold ops_of. by apply list_elem_of_filter. Qed.

#[local] Set Default Proof Using "All".

Section preservation.
Context `{Platform} `{Abi}.
Variable room : list sqe -> bool.
Variable fs : file_system.
Variable watch : bool.
Variable table : list (router handler_fn).
Variable pipefds : Z * Z.
Variable listen_fd : Z.

Lemma accept_again_spec w w' : accept_again room listen_fd w = Ok w' ->
  exists c, conns w !! listen_fd = Some c /\
    conns w' = <[listen_fd := set_action c IO_URING_OP_ACCEPT]> (conns w) /\
    ring w' = ring w ++ [Sqe (Accept listen_fd) (Some listen_fd) 0] /\ closed w' = closed w.
Proof.
  unfold accept_again, push. intros E. apply bind_Ok_inv in E as (c & Ec & E).
  apply bind_Ok_inv in E as ([r c'] & Ep & [= <-]). apply get_conn_inv in Ec.
  unfold io_uring_push_accept in Ep. apply bind_Ok_inv in Ep as (r1 & Er & [= <- <-]).
  apply get_sqe_inv in Er as ->. by exists c.
Qed.

Lemma push_recv_spec w w' fd buf n : 
  push w fd (fun r c => io_uring_push_recv room r fd buf n fd c 0) = Ok w' ->
  exists c, conns w !! fd = Some c /\
    conns w' = <[fd := set_action c IO_URING_OP_RECV]> (conns w) /\
    ring w' = ring w ++ [Sqe (Recv fd buf n) (Some fd) 0] /\ closed w' = closed w.
Proof.
  unfold push. intros E. apply bind_Ok_inv in E as (c & Ec & E).
  apply bind_Ok_inv in E as ([r c'] & Ep & [= <-]). apply get_conn_inv in Ec.
  unfold io_uring_push_recv in Ep. apply bind_Ok_inv in Ep as (r1 & Er & [= <- <-]).
  apply get_sqe_inv in Er as ->. by exists c.
Qed.

Definition fresh_coro : coroutine (option locals) := Coroutine None 0 CO_STATUS_CREATED 0 At_entry_point.

(** Preparing a connection: ready, or one of the two failures. *)
Lemma prepare_connection_spec w fd e w' : prepare_connection w fd = Ok (e, w') ->
  exists c c', conns w !! fd = Some c /\ conns w' = <[fd := c']> (conns w) /\
    ring w' = ring w /\ closed w' = closed w /\
    cur_steps c' = cur_steps c /\ total_steps c' = total_steps c /\
    ((0 <= e /\ coro c' = Some fresh_coro /\ conn_fd c' = fd /\ is_Some (conn_str c')) \/
     (e < 0 /\ coro c' = None) \/ (e < 0 /\ coro c' = Some fresh_coro /\ conn_str c' = None)).
Proof using Type.
  unfold prepare_connection. intros E. apply bind_Ok_inv in E as (c & Ec & E). apply get_conn_inv in Ec.
  destruct (malloc_struct 33016 (wheap w)) as [ok h]. unfold co_new in E.
  destruct ok; cbn [negb UNLIKELY] in E.
  - apply bind_Ok_inv in E as ([ [ok c1] h1] & Es & E).
    assert (Hc1 : (ok = true /\ is_Some (conn_str c1) \/ ok = false /\ conn_str c1 = None) /\
      coro c1 = Some fresh_coro /\ cur_steps c1 = cur_steps c /\ total_steps c1 = total_steps c).
    { cbn [conn_str set_coro] in Es. destruct (conn_str c) as [s|] eqn:Hs.
      - injection Es as <- <- _. split; [left; split; [done|by eexists]|done].
      - apply bind_Ok_inv in Es as ([s h2] & _ & [= <- <- _]). split; [|done].
        destruct s as [s|]; [left; split; [done|by eexists]|by right]. }
    destruct Hc1 as (Hok & Hco & Hcur & Htot). destruct ok; cbn [negb] in E; injection E as <- <-.
    + destruct Hok as [[_ Hs]|[? _]]; [|done].
      exists c, (Connection fd 0 (cur_steps c1) (total_steps c1) (coro c1) (conn_str c1) true).
      split_and!; try done; [cbn; by rewrite !insert_insert_eq|left]. by split_and!.
    + destruct Hok as [[? _]|[_ Hs]]; [done|]. exists c, c1. split_and!; try done; [cbn; by rewrite insert_insert_eq|].
      right. right. by split_and!.
  - injection E as <- <-. exists c, (set_coro c None). split_and!; try done. right. by left.
Qed.

Lemma slot_ok_opens i o o' c q : (i ∈ o <-> i ∈ o') -> slot_ok i o c q -> slot_ok i o' c q.
Proof.
  intros Ho [Hshape Hlive Hfd Hst]. constructor; [|done|done|].
  - unfold shape in *. by rewrite <- Ho.
  - intros co Hco Hi. apply Hst; [done|]. by rewrite Ho.
Qed.

Lemma ops_of_split i s pre e post : inflight s = pre ++ e :: post -> user_data e = Some i ->
  ops_of i (ops s) = ops_of i pre ++ e :: (ops_of i post ++ ops_of i (ring (server s))).
Proof using Type.
  intros Hin He. unfold ops. rewrite Hin, !ops_of_app, ops_of_cons_in by done. by rewrite <- app_assoc.
Qed.

Lemma ops_of_other j i s pre e post : inflight s = pre ++ e :: post -> user_data e = Some i -> j <> i ->
  ops_of j (ops s) = ops_of j ((pre ++ post) ++ ring (server s)).
Proof using Type.
  intros Hin He Hj. unfold ops. rewrite Hin, !ops_of_app, ops_of_cons_out by congruence. done.
Qed.

(** Everything but slot [i] is as before. *)
Lemma inv_conn_step s pre e post i c w' c' new xs :
  inv listen_fd s -> inflight s = pre ++ e :: post -> user_data e = Some i -> i <> listen_fd ->
  conns (server s) !! i = Some c -> conns w' = <[i := c']> (conns (server s)) ->
  ring w' = ring (server s) ++ new -> Forall (fun e => user_data e = Some i) new -> Forall (fun x => x = i) xs ->
  slot_ok i (opens s ∖ list_to_set xs) c'
    ((ops_of i pre ++ ops_of i post ++ ops_of i (ring (server s))) ++ new) ->
  inv listen_fd (Sys w' (pre ++ post) (opens s ∖ list_to_set xs)).
Proof.
  intros [Hl (cl & Hcl & Hal) Hk Hs Hlo] Hin He Hi Hc Hconns Hring Hnew Hxs Hslot.
  assert (Hops : forall j, ops_of j (ops (Sys w' (pre ++ post) (opens s ∖ list_to_set xs))) =
    ops_of j ((pre ++ post) ++ ring (server s)) ++ ops_of j new).
  { intros j. unfold ops. cbn [inflight server]. by rewrite Hring, app_assoc, ops_of_app. }
  assert (Hxs' : forall j, j <> i -> j ∉ (list_to_set xs : gset Z)).
  { intros j Hj Hin'. apply elem_of_list_to_set in Hin'. rewrite Forall_forall in Hxs. by apply Hj, Hxs. }
  constructor; cbn [server opens].
  - rewrite Hops, (ops_of_none listen_fd i new), app_nil_r by (done || congruence).
    by rewrite <- (ops_of_other listen_fd i s pre e post) by (done || congruence).
  - exists cl. rewrite Hconns, lookup_insert_ne by congruence. done.
  - unfold ops in *. cbn [inflight server]. rewrite Hring, Hin in *.
    assert (Hup : forall e', (exists j c, user_data e' = Some j /\ conns (server s) !! j = Some c) ->
      exists j c, user_data e' = Some j /\ conns w' !! j = Some c).
    { intros e' (j & cj & Hj & Hcj). exists j. rewrite Hconns. destruct (decide (j = i)) as [->|].
      - exists c'. by rewrite lookup_insert_eq.
      - exists cj. by rewrite lookup_insert_ne by congruence. }
    rewrite app_assoc. apply Forall_app. split.
    + rewrite <- app_assoc, <- app_comm_cons in Hk. apply Forall_middle in Hk as [_ Hk].
      rewrite <- app_assoc. eapply Forall_impl; [exact Hk|exact Hup].
    + eapply Forall_impl; [exact Hnew|]. intros e' He'. exists i, c'. by rewrite Hconns, lookup_insert_eq.
  - intros j cj Hj Hcj. rewrite Hops. rewrite Hconns in Hcj. destruct (decide (j = i)) as [->|Hne].
    + rewrite lookup_insert_eq in Hcj. injection Hcj as <-.
      rewrite !ops_of_app, (ops_of_all i new) by done. by rewrite <- !app_assoc in Hslot |- *.
    + rewrite lookup_insert_ne in Hcj by congruence. rewrite (ops_of_none j i new), app_nil_r by done.
      rewrite <- (ops_of_other j i s pre e post) by done.
      eapply slot_ok_opens; [|by apply Hs]. specialize (Hxs' j Hne). set_solver.
  - set_solver.
Qed.

(** The handler returned before its loop: both strings could not be allocated. *)
Lemma slot_return i o c u e v co co' :
  slot_ok i o c (u ++ e :: v) -> coro c = Some co -> context co = None ->
  slot_ok i o (set_coro c (Some co')) (u ++ v).
Proof.
  intros [Hshape Hlive Hfd Hst] Hco Hctx.
  assert (Hlen : length (u ++ e :: v) = S (length (u ++ v))) by (rewrite !length_app; simpl; lia).
  destruct Hlive as [(co0 & Hco0 & _ & _ & Hsend) Hstr]; [lia|]. rewrite Hco in Hco0. injection Hco0 as <-.
  destruct Hshape as [(Hl & _)|[(Hl & _ & Ha & Hc & Ht & Hi)|(_ & _ & Ha & _)]]; [lia| |].
  2: { destruct (Hsend Ha) as [x Hx]. congruence. }
  constructor.
  - left. split_and!; [lia|done|done].
  - lia.
  - intros co1 _ Hs. by eapply Hfd.
  - done.
Qed.

Lemma complete_conn s pre e post i ret h w' :
  inv listen_fd s -> inflight s = pre ++ e :: post -> user_data e = Some i -> i <> listen_fd ->
  handle_cqe room fs watch table pipefds listen_fd (Some i) ret (set_heap (server s) h) = Ok w' ->
  inv listen_fd (Sys w' (pre ++ post)
    ((accepted e ret ∪ opens s) ∖ list_to_set (newly_closed (server s) w'))).
Proof.
  intros Hinv Hin He Hi E. pose proof (inv_known _ _ Hinv) as Hk. pose proof (inv_slots _ _ Hinv) as Hs.
  assert (Hc : exists c, conns (server s) !! i = Some c).
  { unfold ops in Hk. rewrite Hin, <- app_assoc, <- app_comm_cons in Hk. apply Forall_middle in Hk as [(j & c & Hj & Hc) _].
    exists c. congruence. }
  destruct Hc as [c Hc]. pose proof (Hs i c Hi Hc) as Hslot. rewrite (ops_of_split i s pre e post Hin He) in Hslot.
  destruct (slot_live _ _ _ _ Hslot) as [(co & Hco & Hst & Hpad & _) Hstr]; [rewrite length_app; simpl; lia|].
  assert (Hshape : action c <> IO_URING_OP_ACCEPT /\ is_accept (op e) = false).
  { destruct (slot_shape _ _ _ _ Hslot) as [(Hl & _)|[(_ & Hf & Ha & _)|(_ & Hf & Ha & _)]].
    - rewrite length_app in Hl. simpl in Hl. lia.
    - apply Forall_middle in Hf as [Hf _]. split; [by rewrite Ha|by destruct (op e)].
    - apply Forall_middle in Hf as [Hf _]. split; [by destruct Ha as [->| ->]|by destruct (op e)]. }
  destruct Hshape as [Hact Hacc]. unfold accepted. rewrite Hacc. cbn [andb]. rewrite (left_id_L ∅ (∪)).
  unfold handle_cqe, get_conn in E. cbn [conns set_heap] in E. rewrite Hc in E. cbn [of_option] in E. rewrite bind_ok in E.
  destruct (Z.eqb_spec (action c) IO_URING_OP_ACCEPT) as [|_]; [done|].
  rewrite Hco in E. cbn [of_option] in E. rewrite bind_ok in E.
  apply bind_Ok_inv in E as ([ [v co'] w1] & Er & E). apply bind_Ok_inv in E as (c1 & Ec1 & [= <-]).
  destruct (resume_outcome _ _ _ _ _ _ _ _ _ _ _ _ Hpad Hst Er) as
    [(Hctx & (S1 & S2 & S3) & _)|(c0 & c0' & new & xs & l & O & ->)].
  - cbn [conns ring closed set_heap] in S1, S2, S3. rewrite S1 in Ec1. rewrite Hc in Ec1. injection Ec1 as <-.
    rewrite (newly_closed_spec (server s) _ []) by done. cbn [put_conn set_conns conns ring].
    eapply (inv_conn_step s pre e post i c _ _ [] []); try done.
    + cbn. by rewrite S1.
    + cbn. by rewrite S2, app_nil_r.
    + cbn [list_to_set]. rewrite app_nil_r, difference_empty_L. by eapply slot_return.
  - pose proof (outcome_moved _ _ _ _ _ _ _ _ O) as [M1 M2 M3 M4 M5 M6 M7 M8]. cbn [conns ring closed set_heap] in M1, M2, M3, M4.
    assert (c0 = c) as -> by congruence. rewrite M2, lookup_insert_eq in Ec1. injection Ec1 as <-.
    rewrite (newly_closed_spec (server s) _ xs) by done.
    eapply (inv_conn_step s pre e post i c _ _ new xs); try done.
    + cbn. by rewrite M2, insert_insert_eq.
    + destruct O as [|new _ _ _ (_ & Hf & _)| |]; [done| |done|done].
      eapply Forall_impl; [exact Hf|]. by intros ? [? _].
    + assert (Hfd : conn_fd c = i) by (by eapply (slot_fd _ _ _ _ Hslot)).
      destruct O; repeat constructor. done.
    + by eapply slot_turn.
Qed.

(** The accept has completed; everything is as before but its operation. *)
Lemma listen_removed s pre e post :
  inv listen_fd s -> inflight s = pre ++ e :: post -> user_data e = Some listen_fd ->
  is_accept (op e) = true /\ ops_of listen_fd ((pre ++ post) ++ ring (server s)) = [] /\
  Forall (fun e => exists i c, user_data e = Some i /\ conns (server s) !! i = Some c) ((pre ++ post) ++ ring (server s)) /\
  (forall j, j <> listen_fd -> ops_of j (ops s) = ops_of j ((pre ++ post) ++ ring (server s))).
Proof.
  intros [(e0 & Hl & Hacc) _ Hk _ _] Hin He. rewrite (ops_of_split listen_fd s pre e post Hin He) in Hl.
  assert (E : ops_of listen_fd pre = [] /\ e = e0 /\ ops_of listen_fd post ++ ops_of listen_fd (ring (server s)) = []).
  { destruct (ops_of listen_fd pre) as [|x l]; [by injection Hl as -> ->|].
    injection Hl as _ Hl. by destruct l. }
  destruct E as (E1 & -> & E2). split; [done|]. split; [by rewrite !ops_of_app, E1, <- app_assoc, E2|]. split.
  - unfold ops in Hk. rewrite Hin, <- app_assoc, <- app_comm_cons in Hk. apply Forall_middle in Hk as [_ Hk].
    by rewrite <- app_assoc.
  - intros j Hj. by eapply ops_of_other.
Qed.

(** Re-arming the accept, in a world [w1] whose other slots are well formed. *)
Lemma inv_accept_step s pre e post w1 w' new o :
  inv listen_fd s -> inflight s = pre ++ e :: post -> user_data e = Some listen_fd -> (listen_fd ∉ o) ->
  (forall j, is_Some (conns (server s) !! j) -> is_Some (conns w1 !! j)) ->
  ring w1 = ring (server s) ++ new ->
  Forall (fun e => exists r, user_data e = Some r /\ r <> listen_fd /\ is_Some (conns w1 !! r)) new ->
  (forall j c, j <> listen_fd -> conns w1 !! j = Some c -> slot_ok j o c (ops_of j (ops s) ++ ops_of j new)) ->
  accept_again room listen_fd w1 = Ok w' -> inv listen_fd (Sys w' (pre ++ post) o).
Proof.
  intros Hinv Hin He Hlo Hdom Hring Hnew Hslots E.
  destruct (listen_removed s pre e post Hinv Hin He) as (_ & Hnone & Hk & Hother).
  destruct (accept_again_spec w1 w' E) as (cl & Hcl & Hconns' & Hring' & _).
  set (ea := Sqe (Accept listen_fd) (Some listen_fd) 0) in *.
  assert (Hops : forall j, ops_of j (ops (Sys w' (pre ++ post) o)) =
    ops_of j ((pre ++ post) ++ ring (server s)) ++ ops_of j new ++ ops_of j [ea]).
  { intros j. unfold ops. cbn [inflight server]. by rewrite Hring', Hring, !app_assoc, !ops_of_app, <- !app_assoc. }
  assert (Hea : Forall (fun e => user_data e = Some listen_fd) [ea]) by by repeat constructor.
  assert (Hnl : ops_of listen_fd new = []).
  { clear -Hnew. induction Hnew as [|x new (r & Hr & Hne & _) _ IH]; [done|]. rewrite ops_of_cons_out by congruence. done. }
  assert (Hup : forall j, is_Some (conns w1 !! j) -> exists c, conns w' !! j = Some c).
  { intros j [cj Hcj]. rewrite Hconns'. destruct (decide (j = listen_fd)) as [->|].
    - rewrite lookup_insert_eq. by eexists.
    - rewrite lookup_insert_ne by congruence. by eexists. }
  constructor; cbn [server opens].
  - exists ea. by rewrite Hops, Hnone, Hnl, (ops_of_all listen_fd [ea] Hea).
  - exists (set_action cl IO_URING_OP_ACCEPT). by rewrite Hconns', lookup_insert_eq.
  - unfold ops. cbn [inflight server]. rewrite Hring', Hring.
    rewrite !app_assoc. apply Forall_app. split; [apply Forall_app; split|].
    + eapply Forall_impl; [exact Hk|]. intros x (j & cj & Hj & Hcj).
      destruct (Hup j) as [c2 ?]; [apply Hdom; by eexists|]. by exists j, c2.
    + eapply Forall_impl; [exact Hnew|]. intros x (r & Hr & _ & Hx). destruct (Hup r Hx) as [c2 ?]. by exists r, c2.
    + constructor; [|constructor]. exists listen_fd, (set_action cl IO_URING_OP_ACCEPT). by rewrite Hconns', lookup_insert_eq.
  - intros j cj Hj Hcj. rewrite Hops, (ops_of_none j listen_fd [ea] Hj Hea), app_nil_r.
    rewrite <- Hother by done. rewrite Hconns', lookup_insert_ne in Hcj by congruence. by apply Hslots.
  - done.
Qed.

(** A slot whose descriptor is not open, as an accept finds it. *)
Lemma slot_not_open s r c : inv listen_fd s -> r <> listen_fd -> (r ∉ opens s) -> conns (server s) !! r = Some c ->
  ops_of r (ops s) = [] /\ cur_steps c = 0 /\ total_steps c = 0.
Proof.
  intros Hinv Hr Ho Hc. destruct (inv_slots _ _ Hinv r c Hr Hc) as [Hshape _ _ _].
  destruct Hshape as [(Hl & ? & ?)|[(_ & _ & _ & _ & _ & ?)|(_ & _ & _ & _ & _ & ?)]]; [|done|done].
  split; [by apply length_zero_iff_nil|done].
Qed.

Lemma slot_receiving r o c e :
  is_recv (op e) = true -> action c = IO_URING_OP_RECV -> cur_steps c = 0 -> total_steps c = 0 -> r ∈ o ->
  is_Some (conn_str c) -> conn_fd c = r ->
  (exists co, coro c = Some co /\ can_resume co /\ padding co = 0) ->
  slot_ok r o c [e].
Proof.
  intros He Ha Hc Ht Ho Hs Hfd (co & Hco & Hst & Hp). constructor.
  - right. left. split_and!; try done. by repeat constructor.
  - intros _. split; [|done]. exists co. split_and!; try done. intros [Hsend|Hsend]; rewrite Ha in Hsend; discriminate Hsend.
  - done.
  - intros co' Hco' Hn. done.
Qed.

(** A slot that an accept has prepared, or found prepared: [ok] if it can be used. *)
Record prepared (r : Z) (w w1 : world) (c1 : connection) (ok : bool) : Prop := Prepared {
  prepared_conns : conns w1 = <[r := c1]> (conns w);
  prepared_ring : ring w1 = ring w;
  prepared_closed : closed w1 = closed w;
  prepared_steps : cur_steps c1 = 0 /\ total_steps c1 = 0;
  prepared_coro : forall co, coro c1 = Some co -> can_resume co /\ padding co = 0;
  prepared_fd : forall co, coro c1 = Some co -> is_Some (conn_str c1) -> conn_fd c1 = r;
  prepared_ok : ok = true -> is_Some (coro c1)
}.

Lemma accept_prepares s r c w ok w1 :
  inv listen_fd s -> r <> listen_fd -> (r ∉ opens s) -> conns (server s) !! r = Some c -> conns w = conns (server s) ->
  match coro c with
  | Some _ => Ok (true, w)
  | None => '(e, w) ← prepare_connection w r; Ok (0 <=? e, w)
  end = Ok (ok, w1) ->
  exists c1, prepared r w w1 c1 ok.
Proof.
  intros Hinv Hne Hnew Hc Hw E. destruct (slot_not_open s r c Hinv Hne Hnew Hc) as (_ & Hcur & Htot).
  destruct (inv_slots _ _ Hinv r c Hne Hc) as [_ _ Hfd Hstopped]. destruct (coro c) as [co|] eqn:Eco.
  - injection E as <- <-. exists c. constructor; try done.
    + by rewrite insert_id by (by rewrite Hw).
    + intros co1 Hco1. apply Hstopped; [congruence|done].
    + intros co1 Hco1. apply (Hfd co1). congruence.
  - apply bind_Ok_inv in E as ([e1 w2] & Ep & [= <- <-]).
    apply prepare_connection_spec in Ep as (c0 & c' & Hc0 & Hc' & Hr' & Hcl' & Hcu & Hto & Hcases).
    rewrite Hw, Hc in Hc0. injection Hc0 as <-. exists c'. constructor; try done; [split; congruence| | |].
    + intros co1 Hco1. destruct Hcases as [(_ & Hco & _)|[(_ & Hco)|(_ & Hco & _)]]; rewrite Hco in Hco1; by simplify_eq.
    + intros co1 Hco1 Hs. destruct Hcases as [(_ & _ & ? & _)|[(_ & Hco)|(_ & _ & Hs')]]; [done|congruence|].
      rewrite Hs' in Hs. by destruct Hs.
    + intros Hle%Z.leb_le. destruct Hcases as [(_ & Hco & _)|[(? & _)|(? & _)]]; [by rewrite Hco; eexists|lia..].
Qed.

(** The slots that were there are there. *)
Lemma dom_insert_some {A} (m : gmap Z A) r x j : is_Some (m !! j) -> is_Some (<[r := x]> m !! j).
Proof using Type. intros Hj. destruct (decide (j = r)) as [->|]; [rewrite lookup_insert_eq; by eexists|by rewrite lookup_insert_ne]. Qed.

(** The accepted descriptor waits for a request. *)
Lemma accept_arms s pre e post r w w1 w2 w' c1 str :
  inv listen_fd s -> inflight s = pre ++ e :: post -> user_data e = Some listen_fd -> r <> listen_fd -> (r ∉ opens s) ->
  is_Some (conns (server s) !! r) -> same_io (server s) w -> prepared r w w1 c1 true -> conn_str c1 = Some str ->
  push w1 r (fun q c => io_uring_push_recv room q r (Buf (buf str)) (capacity str) r c 0) = Ok w2 ->
  accept_again room listen_fd w2 = Ok w' ->
  inv listen_fd (Sys w' (pre ++ post) (({[r]} ∪ opens s) ∖ list_to_set (newly_closed (server s) w'))).
Proof.
  intros Hinv Hin He Hne Hnew [c Hc] (S1 & S2 & S3) [Hconns Hring Hclosed Hsteps Hst Hfd Hok] Hstr Ep E.
  destruct (slot_not_open s r c Hinv Hne Hnew Hc) as (Hq & _). pose proof (inv_listen_open _ _ Hinv) as Hlo.
  destruct (push_recv_spec _ _ _ _ _ Ep) as (c2 & Ec2 & Hc2 & Hr2 & Hcl2).
  rewrite Hconns, lookup_insert_eq in Ec2. injection Ec2 as <-. rewrite Hconns, insert_insert_eq, S1 in Hc2.
  destruct (accept_again_spec _ _ E) as (? & _ & _ & _ & Hclosed').
  rewrite (newly_closed_spec (server s) w' []) by (cbn [app]; congruence). cbn [list_to_set]. rewrite difference_empty_L.
  rewrite Hring, S2 in Hr2. destruct (Hok eq_refl) as [co Hco].
  eapply (inv_accept_step s pre e post w2 w' _); [done..|set_solver| |exact Hr2| | |exact E].
  - intros j Hj. rewrite Hc2. by apply dom_insert_some.
  - constructor; [|constructor]. exists r. rewrite Hc2, lookup_insert_eq. split_and!; [done|done|by eexists].
  - intros j cj Hj Hcj. rewrite Hc2 in Hcj. destruct (decide (j = r)) as [->|Hjr].
    + rewrite lookup_insert_eq in Hcj. injection Hcj as <-.
      rewrite Hq, ops_of_all by (by repeat constructor). cbn [app].
      destruct Hsteps as [Hcur Htot]. assert (Hs : is_Some (conn_str c1)) by (by rewrite Hstr).
      apply slot_receiving; [done|done|done|done|set_solver|done|by apply (Hfd co)|].
      exists co. split; [done|]. by apply Hst.
    + rewrite lookup_insert_ne in Hcj by congruence.
      rewrite (ops_of_none j r [_]) by (done || by repeat constructor). rewrite app_nil_r.
      eapply slot_ok_opens; [|by apply (inv_slots _ _ Hinv)]. set_solver.
Qed.

(** A descriptor that could not be prepared is closed. *)
Lemma accept_drops s pre e post r w w1 w' c1 ok :
  inv listen_fd s -> inflight s = pre ++ e :: post -> user_data e = Some listen_fd -> r <> listen_fd -> (r ∉ opens s) ->
  is_Some (conns (server s) !! r) -> same_io (server s) w -> prepared r w w1 c1 ok ->
  accept_again room listen_fd (close_in w1 r) = Ok w' ->
  inv listen_fd (Sys w' (pre ++ post) (({[r]} ∪ opens s) ∖ list_to_set (newly_closed (server s) w'))).
Proof.
  intros Hinv Hin He Hne Hnew [c Hc] (S1 & S2 & S3) [Hconns Hring Hclosed Hsteps Hst Hfd Hok] E.
  destruct (slot_not_open s r c Hinv Hne Hnew Hc) as (Hq & _). pose proof (inv_listen_open _ _ Hinv) as Hlo.
  destruct (accept_again_spec _ _ E) as (? & _ & _ & _ & Hclosed'). cbn [closed close_in] in Hclosed'.
  rewrite (newly_closed_spec (server s) w' [r]) by (cbn [app]; congruence). rewrite S1 in Hconns.
  eapply (inv_accept_step s pre e post (close_in w1 r) w' []); [done..|set_solver| | | | |exact E]; cbn [conns ring close_in].
  - intros j Hj. rewrite Hconns. by apply dom_insert_some.
  - rewrite app_nil_r. congruence.
  - done.
  - intros j cj Hj Hcj. rewrite app_nil_r. rewrite Hconns in Hcj. destruct (decide (j = r)) as [->|Hjr].
    + rewrite lookup_insert_eq in Hcj. injection Hcj as <-. rewrite Hq.
      constructor; [by left|simpl; lia|exact Hfd|]. intros co Hco _. by apply Hst.
    + rewrite lookup_insert_ne in Hcj by congruence.
      eapply slot_ok_opens; [|by apply (inv_slots _ _ Hinv)]. set_solver.
Qed.

Lemma complete_accept s pre e post ret h w' :
  inv listen_fd s -> inflight s = pre ++ e :: post -> user_data e = Some listen_fd ->
  kernel_ok listen_fd s e ret ->
  handle_cqe room fs watch table pipefds listen_fd (Some listen_fd) ret (set_heap (server s) h) = Ok w' ->
  inv listen_fd (Sys w' (pre ++ post)
    ((accepted e ret ∪ opens s) ∖ list_to_set (newly_closed (server s) w'))).
Proof.
  intros Hinv Hin He Hker E. destruct (listen_removed s pre e post Hinv Hin He) as (Hacc & _).
  specialize (Hker Hacc). unfold accepted. rewrite Hacc. cbn [andb].
  destruct (inv_listen_slot _ _ Hinv) as (cl & Hcl & Hal).
  unfold handle_cqe in E. rewrite (get_conn_ok (set_heap (server s) h) listen_fd cl Hcl), bind_ok, Hal in E.
  rewrite Z.eqb_refl in E. unfold UNLIKELY in E.
  destruct (Z.ltb_spec ret 0) as [Hneg|Hpos].
  - destruct (ret =? - EAGAIN); [|done]. destruct (Z.leb_spec 0 ret); [lia|].
    destruct (accept_again_spec _ _ E) as (? & _ & _ & _ & Hclosed). pose proof (inv_listen_open _ _ Hinv) as Hlo.
    rewrite (newly_closed_spec (server s) w' []) by done. cbn [list_to_set]. rewrite difference_empty_L, (left_id_L ∅ (∪)).
    apply (inv_accept_step s pre e post (set_heap (server s) h) w' []); [done..|by rewrite app_nil_r|done| |exact E].
    intros j c Hj Hc. rewrite app_nil_r. by apply (inv_slots _ _ Hinv).
  - destruct (Z.leb_spec 0 ret) as [_|]; [|lia]. destruct (Hker Hpos) as [Hnew Hne].
    apply bind_Ok_inv in E as (cr & Ecr%get_conn_inv & E). apply bind_Ok_inv in E as ([ok w1] & Eready & E).
    destruct (accept_prepares s ret cr (set_heap (server s) h) ok w1 Hinv Hne Hnew Ecr eq_refl Eready) as [c1 Hp].
    assert (Hr : is_Some (conns (server s) !! ret)) by by eexists.
    destruct ok; cbn [negb] in E; [|by eapply (accept_drops s pre e post ret (set_heap (server s) h))].
    apply bind_Ok_inv in E as (c2 & Ec2%get_conn_inv & E). rewrite (prepared_conns _ _ _ _ _ Hp), lookup_insert_eq in Ec2.
    injection Ec2 as <-. apply bind_Ok_inv in E as (str & Estr & E). apply bind_Ok_inv in E as (w2 & Ep & E).
    eapply (accept_arms s pre e post ret (set_heap (server s) h)); try done. by destruct (conn_str c1); simplify_eq/=.
Qed.

Lemma inv_init w w' : (forall i c, conns w !! i = Some c -> c = zero_conn) -> ring w = [] ->
  start room listen_fd w = Ok w' -> inv listen_fd (Sys w' [] ∅).
Proof.
  intros Hz Hr E. destruct (accept_again_spec w w' E) as (c & Hc & Hconns & Hring & _).
  set (ea := Sqe _ _ _) in Hring. assert (Hops : ops (Sys w' [] ∅) = [ea]) by (unfold ops; cbn; by rewrite Hring, Hr).
  constructor; cbn [server opens]; rewrite ?Hops.
  - exists ea. split; [|done]. by apply ops_of_all, Forall_singleton.
  - exists (set_action c IO_URING_OP_ACCEPT). by rewrite Hconns, lookup_insert_eq.
  - apply Forall_singleton. exists listen_fd, (set_action c IO_URING_OP_ACCEPT). by rewrite Hconns, lookup_insert_eq.
  - intros i ci Hi Hci. rewrite Hconns, lookup_insert_ne in Hci by congruence. apply Hz in Hci as ->.
    rewrite (ops_of_none i listen_fd [ea]) by (done || by apply Forall_singleton).
    constructor; [by left|simpl; lia|done|done].
  - set_solver.
Qed.

Lemma reachable_inv s : sys_reachable room fs watch table pipefds listen_fd s -> inv listen_fd s.
Proof.
  induction 1 as [w w' Hz Hr E|s s' Hs IH Hstep]; [by eapply inv_init|].
  destruct Hstep as [s|s pre e post ret h w' Hin Hker E].
  - assert (E : ops (Sys (World (conns (server s)) [] (closed (server s)) (wheap (server s)) (statics (server s)))
                       (ops s) (opens s)) = ops s) by apply app_nil_r.
    destruct IH as [Hl Hsl Hk Hss Hlo]. by constructor; rewrite ?E.
  - destruct (user_data e) as [i|] eqn:He; [|done].
    destruct (decide (i = listen_fd)) as [->|Hi]; [by eapply complete_accept|by eapply complete_conn].
Qed.

(** An outstanding operation of another slot is a receive or a step. *)
Lemma other_ops s e i c : inv listen_fd s -> e ∈ ops s -> user_data e = Some i -> i <> listen_fd ->
  conns (server s) !! i = Some c ->
  is_accept (op e) = false /\ i ∈ opens s /\ resumable c /\ is_Some (conn_str c).
Proof.
  intros Hinv He Hi Hne Hc. pose proof (ops_of_in i e _ He Hi) as Hin.
  destruct (inv_slots _ _ Hinv i c Hne Hc) as [Hshape Hlive _ _].
  assert (Hpos : (0 < length (ops_of i (ops s)))%nat) by (destruct (ops_of i (ops s)); [by apply not_elem_of_nil in Hin|simpl; lia]).
  destruct (Hlive Hpos). destruct Hshape as [(Hl & _)|[(_ & Hf & _ & _ & _ & ?)|(_ & Hf & _ & _ & _ & ?)]]; [lia| |].
  - rewrite Forall_forall in Hf. specialize (Hf e Hin). split_and!; try done. by destruct (op e).
  - rewrite Forall_forall in Hf. specialize (Hf e Hin). split_and!; try done. by destruct (op e).
Qed.

Lemma accepts_of_listen q :
  Forall (fun e => is_accept (op e) = true -> user_data e = Some listen_fd) q ->
  filter (fun e => is_accept (op e) = true) q = filter (fun e => is_accept (op e) = true) (ops_of listen_fd q).
Proof.
  induction 1 as [|e q He _ IH]; [done|]. destruct (decide (is_accept (op e) = true)) as [Ha|Ha].
  - rewrite filter_cons_True, ops_of_cons_in, filter_cons_True by auto. by f_equal.
  - rewrite filter_cons_False by done. destruct (decide (user_data e = Some listen_fd)) as [Hu|Hu].
    + by rewrite ops_of_cons_in, filter_cons_False.
    + by rewrite ops_of_cons_out.
Qed.
End preservation.

(** ** Properties *)

(** C14.  The listening socket always has exactly one accept outstanding, queued or
    in flight: it is re-armed after a success, after [EAGAIN] and after a failure
    to prepare the connection, and never twice.  Every other outstanding operation
    belongs to an open connection. *)
Theorem accept_armed_once `{Platform} `{Abi} (room : list sqe -> bool) (fs : file_system) (watch : bool)
    (table : list (router handler_fn)) (pipefds : Z * Z) (listen_fd : Z) (s : sys)
    (Hs : sys_reachable room fs watch table pipefds listen_fd s) :
  length (filter (fun e => is_accept (op e) = true) (ops s)) = 1%nat /\
  (exists c, conns (server s) !! listen_fd = Some c /\ action c = IO_URING_OP_ACCEPT) /\
  Forall (fun e => exists i, user_data e = Some i /\ (i = listen_fd \/ i ∈ opens s)) (ops s).
Proof.
  apply reachable_inv in Hs as Hinv; try done. pose proof Hinv as [(e & Hl & Ha) Hsl Hk _ _].
  assert (Hacc : Forall (fun e => is_accept (op e) = true -> user_data e = Some listen_fd) (ops s)).
  { rewrite Forall_forall in Hk |- *. intros x Hx Hax. destruct (Hk x Hx) as (i & c & Hi & Hc).
    destruct (decide (i = listen_fd)) as [->|Hne]; [done|].
    destruct (other_ops room fs watch table pipefds listen_fd s x i c Hinv Hx Hi Hne Hc) as [? _]. congruence. }
  split; [|split; [done|] ].
  - rewrite (accepts_of_listen room fs watch table pipefds listen_fd _ Hacc), Hl. by rewrite filter_cons_True.
  - rewrite Forall_forall in Hk |- *. intros x Hx. destruct (Hk x Hx) as (i & c & Hi & Hc). exists i. split; [done|].
    destruct (decide (i = listen_fd)) as [->|Hne]; [by left|right].
    by destruct (other_ops room fs watch table pipefds listen_fd s x i c Hinv Hx Hi Hne Hc) as (_ & ? & _).
Qed.

(** C13.  The protocol of a connection.  In every reachable state a slot has nothing
    outstanding and its counters are zero, or one receive, or the rest of a
    response: as many sends and splices as [total_steps - cur_steps].  Nothing is
    outstanding for a descriptor that is not open, so a closed descriptor is never
    used and its buffers are not in the kernel's hands. *)
Theorem connection_protocol `{Platform} `{Abi} (room : list sqe -> bool) (fs : file_system) (watch : bool)
    (table : list (router handler_fn)) (pipefds : Z * Z) (listen_fd : Z) (s : sys) (i : Z) (c : connection)
    (Hs : sys_reachable room fs watch table pipefds listen_fd s)
    (Hi : i <> listen_fd) (Hc : conns (server s) !! i = Some c) :
  let q := ops_of i (ops s) in
  ((q = [] /\ cur_steps c = 0 /\ total_steps c = 0) \/
   (exists e, q = [e] /\ is_recv (op e) = true /\ action c = IO_URING_OP_RECV /\ cur_steps c = 0 /\ total_steps c = 0) \/
   (q <> [] /\ Forall (fun e => is_step (op e) = true) q /\ sending c /\
      Z.of_nat (length q) = total_steps c - cur_steps c)) /\
  (i ∉ opens s -> q = []).
Proof.
  apply reachable_inv in Hs as Hinv; try done. intros q.
  destruct (inv_slots _ _ Hinv i c Hi Hc) as [Hshape _ _ _]. fold q in Hshape. clearbody q.
  destruct Hshape as [(Hl & ?)|[(Hl & Hf & ? & ? & ? & ?)|(Hl & Hf & ? & ? & ? & ?)]].
  - apply length_zero_iff_nil in Hl. split; [by left|done].
  - split; [|done]. right. left. destruct q as [|e [|]]; try done. apply Forall_cons in Hf as [Hf _]. by exists e.
  - split; [|done]. right. right. split_and!; try done; [|lia]. intros E. rewrite E in Hl. simpl in Hl. lia.
Qed.

(** C15.  No completion reaches a dead coroutine.  Whatever operation of a
    connection completes, its slot has a coroutine that is not stopped and whose
    guard is intact, so the loop neither resumes a null pointer nor runs into the
    undefined resumption of a finished coroutine. *)
Theorem completions_find_coroutines `{Platform} `{Abi} (room : list sqe -> bool) (fs : file_system) (watch : bool)
    (table : list (router handler_fn)) (pipefds : Z * Z) (listen_fd : Z) (s : sys) (e : sqe) (i : Z)
    (Hs : sys_reachable room fs watch table pipefds listen_fd s)
    (He : e ∈ inflight s) (Hu : user_data e = Some i) (Hi : i <> listen_fd) :
  exists c co, conns (server s) !! i = Some c /\ coro c = Some co /\ is_Some (conn_str c) /\
    action c <> IO_URING_OP_ACCEPT /\
    forall ret w, co_resume_value (io_uring_co_http_handler room fs watch table pipefds i) co ret w =
      '(ev, w) ← io_uring_co_http_handler room fs watch table pipefds i (context co) ret w;
      '(v, co') ← handed_over (context co) 0 ev; Ok (v, co', w).
Proof.
  apply reachable_inv in Hs as Hinv; try done.
  assert (Hin : e ∈ ops s) by (apply elem_of_app; by left).
  pose proof (inv_known _ _ Hinv) as Hk. rewrite Forall_forall in Hk. destruct (Hk e Hin) as (j & c & Hj & Hc).
  assert (j = i) as -> by congruence.
  destruct (other_ops room fs watch table pipefds listen_fd s e i c Hinv Hin Hu Hi Hc) as (_ & _ & (co & Hco & Hst & Hp & _) & Hstr).
  exists c, co. split_and!; try done.
  - pose proof (ops_of_in i e _ Hin Hu) as Hq.
    destruct (slot_shape _ _ _ _ (inv_slots _ _ Hinv i c Hi Hc)) as [(Hl & _)|[(_ & _ & Ha & _)|(_ & _ & Ha & _)]].
    + apply length_zero_iff_nil in Hl. rewrite Hl in Hq. by apply not_elem_of_nil in Hq.
    + by rewrite Ha.
    + by destruct Ha as [->| ->].
  - intros ret w. by apply resume_value_steps.
Qed.

(** A batch: each completion is that of an operation in flight, handled in turn. *)
Inductive served `{Platform} `{Abi} (room : list sqe -> bool) (fs : file_system) (watch : bool)
    (table : list (router handler_fn)) (pipefds : Z * Z) (listen_fd : Z) : sys -> list (sqe * Z) -> sys -> Prop :=
| served_nil s : served room fs watch table pipefds listen_fd s [] s
| served_cons s pre e post ret w' l s' :
    inflight s = pre ++ e :: post -> kernel_ok listen_fd s e ret ->
    handle_cqe room fs watch table pipefds listen_fd (user_data e) ret (server s) = Ok w' ->
    served room fs watch table pipefds listen_fd
      (Sys w' (pre ++ post) ((accepted e ret ∪ opens s) ∖ list_to_set (newly_closed (server s) w'))) l s' ->
    served room fs watch table pipefds listen_fd s ((e, ret) :: l) s'.

Lemma served_for_each `{Platform} `{Abi} room fs watch table pipefds listen_fd s l s' :
  served room fs watch table pipefds listen_fd s l s' ->
  for_each_cqe room fs watch table pipefds listen_fd ((fun '(e, ret) => (user_data e, ret)) <$> l) (server s) = Ok (server s').
Proof.
  induction 1 as [s|s pre e post ret w' l s' Hin Hk E _ IH]; [done|].
  cbn [fmap list_fmap for_each_cqe]. by rewrite E, bind_ok.
Qed.

Lemma served_reachable `{Platform} `{Abi} room fs watch table pipefds listen_fd s l s' :
  served room fs watch table pipefds listen_fd s l s' ->
  sys_reachable room fs watch table pipefds listen_fd s -> sys_reachable room fs watch table pipefds listen_fd s'.
Proof.
  induction 1 as [s|s pre e post ret w' l s' Hin Hk E _ IH]; [done|]. intros Hr. apply IH.
  eapply sys_next; [exact Hr|]. apply (sys_complete _ _ _ _ _ _ _ _ _ _ _ (wheap (server s)) _ Hin Hk).
  by destruct s as [ [] ].
Qed.

(** The loop refines the step relation.  One turn of [while (1)] in a reachable
    state, in which the kernel wrote to memory during the wait and completed the
    operations of a non-empty batch one after the other, returns exactly the world
    that the steps give, and that state is reachable again: the invariants hold
    after every turn of the loop. *)
Theorem loop_turn_refines `{Platform} `{Abi} (room : list sqe -> bool) (fs : file_system) (watch : bool)
    (table : list (router handler_fn)) (pipefds : Z * Z) (listen_fd : Z) (s s' : sys) (h : heap)
    (e : sqe) (ret : Z) (l : list (sqe * Z))
    (Hs : sys_reachable room fs watch table pipefds listen_fd s)
    (Hbatch : served room fs watch table pipefds listen_fd
                (Sys (set_heap (submit (server s)).2 h) (ops s) (opens s)) ((e, ret) :: l) s') :
  loop_turn room fs watch table pipefds listen_fd h ((fun '(e, ret) => (user_data e, ret)) <$> (e, ret) :: l) (server s) =
    Ok (ring (server s), server s') /\
  sys_reachable room fs watch table pipefds listen_fd s'.
Proof.
  split.
  - unfold loop_turn, submit. apply served_for_each in Hbatch. cbn [server] in Hbatch.
    etransitivity; [apply (f_equal (fun r => mbind _ r) Hbatch)|]. by rewrite bind_ok.
  - inversion Hbatch as [|s0 pre e0 post ret0 w' l0 s1 Hin Hk E Hrest]; subst.
    eapply served_reachable; [exact Hrest|]. eapply sys_next; [eapply sys_next; [exact Hs|apply sys_submit]|].
    exact (sys_complete room fs watch table pipefds listen_fd (Sys (submit (server s)).2 (ops s) (opens s))
             pre e post ret h w' Hin Hk E).
Qed.

(** C18.  Every turn of a connection's coroutine that returns has exactly one of
    four outcomes: after a failed receive nothing happens at all (the descriptor
    stays open with nothing outstanding); after a request exactly one response is
    queued, one operation or the three linked ones, and counted; after a step that
    is not the last the counter advances; after the last step, or when the peer
    has closed, the descriptor is closed and the counters are zero. *)
Theorem turn_outcomes `{Platform} `{Abi} (room : list sqe -> bool) (fs : file_system) (watch : bool)
    (table : list (router handler_fn)) (pipefds : Z * Z) (i : Z) (l l' : locals) (yielded : Z) (w w' : world)
    (Hturn : turn room fs watch table pipefds i l yielded w = Ok (l', w')) :
  exists c c' new xs, outcome i yielded w w' c c' new xs.
Proof. by eapply turn_outcome. Qed.

(** A failed preparation poisons the slot.  If [__prepare_connection] created
    the coroutine and then could not allocate the string, it returns -1 and leaves
    the coroutine in the slot; when the kernel next returns the same descriptor,
    the loop takes the connection for prepared and dereferences its null string. *)
Theorem failed_prepare_poisons_slot `{Platform} `{Abi} (room : list sqe -> bool) (fs : file_system) (watch : bool)
    (table : list (router handler_fn)) (pipefds : Z * Z) (listen_fd fd e : Z) (w w1 w2 : world) (c1 cl : connection)
    (Hprep : prepare_connection w fd = Ok (e, w1)) (He : e < 0)
    (Hc1 : conns w1 !! fd = Some c1) (Hcoro : coro c1 <> None)
    (Hlater : conns w2 !! fd = Some c1) (Hl : conns w2 !! listen_fd = Some cl)
    (Hal : action cl = IO_URING_OP_ACCEPT) (Hfd : 0 <= fd) :
  handle_cqe room fs watch table pipefds listen_fd (Some listen_fd) fd w2 = Undef NullDeref.
Proof.
  destruct (prepare_connection_spec w fd e w1 Hprep) as (c & c' & _ & Hc' & _ & _ & _ & _ & Hcases).
  rewrite Hc', lookup_insert_eq in Hc1. injection Hc1 as ->.
  destruct Hcases as [(? & _)|[(_ & ?)|(_ & Hco & Hstr)]]; [lia|done|].
  unfold handle_cqe. rewrite (get_conn_ok w2 listen_fd cl Hl), bind_ok, Hal, Z.eqb_refl. unfold UNLIKELY.
  destruct (Z.ltb_spec fd 0); [lia|]. rewrite (get_conn_ok w2 fd c1 Hlater), bind_ok, Hco, bind_ok. cbn [negb].
  by rewrite (get_conn_ok w2 fd c1 Hlater), bind_ok, Hstr.
Qed.

(** ** A small run, for the witnesses

    A platform on which the strings are small, a server with the listening socket
    3 and one accepted connection 5, whose receive is in flight. *)

Definition tiny : Platform := {|
  fresh_bytes n := replicate n 0;
  length_fresh_bytes n := length_replicate n 0;
  oversized_shl1 _ := Ok 64
|}.

Definition demo_fs : file_system := File_system (fun _ => -2) (fun _ => (-1, 0)) (fun _ => NULL) (fun _ _ => NULL) NULL.
Definition demo_room : list sqe -> bool := fun q => (length q <? 1024)%nat.
Definition demo_world : world :=
  World {[3 := zero_conn; 5 := zero_conn]} [] [] (Heap ∅ []) (Static_state NULL []).
Definition get_ok (w0 : world) (r : result world) : world := match r with Ok w => w | _ => w0 end.
Definition demo_started : world := get_ok demo_world (start demo_room 3 demo_world).
Definition demo_submitted (w : world) : world := World (conns w) [] (closed w) (wheap w) (statics w).
Definition demo_accepted : world :=
  get_ok demo_world (handle_cqe (H := tiny) (H0 := linux) demo_room demo_fs false [] (0, 0) 3 (Some 3) 5
                       (set_heap (demo_submitted demo_started) (Heap ∅ []))).
Definition demo : sys := Sys (demo_submitted demo_accepted) (ring demo_accepted) {[5]}.

Lemma demo_reachable : sys_reachable (H := tiny) (H0 := linux) demo_room demo_fs false [] (0, 0) 3 demo.
Proof.
  eapply sys_next; [eapply sys_next; [eapply sys_next; [eapply (sys_init (H := tiny) (H0 := linux) _ _ _ _ _ _ demo_world demo_started)|] |] |].
  - intros i c Hc. unfold demo_world in Hc. cbn [conns] in Hc.
    apply lookup_insert_Some in Hc as [[_ <-]|[_ Hc] ]; [done|]. by apply lookup_singleton_Some in Hc as [_ <-].
  - reflexivity.
  - vm_compute. reflexivity.
  - apply (sys_submit (H := tiny) (H0 := linux)).
  - apply (sys_complete (H := tiny) (H0 := linux) _ _ _ _ _ _ _ [] (Sqe (Accept 3) (Some 3) 0) [] 5 (Heap ∅ []) demo_accepted).
    + vm_compute. reflexivity.
    + intros _ _. split; [apply not_elem_of_empty|done].
    + vm_compute. reflexivity.
  - assert (E : forall s, opens s = {[5]} -> server s = demo_accepted -> inflight s = [] ->
      sys_step (H := tiny) (H0 := linux) demo_room demo_fs false [] (0, 0) 3 s demo).
    { intros [ws fl os] Ho Hw Hf. cbn in Ho, Hw, Hf. subst. exact (sys_submit (H := tiny) (H0 := linux) demo_room demo_fs false [] (0, 0) 3 (Sys demo_accepted [] {[5]})). }
    apply E; [|done|done]. vm_compute. reflexivity.
Qed.

Lemma accept_armed_once_witness : length (filter (fun e => is_accept (op e) = true) (ops demo)) = 1%nat.
Proof. apply (accept_armed_once (H := tiny) (H0 := linux) demo_room demo_fs false [] (0, 0) 3 demo demo_reachable). Defined.

Lemma connection_protocol_witness : exists c, conns (server demo) !! 5 = Some c /\ total_steps c = 0.
Proof.
  eexists. split; [vm_compute; reflexivity|].
  destruct (connection_protocol (H := tiny) (H0 := linux) demo_room demo_fs false [] (0, 0) 3 demo 5 _ demo_reachable
              ltac:(discriminate) ltac:(vm_compute; reflexivity)) as [_ _].
  reflexivity.
Defined.

Lemma completions_find_coroutines_witness :
  exists e c co, e ∈ inflight demo /\ user_data e = Some 5 /\ conns (server demo) !! 5 = Some c /\ coro c = Some co.
Proof.
  eexists (Sqe (Recv 5 (Buf (Ptr 1 0)) 64) (Some 5) 0).
  destruct (completions_find_coroutines (H := tiny) (H0 := linux) demo_room demo_fs false [] (0, 0) 3 demo
              (Sqe (Recv 5 (Buf (Ptr 1 0)) 64) (Some 5) 0) 5 demo_reachable) as (c & co & Hc & Hco & _).
  - vm_compute. by left.
  - reflexivity.
  - discriminate.
  - exists c, co. split; [vm_compute; by left|]. split; [reflexivity|]. by split.
Defined.

Lemma loop_turn_refines_witness :
  exists s' q, loop_turn (H := tiny) (H0 := linux) demo_room demo_fs false [] (0, 0) 3 (Heap ∅ []) [(Some 3, -11)] (server demo) =
    Ok (q, server s') /\ sys_reachable (H := tiny) (H0 := linux) demo_room demo_fs false [] (0, 0) 3 s'.
Proof.
  eexists _, _. eapply (loop_turn_refines (H := tiny) (H0 := linux) demo_room demo_fs false [] (0, 0) 3 demo _ (Heap ∅ [])
    (Sqe (Accept 3) (Some 3) 0) (-11) [] demo_reachable).
  eapply (served_cons (H := tiny) (H0 := linux) _ _ _ _ _ _ _ [Sqe (Recv 5 (Buf (Ptr 1 0)) 64) (Some 5) 0] _ []).
  - vm_compute. reflexivity.
  - intros _ F. lia.
  - vm_compute. reflexivity.
  - apply served_nil.
Defined.

(** A connection whose peer has closed. *)
Lemma turn_outcomes_witness :
  let c := Connection 5 IO_URING_OP_RECV 0 0 None (Some (String_t 4 0 (Ptr 1 0))) true in
  let w := World {[5 := c]} [] [] (Heap {[1%positive := [71; 0; 0; 0]]} []) (Static_state NULL []) in
  let l := Locals empty_request (Response 0 NULL 0 0 None (KV_INIT_WITH_BUF [] 0)) None in
  exists l' w', turn (H := tiny) (H0 := linux) demo_room demo_fs false [] (0, 0) 5 l 0 w = Ok (l', w') /\
    exists c c' new xs, outcome 5 0 w w' c c' new xs.
Proof.
  intros c w l. eexists _, _. split; [vm_compute; reflexivity|].
  eapply (turn_outcomes (H := tiny) (H0 := linux) demo_room demo_fs false [] (0, 0) 5 l _ 0 w).
  vm_compute. reflexivity.
Defined.

Lemma failed_prepare_poisons_slot_witness :
  let w := World {[3 := set_action zero_conn IO_URING_OP_ACCEPT; 5 := zero_conn]} [] [] (Heap ∅ [false; true]) (Static_state NULL []) in
  exists e w1, prepare_connection (H := tiny) w 5 = Ok (e, w1) /\
    handle_cqe (H := tiny) (H0 := linux) demo_room demo_fs false [] (0, 0) 3 (Some 3) 5 w1 = Undef NullDeref.
Proof.
  intros w. eexists _, _. split; [vm_compute; reflexivity|].
  eapply (failed_prepare_poisons_slot (H := tiny) (H0 := linux) demo_room demo_fs false [] (0, 0) 3 5 (-1) w).
  - vm_compute. reflexivity.
  - lia.
  - vm_compute. reflexivity.
  - vm_compute. discriminate.
  - vm_compute. reflexivity.
  - vm_compute. reflexivity.
  - reflexivity.
  - lia.
Defined.
