(* ===== verification/Spec.v ===== *)
(** * What the server promises a client

    The pure specification of one connection: [decide_response] maps a received
    text, through [ref_parse], the route table, the pure answers of the handlers
    and the file system, to a response; [render] gives the bytes sent from memory
    and [response_ops] the operations queued, in either build.

    [Handles] is the interface to the handlers of dynamic routes: the handler is
    code, its answer a function on parsed requests. *)

From S2P Require Import Prelude CMem Strbuf Kv Http HttpParser HttpParserSafe HttpParserRef HttpRoundTrip HttpResponse Coro IoUring IoLoop.
Open Scope Z_scope.

(** ** Specification *)

Record reply := Reply { r_status : Z; r_headers : list (bytes * bytes); r_body : bytes }.

(** What a handler answers to a request. *)
Inductive answer := Page (r : reply) | NotFound | Failure.

(** What stands behind a route: a handler with its answers, or a file. *)
Inductive page := Dynamic (ans : parsed -> answer) | Static (name : bytes).

(** A response: one of the canned ones, a composed page, or the header of a file
    whose [size] bytes follow from the descriptor [fd]. *)
Inductive decision :=
| Canned (text : bytes)
| Composed (proto : bytes) (r : reply)
| Spliced (proto mime : bytes) (fd size : Z).

(** A parsed request as the lists of 20 pairs hold it. *)
Definition seen (r : parsed) : parsed :=
  Parsed (p_method r) (p_path r) (take 20 (p_query r)) (p_protocol r) (p_header_text r) (take 20 (p_headers r)).

Definition routes : Type := list (router handler_fn * page).

(** The first route with the method and the path. *)
Fixpoint choose (rs : routes) (p : bytes) (m : Z) : option (router handler_fn * page) :=
  match rs with
  | [] => None
  | (rt, a) :: rs => if bool_decide (accepts rt p m) then Some (rt, a) else choose rs p m
  end.

(** The answer of a handler to a client whose protocol is [proto]. *)
Definition decision_of (proto : bytes) (a : answer) : decision :=
  match a with
  | Page rep => Composed proto rep
  | NotFound => Canned RESPONSE_404
  | Failure => Canned RESPONSE_500
  end.

(** The file called [name], as the file system has it when the request arrives. *)
Definition decide_file (fs : file_system) (proto name : bytes) : decision :=
  let fd := sys_open fs name in
  if fd <? 0 then Canned RESPONSE_404
  else if (sys_fstat fs fd).1 <? 0 then Canned RESPONSE_500
  else
    match magic_descriptor fs fd with
    | Lit mime _ => Spliced proto mime fd (sys_fstat fs fd).2
    | _ => Canned RESPONSE_500
    end.

Definition decide_page (fs : file_system) (r : parsed) (p : page) : decision :=
  match p with
  | Dynamic a => decision_of (p_protocol r) (a (seen r))
  | Static name => decide_file fs (p_protocol r) name
  end.

Definition decide_response (fs : file_system) (rs : routes) (text : bytes) : decision :=
  match ref_parse text with
  | None => Canned RESPONSE_400
  | Some r =>
      match choose rs (p_path r) (p_method r) with
      | None => Canned RESPONSE_404
      | Some (_, p) => decide_page fs r p
      end
  end.

(** 200 when the handler set no status. *)
Definition shown_status (r : reply) : Z := if negb (r_status r =? 0) then r_status r else 200.

Definition head (proto : bytes) (r : reply) : bytes :=
  status_line proto (shown_status r) ++ header_text (r_headers r) ++
  length_line (Z.of_nat (length (r_body r))) ++ [LF].

(** The header of a file. *)
Definition mime_header (mime : bytes) : list (bytes * bytes) := [(bytes_of_string "Content-Type", mime)].
Definition file_head (proto mime : bytes) (size : Z) : bytes :=
  status_line proto 200 ++ header_text (mime_header mime) ++ length_line size ++ [LF].

(** The bytes that are sent from memory. *)
Definition render (d : decision) : bytes :=
  match d with
  | Canned text => text
  | Composed proto r => head proto r ++ r_body r
  | Spliced proto mime _ size => file_head proto mime size
  end.

(** The sizes at which the server's buffers hold a response: the body in the
    response string of capacity [rcap], every line in the buffer on the stack, and
    the whole in the string that is sent, of capacity [fcap]. *)
Definition fits (rcap fcap : Z) (d : decision) : Prop :=
  match d with
  | Canned _ => True
  | Composed proto r =>
      INT_MIN <= r_status r <= INT_MAX /\ Z.of_nat (length (r_body r)) < rcap /\
      (length (status_line proto (shown_status r)) < 1024)%nat /\
      Forall (fun kv => (length (header_line kv.1 kv.2) < 1024)%nat) (r_headers r) /\
      Z.of_nat (length (head proto r ++ r_body r)) < fcap
  | Spliced proto mime _ size =>
      (length (status_line proto 200) < 1024)%nat /\
      Forall (fun kv => (length (header_line kv.1 kv.2) < 1024)%nat) (mime_header mime) /\
      Z.of_nat (length (file_head proto mime size)) < fcap
  end.

(** The kernel, libmagic and the file system as the watching build needs them:
    standard input is open, sizes are not negative, and a MIME type is a string. *)
Record files_ok (fs : file_system) : Prop := Files_ok {
  files_open : forall name, sys_open fs name <> 0;
  files_size : forall fd, 0 <= (sys_fstat fs fd).2 < 2 ^ 63;
  files_mime : forall fd, magic_descriptor fs fd = NULL \/ exists s, magic_descriptor fs fd = Lit s 0 /\ 0 ∉ s
}.

(** ** The operations of a response

    In the release build one send.  In the build that watches its files a response
    that is not canned has its header sent and then two splices, from the file to
    the server's pipe and from the pipe to the client; after a dynamic page they
    splice nothing. *)

(** The bytes an operation sends, and to which descriptor, at the time it is
    queued. *)
Definition payload (m : gmap block bytes) (e : sqe) : result (Z * bytes) :=
  match op e with
  | Send fd (Local bs) n _ => Ok (fd, take (Z.to_nat n) bs)
  | Send fd (Buf p) n _ =>
      '(bs, o) ← object m p;
      s ← suffix bs o;
      Ok (fd, take (Z.to_nat n) s)
  | _ => Undef OutOfBounds
  end.

Section ops.
Context `{Abi}.
Variable watch : bool.
Variable pipefds : Z * Z.

Definition splice_ops (fd i file_fd size : Z) : list sqe :=
  [Sqe (Splice file_fd 0 pipefds.2 (-1) (u32 size) SPLICE_F_NONBLOCK) (Some i) IOSQE_IO_LINK;
   Sqe (Splice pipefds.1 (-1) fd (-1) (u32 size) SPLICE_F_NONBLOCK) (Some i) 0].

(** What follows the header, on the client's descriptor [fd]. *)
Definition file_ops (fd i : Z) (d : decision) : list sqe :=
  match d with
  | Canned _ => []
  | Composed _ _ => if watch then splice_ops fd i 0 0 else []
  | Spliced _ _ file_fd size => if watch then splice_ops fd i file_fd size else []
  end.

(** Where the bytes of a header are: a canned response in an array of the handler,
    any other in the block [k] of the connection's response string. *)
Definition header_buf (k : block) (d : decision) : sqe_buf :=
  match d with Canned text => Local text | _ => Buf (Ptr k 0) end.

(** The header of connection [i], [n] bytes at [b]; more data follows if splices do. *)
Definition head_op (fd i : Z) (b : sqe_buf) (n : Z) (d : decision) : sqe :=
  match file_ops fd i d with
  | [] => Sqe (Send fd b n 0) (Some i) 0
  | _ => Sqe (Send fd b n MSG_MORE) (Some i) IOSQE_IO_LINK
  end.

Definition response_ops (fd i : Z) (b : sqe_buf) (n : Z) (d : decision) : list sqe :=
  head_op fd i b n d :: file_ops fd i d.

(** The connection once they are queued. *)
Definition sent {T} (fd i : Z) (d : decision) (c : server_connection T) : server_connection T :=
  set_steps (set_action c (match file_ops fd i d with [] => IO_URING_OP_SEND | _ => IO_URING_OP_SPLICE end))
    (cur_steps c) (total_steps c + Z.of_nat (S (length (file_ops fd i d)))).
End ops.

(** ** The interface to handlers *)

(** The request reads as [v]. *)
Definition sees (m : gmap block bytes) (q : http_request) (v : parsed) : Prop :=
  method q = p_method v /\ load_cstr m (path q) = Ok (p_path v) /\
  pair_strings m (query q) = Ok <$> p_query v /\
  load_cstr m (protocol q) = Ok (p_protocol v) /\
  pair_strings m (req_headers q) = Ok <$> p_headers v.

(** A list over an array of the handler's. *)
Definition sound (k : kv) : Prop := (exists l, holds k l) /\ provided k /\ kv_capacity k = 20.

Definition fresh_response (r : http_response) : Prop :=
  status r = 0 /\ file r = NULL /\ file_fd r = 0 /\ file_sz r = 0 /\
  holds (res_headers r) [] /\ sound (res_headers r).

(** A header whose name and value are literals of the program. *)
Definition literal_pair (p : kv_pair) (kv : bytes * bytes) : Prop :=
  key p = Lit kv.1 0 /\ value p = Lit kv.2 0 /\ (0 ∉ kv.1) /\ (0 ∉ kv.2).

(** [f] implements [ans]: given a readable request (readable as long as only the
    response string changes) and an empty response, it leaves the request alone,
    changes no live memory but the response string, and returns what [ans] says. *)
Class Handles (f : handler_fn) (ans : parsed -> answer) : Prop :=
  handles q res h rs rb v :
    (forall m', keeps (mem h) m' rb -> sees m' q v) -> fresh_response res -> str res = Some rs ->
    repr h rs rb [] -> len rs = 0 ->
    (forall r, ans v = Page r -> Z.of_nat (length (r_body r)) < capacity rs) ->
    exists e res' h' rs' txt,
      f q res h = Ok (e, q, res', h') /\
      str res' = Some rs' /\ capacity rs' = capacity rs /\ repr h' rs' rb txt /\ sound (res_headers res') /\
      keeps (mem h) (mem h') rb /\ (oom h = [] -> oom h' = []) /\
      match ans v with
      | Page r =>
          e = HANDLER_ERR_SUCCESS /\ txt = r_body r /\ len rs' = Z.of_nat (length txt) /\
          status res' = r_status r /\ file res' = NULL /\ file_fd res' = 0 /\ file_sz res' = 0 /\
          exists l, holds (res_headers res') l /\ Forall2 literal_pair l (r_headers r)
      | NotFound => e = HANDLER_ERR_FILE_NOT_FOUND
      | Failure => e = HANDLER_ERR_GENERAL
      end.

(** The lists of the handler when it starts. *)
Lemma fresh_kv : holds (KV_INIT_WITH_BUF (replicate 20 None) 20) [] /\ sound (KV_INIT_WITH_BUF (replicate 20 None) 20).
Proof.
  assert (holds (KV_INIT_WITH_BUF (replicate 20 None) 20) []) by by apply holds_init_with_buf.
  split; [done|]. split; [by eexists|done].
Qed.
