(* ===== verification/Routes.v ===== *)
(** * The routes the repository defines

    The dynamic routes of tests/socket.c and the one of lib/http_parser.c, with
    their handlers.  Those that only look at the request implement the interface
    [Handles]; the counting one keeps state. *)

From S2P Require Import Prelude CMem Strbuf Kv Http HttpParser HttpParserRef HttpRoundTrip HttpResponse IoLoop Spec.
Open Scope Z_scope.

(** Setting a header while the list has room. *)
Lemma SET_RES_HEADER_room r l k v h :
  holds (res_headers r) l -> provided (res_headers r) -> kv_capacity (res_headers r) = 20 -> (length l < 20)%nat ->
  exists kv, SET_RES_HEADER r k v h = Ok (set_res_headers r kv, h) /\
    holds kv (l ++ [Kv_pair k v]) /\ provided kv /\ kv_capacity kv = 20.
Proof.
  intros Hl Hp Hc Hlen. destruct (kv_set_ignored_provided (res_headers r) l k v h Hl Hp) as (kv & E & Hl' & Hf & Hc').
  exists kv. unfold SET_RES_HEADER. rewrite E, bind_ok. split; [done|]. rewrite Hc in Hl'.
  rewrite take_ge in Hl' by (rewrite length_app; simpl; lia). split; [done|].
  split; [|congruence]. unfold provided in *. by rewrite Hf.
Qed.

(** ** [ROUTER(GET, /simple/y)] of tests/socket.c *)

Definition simple_y `{Platform} : handler_fn := fun request response h =>
  let content := lit "Something interesting y..."%string in
  n ← strlen (mem h) content;
  '(_, s, h) ← string_append (str response) content n h;                       (* APPEND_RES_BODY *)
  let response := Response (status response) (file response) (file_fd response) (file_sz response) s (res_headers response) in
  '(response, h) ← SET_RES_MIME response (lit "text/plain"%string) h;
  '(response, h) ← SET_RES_HEADER response (lit "Header1"%string) (lit "Value1"%string) h;
  '(response, h) ← SET_RES_HEADER response (lit "Header2"%string) (lit "Value2"%string) h;
  '(response, h) ← SET_RES_HEADER response (lit "Header3"%string) (lit "Value3"%string) h;
  Ok (0, request, set_status response 200, h).

Definition simple_y_reply : reply :=
  Reply 200
    ((fun kv => (bytes_of_string kv.1, bytes_of_string kv.2)) <$>
       [("Content-Type", "text/plain"); ("Header1", "Value1"); ("Header2", "Value2"); ("Header3", "Value3")]%string)
    (bytes_of_string "Something interesting y...").

#[export] Instance simple_y_handles `{Platform} : Handles simple_y (fun _ => Page simple_y_reply).
Proof.
  intros q r h rs rb v _ Hfresh Hs Hrs Hlen Hfit. specialize (Hfit _ eq_refl). pose proof Hfresh as (Hst & Hfile & Hfd & Hsz & Hl0 & _ & Hp0 & Hc0).
  unfold simple_y. assert (Hn : strlen (mem h) (lit "Something interesting y...") = Ok 26) by reflexivity.
  rewrite Hn, bind_ok, Hs.
  destruct (string_append_fits h rs rb [] (lit "Something interesting y...") 26 (r_body simple_y_reply) Hrs)
    as (rs' & h' & E & Hr' & Hl' & Hc' & Hk & Ho).
  { lia. }
  { exists (bytes_of_string "Something interesting y..." ++ [0]), 0%nat. split; [reflexivity|]. split; [simpl; lia|reflexivity]. }
  { change (Z.of_nat (length (r_body simple_y_reply))) with 26 in Hfit. lia. }
  rewrite E, bind_ok. unfold SET_RES_MIME. set (r0 := Response _ _ _ _ _ _).
  destruct (SET_RES_HEADER_room r0 [] (lit "Content-Type") (lit "text/plain") h') as (k1 & -> & H1 & P1 & C1); [done..|simpl; lia|].
  rewrite bind_ok. set (r1 := set_res_headers r0 k1).
  destruct (SET_RES_HEADER_room r1 _ (lit "Header1") (lit "Value1") h' H1) as (k2 & -> & H2 & P2 & C2); [done..|simpl; lia|].
  rewrite bind_ok. set (r2 := set_res_headers r1 k2).
  destruct (SET_RES_HEADER_room r2 _ (lit "Header2") (lit "Value2") h' H2) as (k3 & -> & H3 & P3 & C3); [done..|simpl; lia|].
  rewrite bind_ok. set (r3 := set_res_headers r2 k3).
  destruct (SET_RES_HEADER_room r3 _ (lit "Header3") (lit "Value3") h' H3) as (k4 & -> & H4 & P4 & C4); [done..|simpl; lia|].
  rewrite bind_ok. eexists 0, _, h', rs', _. split; [reflexivity|]. split; [done|]. split; [done|]. split; [exact Hr'|].
  split; [split; [by eexists|done]|]. split; [done|]. split; [by rewrite Ho|]. split; [done|]. split; [done|].
  split; [rewrite Hl', Hlen; reflexivity|].
  split; [done|]. split; [done|]. split; [done|]. split; [done|]. eexists. split; [exact H4|].
  repeat constructor; try reflexivity; by notin.
Qed.

(** ** [ROUTER(GET, thisisateapot)] of lib/http_parser.c

    Its path has no slash; it answers an empty page. *)

Definition thisisateapot : handler_fn := fun request response h => Ok (0, request, response, h).

#[export] Instance thisisateapot_handles `{Platform} : Handles thisisateapot (fun _ => Page (Reply 0 [] [])).
Proof.
  intros q r h rs rb v _ Hfresh Hs Hrs Hlen _. pose proof Hfresh as (Hst & Hfile & Hfd & Hsz & Hl & Hsound).
  exists 0, r, h, rs, []. split_and!; try done; [by intros b bs|]. exists []. by split; [|constructor].
Qed.

(** ** [ROUTER(GET, /fib)] of tests/socket.c

    It keeps two [static long] variables, so it is not a function of the request as
    [Handles] asks; here it takes them and returns them.  Each request answers the
    next Fibonacci number; the 92nd adds past the largest [long]. *)

Definition LONG_MAX : Z := 2 ^ 63 - 1.
Definition LONG_MIN : Z := - 2 ^ 63.

(** [a + b] at type [long] *)
Definition long_add (a b : Z) : result Z :=
  if (LONG_MIN <=? a + b) && (a + b <=? LONG_MAX) then Ok (a + b) else Undef IntOverflow.

(** The result has the new values of the static [a] and [b]. *)
Definition fib `{Platform} (statics : Z * Z) (request : http_request) (response : http_response) (h : heap)
    : result (Z * http_request * http_response * heap * (Z * Z)) :=
  let '(a, b) := statics in
  let k := fresh (dom (mem h)) in                                              (* char content[100] *)
  let content := Ptr k 0 in
  let h := Heap (<[k := replicate 100 0]> (mem h)) (oom h) in
  res ← long_add a b;
  h ← sprintf content (decimal res ++ [LF]) h;
  n ← strlen (mem h) content;
  '(_, s, h) ← string_append (str response) content n h;                       (* APPEND_RES_BODY *)
  let response := Response (status response) (file response) (file_fd response) (file_sz response) s (res_headers response) in
  '(response, h) ← SET_RES_MIME response (lit "text/plain"%string) h;
  Ok (0, request, set_status response 200, Heap (delete k (mem h)) (oom h), (b, res)).

(** The static variables after [k] requests, whatever the requests were. *)
Inductive served `{Platform} : nat -> Z * Z -> Prop :=
| served_none : served 0 (0, 1)
| served_one k ab q r h e q' r' h' ab' :
    served k ab -> fib ab q r h = Ok (e, q', r', h', ab') -> served (S k) ab'.

(** ** Fibonacci numbers *)

Definition fibonacci_pair (n : nat) : Z * Z := Nat.iter n (fun '(a, b) => (b, a + b)) (0, 1).
Definition fibonacci (n : nat) : Z := (fibonacci_pair n).1.

Example fibonacci_small : fibonacci <$> seq 0 10 = [0; 1; 1; 2; 3; 5; 8; 13; 21; 34].
Proof. reflexivity. Qed.

Lemma fibonacci_pair_next n : fibonacci_pair (S n) = let '(a, b) := fibonacci_pair n in (b, a + b).
Proof. reflexivity. Qed.

Lemma fibonacci_pair_eq n : fibonacci_pair n = (fibonacci n, fibonacci (S n)).
Proof. unfold fibonacci. rewrite fibonacci_pair_next. by destruct (fibonacci_pair n). Qed.

Lemma fibonacci_next n : fibonacci n + fibonacci (S n) = fibonacci (S (S n)).
Proof. unfold fibonacci. rewrite !fibonacci_pair_next. by destruct (fibonacci_pair n). Qed.

(** The 92nd Fibonacci number is the last one that is a [long]. *)
Lemma fibonacci_fits k : (k <= 92)%nat -> 0 <= fibonacci k <= LONG_MAX.
Proof.
  intros Hk. assert (Hall : Forall (fun k => 0 <= fibonacci k <= LONG_MAX) (seq 0 93)).
  { apply (bool_decide_unpack _). by vm_compute. }
  rewrite Forall_forall in Hall. apply Hall, elem_of_seq. lia.
Qed.

Lemma fibonacci_overflows : LONG_MAX < fibonacci 93.
Proof. by vm_compute. Qed.

Lemma long_add_next k : (k <= 90)%nat -> long_add (fibonacci k) (fibonacci (S k)) = Ok (fibonacci (S (S k))).
Proof.
  intros Hk. pose proof (fibonacci_fits (S (S k)) ltac:(lia)) as [H1 H2]. unfold long_add. rewrite fibonacci_next.
  destruct (Z.leb_spec LONG_MIN (fibonacci (S (S k)))); [|unfold LONG_MIN in *; lia].
  by destruct (Z.leb_spec (fibonacci (S (S k))) LONG_MAX); [|lia].
Qed.

Lemma long_add_overflow : long_add (fibonacci 91) (fibonacci 92) = Undef IntOverflow.
Proof. by vm_compute. Qed.

Section fib.
Context `{Platform}.

Lemma fib_overflows q r h : fib (fibonacci_pair 91) q r h = Undef IntOverflow.
Proof. rewrite fibonacci_pair_eq. unfold fib. by rewrite long_add_overflow. Qed.

(** Every request moves the static variables one step, and none is served after the
    91st. *)
Lemma served_fibonacci k ab : served k ab -> ab = fibonacci_pair k /\ (k <= 91)%nat.
Proof.
  induction 1 as [|k ab q r h e q' r' h' ab' _ [-> Hk] E]; [split; [done|lia]|].
  destruct (decide (k = 91)%nat) as [->|Hne]; [by rewrite fib_overflows in E|]. split; [|lia].
  rewrite !fibonacci_pair_eq in *. unfold fib in E. rewrite long_add_next, bind_ok in E by lia.
  apply bind_Ok_inv in E as (h1 & _ & E). apply bind_Ok_inv in E as (n & _ & E).
  apply bind_Ok_inv in E as ([ [? s] h2] & _ & E). apply bind_Ok_inv in E as ([r1 h3] & _ & E).
  by injection E as _ _ _ _ <-.
Qed.

(** Formatting a number in the array on the stack, and appending it. *)
Lemma number_appended h k rs rb z :
  mem h !! k = Some (replicate 100 0) -> k <> rb -> - 2 ^ 63 <= z < 2 ^ 63 ->
  repr h rs rb [] -> len rs = 0 -> 21 < capacity rs ->
  exists h1 rs' h',
    sprintf (Ptr k 0) (decimal z ++ [LF]) h = Ok h1 /\
    strlen (mem h1) (Ptr k 0) = Ok (Z.of_nat (length (decimal z ++ [LF]))) /\
    string_append (Some rs) (Ptr k 0) (Z.of_nat (length (decimal z ++ [LF]))) h1 = Ok (true, Some rs', h') /\
    repr h' rs' rb (decimal z ++ [LF]) /\ len rs' = Z.of_nat (length (decimal z ++ [LF])) /\
    (forall b bs, b <> k -> b <> rb -> mem h !! b = Some bs -> mem h' !! b = Some bs).
Proof.
  intros Hk Hne Hz Hrs Hlen Hcap. destruct (decimal_ok z Hz) as [Hl H0]. set (t := decimal z ++ [LF]).
  assert (Ht : (length t <= 21)%nat) by (unfold t; rewrite length_app; simpl; lia).
  assert (Ht0 : 0 ∉ t) by (assert (0 ∉ [LF]) by (apply (bool_decide_unpack _); reflexivity); unfold t; set_solver).
  unfold sprintf, store_bytes. rewrite Hk, (blit_ok _ 0) by (rewrite length_app, length_replicate; simpl; lia).
  rewrite !bind_ok. set (new := _ ++ _ ++ _).
  assert (Hnew : new = t ++ 0 :: drop (length t + 1) (replicate 100 0)).
  { unfold new. rewrite take_0, length_app. simpl. by rewrite <- app_assoc. }
  set (h1 := Heap _ _). assert (Hb1 : mem h1 !! k = Some (t ++ 0 :: drop (length t + 1) (replicate 100 0))).
  { rewrite <- Hnew. apply lookup_insert_eq. }
  assert (Hrs1 : repr h1 rs rb []).
  { destruct Hrs as (Hbuf & (r & Hm & Hr) & Hrs). split; [done|]. split; [|done]. exists r. split; [|done].
    unfold h1. cbn [mem]. by rewrite lookup_insert_ne. }
  destruct (string_append_fits h1 rs rb [] (Ptr k 0) (Z.of_nat (length t)) t Hrs1) as (rs' & h' & E & Hr' & Hl' & _ & Hkeep & _).
  { lia. }
  { exists (t ++ 0 :: drop (length t + 1) (replicate 100 0)), 0%nat. unfold object. rewrite Hb1. split; [done|]. split; [lia|].
    rewrite Nat2Z.id. by apply take_cstr_full. }
  { lia. }
  exists h1, rs', h'. split; [done|]. split; [by unfold strlen; rewrite (load_cstr_block0 _ _ _ _ Hb1)|]. split; [exact E|].
  split; [exact Hr'|]. split; [lia|]. intros b bs Hbk Hbr Hb. apply Hkeep; [done|]. unfold h1. cbn [mem]. by rewrite lookup_insert_ne.
Qed.

(** One request, while the sum is a [long]. *)
Lemma fib_answers k q r h rs rb :
  (k <= 90)%nat -> fresh_response r -> str r = Some rs -> repr h rs rb [] -> len rs = 0 -> 21 < capacity rs ->
  exists r' h' rs', fib (fibonacci_pair k) q r h = Ok (0, q, r', h', fibonacci_pair (S k)) /\
    str r' = Some rs' /\ repr h' rs' rb (decimal (fibonacci (S (S k))) ++ [LF]) /\
    len rs' = Z.of_nat (length (decimal (fibonacci (S (S k))) ++ [LF])) /\ status r' = 200 /\
    holds (res_headers r') [Kv_pair (lit "Content-Type"%string) (lit "text/plain"%string)] /\
    keeps (mem h) (mem h') rb.
Proof.
  intros Hk (Hst & Hfile & Hfd & _ & Hl0 & _ & Hp0 & Hc0) Hs Hrs Hlen Hcap.
  pose proof (fibonacci_fits (S (S k)) ltac:(lia)) as Hz. unfold LONG_MAX in Hz.
  rewrite !fibonacci_pair_eq. unfold fib. rewrite long_add_next, bind_ok by lia.
  set (b := fresh (dom (mem h))). set (h0 := Heap (<[b := _]> _) _).
  assert (Hnew : mem h !! b = None) by apply not_elem_of_dom, is_fresh.
  pose proof Hrs as (Hbuf & (x & Hm & Hx) & Hrs'). assert (Hne : b <> rb) by congruence.
  assert (Hrs0 : repr h0 rs rb []).
  { split; [done|]. split; [|done]. exists x. split; [|done]. unfold h0. cbn [mem]. by rewrite lookup_insert_ne. }
  destruct (number_appended h0 b rs rb (fibonacci (S (S k))) ltac:(apply lookup_insert_eq) Hne ltac:(lia) Hrs0 Hlen Hcap)
    as (h1 & rs' & h' & E1 & E2 & E3 & Hr' & Hl' & Hkeep).
  rewrite E1, bind_ok, E2, bind_ok, Hs, E3, bind_ok. unfold SET_RES_MIME. set (r0 := Response _ _ _ _ _ _).
  destruct (SET_RES_HEADER_room r0 [] (lit "Content-Type") (lit "text/plain") h') as (kv & E4 & H4 & _); [done..|simpl; lia|].
  rewrite E4, bind_ok. eexists _, _, rs'. split; [reflexivity|]. split; [done|]. split; [|split_and!; [done|done|exact H4|] ].
  - destruct Hr' as (Hb' & (y & Hm' & Hy) & Hr'). split; [done|]. split; [|done]. exists y. split; [|done].
    cbn [mem]. by rewrite lookup_delete_ne.
  - intros b' bs Hb' Hbs. cbn [mem]. assert (b' <> b) by congruence. rewrite lookup_delete_ne by done.
    apply Hkeep; [done..|]. unfold h0. cbn [mem]. by rewrite lookup_insert_ne.
Qed.
End fib.

(** ** Properties *)

(** C40.  The counting route.  After [k] requests, whatever they were, the next one on
    an empty response answers 200 and the Fibonacci number of index [k + 2] in
    decimal, as plain text, and changes no other live memory; but the 92nd adds two
    [long]s whose sum is none, which is undefined, so no more than 91 are ever
    served. *)
Theorem fib_until_overflow `{Platform} (k : nat) (ab : Z * Z) (q : http_request) (r : http_response) (h : heap)
    (rs : string_t) (rb : block) (Hk : served k ab) (Hr : fresh_response r) (Hs : str r = Some rs)
    (Hrs : repr h rs rb []) (Hlen : len rs = 0) (Hcap : 21 < capacity rs) :
  ((k <= 90)%nat /\ exists r' h' rs' ab', fib ab q r h = Ok (0, q, r', h', ab') /\
     str r' = Some rs' /\ repr h' rs' rb (decimal (fibonacci (k + 2)) ++ [LF]) /\
     len rs' = Z.of_nat (length (decimal (fibonacci (k + 2)) ++ [LF])) /\ status r' = 200 /\
     holds (res_headers r') [Kv_pair (lit "Content-Type"%string) (lit "text/plain"%string)] /\
     keeps (mem h) (mem h') rb) \/
  (k = 91%nat /\ fib ab q r h = Undef IntOverflow).
Proof.
  apply served_fibonacci in Hk as [-> Hk]. destruct (decide (k = 91)%nat) as [->|Hne]; [right; split; [done|apply fib_overflows]|].
  left. split; [lia|]. replace (k + 2)%nat with (S (S k)) by lia.
  destruct (fib_answers k q r h rs rb) as (r' & h' & rs' & E & P); [lia|done..|]. by exists r', h', rs', (fibonacci_pair (S k)).
Qed.

(** The second request answers 2. *)
Lemma fib_until_overflow_witness :
  let h := Heap {[1%positive := replicate 64 0]} [] in
  let res := Response 0 NULL 0 0 (Some (String_t 64 0 (Ptr 1 0))) (KV_INIT_WITH_BUF (replicate 20 None) 20) in
  exists r' h' rs' ab', fib (H := x86) (1, 1) empty_request res h = Ok (0, empty_request, r', h', ab') /\
    str r' = Some rs' /\ repr h' rs' 1 (bytes_of_string "2" ++ [LF]).
Proof.
  intros h res. assert (Hfirst : exists r' h', fib (H := x86) (0, 1) empty_request res h = Ok (0, empty_request, r', h', (1, 1))).
  { eexists _, _. reflexivity. }
  destruct Hfirst as (r1 & h1 & E). destruct fresh_kv as [Hk1 Hk2].
  destruct (fib_until_overflow (H := x86) 1 (1, 1) empty_request res h (String_t 64 0 (Ptr 1 0)) 1)
    as [(_ & r' & h' & rs' & ab' & E' & Hs & R & _)|[? _] ].
  - eapply served_one; [apply served_none|exact E].
  - by split_and!.
  - done.
  - split; [reflexivity|]. split; [|split; [apply not_elem_of_nil|simpl; lia] ]. exists (replicate 63 0). by split.
  - done.
  - done.
  - exists r', h', rs', ab'. by split_and!.
  - done.
Defined.
