(* ===== verification/Serve.v ===== *)
(** * A request through the server

    The coroutine of a connection implements [Spec], in both builds: from a slot
    that is [ready], the turn for a received request queues the operations of the
    response that [decide_response] gives, with its bytes in memory; the turns for
    their completions count them, and the last one closes the descriptor and makes
    the slot ready again. *)

From S2P Require Import Prelude CMem Strbuf Kv Http HttpParser HttpParserSafe HttpParserRef HttpRoundTrip HttpResponse Coro IoUring IoLoop IoLoopInv Spec Routes.
Open Scope Z_scope.

(** ** A connection's memory *)

(** The buffer of [s] is the block [b], of the capacity recorded. *)
Definition alive (h : heap) (s : string_t) (b : block) : Prop :=
  buf s = Ptr b 0 /\ 0 < capacity s < 2 ^ 63 /\
  exists bs, mem h !! b = Some bs /\ Z.of_nat (length bs) = capacity s.

Definition zeroed (h : heap) (s : string_t) (b : block) : Prop :=
  buf s = Ptr b 0 /\ 0 < capacity s < 2 ^ 63 /\ len s = 0 /\
  mem h !! b = Some (replicate (Z.to_nat (capacity s)) 0).

(** The three strings of a connection: received text, response body, and what is
    sent; their blocks are given by [bl] and their capacities by [cap]. *)
Record strings := Strings { blk_in : block; blk_res : block; blk_out : block; cap_in : Z; cap_res : Z; cap_out : Z }.

Definition apart (x : strings) : Prop :=
  blk_in x <> blk_res x /\ blk_in x <> blk_out x /\ blk_res x <> blk_out x.

Definition footprint (x : strings) : list block := [blk_in x; blk_res x; blk_out x].

(** No live memory changes but the three buffers, and if no allocation was going
    to fail none is. *)
Definition confined (x : strings) (h h' : heap) : Prop :=
  (oom h = [] -> oom h' = []) /\
  forall b bs, b ∉ footprint x -> mem h !! b = Some bs -> mem h' !! b = Some bs.

(** Between a request and the end of its response. *)
Record busy (x : strings) (c : connection) (l : locals) (h : heap) : Prop := Busy {
  busy_apart : apart x;
  busy_in : exists s, conn_str c = Some s /\ capacity s = cap_in x /\ alive h s (blk_in x);
  busy_res : exists s, str (res l) = Some s /\ capacity s = cap_res x /\ alive h s (blk_res x);
  busy_out : exists s, fresstr l = Some s /\ capacity s = cap_out x /\ alive h s (blk_out x);
  busy_req : sound (query (req l)) /\ sound (req_headers (req l));
  busy_headers : sound (res_headers (res l))
}.

(** [text] has been received, at the start of a zeroed buffer. *)
Definition holding (h : heap) (s : string_t) (b : block) (text : bytes) : Prop :=
  buf s = Ptr b 0 /\ mem h !! b = Some (text ++ replicate (Z.to_nat (capacity s) - length text) 0).

(** At a request, or, with the empty text, waiting for one: everything else is
    empty. *)
Record ready (x : strings) (text : bytes) (c : connection) (l : locals) (h : heap) : Prop := Ready {
  ready_apart : apart x;
  ready_in : exists s, conn_str c = Some s /\ capacity s = cap_in x /\ holding h s (blk_in x) text;
  ready_res : exists s, str (res l) = Some s /\ capacity s = cap_res x /\ zeroed h s (blk_res x);
  ready_out : exists s, fresstr l = Some s /\ capacity s = cap_out x /\ zeroed h s (blk_out x);
  ready_req : fresh_request (req l) /\ sound (query (req l)) /\ sound (req_headers (req l));
  ready_response : fresh_response (res l);
  ready_steps : cur_steps c = 0 /\ total_steps c = 0
}.

(** The kernel puts [text] at the start of the receive buffer. *)
Definition arrives (x : strings) (text : bytes) (h : heap) : heap :=
  Heap (<[blk_in x := text ++ replicate (Z.to_nat (cap_in x) - length text) 0]> (mem h)) (oom h).

(** ** Lemmas on strings and lists *)

Lemma repr_alive h s b txt : repr h s b txt -> alive h s b.
Proof.
  intros (Hb & (r & Hm & Hc) & _ & Hl & Hx). split; [done|]. split; [lia|]. by eexists.
Qed.

Lemma zeroed_repr h s b : zeroed h s b -> repr h s b [].
Proof.
  intros (Hb & Hc & Hl & Hm). split; [done|]. split; [|split; [apply not_elem_of_nil|simpl; lia] ].
  exists (replicate (pred (Z.to_nat (capacity s))) 0). cbn [app].
  split; [|simpl; rewrite length_replicate; lia]. rewrite Hm.
  by replace (Z.to_nat (capacity s)) with (S (pred (Z.to_nat (capacity s)))) at 1 by lia.
Qed.

Lemma alive_frame h h' s b : mem h' !! b = mem h !! b -> alive h s b -> alive h' s b.
Proof. intros E (? & ? & bs & Hb & ?). split; [done|]. split; [done|]. exists bs. by rewrite E. Qed.

Lemma alive_keeps h h' s b b' : keeps (mem h) (mem h') b' -> b <> b' -> alive h s b -> alive h' s b.
Proof. intros K Hne (? & ? & bs & Hb & ?). split; [done|]. split; [done|]. exists bs. split; [by apply K|done]. Qed.

Lemma zeroed_frame h h' s b : mem h' !! b = mem h !! b -> zeroed h s b -> zeroed h' s b.
Proof. intros E (? & ? & ? & Hm). unfold zeroed. by rewrite E. Qed.

Lemma zeroed_keeps h h' s b b' : keeps (mem h) (mem h') b' -> b <> b' -> zeroed h s b -> zeroed h' s b.
Proof. intros K Hne (? & ? & ? & Hm). split; [done|]. split; [done|]. split; [done|]. by apply K. Qed.

(** Resetting a live string zeroes its block and nothing else. *)
Lemma string_reset_alive h s b :
  alive h s b -> exists h', string_reset (Some s) h = Ok (Some (String_t (capacity s) 0 (buf s)), h') /\
    zeroed h' (String_t (capacity s) 0 (buf s)) b /\ (forall b', b' <> b -> mem h' !! b' = mem h !! b') /\ oom h' = oom h.
Proof.
  intros (Hb & Hc & bs & Hm & Hl). unfold string_reset. rewrite Hb.
  rewrite (memset_block _ b bs 0 (capacity s) Hm), bind_ok by lia.
  eexists. split; [done|]. split.
  - split; [done|]. split; [done|]. split; [done|]. apply lookup_insert_eq.
  - split; [|done]. intros b' ?. by apply lookup_insert_ne.
Qed.

Lemma reset_kv_empty k : sound k -> holds (reset_kv k) [] /\ sound (reset_kv k) /\ provided (reset_kv k).
Proof.
  intros ((l & _ & _ & Hc & Hm) & Hp & H20).
  assert (Hh : holds (reset_kv k) []).
  { split; [done|]. split; [by eexists|]. split; [cbn; by rewrite length_replicate|done]. }
  split; [done|]. split; [|done]. split; [by eexists|done].
Qed.

#[export] Instance confined_preorder x : PreOrder (confined x).
Proof.
  split; [by split|]. intros h1 h2 h3 [O1 F1] [O2 F2]. split; [by intros ?%O1%O2|]. intros b bs Hb ?. by apply F2, F1.
Qed.

Lemma confined_keeps x h h' b : keeps (mem h) (mem h') b -> b ∈ footprint x -> (oom h = [] -> oom h' = []) -> confined x h h'.
Proof. intros K Hb O. split; [done|]. intros b' bs Hb' ?. apply K; [|done]. by intros ->. Qed.

Lemma confined_other x h h' b : (forall b', b' <> b -> mem h' !! b' = mem h !! b') -> b ∈ footprint x ->
  oom h' = oom h -> confined x h h'.
Proof. intros F Hb O. apply (confined_keeps _ _ _ b); [|done|by rewrite O]. intros b' bs ??. by rewrite F. Qed.

(** ** Routing *)

Lemma find_router_choose (rs : routes) m p path meth :
  Forall (fun x => exists s, literal_route x.1 s) rs -> load_cstr m p = Ok path ->
  find_router (fst <$> rs) m p meth = Ok (fst <$> choose rs path meth).
Proof.
  intros Hrs Hp. induction Hrs as [|[rt a] rs (s & Hs & H0) _ IH]; [done|]. cbn [fst] in Hs.
  assert (E : strcmp m p (rpath rt) = Ok (compare_bytes path s)).
  { unfold strcmp. by rewrite Hs, Hp, load_cstr_lit, !bind_ok. }
  cbn [fmap list_fmap find_router choose fst]. rewrite E, bind_ok. clear E. fold (fmap (M := list) fst rs) in *.
  destruct (Z.eqb_spec (Z.land meth (rmethod rt)) 0) as [E|E]; cbn [negb].
  { rewrite IH, bool_decide_false; [done|]. by intros [_ ?]. }
  destruct (Z.eqb_spec (compare_bytes path s) 0) as [C|C].
  - apply compare_bytes_eq in C as ->. by rewrite bool_decide_true.
  - rewrite IH, bool_decide_false; [done|]. intros [E' _]. apply C, compare_bytes_eq. congruence.
Qed.

Lemma choose_in rs p m rt a : choose rs p m = Some (rt, a) -> (rt, a) ∈ rs.
Proof.
  induction rs as [|[rt' a'] rs IH]; [done|]. cbn [choose]. case_bool_decide.
  - intros [= <- <-]. by left.
  - intros. right. by apply IH.
Qed.

(** ** The parser's result stays readable *)

Lemma pair_strings_stable m m' kv l :
  holds kv l -> Forall (fun p => load_cstr m' (key p) = load_cstr m (key p) /\ load_cstr m' (value p) = load_cstr m (value p)) l ->
  pair_strings m' kv = pair_strings m kv.
Proof.
  intros (Hs & (rest & Hp) & _) Hl. unfold pair_strings. rewrite Hs, Hp, Nat2Z.id.
  rewrite take_app_length' by (by rewrite length_fmap). clear Hs Hp.
  induction Hl as [|p l [Hk Hv] _ IH]; [done|]. cbn [fmap list_fmap of_option]. rewrite !bind_ok, Hk, Hv. f_equal.
  apply IH.
Qed.

Lemma in_buf_stable b n p m m' : in_buf b n p -> m' !! b = m !! b -> load_cstr m' p = load_cstr m p.
Proof. intros (o & -> & _) E. unfold load_cstr, object. by rewrite E. Qed.

(** What the parser stored reads the same while its buffer is not changed. *)
Lemma sees_stable b n m m' q v :
  req_ok b n q -> in_buf b n (path q) -> in_buf b n (protocol q) -> m' !! b = m !! b ->
  sees m q v -> sees m' q v.
Proof.
  intros (_ & _ & (lq & Hq & _ & Fq) & (lh & Hh & _ & Fh)) Hp Hr E (S1 & S2 & S3 & S4 & S5).
  assert (HF : forall l, Forall (fun p => in_buf b n (key p) /\ in_buf b n (value p)) l ->
    Forall (fun p => load_cstr m' (key p) = load_cstr m (key p) /\ load_cstr m' (value p) = load_cstr m (value p)) l).
  { intros l Hl. eapply Forall_impl; [exact Hl|]. intros x [Hk Hv]. split; by eapply in_buf_stable. }
  split; [done|]. split; [by rewrite (in_buf_stable b n _ m m')|].
  split; [by rewrite (pair_strings_stable m m' _ lq Hq (HF _ Fq))|].
  split; [by rewrite (in_buf_stable b n _ m m')|].
  by rewrite (pair_strings_stable m m' _ lh Hh (HF _ Fh)).
Qed.

(** The parser keeps the kind and the capacity of its lists. *)
Definition same_array (k k' : kv) : Prop := flag k' = flag k /\ kv_capacity k' = kv_capacity k.
Definition same_arrays (q q' : http_request) : Prop :=
  provided (query q) -> provided (req_headers q) ->
  same_array (query q) (query q') /\ same_array (req_headers q) (req_headers q').

Lemma same_arrays_refl q : same_arrays q q.
Proof. by intros _ _. Qed.

Lemma same_arrays_trans q1 q2 q3 : same_arrays q1 q2 -> same_arrays q2 q3 -> same_arrays q1 q3.
Proof.
  unfold same_arrays, same_array, provided. intros H1 H2 Hq Hh. destruct (H1 Hq Hh) as [ [E1 E2] [E3 E4] ].
  destruct H2 as [ [? ?] [? ?] ]; [congruence..|]. split; split; congruence.
Qed.

(** Follows a run of the parser to each of its ends. *)
Ltac follow :=
  repeat first
    [ match goal with
      | H : (if ?c then _ else _) = Ok _ |- _ => destruct c
      | H : match ?o with Some _ => _ | None => _ end = Ok _ |- _ => destruct o
      | H : (_ ≫= _) = Ok _ |- _ =>
          let a := fresh "r" in let E := fresh "E" in apply bind_Ok_inv in H as (a & E & H)
      | x : (_ * _)%type |- _ => destruct x
      | H : of_option _ (Some _) = Ok _ |- _ => cbn [of_option] in H
      end
    | progress simplify_eq ].

Lemma same_arrays_set_path q q' p : same_arrays q q' -> same_arrays q (set_path q' p).
Proof. done. Qed.
Lemma same_arrays_set_protocol q q' p : same_arrays q q' -> same_arrays q (set_protocol q' p).
Proof. done. Qed.
Lemma same_arrays_set_method q q' x : same_arrays q q' -> same_arrays q (set_method q' x).
Proof. done. Qed.

Lemma kv_set_ignored_array kv k v h kv' h' :
  kv_set_ignored kv k v h = Ok (kv', h') -> provided kv -> same_array kv kv'.
Proof.
  unfold kv_set_ignored, kv_set_key_value, UNLIKELY, provided, same_array. intros E Hp. rewrite Hp in E. cbn [Z.eqb negb] in E.
  destruct (size kv =? kv_capacity kv); rewrite bind_ok in E; cbn [negb] in E.
  - rewrite bind_ok in E. by injection E as <- _.
  - by follow.
Qed.

Lemma parse_query_arrays b fuel q h o e q' h' : parse_query b fuel q h o e = Ok (q', h') -> same_arrays q q'.
Proof.
  revert q h o. induction fuel as [|fuel IH]; intros q h o E; cbn [parse_query] in E; follow;
    try apply same_arrays_refl; try (intros Hq Hh; split; [by eapply kv_set_ignored_array|done]).
  eapply same_arrays_trans; [|by eapply IH]. intros Hq Hh. split; [by eapply kv_set_ignored_array|done].
Qed.

Lemma parse_header_lines_arrays b fuel q h o e q' h' o' :
  parse_header_lines b fuel q h o e = Ok (q', h', o') -> same_arrays q q'.
Proof.
  revert q h o. induction fuel as [|fuel IH]; intros q h o E; cbn [parse_header_lines] in E; follow;
    try apply same_arrays_refl; eapply same_arrays_trans; try (by eapply IH); try apply same_arrays_refl.
  intros Hq Hh. split; [done|by eapply kv_set_ignored_array].
Qed.

Lemma http_parse_path_arrays b q h o n r q' h' o' :
  http_parse_path b q h o n = Ok (r, q', h', o') -> same_arrays q q'.
Proof.
  unfold http_parse_path. intros E. follow;
    eauto using same_arrays_set_path, same_arrays_refl, parse_query_arrays.
Qed.

Lemma http_parse_protocol_arrays b q h o n r q' h' o' :
  http_parse_protocol b q h o n = Ok (r, q', h', o') -> same_arrays q q'.
Proof. unfold http_parse_protocol. intros E. follow; eauto using same_arrays_set_protocol, same_arrays_refl. Qed.

Lemma http_parse_method_arrays b q h o n r q' o' :
  http_parse_method b q h o n = Ok (r, q', o') -> same_arrays q q'.
Proof. unfold http_parse_method. intros E. follow; eauto using same_arrays_set_method, same_arrays_refl. Qed.

Lemma http_parse_request_arrays b q h n ret q' h' :
  http_parse_request b q h n = Ok (ret, q', h') -> same_arrays q q'.
Proof.
  unfold http_parse_request, http_parse_headers. intros E. follow;
    eauto 9 using http_parse_method_arrays, http_parse_path_arrays, http_parse_protocol_arrays,
      parse_header_lines_arrays, same_arrays_trans.
Qed.

(** The parser on a received text, with what both of its theorems' lemmas say. *)
Lemma parse_arrived x text q h :
  mem h !! blk_in x = Some (text ++ replicate (Z.to_nat (cap_in x) - length text) 0) ->
  (0 < length text)%nat -> Z.of_nat (length text) < cap_in x -> 64 <= cap_in x <= 2 ^ 31 ->
  Forall (fun c => 0 < c < 256) text ->
  (forall r, ref_parse text = Some r -> headers_valued (length (p_header_text r)) (p_header_text r)) ->
  fresh_request q -> sound (query q) -> sound (req_headers q) ->
  exists q' h',
    http_parse_request (blk_in x) q h (Z.of_nat (length text)) =
      Ok (match ref_parse text with Some _ => 1 | None => 0 end, q', h') /\ oom h' = oom h /\
    (forall b, b <> blk_in x -> mem h' !! b = mem h !! b) /\
    (exists bs, mem h' !! blk_in x = Some bs /\ Z.of_nat (length bs) = cap_in x) /\
    sound (query q') /\ sound (req_headers q') /\
    match ref_parse text with
    | Some r =>
        forall m', m' !! blk_in x = mem h' !! blk_in x -> sees m' q' (seen r)
    | None => True
    end.
Proof.
  intros Hb0 Hpos Hlen Hcap Htext Hv Hfresh Hsq Hsh.
  set (k := pred (Z.to_nat (cap_in x) - length text)).
  assert (Hk : (Z.to_nat (cap_in x) - length text)%nat = S k) by lia.
  assert (Hb : mem h !! blk_in x = Some (text ++ 0 :: replicate k 0)).
  { by rewrite Hb0, Hk. }
  destruct (http_parse_request_computes (blk_in x) text k h q Hb) as (q' & h' & E & F & R);
    [lia|unfold INT_MAX; lia|done|done|done|].
  destruct (http_parse_request_run (blk_in x) (Z.of_nat (length text)) (cap_in x) ltac:(lia) q h)
    as (ret & q2 & h2 & E2 & ((bs & Hbs & Hlbs & _) & (Ho & _) & Hr) & Hret); [lia|lia| | |apply Hfresh|apply Hfresh|].
  { eexists. split; [exact Hb|]. split; [rewrite length_app; cbn [length]; rewrite length_replicate; lia|].
    intros i Hi. rewrite lookup_app_r by lia. destruct (i - length text)%nat as [|j] eqn:Ej; [done|].
    apply lookup_replicate. split; [done|]. lia. }
  { destruct Hfresh as (_ & Hp & Hr & Hq & Hh & Pq & Ph). split; [by left|]. split; [by left|]. split; by exists []. }
  rewrite E in E2. injection E2 as <- <- <-.
  destruct (http_parse_request_arrays _ _ _ _ _ _ _ E) as [ [Fq Cq] [Fh Ch] ]; [apply Hsq|apply Hsh|].
  assert (Hs : sound (query q') /\ sound (req_headers q')).
  { destruct Hr as (_ & _ & (lq & Hlq & Pq & _) & (lh & Hlh & Ph & _)), Hsq as (_ & _ & Hcq), Hsh as (_ & _ & Hch).
    split; (split; [by eexists|]; split; [done|congruence]). }
  exists q', h'. split; [exact E|]. split; [exact Ho|]. split.
  { intros b Hne. by rewrite F. }
  split; [by exists bs|]. split; [apply Hs|]. split; [apply Hs|].
  destruct (ref_parse text) as [r|]; [|done]. intros m' Em.
  destruct Hret as [?|(_ & _ & Hp & Hq)]; [done|].
  eapply sees_stable; [exact Hr|exact Hp|exact Hq|exact Em|].
  destruct R as (R1 & R2 & R3 & R4 & R5), Hsq as (_ & _ & Hcq), Hsh as (_ & _ & Hch).
  rewrite Hcq in R3. rewrite Hch in R5. by split_and!.
Qed.

(** ** Composing and sending *)

Lemma literal_pairs_read m fb l hs :
  Forall2 literal_pair l hs -> Forall2 (reads_pair m fb) l hs.
Proof.
  intros H. eapply Forall2_impl; [exact H|]. intros p kv (Hk & Hv & H0 & H1). unfold reads_pair. rewrite Hk, Hv.
  by rewrite !load_cstr_lit.
Qed.

(** A body that was appended to the response string. *)
Lemma repr_copied h s b txt : repr h s b txt -> len s = Z.of_nat (length txt) -> copied (mem h) (buf s) (len s) txt.
Proof.
  intros (Hb & (r & Hm & _) & H0 & _) Hl. exists (txt ++ 0 :: r), 0%nat. unfold object. rewrite Hb, Hm.
  split; [done|]. split; [lia|]. rewrite Hl, Nat2Z.id. by apply take_cstr_full.
Qed.

(** The bytes of a string in memory, as the kernel reads them. *)
Lemma payload_repr h s b txt fd sf id fl :
  repr h s b txt -> len s = Z.of_nat (length txt) ->
  payload (mem h) (Sqe (Send fd (Buf (buf s)) (len s) sf) id fl) = Ok (fd, txt).
Proof.
  intros (Hb & (r & Hm & _) & _) Hl. unfold payload, object. cbn [op]. rewrite Hb, Hm, bind_ok, suffix_0, bind_ok.
  by rewrite Hl, Nat2Z.id, take_app_length.
Qed.

Section turn.
Context `{Platform} `{Abi}.
Variable room : list sqe -> bool.
Variable fs : file_system.
Variable watch : bool.
Variable pipefds : Z * Z.

Abbreviation ops_for := (response_ops watch pipefds).
Abbreviation rest_for := (file_ops watch pipefds).
Abbreviation sent_for := (sent watch pipefds).

(** A composed page, from the handler's result. *)
Lemma compose_page q res rs rb so fb h proto r l :
  load_cstr (mem h) (protocol q) = Ok proto -> outside (protocol q) fb ->
  str res = Some rs -> repr h rs rb (r_body r) -> len rs = Z.of_nat (length (r_body r)) -> rb <> fb ->
  status res = r_status r -> file res = NULL -> file_fd res = 0 ->
  holds (res_headers res) l -> Forall2 literal_pair l (r_headers r) ->
  repr h so fb [] -> len so = 0 -> fits (capacity rs) (capacity so) (Composed proto r) ->
  exists so' h',
    http_compose_response q res (Some so) h = Ok (1, Some so', h') /\
    repr h' so' fb (render (Composed proto r)) /\ len so' = Z.of_nat (length (render (Composed proto r))) /\
    capacity so' = capacity so /\ keeps (mem h) (mem h') fb /\ oom h' = oom h.
Proof.
  intros Hproto Hout Hstr Hrs Hlen Hne Hst Hfile Hfd Hl Hlit Hso Hso0 (Hi & Hbody & Hline & Hlines & Hfit).
  assert (Hstat : status_of res = shown_status r) by (unfold status_of, shown_status; by rewrite Hst).
  assert (Hhead : response_head proto res (r_headers r) (len rs) = head proto r)
    by (unfold response_head, head; by rewrite Hstat, Hlen).
  cbn [render]. rewrite length_app in Hfit |- *.
  destruct (compose_run q res so h fb [] proto l (r_headers r) (Some (buf rs)) (len rs) (r_body r))
    as (so' & h' & E & Hs' & Hl' & Hk & Ho & Hcap); try done.
  - by rewrite Hst.
  - by apply literal_pairs_read.
  - unfold body_of. rewrite Hfile, Hfd, Hstr. done.
  - destruct Hrs as (_ & _ & _ & Hx). lia.
  - split; [by eapply repr_copied|]. destruct Hrs as (-> & _). done.
  - by rewrite Hstat.
  - rewrite Hhead. cbn [counted]. lia.
  - exists so', h'. rewrite Hhead in Hs', Hl'. cbn [counted app] in Hs', Hl'. split; [exact E|].
    split; [exact Hs'|]. split; [lia|]. by split.
Qed.
(** ** Queueing a response *)

(** The connection once one more step is queued. *)
Definition stepped (c : connection) (a : Z) : connection :=
  set_steps (set_action c a) (cur_steps c) (total_steps c + 1).

Definition with_step (w : world) (i : Z) (c : connection) (a : Z) (e : sqe) : world :=
  World (<[i := stepped c a]> (conns w)) (ring w ++ [e]) (closed w) (wheap w) (statics w).

Lemma push_send_ok w i c b n sf fl :
  conns w !! i = Some c -> room (ring w) = true -> total_steps c < INT_MAX ->
  push_send room w i b n sf fl = Ok (with_step w i c IO_URING_OP_SEND (Sqe (Send (conn_fd c) b n sf) (Some i) fl)).
Proof.
  intros Hc Hr Ht. unfold push_send, push. rewrite !(get_conn_ok w i c Hc), !bind_ok.
  unfold io_uring_push_send, get_sqe. rewrite Hr, bind_ok. unfold int_succ. cbn [total_steps set_action].
  destruct (Z.ltb_spec (total_steps c) INT_MAX); [|lia]. by rewrite !bind_ok.
Qed.

Lemma push_splice_ok w i c fd_in off_in fd_out off_out n fl :
  conns w !! i = Some c -> room (ring w) = true -> total_steps c < INT_MAX ->
  push w i (fun r c' => io_uring_push_splice room r fd_in off_in fd_out off_out n i c' fl) =
    Ok (with_step w i c IO_URING_OP_SPLICE (Sqe (Splice fd_in off_in fd_out off_out (u32 n) SPLICE_F_NONBLOCK) (Some i) fl)).
Proof.
  intros Hc Hr Ht. unfold push. rewrite (get_conn_ok w i c Hc), bind_ok.
  unfold io_uring_push_splice, get_sqe. rewrite Hr, bind_ok. unfold int_succ. cbn [total_steps set_action].
  destruct (Z.ltb_spec (total_steps c) INT_MAX); [|lia]. by rewrite !bind_ok.
Qed.

(** The submission queue has an entry more than [n]. *)
Definition spare (n : nat) (q : list sqe) : Prop := forall q', (length q' <= n)%nat -> room (q ++ q') = true.

Lemma spare_now n q : spare n q -> room q = true.
Proof. intros Hq. rewrite <- (app_nil_r q). apply Hq. simpl. lia. Qed.

Lemma spare_next n q e : spare (S n) q -> spare n (q ++ [e]).
Proof. intros Hq q' Hq'. rewrite <- app_assoc. apply Hq. simpl. lia. Qed.

(** The operations of the response [d] are queued, the header at [b]. *)
Record queued (i : Z) (c : connection) (b : sqe_buf) (n : Z) (d : decision) (w w' : world) : Prop := Queued {
  queued_conns : conns w' = <[i := sent_for (conn_fd c) i d c]> (conns w);
  queued_ring : ring w' = ring w ++ ops_for (conn_fd c) i b n d;
  queued_closed : closed w' = closed w
}.

Lemma one_queued w i c b n d :
  rest_for (conn_fd c) i d = [] ->
  queued i c b n d w (with_step w i c IO_URING_OP_SEND (Sqe (Send (conn_fd c) b n 0) (Some i) 0)).
Proof. intros Hd. constructor; [|unfold response_ops, head_op|]; unfold sent; by rewrite ?Hd. Qed.

Lemma send_canned_ok w i c text :
  conns w !! i = Some c -> spare 2 (ring w) -> total_steps c + 3 <= INT_MAX ->
  exists w', send_canned room w i text = Ok w' /\ wheap w' = wheap w /\
    queued i c (Local text) (Z.of_nat (length text)) (Canned text) w w'.
Proof.
  intros Hc Hr Ht. eexists. split; [apply push_send_ok; [done|by eapply spare_now|lia]|]. split; [done|]. by apply one_queued.
Qed.

(** The pushes of [send_response]. *)
Lemma send_response_ok w i c l s d :
  conns w !! i = Some c -> spare 2 (ring w) -> total_steps c + 3 <= INT_MAX -> fresstr l = Some s ->
  rest_for (conn_fd c) i d =
    (if watch then splice_ops pipefds (conn_fd c) i (file_fd (res l)) (file_sz (res l)) else []) ->
  exists w', send_response room watch pipefds w i l = Ok w' /\ wheap w' = wheap w /\
    queued i c (Buf (buf s)) (len s) d w w'.
Proof.
  intros Hc Hr Ht Hs Hd. unfold send_response. rewrite Hs. cbn [of_option]. rewrite bind_ok. destruct watch eqn:Ew.
  2: { eexists. split; [apply push_send_ok; [done|by eapply spare_now|lia]|]. split; [done|]. apply one_queued. rewrite Ew. exact Hd. }
  rewrite (push_send_ok w i c) by (done || lia || by eapply spare_now). rewrite bind_ok. set (w1 := with_step w i c _ _).
  assert (H1 : conns w1 !! i = Some (stepped c IO_URING_OP_SEND)) by apply lookup_insert_eq.
  assert (R1 : spare 1 (ring w1)) by by apply spare_next.
  rewrite (get_conn_ok w1 i _ H1), bind_ok, (push_splice_ok w1 i _ _ _ _ _ _ _ H1) by (by eapply spare_now || (cbn; lia)).
  rewrite bind_ok. set (w2 := with_step w1 i _ _ _).
  assert (H2 : conns w2 !! i = Some (stepped (stepped c IO_URING_OP_SEND) IO_URING_OP_SPLICE)) by apply lookup_insert_eq.
  assert (R2 : spare 0 (ring w2)) by by apply spare_next.
  rewrite (push_splice_ok w2 i _ _ _ _ _ _ _ H2) by (by eapply spare_now || (cbn; lia)).
  eexists. split; [done|]. split; [done|]. constructor; [|unfold response_ops, head_op|done]; unfold sent; rewrite ?Ew, ?Hd.
  - cbn -[insert]. rewrite !insert_insert_eq. f_equal. unfold stepped, set_steps, set_action. cbn. f_equal. lia.
  - cbn. by rewrite <- !app_assoc.
Qed.

Lemma payload_canned m fd text id fl sf :
  payload m (Sqe (Send fd (Local text) (Z.of_nat (length text)) sf) id fl) = Ok (fd, text).
Proof. unfold payload. cbn [op]. by rewrite Nat2Z.id, take_ge. Qed.

(** A route with a literal path, and a handler that implements its answer or, in the
    build that watches its files, a file with a literal name.  (In the release build
    the second request for a file is undefined, see [global_static_router_release].) *)
Definition page_ok (rt : router handler_fn) (p : page) : Prop :=
  match p with
  | Dynamic a => filepath rt = NULL /\ Handles (fp rt) a
  | Static name => watch = true /\ filepath rt = Lit name 0 /\ (0 ∉ name)
  end.
Definition route_ok (x : router handler_fn * page) : Prop := (exists s, literal_route x.1 s) /\ page_ok x.1 x.2.

(** What a turn leaves behind that answers with [d]. *)
Record answered (x : strings) (i : Z) (c : connection) (w : world) (d : decision) (l' : locals) (w' : world) : Prop :=
  Answered {
  answered_queued : exists b n, queued i c b n d w w' /\ n = Z.of_nat (length (render d)) /\
    (forall sf id fl, payload (mem (wheap w')) (Sqe (Send (conn_fd c) b n sf) id fl) = Ok (conn_fd c, render d)) /\
    b = header_buf (blk_out x) d;
  answered_busy : busy x c l' (wheap w');
  answered_confined : confined x (wheap w) (wheap w')
}.

Lemma queued_same i c b n d w0 w w' : same_io w0 w -> queued i c b n d w w' -> queued i c b n d w0 w'.
Proof. intros (E1 & E2 & E3) []. constructor; congruence. Qed.

Lemma canned_answered x i c w w1 l1 text :
  conns w !! i = Some c -> spare 2 (ring w) -> total_steps c + 3 <= INT_MAX -> same_io w w1 ->
  busy x c l1 (wheap w1) -> confined x (wheap w) (wheap w1) ->
  exists l' w', (w' ← send_canned room w1 i text; Ok (l1, w')) = Ok (l', w') /\
    answered x i c w (Canned text) l' w'.
Proof.
  intros Hc Hr Ht S Hb Hk. pose proof S as (E1 & E2 & E3).
  destruct (send_canned_ok w1 i c text) as (w' & -> & Ew & Q); [by rewrite E1|by rewrite E2|done|]. rewrite bind_ok.
  exists l1, w'. split; [done|]. constructor; rewrite ?Ew; [|done|done].
  eexists _, _. split; [by eapply queued_same|]. split; [done|]. split; [intros; apply payload_canned|done].
Qed.

(** Only the string of a connection matters to [busy]. *)
Lemma busy_conn x c c' l h : conn_str c' = conn_str c -> busy x c l h -> busy x c' l h.
Proof. intros E []. constructor; by rewrite ?E. Qed.

Lemma busy_handled x c l1 h1 q res2 sr2 h2 :
  busy x c l1 h1 -> q = req l1 -> str res2 = Some sr2 -> capacity sr2 = cap_res x -> alive h2 sr2 (blk_res x) ->
  sound (res_headers res2) -> keeps (mem h1) (mem h2) (blk_res x) ->
  busy x c (set_res (set_req l1 q) res2) h2.
Proof.
  intros [ (Hio & Hir & Hro) (si & ? & ? & Ai) _ (so & ? & ? & Ao) ? _] -> Hs Hc Ha Hh F. constructor; try done.
  - exists si. split_and!; [done..|]. by eapply alive_keeps.
  - by exists sr2.
  - exists so. split_and!; [done..|]. by eapply alive_keeps.
Qed.

(** A connection that is busy stays so while its three buffers are not changed. *)
Lemma busy_stable x c co l h h' :
  busy x c l h -> (forall k, k ∈ footprint x -> mem h' !! k = mem h !! k) ->
  busy x (set_coro c co) l h'.
Proof.
  intros [Hap (si & ? & ? & Ai) (sr & ? & ? & Ar) (so & ? & ? & Ao) ? ?] F. constructor; try done.
  - exists si. split_and!; [done..|]. eapply alive_frame; [|done]. apply F. by left.
  - exists sr. split_and!; [done..|]. eapply alive_frame; [|done]. apply F. right. by left.
  - exists so. split_and!; [done..|]. eapply alive_frame; [|done]. apply F. right. right. by left.
Qed.

(** From a composed header on: its bytes are sent, and what follows it. *)
Lemma composed_answered x i c w w2 l2 d so so' h3 :
  conns w !! i = Some c -> spare 2 (ring w) -> total_steps c + 3 <= INT_MAX -> same_io w w2 ->
  busy x c l2 (wheap w2) -> confined x (wheap w) (wheap w2) -> fresstr l2 = Some so ->
  http_compose_response (req l2) (res l2) (Some so) (wheap w2) = Ok (1, Some so', h3) ->
  repr h3 so' (blk_out x) (render d) -> len so' = Z.of_nat (length (render d)) -> capacity so' = cap_out x ->
  keeps (mem (wheap w2)) (mem h3) (blk_out x) -> oom h3 = oom (wheap w2) -> (forall text, d <> Canned text) ->
  rest_for (conn_fd c) i d =
    (if watch then splice_ops pipefds (conn_fd c) i (file_fd (res l2)) (file_sz (res l2)) else []) ->
  exists l' w',
    ('(ok, s, h) ← http_compose_response (req l2) (res l2) (fresstr l2) (wheap w2);
     if negb (ok =? 0) then w ← send_response room watch pipefds (set_heap w2 h) i (set_fresstr l2 s); Ok (set_fresstr l2 s, w)
     else w ← send_canned room (set_heap w2 h) i RESPONSE_400; Ok (set_fresstr l2 s, w)) = Ok (l', w') /\
    answered x i c w d l' w'.
Proof.
  intros Hc Hroom Ht S [ (Hio & Hir & Hro) (si & ? & ? & Ai) (sr & ? & ? & Ar) _ Hreq Hres] Hk Hso E Hs Hl Hcap K O Hno Hd.
  pose proof S as (E1 & E2 & E3). rewrite Hso, E, bind_ok. cbn [Z.eqb negb].
  destruct (send_response_ok (set_heap w2 h3) i c (set_fresstr l2 (Some so')) so' d) as (w' & -> & Ew & Q);
    [cbn; by rewrite E1|cbn; by rewrite E2|done|done|done|]. rewrite bind_ok.
  exists (set_fresstr l2 (Some so')), w'. split; [done|]. constructor; rewrite ?Ew; cbn [wheap set_heap].
  - eexists _, _. split; [eapply queued_same; [exact S|]; by destruct Q|]. split; [done|].
    split; [by intros; eapply payload_repr|]. destruct Hs as [-> _]. by destruct d; [destruct (Hno text)|..].
  - constructor; [done| | | |done|done].
    + exists si. split_and!; [done..|]. by eapply alive_keeps.
    + exists sr. split_and!; [done..|]. by eapply alive_keeps.
    + exists so'. split_and!; [done..|]. by eapply repr_alive.
  - etransitivity; [exact Hk|]. eapply confined_keeps; [exact K| |by rewrite O]. right. right. by left.
Qed.

(** The protocol of a parsed request lies in the receive buffer. *)
Lemma protocol_outside x c l h proto :
  busy x c l h -> (forall m', m' !! blk_in x = mem h !! blk_in x -> load_cstr m' (protocol (req l)) = Ok proto) ->
  load_cstr (mem h) (protocol (req l)) = Ok proto /\ outside (protocol (req l)) (blk_out x).
Proof.
  intros [ (Hio & Hir & Hro) (_ & _ & _ & (_ & _ & bs & Hbs & _)) _ _ _ _] Hproto. split; [by apply Hproto|].
  eapply load_cstr_live; [apply (Hproto {[blk_in x := bs]}); by rewrite lookup_singleton_eq|]. by rewrite lookup_singleton_ne.
Qed.

(** From a handler's page on. *)
Lemma page_responds x i c w w2 l2 proto rep so lh sr2 :
  conns w !! i = Some c -> spare 2 (ring w) -> total_steps c + 3 <= INT_MAX -> same_io w w2 ->
  confined x (wheap w) (wheap w2) -> busy x c l2 (wheap w2) ->
  str (res l2) = Some sr2 -> capacity sr2 = cap_res x -> repr (wheap w2) sr2 (blk_res x) (r_body rep) ->
  len sr2 = Z.of_nat (length (r_body rep)) -> status (res l2) = r_status rep -> file (res l2) = NULL ->
  file_fd (res l2) = 0 -> file_sz (res l2) = 0 -> holds (res_headers (res l2)) lh -> Forall2 literal_pair lh (r_headers rep) ->
  fresstr l2 = Some so -> capacity so = cap_out x -> zeroed (wheap w2) so (blk_out x) ->
  fits (cap_res x) (cap_out x) (Composed proto rep) ->
  (forall m', m' !! blk_in x = mem (wheap w2) !! blk_in x -> load_cstr m' (protocol (req l2)) = Ok proto) ->
  exists l' w',
    ('(ok, s, h) ← http_compose_response (req l2) (res l2) (fresstr l2) (wheap w2);
     if negb (ok =? 0) then w ← send_response room watch pipefds (set_heap w2 h) i (set_fresstr l2 s); Ok (set_fresstr l2 s, w)
     else w ← send_canned room (set_heap w2 h) i RESPONSE_400; Ok (set_fresstr l2 s, w)) = Ok (l', w') /\
    answered x i c w (Composed proto rep) l' w'.
Proof.
  intros Hc Hroom Ht S Hk2 Hb2 Hsr Hcr Hr2 Hl2 Hst Hfile Hfd Hsz Hlh Hlit Hso Hco Zo Hfits Hproto.
  pose proof (busy_apart _ _ _ _ Hb2) as (Hio & Hir & Hro). destruct (protocol_outside x c l2 _ proto Hb2 Hproto) as [Hp Hout].
  destruct (compose_page (req l2) (res l2) sr2 (blk_res x) so (blk_out x) (wheap w2) proto rep lh) as
    (so' & h3 & E3 & Hr3 & Hl3 & Hc3 & K3 & O3); try done; [by apply zeroed_repr|apply Zo|by rewrite Hcr, Hco|].
  eapply (composed_answered x i c w w2 l2 (Composed proto rep) so so' h3); try done; [by rewrite Hc3|].
  cbn [file_ops]. by rewrite Hfd, Hsz.
Qed.

(** The header of a file. *)
Lemma compose_file q res0 so fb h proto mime fd size :
  load_cstr (mem h) (protocol q) = Ok proto -> outside (protocol q) fb ->
  status res0 = 200 -> file res0 = NULL -> file_fd res0 = fd -> fd <> 0 -> file_sz res0 = size -> 0 <= size < 2 ^ 63 ->
  holds (res_headers res0) [Kv_pair (lit "Content-Type"%string) (Lit mime 0)] -> (0 ∉ mime) ->
  repr h so fb [] -> len so = 0 -> fits 0 (capacity so) (Spliced proto mime fd size) ->
  exists so' h', http_compose_response q res0 (Some so) h = Ok (1, Some so', h') /\
    repr h' so' fb (file_head proto mime size) /\ len so' = Z.of_nat (length (file_head proto mime size)) /\
    capacity so' = capacity so /\ keeps (mem h) (mem h') fb /\ oom h' = oom h.
Proof.
  intros Hproto Hout Hst Hfile Hfd Hfd0 Hsz Hsize Hl Hmime Hso Hso0 (Hline & Hlines & Hfit).
  assert (Hstat : status_of res0 = 200) by (unfold status_of; by rewrite Hst).
  assert (Hhead : response_head proto res0 (mime_header mime) size = file_head proto mime size).
  { unfold response_head, file_head. by rewrite Hstat. }
  destruct (compose_run q res0 so h fb [] proto [Kv_pair (lit "Content-Type"%string) (Lit mime 0)] (mime_header mime) None size [] Hso Hproto Hout)
    as (so' & h' & E & Hs' & Hl' & Hk & Ho & Hcap); try done.
  - rewrite Hst. done.
  - apply literal_pairs_read. constructor; [|constructor]. split_and!; [done|done| |done]. by apply (bool_decide_unpack _).
  - unfold body_of. rewrite Hfile, Hfd, Hsz. cbn [is_null negb]. by destruct (Z.eqb_spec fd 0).
  - by rewrite Hstat.
  - rewrite Hhead. cbn [counted]. lia.
  - exists so', h'. rewrite Hhead in Hs', Hl'. cbn [counted app] in Hs', Hl'. rewrite app_nil_r in Hs'.
    split; [exact E|]. split; [exact Hs'|]. split; [lia|]. by split.
Qed.

(** [global_static_router] in the watching build does what [decide_file] says. *)
Lemma static_router_decides res0 st h name proto :
  files_ok fs -> (0 ∉ name) -> fresh_response res0 ->
  exists e res' st', global_static_router fs true res0 (Lit name 0) st h = Ok (e, res', st', h) /\
    str res' = str res0 /\ sound (res_headers res') /\
    match decide_file fs proto name with
    | Spliced _ mime fd size =>
        e = HANDLER_ERR_SUCCESS /\ status res' = 200 /\ file res' = NULL /\ file_fd res' = fd /\ fd <> 0 /\
        file_sz res' = size /\ 0 <= size < 2 ^ 63 /\ (0 ∉ mime) /\
        holds (res_headers res') [Kv_pair (lit "Content-Type"%string) (Lit mime 0)]
    | Canned text => (e = HANDLER_ERR_FILE_NOT_FOUND /\ text = RESPONSE_404) \/ (e = HANDLER_ERR_GENERAL /\ text = RESPONSE_500)
    | Composed _ _ => False
    end.
Proof.
  intros [Hopen Hsize Hmime] Hname (Hst & Hfile & Hfd & _ & Hl & Hsound). pose proof Hsound as (_ & Hp & H20).
  unfold global_static_router, decide_file, UNLIKELY. cbn [negb andb]. rewrite load_cstr_lit, bind_ok by done.
  specialize (Hopen name). set (fd := sys_open fs name) in *. cbv zeta. specialize (Hsize fd).
  destruct (fd <? 0); [eexists _, _, _; split; [done|]; split; [done|]; split; [done|]; by left|].
  destruct (sys_fstat fs fd) as [r sz]. cbn [fst snd] in *.
  destruct (r <? 0); [eexists _, _, _; split; [done|]; split; [done|]; split; [done|]; by right|].
  destruct (Hmime fd) as [->|(s & -> & Hs)]; cbn [is_null].
  { eexists _, _, _. split; [done|]. split; [done|]. split; [done|]. by right. }
  unfold store_buf. cbn [of_option]. rewrite !bind_ok. unfold SET_RES_MIME.
  destruct (SET_RES_HEADER_room (set_status (set_file_sz (set_file_fd res0 fd) (u64 sz)) 200) []
    (lit "Content-Type") (Lit s 0) h Hl Hp H20) as (kv & -> & Hkv & Hkp & Hk20); [simpl; lia|]. rewrite bind_ok.
  eexists _, _, _. split; [done|]. split; [done|]. split; [split; [by eexists|done]|].
  cbn -[Z.pow]. rewrite u64_small by lia. by do 8 (split; [done|]).
Qed.

(** From a file on. *)
Lemma file_responds x i c w w2 l2 proto mime fd size so :
  watch = true -> conns w !! i = Some c -> spare 2 (ring w) -> total_steps c + 3 <= INT_MAX -> same_io w w2 ->
  confined x (wheap w) (wheap w2) -> busy x c l2 (wheap w2) ->
  status (res l2) = 200 -> file (res l2) = NULL -> file_fd (res l2) = fd -> fd <> 0 -> file_sz (res l2) = size ->
  0 <= size < 2 ^ 63 -> (0 ∉ mime) -> holds (res_headers (res l2)) [Kv_pair (lit "Content-Type"%string) (Lit mime 0)] ->
  fresstr l2 = Some so -> capacity so = cap_out x -> zeroed (wheap w2) so (blk_out x) ->
  fits (cap_res x) (cap_out x) (Spliced proto mime fd size) ->
  (forall m', m' !! blk_in x = mem (wheap w2) !! blk_in x -> load_cstr m' (protocol (req l2)) = Ok proto) ->
  exists l' w',
    ('(ok, s, h) ← http_compose_response (req l2) (res l2) (fresstr l2) (wheap w2);
     if negb (ok =? 0) then w ← send_response room watch pipefds (set_heap w2 h) i (set_fresstr l2 s); Ok (set_fresstr l2 s, w)
     else w ← send_canned room (set_heap w2 h) i RESPONSE_400; Ok (set_fresstr l2 s, w)) = Ok (l', w') /\
    answered x i c w (Spliced proto mime fd size) l' w'.
Proof.
  intros Hw Hc Hroom Ht S Hk2 Hb2 Hst Hfile Hfd Hfd0 Hsz Hsize Hmime Hl Hso Hco Zo Hfits Hproto.
  destruct (protocol_outside x c l2 _ proto Hb2 Hproto) as [Hp Hout].
  destruct (compose_file (req l2) (res l2) so (blk_out x) (wheap w2) proto mime fd size) as
    (so' & h3 & E3 & Hr3 & Hl3 & Hc3 & K3 & O3); try done; [by apply zeroed_repr|apply Zo|by rewrite Hco|].
  eapply (composed_answered x i c w w2 l2 (Spliced proto mime fd size) so so' h3); try done; [by rewrite Hc3|].
  cbn [file_ops]. by rewrite Hw, Hfd, Hsz.
Qed.

(** From the call of the handler on. *)
Lemma respond_decides x i c w w1 l1 rt p r sr so :
  conns w !! i = Some c -> spare 2 (ring w) -> total_steps c + 3 <= INT_MAX -> same_io w w1 ->
  confined x (wheap w) (wheap w1) -> busy x c l1 (wheap w1) -> fresh_response (res l1) ->
  str (res l1) = Some sr -> capacity sr = cap_res x -> zeroed (wheap w1) sr (blk_res x) ->
  fresstr l1 = Some so -> capacity so = cap_out x -> zeroed (wheap w1) so (blk_out x) ->
  (forall m', m' !! blk_in x = mem (wheap w1) !! blk_in x -> sees m' (req l1) (seen r)) ->
  page_ok rt p -> files_ok fs -> fits (cap_res x) (cap_out x) (decide_page fs r p) ->
  exists l' w', respond room fs watch pipefds i rt l1 w1 = Ok (l', w') /\ answered x i c w (decide_page fs r p) l' w'.
Proof.
  intros Hc Hroom Ht S Hk1 Hb1 Hres Hsr Hcr Zr Hso Hco Zo Hsees Hpage Hfs Hfits.
  pose proof (busy_apart _ _ _ _ Hb1) as (Hio & Hir & Hro).
  destruct (busy_in _ _ _ _ Hb1) as (_ & _ & _ & (_ & _ & bs & Hbs & _)).
  unfold respond, call_handler. destruct p as [a|name]; cbn [page_ok decide_page] in *.
  - destruct Hpage as [-> Hh]. cbn [is_null negb].
    destruct (Hh (req l1) (res l1) (wheap w1) sr (blk_res x) (seen r)) as
      (e & res2 & h2 & sr2 & txt & E2 & Hsr2 & Hcr2 & Hr2 & Hh2 & F2 & O2 & Hans); try done; [|by apply zeroed_repr|apply Zr| |].
    { intros m' Hk. apply Hsees. rewrite Hbs. by apply Hk. }
    { intros rep Erep. rewrite Erep in Hfits. rewrite Hcr. apply Hfits. }
    rewrite E2, !bind_ok. set (l2 := set_res _ res2). set (w2 := set_heap w1 h2).
    assert (Hb2 : busy x c l2 (wheap w2)).
    { eapply busy_handled; [exact Hb1|done|exact Hsr2|by rewrite Hcr2|by eapply repr_alive|done|done]. }
    assert (Hk2 : confined x (wheap w) (wheap w2)).
    { etransitivity; [exact Hk1|]. eapply confined_keeps; [exact F2| |done]. right. by left. }
    destruct (a (seen r)) as [rep| |] eqn:Ea; cbn [decision_of] in *.
    + destruct Hans as (-> & -> & Hl2 & Hst & Hfile & Hfd & Hsz & lh & Hlh & Hlit).
      refine (page_responds x i c w w2 l2 (p_protocol r) rep so lh sr2
                Hc Hroom Ht S Hk2 Hb2 Hsr2 _ Hr2 Hl2 Hst Hfile Hfd Hsz Hlh Hlit Hso Hco _ Hfits _).
      * by rewrite Hcr2.
      * eapply zeroed_keeps; [exact F2|congruence|done].
      * intros m' Hm'. apply Hsees. rewrite Hm', Hbs. by apply F2.
    + subst e. by apply canned_answered.
    + subst e. by apply canned_answered.
  - destruct Hpage as (Hw & -> & Hname). cbn [is_null negb].
    destruct (static_router_decides (res l1) (statics w1) (wheap w1) name (p_protocol r) Hfs Hname Hres) as
      (e & res2 & st2 & E2 & Hsr2 & Hh2 & Hans). rewrite Hw in *. rewrite E2, !bind_ok.
    set (l2 := set_res l1 res2). set (w2 := World _ _ _ _ _).
    assert (Hb2 : busy x c l2 (wheap w2)) 
      by (destruct Hb1 as [? ? (s & ? & ? & ?) ? ? ?]; constructor; try done; exists s; split; [cbn; congruence|done]).
    destruct (decide_file fs (p_protocol r) name) as [text|? ?|proto mime fd size] eqn:Ed; [|done|].
    + destruct Hans as [[-> ->]|[-> ->]]; by apply canned_answered.
    + destruct Hans as (-> & Hst & Hfile & Hfd & Hfd0 & Hsz & Hsize & Hmime & Hl).
      assert (proto = p_protocol r) as ->.
      { unfold decide_file in Ed. repeat case_match; by simplify_eq. }
      pose proof (file_responds x i c w w2 l2 (p_protocol r) mime fd size so Hw Hc Hroom Ht S Hk1 Hb2 Hst Hfile Hfd Hfd0 Hsz
                Hsize Hmime Hl Hso Hco Zo Hfits) as P. rewrite Hw in P. apply P. intros m' Hm'. by apply Hsees.
Qed.

Lemma serve_decides (x : strings) (rs : routes) (i : Z) (c : connection) (l : locals) (text : bytes) (w : world) :
  ready x text c l (wheap w) -> conns w !! i = Some c -> spare 2 (ring w) ->
  (0 < length text)%nat -> Z.of_nat (length text) < cap_in x -> 64 <= cap_in x <= 2 ^ 31 ->
  Forall (fun c => 0 < c < 256) text ->
  (forall r, ref_parse text = Some r -> headers_valued (length (p_header_text r)) (p_header_text r)) ->
  Forall route_ok rs -> files_ok fs -> fits (cap_res x) (cap_out x) (decide_response fs rs text) ->
  exists l' w', serve room fs watch (fst <$> rs) pipefds i l (Ptr (blk_in x) 0) (Z.of_nat (length text)) w = Ok (l', w') /\
    answered x i c w (decide_response fs rs text) l' w'.
Proof.
  intros [ (Hio & Hir & Hro) (si & Hsi & Hci & Hbi & Hin) (sr & Hsr & Hcr & Zr) (so & Hso & Hco & Zo) (Hfr & Hsq & Hsh) Hres [Hcur Htot] ]
    Hc Hroom Hpos Hlen Hcap Htext Hv Hrs Hfs Hfits.
  rewrite Hci in Hin. destruct (parse_arrived x text (req l) (wheap w) Hin Hpos Hlen Hcap Htext Hv Hfr Hsq Hsh)
    as (q & h1 & E1 & O1 & F1 & (bs & Hbs & Hlbs) & Hq1 & Hh1 & Hsees).
  assert (Hsteps : total_steps c + 3 <= INT_MAX) by (rewrite Htot; done).
  assert (Zr1 : zeroed h1 sr (blk_res x)) by (eapply zeroed_frame; [by apply F1|done]).
  assert (Zo1 : zeroed h1 so (blk_out x)) by (eapply zeroed_frame; [by apply F1|done]).
  assert (Hk1 : confined x (wheap w) h1) by (eapply confined_other; [exact F1|by left|done]).
  assert (Hb1 : busy x c (set_req l q) h1).
  { constructor; [done| | | |by split|apply Hres].
    - exists si. split_and!; [done..|]. split; [done|]. split; [lia|]. exists bs. split; [done|congruence].
    - exists sr. split_and!; [done..|]. by eapply repr_alive, zeroed_repr.
    - exists so. split_and!; [done..|]. by eapply repr_alive, zeroed_repr. }
  unfold serve, parse. cbn [Z.eqb]. rewrite E1, bind_ok.
  unfold decide_response in *. destruct (ref_parse text) as [r|]; cbn [Z.eqb]; [|by apply canned_answered].
  pose proof (Hsees _ eq_refl) as (Hmeth & Hpath & _).
  cbn [wheap set_heap req set_req mem].
  rewrite Hmeth, (find_router_choose rs _ _ _ _ ltac:(eapply Forall_impl; [exact Hrs|]; by intros ? [? _]) Hpath), bind_ok.
  cbn [p_path p_method seen]. destruct (choose rs (p_path r) (p_method r)) as [ [rt p]|] eqn:Ech; cbn [fmap option_fmap option_map fst];
    [|by apply canned_answered].
  apply choose_in in Ech. rewrite Forall_forall in Hrs. destruct (Hrs _ Ech) as (_ & Hpage).
  by eapply respond_decides.
Qed.

(** ** The end of a response *)

Lemma reset_recycles x i c l w :
  busy x c l (wheap w) -> conns w !! i = Some c ->
  exists l' w' c', reset i l w = Ok (l', w') /\
    conns w' = <[i := c']> (conns w) /\ ring w' = ring w /\ closed w' = conn_fd c :: closed w /\
    conn_fd c' = conn_fd c /\ action c' = action c /\ ready x [] c' l' (wheap w') /\ confined x (wheap w) (wheap w').
Proof.
  intros [ (Hio & Hir & Hro) (si & Hsi & Hci & Ai) (sr & Hsr & Hcr & Ar) (so & Hso & Hco & Ao) (Hq & Hh) Hres] Hc.
  unfold reset, get_conn. rewrite Hc. cbn [of_option]. rewrite bind_ok. cbv zeta. cbn [wheap put_conn set_conns close_in].
  rewrite Hsi. destruct (string_reset_alive _ _ _ Ai) as (h1 & -> & Z1 & F1 & O1). rewrite bind_ok, Hsr.
  destruct (string_reset_alive h1 sr (blk_res x)) as (h2 & -> & Z2 & F2 & O2); [eapply alive_frame; [by apply F1|done]|].
  rewrite bind_ok, Hso.
  destruct (string_reset_alive h2 so (blk_out x)) as (h3 & -> & Z3 & F3 & O3).
  { eapply alive_frame; [by apply F2|]. eapply alive_frame; [by apply F1|done]. }
  rewrite bind_ok. eexists _, _, _. split; [done|]. cbn [conns ring closed wheap set_heap put_conn set_conns close_in].
  split; [by rewrite insert_insert_eq|]. split; [done|]. split; [done|]. split; [done|]. split; [done|].
  destruct (reset_kv_empty _ Hq) as (? & ? & ?), (reset_kv_empty _ Hh) as (? & ? & ?), (reset_kv_empty _ Hres) as (? & ? & ?).
  split.
  2: { etransitivity; [eapply confined_other; [exact F1|by left|done]|].
       etransitivity; [eapply confined_other; [exact F2|right; by left|done]|].
       eapply confined_other; [exact F3|right; right; by left|done]. }
  constructor; try done.
  - eexists. split; [done|]. split; [done|]. split; [apply Z1|]. rewrite F3, F2 by done. cbn [app length].
    rewrite Nat.sub_0_r. apply Z1.
  - eexists. split; [done|]. split; [done|]. eapply zeroed_frame; [by apply F3|done].
  - eexists. by split.
Qed.

Lemma ready_arrives x text c l h : ready x [] c l h -> ready x text c l (arrives x text h).
Proof.
  intros [ (Hio & Hir & Hro) (si & Hsi & Hci & Hb & _) (sr & Hsr & Hcr & Zr) (so & Hso & Hco & Zo) ? ? ?].
  assert (F : forall b, b <> blk_in x -> mem (arrives x text h) !! b = mem h !! b) by (intros; by apply lookup_insert_ne).
  constructor; try done.
  - exists si. split_and!; [done..|]. split; [done|]. rewrite Hci. apply lookup_insert_eq.
  - exists sr. split_and!; [done..|]. eapply zeroed_frame; [by apply F|done].
  - exists so. split_and!; [done..|]. eapply zeroed_frame; [by apply F|done].
Qed.

(** A text the theorems speak of: not empty, shorter than the buffer, without NUL,
    no header line ending with its colon, and a response that fits. *)
Record request_ok (x : strings) (rs : routes) (text : bytes) : Prop := Request_ok {
  ok_length : 0 < Z.of_nat (length text) < cap_in x;
  ok_bytes : Forall (fun c => 0 < c < 256) text;
  ok_headers : forall r, ref_parse text = Some r -> headers_valued (length (p_header_text r)) (p_header_text r);
  ok_fits : fits (cap_res x) (cap_out x) (decide_response fs rs text)
}.

Lemma turn_answers x rs i c l text w :
  ready x text c l (wheap w) -> conns w !! i = Some c -> action c = IO_URING_OP_RECV -> spare 2 (ring w) ->
  64 <= cap_in x <= 2 ^ 31 -> Forall route_ok rs -> files_ok fs -> request_ok x rs text ->
  exists l' w', turn room fs watch (fst <$> rs) pipefds i l (Z.of_nat (length text)) w = Ok (l', w') /\
    answered x i c w (decide_response fs rs text) l' w'.
Proof.
  intros Hready Hc Ha Hroom Hcap Hrs Hfs [Hlen Htext Hv Hfits]. pose proof (ready_in _ _ _ _ _ Hready) as (si & Hsi & Hci & Hb & _).
  unfold turn, UNLIKELY. rewrite (get_conn_ok w i c Hc), bind_ok, Ha. cbn [Z.eqb].
  rewrite Z.eqb_refl. destruct (Z.ltb_spec (Z.of_nat (length text)) 0); [lia|].
  destruct (Z.eqb_spec (Z.of_nat (length text)) 0); [lia|]. rewrite Hsi. cbn [of_option]. rewrite bind_ok.
  rewrite i64_small by lia. destruct (Z.eqb_spec (Z.of_nat (length text)) (capacity si)); [lia|]. rewrite Hb.
  by apply (serve_decides x rs i c l text w); try done; lia.
Qed.

(** A step of a response is counted; more are to come. *)
Lemma turn_counts tb i c l n w :
  conns w !! i = Some c -> sending c -> cur_steps c + 1 <> total_steps c -> cur_steps c < INT_MAX ->
  turn room fs watch tb pipefds i l n w = Ok (l, put_conn w i (set_steps c (cur_steps c + 1) (total_steps c))).
Proof.
  intros Hc Ha Hmore Hmax. unfold turn. rewrite (get_conn_ok w i c Hc), bind_ok.
  assert (E : (action c =? IO_URING_OP_RECV) = false) by by destruct Ha as [-> | ->].
  assert (E' : (action c =? IO_URING_OP_SEND) || (action c =? IO_URING_OP_SPLICE) = true) by by destruct Ha as [-> | ->].
  rewrite E, E'. unfold int_succ. destruct (Z.ltb_spec (cur_steps c) INT_MAX); [|lia]. rewrite bind_ok.
  by destruct (Z.eqb_spec (cur_steps c + 1) (total_steps c)).
Qed.

Lemma turn_completes tb x i c l n w :
  busy x c l (wheap w) -> conns w !! i = Some c -> sending c -> cur_steps c + 1 = total_steps c ->
  total_steps c <= INT_MAX ->
  exists l' w' c', turn room fs watch tb pipefds i l n w = Ok (l', w') /\
    conns w' = <[i := c']> (conns w) /\ ring w' = ring w /\ closed w' = conn_fd c :: closed w /\
    conn_fd c' = conn_fd c /\ action c' = action c /\ ready x [] c' l' (wheap w') /\ confined x (wheap w) (wheap w').
Proof.
  intros Hb Hc Ha Hlast Hmax. unfold turn. rewrite (get_conn_ok w i c Hc), bind_ok.
  assert (E : (action c =? IO_URING_OP_RECV) = false) by by destruct Ha as [-> | ->].
  assert (E' : (action c =? IO_URING_OP_SEND) || (action c =? IO_URING_OP_SPLICE) = true) by by destruct Ha as [-> | ->].
  rewrite E, E'. unfold int_succ. destruct (Z.ltb_spec (cur_steps c) INT_MAX); [|lia]. rewrite bind_ok.
  destruct (Z.eqb_spec (cur_steps c + 1) (total_steps c)); [|lia].
  set (c1 := set_steps c (cur_steps c + 1) (total_steps c)).
  destruct (reset_recycles x i c1 l (put_conn w i c1)) as (l' & w' & c' & E1 & Ec & Hrest).
  - by apply (busy_conn x c).
  - apply lookup_insert_eq.
  - exists l', w', c'. split; [exact E1|]. split; [|exact Hrest]. rewrite Ec. apply insert_insert_eq.
Qed.
End turn.

(** ** Setting up a connection *)

(** On x86, whatever allocation fails; none does if none is going to. *)
Lemma string_init_ends cap h :
  2 <= cap < 2 ^ 16 ->
  (exists h', string_init (H := x86) cap h = Ok (None, h') /\ oom h <> [] /\ mem h' = mem h) \/
  (exists b h', string_init (H := x86) cap h = Ok (Some (String_t (2 ^ (31 - Z.log2 cap)) 0 (Ptr b 0)), h') /\
     mem h !! b = None /\ zeroed h' (String_t (2 ^ (31 - Z.log2 cap)) 0 (Ptr b 0)) b /\
     (forall b', b' <> b -> mem h' !! b' = mem h !! b') /\ (oom h = [] -> oom h' = [])).
Proof.
  intros Hcap. pose proof (capacity_x86_small cap Hcap) as H1. pose proof (capacity_x86_max cap ltac:(lia)) as H2.
  destruct (string_init_cases (H := x86) cap _ h (real_capacity_x86 cap ltac:(lia)) ltac:(lia))
    as [(h' & E & Hm & Hf)|(b & h' & E & Hb & -> & _)]; [left; exists h'|right].
  - split; [done|]. split; [|done]. intros Ho. unfold alloc_fails, PTRDIFF_MAX in Hf. rewrite Ho in Hf. cbn [tick oom next_oom fst snd] in Hf.
    rewrite Ho in Hf. cbn [next_oom fst snd orb] in Hf. apply orb_true_iff in Hf as [?%Z.ltb_lt|?%Z.ltb_lt]; lia.
  - exists b. eexists. split; [exact E|]. split; [done|]. split; [|split].
    + split; [done|]. split; [simpl; lia|]. split; [done|]. apply lookup_insert_eq.
    + intros b' ?. by apply lookup_insert_ne.
    + intros Ho. cbn [oom tick]. by rewrite Ho.
Qed.

(** The strings of the handler, next to the connection's. *)
Lemma init_locals_ends i c s b text h :
  conn_str c = Some s -> holding h s b text -> cur_steps c = 0 -> total_steps c = 0 ->
  (exists h', init_locals (H := x86) i h = Ok (None, h') /\ oom h <> [] /\
     forall b' bs, mem h !! b' = Some bs -> mem h' !! b' = Some bs) \/
  (exists l h' br bo, init_locals (H := x86) i h = Ok (Some l, h') /\
     ready (Strings b br bo (capacity s) (2 ^ 21) (2 ^ 20)) text c l h' /\
     (mem h !! br = None) /\ (mem h !! bo = None) /\
     (forall b' bs, mem h !! b' = Some bs -> mem h' !! b' = Some bs) /\ (oom h = [] -> oom h' = [])).
Proof.
  intros Hs (Hb & Hm) Hcur Htot. unfold init_locals. cbv zeta.
  destruct (string_init_ends 1024 h ltac:(lia)) as [(h1 & -> & ? & E1)|(br & h1 & -> & Hbr & Zr & F1 & O1)]; rewrite bind_ok.
  { left. eexists. split; [done|]. split; [done|]. by rewrite E1. }
  destruct (string_init_ends 2048 h1 ltac:(lia)) as [(h2 & -> & Ho & E2)|(bo & h2 & -> & Hbo & Zo & F2 & O2)]; rewrite bind_ok.
  { left. eexists. split; [done|]. split; [by intros ?%O1|]. unfold string_free. rewrite E2.
    intros b' bs Hb'. rewrite F1; [done|]. intros ->. congruence. }
  right. eexists _, h2, br, bo. split; [done|].
  assert (Hne : bo <> br) by (intros ->; destruct Zr as (_ & _ & _ & E); congruence).
  assert (Hbo' : mem h !! bo = None) by by rewrite <- F1.
  assert (Hbr' : b <> br) by congruence. assert (Hbo'' : b <> bo) by congruence.
  destruct fresh_kv as [Hk1 Hk2]. split.
  - constructor.
    + split; [exact Hbr'|split; [exact Hbo''|by apply not_eq_sym] ].
    + exists s. split; [done|]. split; [done|]. split; [done|]. cbn [blk_in]. rewrite F2, F1 by congruence. done.
    + eexists. split; [reflexivity|]. split; [reflexivity|]. eapply zeroed_frame; [by apply F2|exact Zr].
    + eexists. split; [reflexivity|]. split; [reflexivity|]. exact Zo.
    + split; [|by split]. by split_and!.
    + by split_and!.
    + done.
  - split; [done|]. split; [done|]. split; [|by intros ?%O1%O2].
    intros b' bs Hb'. rewrite F2, F1 by congruence. done.
Qed.

(** [__prepare_connection] on a slot without coroutine and string. *)
Lemma prepare_ends w fd c :
  conns w !! fd = Some c -> conn_str c = None -> cur_steps c = 0 /\ total_steps c = 0 ->
  exists e w1, prepare_connection (H := x86) w fd = Ok (e, w1) /\
    ((e = -1 /\ oom (wheap w) <> [] /\ exists c1,
        w1 = World (<[fd := c1]> (conns w)) (ring w) (closed w) (wheap w1) (statics w) /\
        mem (wheap w1) = mem (wheap w) /\ (coro c1 = None \/ coro c1 = co_new true None) /\ conn_str c1 = None) \/
     (e = 0 /\ exists s b c1, c1 = Connection fd 0 0 0 (co_new true None) (Some s) true /\
       w1 = World (<[fd := c1]> (conns w)) (ring w) (closed w) (wheap w1) (statics w) /\
       capacity s = 2 ^ 21 /\ zeroed (wheap w1) s b /\ (mem (wheap w) !! b = None) /\
       (forall b' bs, mem (wheap w) !! b' = Some bs -> mem (wheap w1) !! b' = Some bs) /\
       (oom (wheap w) = [] -> oom (wheap w1) = []))).
Proof.
  intros Hc Hstr [Hcur Htot]. unfold prepare_connection, get_conn. rewrite Hc. cbn [of_option]. rewrite bind_ok.
  unfold malloc_struct, UNLIKELY. destruct (alloc_fails 33016 (wheap w)) eqn:Ef; cbn [negb co_new].
  { eexists _, _. split; [done|left]. split; [done|]. split; [intros Ho; unfold alloc_fails in Ef; by rewrite Ho in Ef|].
    eexists. split; [reflexivity|]. split; [done|]. split; [by left|done]. }
  unfold co_new, UNLIKELY. cbn [negb conn_str set_coro]. rewrite Hstr. set (w0 := put_conn _ _ _).
  assert (Hoom : oom (wheap w) = [] -> oom (wheap w0) = []) by (intros Ho; cbn; by rewrite Ho).
  destruct (string_init_ends DEFAULT_SVR_BUFLEN (wheap w0) ltac:(unfold DEFAULT_SVR_BUFLEN; lia))
    as [(h1 & -> & Hno & Em)|(b & h1 & -> & Hb & Z & F & O)]; rewrite !bind_ok.
  { eexists _, _. split; [done|left]. split; [done|]. split; [by intros ?%Hoom|]. eexists.
    split; [unfold w0, put_conn, set_conns, set_heap; cbn -[insert]; by rewrite insert_insert_eq|]. split; [exact Em|].
    split; [by right|done]. }
  rewrite bool_decide_true by by eexists. cbn [negb]. eexists 0, _. split; [done|]. right. split; [done|].
  eexists _, b, _. split; [reflexivity|]. split.
  { unfold w0, put_conn, set_conns, set_heap. cbn -[insert]. rewrite !insert_insert_eq, Hcur, Htot. reflexivity. } split; [reflexivity|]. split; [exact Z|]. split; [exact Hb|]. split.
  - intros b' bs Hb'. rewrite F; [exact Hb'|]. intros ->. cbn in Hb. congruence.
  - intros ?%Hoom%O. done.
Qed.

(** ** Properties *)


(** C19.  Setting a connection up, on x86, whatever allocation fails.
    [__prepare_connection] on a slot that was never used either returns -1 or
    gives the slot a coroutine that has not started and a zeroed receive buffer of
    2^21 bytes.  When the coroutine is first resumed, its initialisation either
    ends it, because a string could not be allocated, or gives it the locals with
    which the connection is ready for the text that has been received. *)
Theorem connection_set_up (w : world) (fd : Z) (Hc : conns w !! fd = Some (Connection fd 0 0 0 None None false)) :
  exists e w1, prepare_connection (H := x86) w fd = Ok (e, w1) /\
    (e = -1 \/
     e = 0 /\ exists c1 s b, conns w1 = <[fd := c1]> (conns w) /\ coro c1 = co_new true None /\ conn_fd c1 = fd /\
       conn_str c1 = Some s /\ capacity s = 2 ^ 21 /\ zeroed (wheap w1) s b /\
       forall h text, holding h s b text ->
         (exists h', init_locals (H := x86) fd h = Ok (None, h')) \/
         (exists l h' br bo, init_locals (H := x86) fd h = Ok (Some l, h') /\
            ready (Strings b br bo (2 ^ 21) (2 ^ 21) (2 ^ 20)) text c1 l h')).
Proof.
  destruct (prepare_ends w fd _ Hc eq_refl (conj eq_refl eq_refl)) as (e & w1 & E & [ (-> & _)|(-> & s & b & c1 & -> & Ew & Hcap & Z & _)]).
  { exists (-1), w1. split; [exact E|by left]. }
  exists 0, w1. split; [exact E|]. right. split; [done|]. eexists _, s, b. split; [by rewrite Ew|]. do 5 (split; [done|]).
  intros h text Hh. destruct (init_locals_ends fd (Connection fd 0 0 0 (co_new true None) (Some s) true) s b text h eq_refl Hh eq_refl eq_refl)
    as [(h' & E1 & _)|(l & h' & br & bo & E1 & R & _)]; [left; by exists h'|right]. rewrite Hcap in R. by exists l, h', br, bo.
Qed.

(** ** Witness: [GET /simple/y] *)

Definition y_routes : routes :=
  [(ROUTER METHOD_GET "/simple/y" (simple_y (H := x86)), Dynamic (fun _ => Page simple_y_reply))].
Definition y_request : bytes :=
  bytes_of_string "GET /simple/y HTTP/1.1" ++ CRLF ++ bytes_of_string "Host: lab" ++ CRLF ++ CRLF.
Definition y_strings : strings := Strings 1 2 3 128 64 256.
Definition y_conn : connection := Connection 5 IO_URING_OP_RECV 0 0 None (Some (String_t 128 0 (Ptr 1 0))) true.
Definition y_locals : locals :=
  Locals empty_request (Response 0 NULL 0 0 (Some (String_t 64 0 (Ptr 2 0))) (KV_INIT_WITH_BUF (replicate 20 None) 20))
    (Some (String_t 256 0 (Ptr 3 0))).
Definition y_world : world :=
  World {[5 := y_conn]} [] []
    (Heap {[1%positive := y_request ++ replicate 91 0; 2%positive := replicate 64 0; 3%positive := replicate 256 0]} [])
    (Static_state NULL []).

Lemma y_ready : ready y_strings y_request y_conn y_locals (wheap y_world).
Proof.
  destruct fresh_kv as [Hk1 Hk2].
  assert (Hz : forall c b, 0 < c < 2 ^ 63 -> mem (wheap y_world) !! b = Some (replicate (Z.to_nat c) 0) ->
    zeroed (wheap y_world) (String_t c 0 (Ptr b 0)) b) by done.
  constructor.
  - done.
  - eexists. split; [reflexivity|]. split; [reflexivity|]. split; reflexivity.
  - eexists. split; [reflexivity|]. split; [reflexivity|]. by apply Hz.
  - eexists. split; [reflexivity|]. split; [reflexivity|]. by apply Hz.
  - split; [apply fresh_empty|by split].
  - by split_and!.
  - done.
Qed.

Lemma y_routes_ok watch : Forall (route_ok watch) y_routes.
Proof.
  constructor; [|constructor]. split; [|split; [reflexivity|apply simple_y_handles] ].
  eexists. split; [reflexivity|]. by notin.
Qed.

Lemma y_request_ok fs : request_ok fs y_strings y_routes y_request.
Proof.
  constructor.
  - vm_compute. split; [reflexivity|reflexivity].
  - apply bytes_nonzero. reflexivity.
  - intros r E. vm_compute in E. injection E as <-. vm_compute. right. split; [discriminate|]. left. lia.
  - vm_compute. split; [split; discriminate|]. split; [reflexivity|]. split; [lia|]. split; [|reflexivity].
    repeat constructor; lia.
Qed.

(** Two files of 512 bytes. *)
Definition lab_files : file_system :=
  File_system
    (fun name => if bool_decide (name = bytes_of_string "./tests/fib.html") then 9
                 else if bool_decide (name = bytes_of_string "./tests/gccegg-65.png") then 10 else -2)
    (fun _ => (0, 512)) (fun fd => lit (if fd =? 10 then "image/png"%string else "text/html"%string)) (fun _ _ => NULL) NULL.

Lemma lab_files_ok : files_ok lab_files.
Proof.
  constructor.
  - intros name. unfold lab_files. cbn [sys_open]. by repeat case_bool_decide.
  - intros fd. cbn. lia.
  - intros fd. right. unfold lab_files. cbn [magic_descriptor]. destruct (fd =? 10); (eexists; split; [reflexivity|]; by notin).
Qed.


Lemma connection_set_up_witness :
  exists e w1, prepare_connection (H := x86) (World {[5 := Connection 5 0 0 0 None None false]} [] [] (Heap ∅ []) (Static_state NULL [])) 5 = Ok (e, w1).
Proof.
  destruct (connection_set_up (World {[5 := Connection 5 0 0 0 None None false]} [] [] (Heap ∅ []) (Static_state NULL [])) 5) as (e & w1 & E & _).
  - reflexivity.
  - exists e, w1. exact E.
Defined.
