(* ===== verification/System.v ===== *)
(** * The server as a whole

    The loop against a kernel that writes only what it receives: a completed
    receive puts its bytes at the start of the buffer it was given, and no other
    memory changes but by the server's own code.  On x86, in either build, with
    routes whose handlers implement their answers and clients whose requests the
    server's buffers can answer, every response in flight has the bytes of the
    specification and keeps them until it is sent, and every completion is handled
    without a fault: but for one that needs an allocation to have failed, the accept
    of a slot that was prepared without its string.

    The files may change from one completion to the next: each is handled with a
    file system of its own, and an answer is the one for the files at the time. *)

From S2P Require Import Prelude CMem Strbuf Kv Http HttpParser HttpParserRef HttpRoundTrip HttpResponse Coro IoUring IoLoop IoLoopInv Spec Routes Serve.
Open Scope Z_scope.

(** ** Capacities on x86 *)

Definition x86_caps (x : strings) : Prop := cap_in x = 2 ^ 21 /\ cap_res x = 2 ^ 21 /\ cap_out x = 2 ^ 20.

Definition some_strings : strings := Strings 1 2 3 (2 ^ 21) (2 ^ 21) (2 ^ 20).

(** What a client may send: a text the theorems of [Serve] speak of, or one that
    fills the buffer. *)
Definition client_ok (fs : file_system) (rs : routes) (text : bytes) : Prop :=
  Z.of_nat (length text) = 2 ^ 21 \/ request_ok fs some_strings rs text.

(** The specification, with the answer to a text that fills the buffer. *)
Definition decision_for (fs : file_system) (rs : routes) (text : bytes) : decision :=
  if Z.of_nat (length text) =? 2 ^ 21 then Canned RESPONSE_413 else decide_response fs rs text.
Definition response_to (fs : file_system) (rs : routes) (text : bytes) : bytes := render (decision_for fs rs text).

(** Its bytes are more than none and fewer than the buffers of the server hold. *)
Lemma response_bounds fs rs text : client_ok fs rs text -> 0 < Z.of_nat (length (response_to fs rs text)) < 2 ^ 20.
Proof.
  unfold response_to, decision_for. intros [->|Hok]; [by vm_compute|].
  destruct (Z.of_nat (length text) =? 2 ^ 21); [by vm_compute|]. pose proof (ok_fits _ _ _ _ Hok) as Hfits. cbn [cap_res cap_out some_strings] in Hfits.
  unfold decide_response in *. destruct (ref_parse text) as [r|]; [|by vm_compute].
  destruct (choose rs _ _) as [ [rt p] |]; [|by vm_compute].
  assert (H : forall d, fits (2 ^ 21) (2 ^ 20) d -> match d with Canned t => t = RESPONSE_404 \/ t = RESPONSE_500 | _ => True end ->
    0 < Z.of_nat (length (render d)) < 2 ^ 20).
  { intros [t|proto rep|proto mime fd size] Hf Hc; cbn [render].
    - destruct Hc as [-> | ->]; by vm_compute.
    - split; [|apply Hf]. unfold head, status_line. rewrite !length_app. cbn [length]. lia.
    - split; [|apply Hf]. unfold file_head, status_line. rewrite !length_app. cbn [length]. lia. }
  apply H; [exact Hfits|]. unfold decide_page, decision_of, decide_file. repeat case_match; try done; by simplify_eq; auto.
Qed.

Lemma request_ok_caps fs x rs text : x86_caps x -> request_ok fs some_strings rs text -> request_ok fs x rs text.
Proof. intros (H1 & H2 & H3) [Hl Hb Hh Hf]. constructor; [by rewrite H1|done|done|by rewrite H2, H3]. Qed.

(** The memory when an operation completes, and the text received. *)
Inductive kernel_memory (h : heap) (e : sqe) (ret : Z) : option bytes -> heap -> Prop :=
| kernel_writes fd b n bs text :
    op e = Recv fd (Buf (Ptr b 0)) n -> mem h !! b = Some bs -> ret = Z.of_nat (length text) -> 0 < ret <= n ->
    kernel_memory h e ret (Some text) (Heap (<[b := text ++ drop (length text) bs]> (mem h)) (oom h))
| kernel_leaves : is_recv (op e) = false \/ ret <= 0 -> kernel_memory h e ret None h.

(** The block that an operation names. *)
Definition op_block (o : sqe_op) : option block :=
  match o with
  | Recv _ (Buf (Ptr b _)) _ | Send _ (Buf (Ptr b _)) _ _ | Read _ (Buf (Ptr b _)) _ => Some b
  | _ => None
  end.

(** ** Turns *)

Lemma ready_frame x text c l h h' :
  (forall b, b ∈ footprint x -> mem h' !! b = mem h !! b) -> ready x text c l h -> ready x text c l h'.
Proof.
  intros F [Hap (si & ? & ? & Hb & Hm) (sr & ? & ? & Zr) (so & ? & ? & Zo) ? ? ?]. constructor; try done.
  - exists si. split_and!; [done..|]. split; [done|]. rewrite F by (by left). done.
  - exists sr. split_and!; [done..|]. eapply zeroed_frame; [|done]. apply F. right. by left.
  - exists so. split_and!; [done..|]. eapply zeroed_frame; [|done]. apply F. right. right. by left.
Qed.

Lemma set_heap_same w : set_heap w (wheap w) = w.
Proof. by destruct w. Qed.

(** Neither record looks at the action or the coroutine of the connection. *)
Lemma ready_conn x text c c' l h :
  conn_str c' = conn_str c -> cur_steps c' = cur_steps c -> total_steps c' = total_steps c ->
  ready x text c l h -> ready x text c' l h.
Proof. intros E1 E2 E3 []. constructor; by rewrite ?E1, ?E2, ?E3. Qed.

Lemma ready_busy x text c l h : (length text <= Z.to_nat (cap_in x))%nat -> 0 < cap_in x < 2 ^ 63 ->
  ready x text c l h -> busy x c l h.
Proof.
  intros Hlen Hcap [Hap (si & ? & Hci & Hb & Hm) (sr & ? & ? & Zr) (so & ? & ? & Zo) (_ & Hq & Hh) (_ & _ & _ & _ & _ & ?) _].
  constructor; try done.
  - exists si. split_and!; [done..|]. split; [done|]. split; [by rewrite Hci|]. eexists. split; [exact Hm|].
    rewrite length_app, length_replicate, Hci. lia.
  - exists sr. split_and!; [done..|]. by eapply repr_alive, zeroed_repr.
  - exists so. split_and!; [done..|]. by eapply repr_alive, zeroed_repr.
Qed.

#[local] Set Default Proof Using "All".

Section system.
#[local] Existing Instance x86.
Context `{Abi}.
Variable room : list sqe -> bool.
Variable watch : bool.
Variable rs : routes.
Variable pipefds : Z * Z.
Variable listen_fd : Z.
Hypothesis routes_ok : Forall (route_ok watch) rs.

Abbreviation run_turn fs := (turn room fs watch (fst <$> rs) pipefds).
Abbreviation handler fs := (io_uring_co_http_handler room fs watch (fst <$> rs) pipefds).
Abbreviation complete fs := (handle_cqe room fs watch (fst <$> rs) pipefds listen_fd).

(** The operations of the response to [text], with the header at [b]. *)
Abbreviation answer_ops fs i text b n := (response_ops watch pipefds i i b n (decision_for fs rs text)).

(** A request, answered, whether or not it fills the buffer. *)
Lemma turn_replies fs x i c l text w :
  ready x text c l (wheap w) -> x86_caps x -> conns w !! i = Some c -> action c = IO_URING_OP_RECV ->
  spare room 2 (ring w) -> files_ok fs -> client_ok fs rs text ->
  exists l' w', run_turn fs i l (Z.of_nat (length text)) w = Ok (l', w') /\
    answered watch pipefds x i c w (decision_for fs rs text) l' w'.
Proof.
  intros Hready Hcaps Hc Ha Hroom Hfs Hok. pose proof Hcaps as (Hci & Hcr & Hco).
  pose proof (ready_steps _ _ _ _ _ Hready) as [_ Htot].
  assert (Hlen : Z.of_nat (length text) = 2 ^ 21 \/ 0 < Z.of_nat (length text) < 2 ^ 21).
  { destruct Hok as [|Hok]; [by left|right]. apply (ok_length _ _ _ _ Hok). }
  unfold decision_for. destruct (Z.eqb_spec (Z.of_nat (length text)) (2 ^ 21)) as [Hfull|Hfull].
  - assert (Hb : busy x c l (wheap w)) by (apply (ready_busy x text c l (wheap w)); [lia|lia|exact Hready]).
    destruct (ready_in _ _ _ _ _ Hready) as (si & Hsi & Hcap & _).
    unfold turn, UNLIKELY. rewrite (get_conn_ok w i c Hc), bind_ok, Ha, Z.eqb_refl, Hsi. cbn [of_option].
    rewrite bind_ok, Hcap, Hci, i64_small, Hfull, Z.eqb_refl by lia.
    change (2 ^ 21 <? 0) with false. change (2 ^ 21 =? 0) with false. cbn iota.
    apply canned_answered; try done. by rewrite Htot.
  - destruct Hok as [|Hok]; [done|]. apply turn_answers; try done; [lia|]. by apply request_ok_caps.
Qed.

Lemma turn_failed fs i c l n w : conns w !! i = Some c -> action c = IO_URING_OP_RECV -> n < 0 -> run_turn fs i l n w = Ok (l, w).
Proof.
  intros Hc Ha Hn. unfold turn, UNLIKELY. rewrite (get_conn_ok w i c Hc), bind_ok, Ha, Z.eqb_refl.
  destruct (Z.ltb_spec n 0); [done|lia].
Qed.

Lemma turn_closed fs i c l w : conns w !! i = Some c -> action c = IO_URING_OP_RECV -> run_turn fs i l 0 w = reset i l w.
Proof. intros Hc Ha. unfold turn, UNLIKELY. by rewrite (get_conn_ok w i c Hc), bind_ok, Ha, Z.eqb_refl. Qed.

(** A completion for a connection runs its coroutine to the next yield. *)
Lemma complete_resumes fs i c co n w l' w' c' :
  conns w !! i = Some c -> action c <> IO_URING_OP_ACCEPT -> coro c = Some co ->
  padding co = 0 -> can_resume co ->
  handler fs i (context co) n w = Ok (Yield 0 (Some l'), w') -> conns w' !! i = Some c' ->
  complete fs (Some i) n w = Ok (put_conn w' i (set_coro c' (Some (Coroutine (Some l') 0 CO_STATUS_STARTED 0 In_func)))).
Proof.
  intros Hc Ha Hco Hp Hs E Hc'. unfold handle_cqe. rewrite (get_conn_ok w i c Hc), bind_ok.
  destruct (Z.eqb_spec (action c) IO_URING_OP_ACCEPT); [done|]. rewrite Hco. cbn [of_option]. rewrite bind_ok.
  rewrite resume_value_steps, E, !bind_ok by done. cbn [handed_over Z.eqb]. rewrite !bind_ok. by rewrite (get_conn_ok w' i c' Hc'), bind_ok.
Qed.

Lemma complete_returns fs i c co n w w' :
  conns w !! i = Some c -> action c <> IO_URING_OP_ACCEPT -> coro c = Some co ->
  padding co = 0 -> can_resume co ->
  handler fs i (context co) n w = Ok (Return, w') -> conns w' !! i = Some c ->
  complete fs (Some i) n w =
    Ok (put_conn w' i (set_coro c (Some (Coroutine (context co) (-1) CO_STATUS_STOPPED 0 In_entry_point)))).
Proof.
  intros Hc Ha Hco Hp Hs E Hc'. unfold handle_cqe. rewrite (get_conn_ok w i c Hc), bind_ok.
  destruct (Z.eqb_spec (action c) IO_URING_OP_ACCEPT); [done|]. rewrite Hco. cbn [of_option]. rewrite bind_ok.
  rewrite resume_value_steps, E, !bind_ok by done. cbn [handed_over Z.eqb]. rewrite !bind_ok. by rewrite (get_conn_ok w' i c Hc'), bind_ok.
Qed.

(** ** The memory of a slot *)

Definition recv_op (i : Z) (b : block) : sqe := Sqe (Recv i (Buf (Ptr b 0)) (2 ^ 21)) (Some i) 0.

(** A request: the files when it arrived, and its text. *)
Definition arrival : Type := (file_system * bytes).

(** What slot [i] is waiting for, with [q] outstanding and [t] received last; the
    last argument is the blocks it owns. *)
Inductive slot_mem (i : Z) (c : connection) (q : list sqe) (h : heap) (t : option arrival) : list block -> Prop :=
| slot_unused : coro c = None -> conn_str c = None -> q = [] -> slot_mem i c q h t []
| slot_poisoned co :                       (* prepared, but for its string *)
    coro c = Some co -> conn_str c = None -> q = [] -> slot_mem i c q h t []
| slot_returned co :                       (* the coroutine could not allocate its strings *)
    coro c = Some co -> co_stat co = CO_STATUS_STOPPED -> q = [] -> slot_mem i c q h t []
| slot_fresh v s b :                       (* accepted, the coroutine has not run *)
    coro c = Some (Coroutine None v CO_STATUS_CREATED 0 At_entry_point) -> conn_str c = Some s -> capacity s = 2 ^ 21 ->
    holding h s b [] -> q = [recv_op i b] -> action c = IO_URING_OP_RECV -> cur_steps c = 0 -> total_steps c = 0 ->
    conn_fd c = i -> slot_mem i c q h t [b]
| slot_waiting v l x :                     (* closed, or waiting for a request *)
    coro c = Some (Coroutine (Some l) v CO_STATUS_STARTED 0 In_func) -> x86_caps x -> ready x [] c l h ->
    q = [] \/ (q = [recv_op i (blk_in x)] /\ action c = IO_URING_OP_RECV) -> conn_fd c = i -> slot_mem i c q h t (footprint x)
| slot_sending v l x fs text b n :         (* a response is on its way *)
    coro c = Some (Coroutine (Some l) v CO_STATUS_STARTED 0 In_func) -> x86_caps x -> busy x c l h ->
    q <> [] -> q `sublist_of` answer_ops fs i text b n -> t = Some (fs, text) ->
    n = Z.of_nat (length (response_to fs rs text)) -> 0 < n < 2 ^ 20 ->
    (forall sf id fl, payload (mem h) (Sqe (Send i b n sf) id fl) = Ok (i, response_to fs rs text)) ->
    b = header_buf (blk_out x) (decision_for fs rs text) ->
    sending c -> 0 <= cur_steps c -> cur_steps c + Z.of_nat (length q) = total_steps c -> total_steps c <= 3 ->
    conn_fd c = i -> slot_mem i c q h t (footprint x).

Lemma payload_frame m m' e : (forall fd b o n f, op e = Send fd (Buf (Ptr b o)) n f -> m' !! b = m !! b) ->
  payload m' e = payload m e.
Proof.
  intros F. unfold payload. destruct (op e) as [|fd b n|fd b n|fd b n f|]; try done. destruct b as [p|]; [|done].
  unfold object. destruct p as [|b o|]; try done. by erewrite F.
Qed.

(** A slot whose blocks are not changed. *)
Lemma slot_mem_frame i c q h h' t bl :
  (forall b, b ∈ bl -> mem h' !! b = mem h !! b) -> slot_mem i c q h t bl -> slot_mem i c q h' t bl.
Proof.
  intros F S. destruct S as [| | |v s b ? ? ? [? Hm] ? ? ? ? ?|v l x ? ? Hr ? ?|v l x fs text b n ? ? Hb ? ? ? ? ? Hpay Hwhere ? ? ? ? ?].
  - by apply slot_unused.
  - by eapply slot_poisoned.
  - by eapply slot_returned.
  - eapply slot_fresh; try done. split; [done|]. rewrite F by (by left). done.
  - eapply slot_waiting; try done. by eapply ready_frame.
  - eapply slot_sending; try done.
    + pose proof (busy_stable x c (coro c) l h h' Hb F) as P. by destruct c.
    + intros sf id fl. rewrite <- (Hpay sf id fl). apply payload_frame. cbn [op]. intros fd b' o n' f Eop. injection Eop as _ Eb _ _.
      rewrite Hwhere in Eb. destruct (decision_for fs rs text); [done|..]; injection Eb as <- _; apply F; right; right; by left.
Qed.

(** Its blocks are live. *)
Lemma slot_mem_live i c q h t bl b : slot_mem i c q h t bl -> b ∈ bl -> is_Some (mem h !! b).
Proof.
  assert (Hbusy : forall x l, busy x c l h -> b ∈ footprint x -> is_Some (mem h !! b)).
  { intros x l [_ (si & _ & _ & _ & _ & bi & Hi & _) (sr & _ & _ & _ & _ & br & Hr & _) (so & _ & _ & _ & _ & bo & Ho & _) _ _] Hb.
    repeat (apply elem_of_cons in Hb as [->|Hb]; [by eexists|]). by apply not_elem_of_nil in Hb. }
  intros S Hb. destruct S as [| | |v s b0 ? ? ? [? Hm] ? ? ? ? ?|v l x ? [Hc _] Hr ? ?|v l x fs text b0 n ? ? Hbz ? ? ? ? ? Hpay Hwhere ? ? ? ? ?].
  - by apply not_elem_of_nil in Hb.
  - by apply not_elem_of_nil in Hb.
  - by apply not_elem_of_nil in Hb.
  - apply list_elem_of_singleton in Hb as ->. by eexists.
  - eapply Hbusy; [|exact Hb]. apply (ready_busy x []); [simpl; lia|lia|exact Hr].
  - by eapply Hbusy.
Qed.

(** ** Completions of a connection *)

(** A slot whose receive has completed with [text] in its buffer. *)
Inductive has_received (i : Z) (c : connection) (h : heap) (text : bytes) : list block -> Prop :=
| received_fresh v s b :
    coro c = Some (Coroutine None v CO_STATUS_CREATED 0 At_entry_point) -> conn_str c = Some s -> capacity s = 2 ^ 21 ->
    holding h s b text -> cur_steps c = 0 -> total_steps c = 0 -> has_received i c h text [b]
| received_waiting v l x :
    coro c = Some (Coroutine (Some l) v CO_STATUS_STARTED 0 In_func) -> x86_caps x -> ready x text c l h ->
    has_received i c h text (footprint x).

(** The blocks [bl'] are some of [bl] or new ones; all other live memory is kept. *)
Definition grows (bl bl' : list block) (h h' : heap) : Prop :=
  (oom h = [] -> oom h' = []) /\
  (forall b bs, b ∉ bl -> mem h !! b = Some bs -> mem h' !! b = Some bs) /\
  (forall b, b ∈ bl' -> b ∈ bl \/ mem h !! b = None).

Lemma grows_refl bl h : grows bl bl h h.
Proof. split_and!; [done|done|by left]. Qed.

Lemma grows_trans bl bl1 bl2 h h1 h2 : grows bl bl1 h h1 -> grows bl1 bl2 h1 h2 -> grows bl bl2 h h2.
Proof.
  intros (O1 & F1 & N1) (O2 & F2 & N2). split; [by intros ?%O1%O2|]. split.
  - intros b bs Hb Hm. apply F2; [|by apply F1]. intros Hb1. destruct (N1 b Hb1); [done|congruence].
  - intros b Hb2. destruct (N2 b Hb2) as [Hb1|Hn]; [by apply N1|]. destruct (decide (b ∈ bl)) as [|Hb]; [by left|right].
    destruct (mem h !! b) as [bs|] eqn:Hm; [|done]. by rewrite (F1 b bs Hb Hm) in Hn.
Qed.

Lemma confined_grows x h h' : confined x h h' -> grows (footprint x) (footprint x) h h'.
Proof. intros [O F]. split_and!; [done|exact F|by left]. Qed.

Lemma grows_confined bl x h h1 h2 : grows bl (footprint x) h h1 -> confined x h1 h2 -> grows bl (footprint x) h h2.
Proof. intros G K. eapply grows_trans; [exact G|by apply confined_grows]. Qed.

(** The coroutine gets to its loop with the text, or cannot allocate its strings and
    returns. *)
Lemma enters_loop i c h text bl :
  has_received i c h text bl ->
  exists co, coro c = Some co /\ padding co = 0 /\ can_resume co /\ is_Some (conn_str c) /\
   ((oom h <> [] /\ exists h', grows bl [] h h' /\
      forall fs w n, wheap w = h -> handler fs i (context co) n w = Ok (Return, set_heap w h')) \/
    exists l x h1, x86_caps x /\ ready x text c l h1 /\ grows bl (footprint x) h h1 /\
      forall fs w n, wheap w = h ->
        handler fs i (context co) n w = ('(l', w') ← run_turn fs i l n (set_heap w h1); Ok (Yield 0 (Some l'), w'))).
Proof.
  intros S. destruct S as [v s b Hco Hs Hcap Hh Hcur Htot|v l x Hco Hx Hr].
  - eexists. split; [exact Hco|]. split; [done|]. split; [done|]. split; [by rewrite Hs|].
    destruct (init_locals_ends i c s b text h Hs Hh Hcur Htot)
      as [(h' & E & Ho & F)|(l & h1 & br & bo & E & R & Nr & No & F & O)]; [left|right].
    + split; [done|]. exists h'. split; [by split_and!; [|intros b' bs _; apply F|intros b' ?%not_elem_of_nil]|].
      intros fs w n <-. unfold io_uring_co_http_handler. cbn [context]. by rewrite E, !bind_ok.
    + rewrite Hcap in R. exists l, (Strings b br bo (2 ^ 21) (2 ^ 21) (2 ^ 20)), h1. split; [|split; [exact R|]; split; [split; [exact O|split]|] ]; [done| | |].
      * intros b' bs _. apply F.
      * cbn [footprint blk_in blk_res blk_out]. intros b' Hb'. apply elem_of_cons in Hb' as [->|Hb']; [left; by left|right].
        apply elem_of_cons in Hb' as [->|Hb']; [done|]. by apply list_elem_of_singleton in Hb' as ->.
      * intros fs w n <-. unfold io_uring_co_http_handler. cbn [context]. by rewrite E, !bind_ok.
  - eexists. split; [exact Hco|]. split; [done|]. split; [done|].
    destruct (ready_in _ _ _ _ _ Hr) as (s & Hs & _). split; [by rewrite Hs|]. right.
    exists l, x, h. do 2 (split; [done|]). split; [apply grows_refl|].
    intros fs w n <-. unfold io_uring_co_http_handler. cbn [context]. by rewrite bind_ok, set_heap_same.
Qed.

(** The completion of slot [i] is handled, and leaves the slot with [rest], what was
    outstanding next to what completed, and the operations [new] it queues.  [r] is
    the text received, [t] the arrival before; [step] says whether what completed was
    a step of a response. *)
Definition advances (fs : file_system) (i : Z) (rest : list sqe) (step : bool) (ret : Z) (r : option bytes)
    (t : option arrival) (bl : list block) (w : world) : Prop :=
  exists w' c' new bl', complete fs (Some i) ret w = Ok w' /\
    conns w' = <[i := c']> (conns w) /\ ring w' = ring w ++ new /\ Forall (fun e => user_data e = Some i) new /\
    slot_mem i c' (rest ++ new) (wheap w') (union (pair fs <$> r) t) bl' /\ grows bl bl' (wheap w) (wheap w') /\
    is_Some (conn_str c') /\
    (forall text, r = Some text -> oom (wheap w) = [] -> exists b n, new = answer_ops fs i text b n) /\
    (step = true -> new = [] /\ (rest = [] -> closed w' = i :: closed w)).

Definition started (l : locals) : coroutine (option locals) := Coroutine (Some l) 0 CO_STATUS_STARTED 0 In_func.

Lemma turn_advances fs i c co rest step ret r t bl x w w1 l' w' c1 new :
  conns w !! i = Some c -> action c <> IO_URING_OP_ACCEPT -> coro c = Some co -> padding co = 0 ->
  can_resume co -> conns w1 = conns w -> ring w1 = ring w -> closed w1 = closed w ->
  handler fs i (context co) ret w = Ok (Yield 0 (Some l'), w') ->
  conns w' = <[i := c1]> (conns w1) -> ring w' = ring w1 ++ new -> Forall (fun e => user_data e = Some i) new ->
  slot_mem i (set_coro c1 (Some (started l'))) (rest ++ new) (wheap w') (union (pair fs <$> r) t) (footprint x) ->
  grows bl (footprint x) (wheap w) (wheap w') -> is_Some (conn_str c1) ->
  (forall text, r = Some text -> exists b n, new = answer_ops fs i text b n) ->
  (step = true -> new = [] /\ (rest = [] -> closed w' = i :: closed w1)) ->
  advances fs i rest step ret r t bl w.
Proof.
  intros Hc Ha Hco Hp Hs E1 E2 E3 E Hconns Hring Hnew Hslot Hg Hstr Hr Hstep.
  eexists _, _, new, (footprint x). split; [eapply complete_resumes; [exact Hc|exact Ha|exact Hco|exact Hp|exact Hs|exact E|]|].
  { rewrite Hconns. apply lookup_insert_eq. }
  unfold put_conn, set_conns. cbn [conns ring wheap closed]. split; [by rewrite Hconns, insert_insert_eq, E1|].
  split; [by rewrite Hring, E2|]. rewrite <- E3. split_and!; try done; try apply Hg. intros text Ht _. by apply Hr.
Qed.

Lemma ready_str x text c l h : ready x text c l h -> is_Some (conn_str c).
Proof. intros R. destruct (ready_in _ _ _ _ _ R) as (s & -> & _). by eexists. Qed.

Lemma busy_str x c l h : busy x c l h -> is_Some (conn_str c).
Proof. intros R. destruct (busy_in _ _ _ _ R) as (s & -> & _). by eexists. Qed.

(** The coroutine could not start. *)
Lemma return_advances fs i c co h' ret r t bl w :
  conns w !! i = Some c -> action c = IO_URING_OP_RECV -> coro c = Some co -> padding co = 0 ->
  can_resume co -> is_Some (conn_str c) -> oom (wheap w) <> [] -> grows bl [] (wheap w) h' ->
  handler fs i (context co) ret w = Ok (Return, set_heap w h') -> advances fs i [] false ret r t bl w.
Proof.
  intros Hc Ha Hco Hp Hs Hstr Ho Hg E. eexists _, _, [], [].
  split; [eapply complete_returns; [exact Hc|by rewrite Ha|exact Hco|exact Hp|exact Hs|exact E|exact Hc]|].
  unfold put_conn, set_conns, set_heap. cbn [conns ring wheap closed]. split; [done|]. split; [by rewrite app_nil_r|].
  split; [done|]. split; [by eapply slot_returned|]. by split_and!; try done; apply Hg.
Qed.

(** The operations of a response are steps of its connection, one or three. *)
Lemma answer_ops_steps fs i text b n :
  Forall (fun e => user_data e = Some i /\ is_step (op e) = true) (answer_ops fs i text b n) /\
  (0 < length (answer_ops fs i text b n) <= 3)%nat.
Proof using Type.
  clear routes_ok. unfold response_ops, head_op, file_ops. destruct (decision_for fs rs text), watch; cbn; (split; [|lia]); by repeat constructor.
Qed.

Lemma sublist_steps fs i text b n q : q `sublist_of` answer_ops fs i text b n ->
  Forall (fun e => user_data e = Some i /\ is_step (op e) = true) q.
Proof using Type.
  intros Hq. destruct (answer_ops_steps fs i text b n) as [Hall _]. rewrite Forall_forall in Hall. apply Forall_forall.
  intros e He. apply Hall. by eapply elem_of_sublist.
Qed.

(** A request has been answered. *)
Lemma answered_slot fs x i c text w l' w' t :
  answered watch pipefds x i c w (decision_for fs rs text) l' w' -> x86_caps x -> conn_fd c = i -> client_ok fs rs text ->
  cur_steps c = 0 -> total_steps c = 0 ->
  exists b n, conns w' = <[i := sent watch pipefds i i (decision_for fs rs text) c]> (conns w) /\
    ring w' = ring w ++ answer_ops fs i text b n /\ confined x (wheap w) (wheap w') /\
    is_Some (conn_str c) /\
    slot_mem i (set_coro (sent watch pipefds i i (decision_for fs rs text) c) (Some (started l')))
      (answer_ops fs i text b n) (wheap w') (union (Some (fs, text)) t) (footprint x).
Proof.
  intros [(b & n & [Q1 Q2 Q3] & Hn & Hpay & Hwhere) Hb K] Hx Hfd Hok Hcur Htot. rewrite Hfd in *. exists b, n.
  split; [exact Q1|]. split; [exact Q2|]. split; [exact K|]. split; [by eapply busy_str|].
  destruct (answer_ops_steps fs i text b n) as [_ Hlen].
  eapply (slot_sending i _ _ _ _ 0 l' x fs text b n); try done; [by apply (busy_conn x c)|by destruct t|rewrite Hn; by apply response_bounds| | | | ].
  - unfold sending, sent. cbn. destruct (file_ops _ _ _ _ _); [by left|by right].
  - cbn. lia.
  - cbn [cur_steps total_steps set_coro sent set_steps set_action]. rewrite Hcur, Htot. unfold response_ops. cbn [length]. lia.
  - cbn [total_steps set_coro sent set_steps]. rewrite Htot. unfold response_ops in Hlen. cbn [length] in Hlen. lia.
Qed.

Lemma recv_advances fs i c text bl ret r t w :
  has_received i c (wheap w) text bl -> conns w !! i = Some c ->
  action c = IO_URING_OP_RECV -> conn_fd c = i -> spare room 2 (ring w) -> files_ok fs ->
  (ret <= 0 /\ text = [] /\ r = None) \/ (0 < ret /\ ret = Z.of_nat (length text) /\ client_ok fs rs text /\ r = Some text) ->
  advances fs i [] false ret r t bl w.
Proof.
  intros Hrec Hc Ha Hfd Hroom Hfs Hret.
  destruct (enters_loop i c (wheap w) text bl Hrec) as (co & Hco & Hp & Hs & Hstr & [(Ho & h' & Hg & Hrun)|(l & x & h1 & Hx & Hready & Hg & Hrun)]).
  { eapply return_advances; try done. by apply Hrun. }
  specialize (Hrun fs w ret eq_refl). set (w1 := set_heap w h1) in *. assert (Ha' : action c <> IO_URING_OP_ACCEPT) by by rewrite Ha.
  destruct Hret as [(Hneg & -> & ->)|(Hpos & -> & Hok & ->)].
  - destruct (decide (ret = 0)) as [->|Hne].
    + assert (Hb : busy x c l (wheap w1)) by (destruct Hx as [Hx _]; apply (ready_busy x []); [simpl; lia|lia|exact Hready]).
      destruct (reset_recycles x i c l w1 Hb Hc) as (l' & w' & c' & E & Hconns & Hring & _ & Hfd' & Hact & R & K).
      rewrite (turn_closed fs i c l w1 Hc Ha), E, bind_ok in Hrun.
      eapply (turn_advances fs i c co [] false 0 None t bl x w w1 l' w' c' []); try done; [by rewrite app_nil_r| |by eapply grows_confined|by eapply ready_str].
      eapply slot_waiting; [done|exact Hx|by apply (ready_conn x [] c')|by left|change (conn_fd c' = i); congruence].
    + rewrite (turn_failed fs i c l ret w1 Hc Ha ltac:(lia)), bind_ok in Hrun.
      eapply (turn_advances fs i c co [] false ret None t bl x w w1 l w1 c []); try done; [by rewrite insert_id|by rewrite app_nil_r|].
      eapply slot_waiting; [done|exact Hx|by apply (ready_conn x [] c)|by left|done].
  - pose proof (ready_steps _ _ _ _ _ Hready) as [Hcur Htot].
    destruct (turn_replies fs x i c l text w1 Hready Hx Hc Ha Hroom Hfs Hok) as (l' & w' & E & Hans).
    rewrite E, bind_ok in Hrun.
    destruct (answered_slot fs x i c text w1 l' w' t Hans Hx Hfd Hok Hcur Htot) as (b & n & Hconns & Hring & K & _ & Hslot).
    eapply (turn_advances fs i c co [] false _ (Some text) t bl x w w1 l' w' _ (answer_ops fs i text b n)); try done.
    + eapply Forall_impl; [apply answer_ops_steps|]. by intros e [? _].
    + by eapply grows_confined.
    + intros text' [= <-]. by exists b, n.
Qed.

(** A step of a response is done. *)
Lemma step_advances fs0 i c u e v h t bl w ret :
  slot_mem i c (u ++ e :: v) h t bl -> is_step (op e) = true -> wheap w = h -> conns w !! i = Some c ->
  advances fs0 i (u ++ v) true ret None t bl w.
Proof.
  intros S He <- Hc.
  inversion S as [? ? Hq|? ? ? Hq|? ? ? Hq|? ? ? ? ? ? ? Hq|? ? ? ? ? ? Hq|v0 l x fs text b n Hco Hx Hb Hq Hsub Ht Hn Hn' Hpay Hwhere Ha Hcur Htot Hmax Hfd]; subst bl.
  1, 2, 3: by destruct u.
  { destruct u as [|y u]; [injection Hq as -> _|injection Hq as _ Hq; by destruct u]. done. }
  { destruct Hq as [Hq|[Hq _] ]; [by destruct u|]. destruct u as [|y u]; [injection Hq as -> _|injection Hq as _ Hq; by destruct u]. done. }
  rewrite length_app in Htot. cbn [length] in Htot. assert (Ha' : action c <> IO_URING_OP_ACCEPT) by by destruct Ha as [-> | ->].
  destruct (decide (u ++ v = [])) as [Hnil|Hnil].
  - rewrite Hnil. apply app_eq_nil in Hnil as [-> ->]. cbn [length] in Htot.
    destruct (turn_completes room fs0 watch pipefds (fst <$> rs) x i c l ret w Hb Hc Ha) as
      (l' & w' & c' & E & Hconns & Hring & Hcl & Hfd' & _ & R & K); [lia|unfold INT_MAX; lia|].
    eapply (turn_advances fs0 i c _ [] true ret None t (footprint x) x w w l' w' c' []); try done.
    + unfold io_uring_co_http_handler. cbn [context]. by rewrite bind_ok, E, bind_ok.
    + by rewrite app_nil_r.
    + eapply slot_waiting; [done|exact Hx|by apply (ready_conn x [] c')|by left|change (conn_fd c' = i); congruence].
    + eapply grows_confined; [apply grows_refl|exact K].
    + by eapply ready_str.
    + intros _. split; [done|]. intros _. by rewrite Hcl, Hfd.
  - assert (Hlen : (0 < length (u ++ v))%nat) by (destruct (u ++ v); [done|simpl; lia]). rewrite length_app in Hlen.
    pose proof (turn_counts room fs0 watch pipefds (fst <$> rs) i c l ret w Hc Ha ltac:(lia) ltac:(unfold INT_MAX; lia)) as E.
    eapply (turn_advances fs0 i c _ (u ++ v) true ret None t (footprint x) x w w l
      (put_conn w i (set_steps c (cur_steps c + 1) (total_steps c))) (set_steps c (cur_steps c + 1) (total_steps c)) []); try done.
    + unfold io_uring_co_http_handler. cbn [context]. by rewrite bind_ok, E, bind_ok.
    + by rewrite app_nil_r.
    + rewrite app_nil_r. eapply (slot_sending i _ _ _ _ 0 l x fs text b n); try done; [by apply (busy_conn x c)| |by rewrite Ht| |].
      * etransitivity; [|exact Hsub]. apply sublist_app; [done|]. by apply sublist_cons.
      * cbn. lia.
      * cbn. rewrite length_app. lia.
    + apply grows_refl.
    + exact (busy_str x c l _ Hb).
Qed.

Lemma holding_nil h s b : holding h s b [] <-> buf s = Ptr b 0 /\ mem h !! b = Some (replicate (Z.to_nat (capacity s)) 0).
Proof using Type. unfold holding. cbn [app length]. by rewrite Nat.sub_0_r. Qed.

(** The state of a slot whose receive is outstanding: what has arrived makes it
    [has_received]. *)
Lemma slot_receives i c e h t bl :
  slot_mem i c [e] h t bl -> is_recv (op e) = true ->
  exists b, e = recv_op i b /\ b ∈ bl /\ mem h !! b = Some (replicate (Z.to_nat (2 ^ 21)) 0) /\
    action c = IO_URING_OP_RECV /\ conn_fd c = i /\ has_received i c h [] bl /\
    forall text o, has_received i c (Heap (<[b := text ++ replicate (Z.to_nat (2 ^ 21) - length text) 0]> (mem h)) o) text bl.
Proof using Type.
  intros S He. inversion S as [? ? Hq|? ? ? Hq|? ? ? Hq|v s b Hco Hs Hcap Hh Hq Ha Hcur Htot Hfd|v l x Hco Hx Hr Hq Hfd|v l x fs text b n Hco Hx Hb _ Hq]; subst bl; try done.
  - injection Hq as ->. exists b. pose proof Hh as [Hbuf Hm]%holding_nil. rewrite Hcap in Hm. split_and!; [done|by left|exact Hm|done|done| |].
    + eapply received_fresh; [exact Hco|exact Hs|exact Hcap|exact Hh|exact Hcur|exact Htot].
    + intros text o. eapply received_fresh; [exact Hco|exact Hs|exact Hcap| |exact Hcur|exact Htot]. split; [done|].
      cbn [mem]. by rewrite lookup_insert_eq, Hcap.
  - destruct Hq as [|[Hq Ha]]; [done|]. injection Hq as ->. destruct (ready_in _ _ _ _ _ Hr) as (s & Hs & Hcap & [Hb Hm]%holding_nil).
    pose proof Hx as (Hci & _). rewrite Hcap, Hci in Hm.
    exists (blk_in x). split_and!; [done|by left|exact Hm|done|done|by eapply received_waiting|].
    intros text o. eapply received_waiting; try done. destruct Hr as [(? & ? & ?) _ (sr & ? & ? & Zr) (so & ? & ? & Zo) ? ? ?].
    constructor; try done.
    + exists s. split_and!; [done..|]. split; [done|]. cbn [mem]. by rewrite lookup_insert_eq, Hcap, Hci.
    + exists sr. split_and!; [done..|]. eapply zeroed_frame; [|done]. by apply lookup_insert_ne.
    + exists so. split_and!; [done..|]. eapply zeroed_frame; [|done]. by apply lookup_insert_ne.
  - apply sublist_steps, Forall_cons in Hq as [ [_ Hstep] _]. by destruct (op e).
Qed.

Lemma grows_write b text bs bl h : mem h !! b = Some bs -> b ∈ bl -> grows bl bl h (Heap (<[b := text]> (mem h)) (oom h)).
Proof.
  intros Hb Hin. split_and!; [done| |by left]. intros b' bs' Hb' Hm. cbn [mem]. rewrite lookup_insert_ne; [done|]. by intros ->.
Qed.

Lemma kernel_memory_inv h e ret t h' : kernel_memory h e ret t h' ->
  (exists fd b n bs text, op e = Recv fd (Buf (Ptr b 0)) n /\ mem h !! b = Some bs /\ ret = Z.of_nat (length text) /\
     0 < ret <= n /\ t = Some text /\ h' = Heap (<[b := text ++ drop (length text) bs]> (mem h)) (oom h)) \/
  ((is_recv (op e) = false \/ ret <= 0) /\ t = None /\ h' = h).
Proof. destruct 1 as [fd b n bs text|]; [left|by right]. by exists fd, b, n, bs, text. Qed.

(** Only the steps of a response are outstanding together. *)
Lemma slot_mem_one i c u e v h t bl : slot_mem i c (u ++ e :: v) h t bl -> is_step (op e) = false -> u = [] /\ v = [].
Proof using Type.
  assert (Hone : forall x : sqe, u ++ e :: v = [x] -> u = [] /\ v = []).
  { intros x E. destruct u as [|y u]; [by injection E as _ ->|]. injection E as _ E. by destruct u. }
  intros S He.
  inversion S as [? ? Hq|? ? ? Hq|? ? ? Hq|? ? ? ? ? ? ? Hq|? ? ? ? ? ? Hq|? ? ? fs text b n ? ? ? _ Hq]; try by eapply Hone.
  1, 2, 3: by destruct u.
  - destruct Hq as [Hq|[Hq _]]; [by destruct u|by eapply Hone].
  - apply sublist_steps, Forall_app in Hq as [_ [ [_ Hstep] _]%Forall_cons]. congruence.
Qed.

(** The completion of slot [i]'s operation, after what the kernel has written. *)
Lemma slot_completes fs i c u e v ret t0 t h0 h bl w :
  slot_mem i c (u ++ e :: v) h0 t0 bl -> kernel_memory h0 e ret t h -> wheap w = h -> conns w !! i = Some c ->
  spare room 2 (ring w) -> files_ok fs -> (forall text, t = Some text -> client_ok fs rs text) ->
  advances fs i (u ++ v) (is_step (op e)) ret t t0 bl w /\ grows bl bl h0 h.
Proof.
  intros S K Ew Hc Hroom Hfs Hok. apply kernel_memory_inv in K. destruct (is_step (op e)) eqn:Hstep.
  { destruct K as [(fd & b' & n & bs & text & Hop & _)|(_ & -> & ->)]; [by rewrite Hop in Hstep|].
    split; [by eapply step_advances|apply grows_refl]. }
  destruct (slot_mem_one _ _ _ _ _ _ _ _ S Hstep) as [-> ->]. cbn [app] in *.
  assert (He : is_recv (op e) = true).
  { inversion S as [? ? Hq|? ? ? Hq|? ? ? Hq|? ? ? ? ? ? ? Hq|? ? ? ? ? ? Hq|? ? ? fs' text b n ? ? ? _ Hq]; try done.
    - by injection Hq as ->.
    - destruct Hq as [|[Hq _]]; [done|]. by injection Hq as ->.
    - apply sublist_steps, Forall_cons in Hq as [ [_ Hs] _]. congruence. }
  destruct (slot_receives i c e h0 t0 bl S He) as (b & -> & Hb & Hm & Ha & Hfd & Hnone & Htext).
  destruct K as [(fd & b' & n & bs & text & Hop & Hbs & Hret & Hbnd & -> & ->)|(Hwhy & -> & ->)].
  - injection Hop as <- <- <-. rewrite Hm in Hbs. apply (inj Some) in Hbs as <-. rewrite drop_replicate in Ew |- *.
    split; [|eapply grows_write; [exact Hm|exact Hb] ].
    apply (recv_advances fs _ c text); rewrite ?Ew; [apply Htext|done..|].
    right. split_and!; [lia|done|by apply Hok|done].
  - split; [|apply grows_refl]. destruct Hwhy as [|Hneg]; [done|].
    apply (recv_advances fs _ c []); rewrite ?Ew; try done. by left.
Qed.

(** The operation of a slot that is not a step is a receive. *)
Lemma slot_mem_recv i c e h t bl : slot_mem i c [e] h t bl -> is_recv (op e) = true \/ is_step (op e) = true.
Proof using Type.
  intros S. inversion S as [? ? Hq|? ? ? Hq|? ? ? Hq|v s b Hco Hs Hcap Hh Hq|v l x Hco Hx Hr Hq|v l x fs text b n Hco Hx Hb _ Hq]; subst bl; try done.
  - injection Hq as ->. by left.
  - destruct Hq as [Hq|[Hq _] ]; [done|]. injection Hq as ->. by left.
  - apply sublist_steps, Forall_cons in Hq as [ [_ Hstep] _]. by right.
Qed.

(** The memory that an operation names is the slot's. *)
Lemma slot_mem_block i c q e h t bl b : slot_mem i c q h t bl -> e ∈ q -> op_block (op e) = Some b -> b ∈ bl.
Proof.
  intros S He Hb. destruct S as [? ? Hq|? ? ? Hq|? ? ? Hq|v s b0 Hco Hs Hcap Hh Hq|v l x Hco Hx Hr Hq|v l x fs text b0 n Hco Hx Hbz _ Hq ? ? ? ? Hwhere].
  1, 2, 3: rewrite Hq in He; by apply not_elem_of_nil in He.
  - rewrite Hq in He. apply list_elem_of_singleton in He as ->. cbn in Hb. injection Hb as ->. by left.
  - destruct Hq as [Hq|[Hq _] ]; rewrite Hq in He; [by apply not_elem_of_nil in He|].
    apply list_elem_of_singleton in He as ->. cbn in Hb. injection Hb as <-. by left.
  - pose proof (elem_of_sublist _ _ _ He Hq) as Hin. unfold response_ops in Hin. apply elem_of_cons in Hin as [->|Hin].
    + rewrite Hwhere in Hb. unfold head_op in Hb.
      destruct (file_ops _ _ _ _ _), (decision_for fs rs text); try done; cbn in Hb; injection Hb as <-; right; right; by left.
    + destruct (decision_for fs rs text), watch; cbn [file_ops splice_ops] in Hin; try (by apply not_elem_of_nil in Hin);
        repeat (apply elem_of_cons in Hin as [->|Hin]; [done|]); by apply not_elem_of_nil in Hin.
Qed.

(** ** All slots *)

(** Every slot waits for its operations [q]; the blocks [F] of the slots are
    disjoint. *)
Record slots (cs : gmap Z connection) (q : Z -> list sqe) (h : heap) (t : gmap Z arrival) (F : Z -> list block) : Prop := Slots {
  slots_mem : forall i c, i <> listen_fd -> cs !! i = Some c -> slot_mem i c (q i) h (t !! i) (F i);
  slots_dom : forall i b, b ∈ F i -> i <> listen_fd /\ is_Some (cs !! i);
  slots_apart : forall i j b, b ∈ F i -> b ∈ F j -> i = j
}.

Lemma slots_live cs q h t F i b : slots cs q h t F -> b ∈ F i -> is_Some (mem h !! b).
Proof. intros S Hb. destruct (slots_dom _ _ _ _ _ S i b Hb) as [Hi [c Hc]]. by eapply slot_mem_live; [eapply slots_mem|]. Qed.

(** The other slots do not see what slot [i] does. *)
Lemma slots_update cs cs' q q' h h' t t' F i c' bl :
  slots cs q h t F -> i <> listen_fd -> grows (F i) bl h h' -> cs' !! i = Some c' ->
  slot_mem i c' (q' i) h' (t' !! i) bl ->
  (forall j, j <> i -> j <> listen_fd -> cs' !! j = cs !! j /\ q' j = q j /\ t' !! j = t !! j) ->
  slots cs' q' h' t' (fun j => if decide (j = i) then bl else F j).
Proof.
  intros S Hi (_ & Hkeep & Hnew) Hc' Hslot Hother.
  assert (Hfresh : forall j b, j <> i -> b ∈ F j -> b ∈ bl -> False).
  { intros j b Hj Hb Hbl. destruct (Hnew b Hbl) as [Hbi|Hn].
    - by apply Hj, (slots_apart _ _ _ _ _ S j i b).
    - destruct (slots_live _ _ _ _ _ j b S Hb) as [bs Hbs]. congruence. }
  constructor.
  - intros j c Hj Hc. destruct (decide (j = i)) as [->|Hne].
    + rewrite Hc' in Hc. by injection Hc as <-.
    + destruct (Hother j Hne Hj) as (E1 & E2 & E3). rewrite E1 in Hc. rewrite E2, E3.
      eapply slot_mem_frame; [|by apply (slots_mem _ _ _ _ _ S)]. intros b Hb.
      destruct (slots_live _ _ _ _ _ j b S Hb) as [bs Hbs]. rewrite Hbs. apply Hkeep; [|done].
      intros Hbi. by apply Hne, (slots_apart _ _ _ _ _ S j i b).
  - intros j b Hb. destruct (decide (j = i)) as [->|Hne]; [by rewrite Hc'|].
    destruct (slots_dom _ _ _ _ _ S j b Hb) as [Hj Hc]. split; [done|]. by destruct (Hother j Hne Hj) as (-> & _ & _).
  - intros j k b. destruct (decide (j = i)) as [->|Hj]; destruct (decide (k = i)) as [->|Hk]; [done| | |].
    + intros Hb Hb'. by destruct (Hfresh k b Hk Hb' Hb).
    + intros Hb Hb'. by destruct (Hfresh j b Hj Hb Hb').
    + apply (slots_apart _ _ _ _ _ S).
Qed.

Lemma slots_same cs cs' q q' h t F :
  slots cs q h t F -> (forall j, j <> listen_fd -> cs' !! j = cs !! j /\ q' j = q j) -> slots cs' q' h t F.
Proof.
  intros [Sm Sd Sa] E. constructor; [| |done].
  - intros j c Hj Hc. destruct (E j Hj) as [E1 E2]. rewrite E1 in Hc. rewrite E2. by apply Sm.
  - intros j b Hb. destruct (Sd j b Hb) as [Hj Hc]. split; [done|]. by destruct (E j Hj) as [-> _].
Qed.

(** ** The live server *)

(** The server, and what each connection received last. *)
Record live := Live { core : sys; received : gmap Z arrival }.

Definition after (s : sys) (pre post : list sqe) (e : sqe) (ret : Z) (w' : world) : sys :=
  Sys w' (pre ++ post) ((accepted e ret ∪ opens s) ∖ list_to_set (newly_closed (server s) w')).
Definition submitted (s : sys) : sys :=
  Sys (World (conns (server s)) [] (closed (server s)) (wheap (server s)) (statics (server s))) (ops s) (opens s).
Definition heard (t : gmap Z arrival) (u : option Z) (r : option arrival) : gmap Z arrival :=
  match u, r with Some i, Some a => <[i := a]> t | _, _ => t end.

(** What the environment does when operation [e] completes with [ret] and the files
    are [fs]: an accepted descriptor is not open and has a slot, the kernel writes
    only the text it received, which is one the server's buffers can answer, and
    liburing has room for the three operations that a completion may queue. *)
Record environment (s : sys) (fs : file_system) (e : sqe) (ret : Z) (t : option bytes) (h : heap) : Prop := Environment {
  env_kernel : kernel_ok listen_fd s e ret;
  env_slot : is_accept (op e) = true -> 0 <= ret -> is_Some (conns (server s) !! ret);
  env_memory : kernel_memory (wheap (server s)) e ret t h;
  env_files : files_ok fs;
  env_client : forall text, t = Some text -> client_ok fs rs text;
  env_room : spare room 2 (ring (server s))
}.

(** What happens next: the queue is submitted, or an operation completes, with a
    text if it is a receive that brought one. *)
Inductive event := Submit | Completion (e : sqe) (ret : Z) (fs : file_system) (t : option bytes).

Inductive live_step : live -> event -> live -> Prop :=
| live_submit s : live_step s Submit (Live (submitted (core s)) (received s))
| live_complete s pre e post ret fs t h w' :
    inflight (core s) = pre ++ e :: post -> environment (core s) fs e ret t h ->
    complete fs (user_data e) ret (set_heap (server (core s)) h) = Ok w' ->
    live_step s (Completion e ret fs t)
      (Live (after (core s) pre post e ret w') (heard (received s) (user_data e) (pair fs <$> t))).

(** Allocations fail as [schedule] says; an empty one lets none fail. *)
Inductive live_reachable (schedule : list bool) : live -> Prop :=
| live_init w w' : (forall i c, conns w !! i = Some c -> c = zero_conn) -> ring w = [] -> oom (wheap w) = schedule ->
    start room listen_fd w = Ok w' -> live_reachable schedule (Live (Sys w' [] ∅) ∅)
| live_next s ev s' : live_reachable schedule s -> live_step s ev s' -> live_reachable schedule s'.

Record live_inv (s : live) : Prop := Live_inv {
  live_core : inv listen_fd (core s);
  live_slots : exists F, slots (conns (server (core s))) (fun i => ops_of i (ops (core s)))
                           (wheap (server (core s))) (received s) F
}.

(** No allocation is going to fail, and none has failed between a coroutine and its
    string. *)
Definition healthy (w : world) : Prop :=
  oom (wheap w) = [] /\
  forall i c, i <> listen_fd -> conns w !! i = Some c -> is_Some (coro c) -> is_Some (conn_str c).

Lemma healthy_update w w' i c' :
  healthy w -> (oom (wheap w) = [] -> oom (wheap w') = []) ->
  (is_Some (coro c') -> is_Some (conn_str c')) ->
  (forall j, j <> i -> j <> listen_fd -> conns w' !! j = conns w !! j) -> conns w' !! i = Some c' -> healthy w'.
Proof.
  intros [Ho Hall] Hoom Hc' Hsame Hi. split; [by apply Hoom|]. intros j c Hj Hc. destruct (decide (j = i)) as [->|Hne].
  - rewrite Hi in Hc. apply (inj Some) in Hc as <-. exact Hc'.
  - rewrite Hsame in Hc by done. by eapply Hall.
Qed.

Lemma heard_eq t i r : heard t (Some i) r !! i = union r (t !! i).
Proof. destruct r as [text|]; cbn [heard]; [by rewrite lookup_insert_eq; destruct (t !! i)|by destruct (t !! i)]. Qed.

Lemma heard_ne t i j r : j <> i -> heard t (Some i) r !! j = t !! j.
Proof. intros Hj. destruct r as [text|]; cbn [heard]; [by rewrite lookup_insert_ne|done]. Qed.

Lemma inflight_conn s pre e post i : inv listen_fd s -> inflight s = pre ++ e :: post -> user_data e = Some i ->
  exists c, conns (server s) !! i = Some c.
Proof.
  intros Hinv Hin He. pose proof (inv_known _ _ Hinv) as Hall. unfold ops in Hall.
  rewrite Hin, <- app_assoc, <- app_comm_cons in Hall. apply Forall_middle in Hall as [(j & c & Hj & Hc) _]. exists c. congruence.
Qed.

Lemma after_other s pre e post i ret w' new j : inflight s = pre ++ e :: post -> user_data e = Some i -> j <> i ->
  ring w' = ring (server s) ++ new -> Forall (fun e => user_data e = Some i) new ->
  ops_of j (ops (after s pre post e ret w')) = ops_of j (ops s).
Proof.
  intros Hin He Hj Hring Hnew. unfold ops at 1, after. cbn [inflight server].
  rewrite Hring, app_assoc, ops_of_app, (ops_of_none j i new), app_nil_r by done. by rewrite <- (ops_of_other j i s pre e post).
Qed.

(** Any completion of a connection is handled: a received text is answered, and the
    end of a response closes the descriptor. *)
Lemma conn_completes s pre e post i ret fs t h :
  live_inv s -> inflight (core s) = pre ++ e :: post -> user_data e = Some i -> i <> listen_fd ->
  environment (core s) fs e ret t h ->
  exists w' u v, complete fs (Some i) ret (set_heap (server (core s)) h) = Ok w' /\
    let s' := Live (after (core s) pre post e ret w') (heard (received s) (Some i) (pair fs <$> t)) in
    live_inv s' /\ (forall j, j <> i -> ops_of j (ops (core s')) = ops_of j (ops (core s))) /\
    (healthy (server (core s)) -> healthy w') /\ ops_of i (ops (core s)) = u ++ e :: v /\
    (forall text, t = Some text -> oom (wheap (server (core s))) = [] ->
       exists b n, ops_of i (ops (core s')) = answer_ops fs i text b n) /\
    (is_step (op e) = true -> ops_of i (ops (core s')) = u ++ v /\
       (u ++ v = [] -> closed w' = i :: closed (server (core s)))).
Proof.
  intros [Hinv [F HF]] Hin He Hi [Hk _ Hm Hfiles Hclient Hroom]. set (s0 := core s) in *.
  destruct (inflight_conn s0 pre e post i Hinv Hin He) as [c Hc].
  pose proof (slots_mem _ _ _ _ _ HF i c Hi Hc) as Hslot. cbn beta in Hslot.
  pose proof (ops_of_split i s0 pre e post Hin He) as Hsplit. rewrite Hsplit in Hslot.
  destruct (slot_completes fs i c _ e _ ret (received s !! i) t _ h (F i) (set_heap (server s0) h) Hslot Hm)
    as [(w' & c' & new & bl' & E & Hconns & Hring & Hnew & Hslot' & Hg' & Hstr' & Hanswer & Hclose) Hg]; try done.
  eexists w', _, _. split; [exact E|]. cbn [set_heap wheap conns ring closed core received] in *.
  pose proof (grows_trans _ _ _ _ _ _ Hg Hg') as G.
  pose proof (fun j Hj => after_other s0 pre e post i ret w' new j Hin He Hj Hring Hnew) as Hother.
  assert (Hops : ops_of i (ops (after s0 pre post e ret w')) = (ops_of i pre ++ ops_of i post ++ ops_of i (ring (server s0))) ++ new).
  { unfold ops, after. cbn [inflight server]. by rewrite Hring, !ops_of_app, (ops_of_all i new), !app_assoc by done. }
  rewrite Hops. split; [|split_and!; [done| |exact Hsplit| |] ].
  - constructor; cbn [core received]; [by eapply complete_conn|].
    eexists. eapply (slots_update _ _ _ _ _ _ _ _ F i c' bl'); [exact HF|done|exact G| | |].
    + cbn. by rewrite Hconns, lookup_insert_eq.
    + rewrite heard_eq, Hops. exact Hslot'.
    + intros j Hj Hjl. rewrite heard_ne, Hother by done. unfold after. cbn [server].
      by rewrite Hconns, lookup_insert_ne.
  - intros Hh. eapply (healthy_update _ _ i c' Hh); [apply (proj1 G)|by intros _| |by rewrite Hconns, lookup_insert_eq].
    intros j Hj _. by rewrite Hconns, lookup_insert_ne.
  - intros text Ht Ho. destruct (Hanswer text Ht) as (b & n & ->); [by apply (proj1 Hg)|]. exists b, n.
    assert (is_step (op e) = false) as Hs.
    { apply kernel_memory_inv in Hm as [(? & ? & ? & ? & ? & Hop & _)|(_ & -> & _)]; [by rewrite Hop|done]. }
    by destruct (slot_mem_one _ _ _ _ _ _ _ _ Hslot Hs) as [-> ->].
  - intros Hs. destruct (Hclose Hs) as [-> Hcl]. rewrite app_nil_r. by split.
Qed.

Lemma accept_again_ok c w : conns w !! listen_fd = Some c -> room (ring w) = true ->
  accept_again room listen_fd w =
    Ok (World (<[listen_fd := set_action c IO_URING_OP_ACCEPT]> (conns w))
          (ring w ++ [Sqe (Accept listen_fd) (Some listen_fd) 0]) (closed w) (wheap w) (statics w)).
Proof.
  intros Hc Hroom. unfold accept_again, push. rewrite (get_conn_ok w _ c Hc), bind_ok.
  unfold io_uring_push_accept, get_sqe. by rewrite Hroom.
Qed.

(** What an accept finds, or makes, in a slot. *)
Definition make_ready (w : world) (i : Z) (c : connection) : result (bool * world) :=
  match coro c with
  | Some _ => Ok (true, w)
  | None => '(e, w) ← prepare_connection (H := x86) w i; Ok (0 <=? e, w)
  end.

(** An accepted descriptor whose slot is free is prepared or used again; or an
    allocation fails; or one has failed before, and the slot has no string. *)
Lemma slot_accepts i c t bl w :
  slot_mem i c [] (wheap w) t bl -> conns w !! i = Some c -> cur_steps c = 0 /\ total_steps c = 0 ->
  (forall co, coro c = Some co -> can_resume co) ->
  (exists w1 c1 s b bl',
    make_ready w i c = Ok (true, w1) /\
    conns w1 = <[i := c1]> (conns w) /\ ring w1 = ring w /\ conn_str c1 = Some s /\ buf s = Ptr b 0 /\
    capacity s = 2 ^ 21 /\ grows bl bl' (wheap w) (wheap w1) /\
    slot_mem i (set_action c1 IO_URING_OP_RECV) [recv_op i b] (wheap w1) t bl') \/
  (oom (wheap w) <> [] /\ exists w1 c1, make_ready w i c = Ok (false, w1) /\
    conns w1 = <[i := c1]> (conns w) /\ ring w1 = ring w /\ grows bl [] (wheap w) (wheap w1) /\
    slot_mem i c1 [] (wheap w1) t []) \/
  (make_ready w i c = Ok (true, w) /\ is_Some (coro c) /\ conn_str c = None).
Proof.
  intros S Hc Hsteps Hst. unfold make_ready.
  inversion S as [Hco Hs _|co Hco Hs _|co Hco Hs _|? ? ? ? ? ? ? Hq|v l x Hco Hx Hr _ Hfd|? ? ? ? ? ? ? ? ? Hq]; try done; subst bl.
  2: { right. right. rewrite Hco. by split_and!; [|eexists|]. }
  2: { by destruct (can_resume_not_stopped co (Hst co Hco)). }
  - rewrite Hco. destruct (prepare_ends w i c Hc Hs Hsteps)
      as (e & w1 & E & [(-> & Ho & c1 & Ew & Hm & Hco1 & Hs1)|(-> & s & b & c1 & -> & Ew & Hcap & Z & Hb & F & O)]); rewrite E, bind_ok.
    { right. left. split; [done|]. exists w1, c1. split; [done|]. rewrite Ew. cbn [conns ring wheap]. split_and!; try done.
      - split_and!; [done|by intros b bs _; rewrite Hm|by intros b ?%not_elem_of_nil].
      - destruct Hco1 as [Hco1|Hco1]; [by apply slot_unused|eapply slot_poisoned; [exact Hco1|done..] ]. }
    left. exists w1, (Connection i 0 0 0 (co_new true None) (Some s) true), s, b, [b].
    destruct Z as (Hbuf & Hpos & Hlen & Hm). rewrite Ew. split_and!; [by rewrite <- Ew|done|done|done|done|done| |].
    + cbn [wheap]. split_and!; [exact O|intros b' bs _; apply F|]. intros b' ->%list_elem_of_singleton. by right.
    + cbn [wheap]. eapply (slot_fresh i _ _ _ t 0 s b); try done. by apply holding_nil.
  - rewrite Hco. destruct (ready_in _ _ _ _ _ Hr) as (s & Hs & Hcap & [Hbuf _]). pose proof Hx as (Hci & _).
    left. exists w, c, s, (blk_in x), (footprint x). split_and!; [done|by rewrite insert_id|done|done|done|congruence|apply grows_refl|].
    eapply (slot_waiting i _ _ _ t v l x); try done; [|by right]. by apply (ready_conn x [] c).
Qed.

(** After an accept, in the world [w']: the slots are as they should be, and the
    operations outstanding for connections are still outstanding. *)
Definition accepts_next (s : live) (rest : list sqe) (w' : world) : Prop :=
  (exists F, slots (conns w') (fun i => ops_of i (rest ++ ring w')) (wheap w') (received s) F) /\
  (healthy (server (core s)) -> healthy w') /\
  forall j, j <> listen_fd -> ops_of j (ops (core s)) <> [] -> ops_of j (rest ++ ring w') = ops_of j (ops (core s)).

(** The operations outstanding after the accept: those there were, and the ones
    queued for the accepted descriptor. *)
Lemma accept_ops s rest i new j :
  (forall j, j <> listen_fd -> ops_of j (ops (core s)) = ops_of j (rest ++ ring (server (core s)))) ->
  Forall (fun e => user_data e = Some i) new -> j <> listen_fd ->
  ops_of j (rest ++ (ring (server (core s)) ++ new) ++ [Sqe (Accept listen_fd) (Some listen_fd) 0]) =
    ops_of j (ops (core s)) ++ (if decide (j = i) then new else []).
Proof.
  intros Hother Hnew Hj. rewrite !ops_of_app, (ops_of_none j listen_fd [_]), app_nil_r by (done || by repeat constructor).
  rewrite app_assoc, <- ops_of_app, <- Hother by done. case_decide as Hji; [subst; by rewrite (ops_of_all _ new)|rewrite (ops_of_none j i new) by done; by rewrite ?app_nil_r].
Qed.

Lemma listen_rearms s rest w' F cl :
  slots (conns (server (core s))) (fun i => ops_of i (ops (core s))) (wheap (server (core s))) (received s) F ->
  (forall j, j <> listen_fd -> ops_of j (ops (core s)) = ops_of j (rest ++ ring (server (core s)))) ->
  conns (server (core s)) !! listen_fd = Some cl -> room (ring (server (core s))) = true ->
  accept_again room listen_fd (server (core s)) = Ok w' -> accepts_next s rest w'.
Proof.
  intros HF Hother Hcl Hroom E. rewrite (accept_again_ok cl _ Hcl Hroom) in E. injection E as <-.
  assert (Hops : forall j, j <> listen_fd -> ops_of j (rest ++ ring (server (core s)) ++ [Sqe (Accept listen_fd) (Some listen_fd) 0]) =
    ops_of j (ops (core s))).
  { intros j Hj. pose proof (accept_ops s rest j [] j Hother ltac:(constructor) Hj) as P.
    rewrite app_nil_r in P. by rewrite P, decide_True, app_nil_r. }
  split_and!; [|intros Hh; split; [apply Hh|]|by intros j Hj _; apply Hops].
  - exists F. cbn [conns ring wheap]. eapply slots_same; [exact HF|]. intros j Hj. by rewrite lookup_insert_ne, Hops.
  - intros i c Hi. cbn [conns]. rewrite lookup_insert_ne by done. by apply (proj2 Hh).
Qed.

(** The slot of the accepted descriptor [i] is now [c1], with [new] queued for it. *)
Lemma listen_slot s rest i c1 new bl' w1 cl F :
  slots (conns (server (core s))) (fun i => ops_of i (ops (core s))) (wheap (server (core s))) (received s) F ->
  (forall j, j <> listen_fd -> ops_of j (ops (core s)) = ops_of j (rest ++ ring (server (core s)))) ->
  conns (server (core s)) !! listen_fd = Some cl -> i <> listen_fd -> ops_of i (ops (core s)) = [] ->
  conns w1 = <[i := c1]> (conns (server (core s))) -> ring w1 = ring (server (core s)) ++ new ->
  Forall (fun e => user_data e = Some i) new -> room (ring w1) = true ->
  grows (F i) bl' (wheap (server (core s))) (wheap w1) -> slot_mem i c1 new (wheap w1) (received s !! i) bl' ->
  (oom (wheap (server (core s))) = [] -> is_Some (conn_str c1)) ->
  exists w', accept_again room listen_fd w1 = Ok w' /\ accepts_next s rest w' /\ ops_of i (rest ++ ring w') = new.
Proof.
  intros HF Hother Hcl Hi Hq Hconns Hring Hnew Hroom G Hs Hstr.
  assert (Hcl1 : conns w1 !! listen_fd = Some cl) by by rewrite Hconns, lookup_insert_ne.
  pose proof (fun j => accept_ops s rest i new j Hother Hnew) as Hops. rewrite <- Hring in Hops.
  assert (Hopsi : ops_of i (rest ++ ring w1 ++ [Sqe (Accept listen_fd) (Some listen_fd) 0]) = new) by (by rewrite Hops, Hq, decide_True).
  eexists. split; [by apply (accept_again_ok cl)|]. split; [|exact Hopsi]. cbn [conns ring wheap].
  assert (Hother' : forall j, j <> i -> j <> listen_fd ->
    <[listen_fd := set_action cl IO_URING_OP_ACCEPT]> (conns w1) !! j = conns (server (core s)) !! j).
  { intros j Hj Hjl. by rewrite lookup_insert_ne, Hconns, lookup_insert_ne. }
  assert (Hci : <[listen_fd := set_action cl IO_URING_OP_ACCEPT]> (conns w1) !! i = Some c1).
  { by rewrite lookup_insert_ne, Hconns, lookup_insert_eq. }
  split; [|split].
  - eexists. cbn [conns ring wheap]. eapply (slots_update _ _ _ _ _ _ _ _ F i c1 bl'); [exact HF|done|exact G|exact Hci| |].
    + cbn beta. rewrite Hopsi. exact Hs.
    + intros j Hj Hjl. rewrite Hother', Hops, decide_False, app_nil_r by done. done.
  - intros Hh. eapply (healthy_update _ _ i c1 Hh); [apply (proj1 G)|intros _; apply Hstr, Hh|exact Hother'|exact Hci].
  - intros j Hj Hne. cbn [ring]. rewrite Hops by done. case_decide as Hji; [by subst|by rewrite app_nil_r].
Qed.

(** What a successful accept does: the descriptor's receive is queued; or an
    allocation fails, and nothing is; or a coroutine without a string is found. *)
Lemma listen_arms s rest i c cl F fs :
  live_inv s -> slots (conns (server (core s))) (fun i => ops_of i (ops (core s))) (wheap (server (core s))) (received s) F ->
  (forall j, j <> listen_fd -> ops_of j (ops (core s)) = ops_of j (rest ++ ring (server (core s)))) ->
  conns (server (core s)) !! listen_fd = Some cl -> action cl = IO_URING_OP_ACCEPT ->
  spare room 2 (ring (server (core s))) ->
  conns (server (core s)) !! i = Some c -> 0 <= i -> i <> listen_fd -> (i ∉ opens (core s)) ->
  (exists w', complete fs (Some listen_fd) i (server (core s)) = Ok w' /\ accepts_next s rest w' /\
    (oom (wheap (server (core s))) = [] -> exists b, ops_of i (rest ++ ring w') = [recv_op i b])) \/
  (is_Some (coro c) /\ conn_str c = None /\ complete fs (Some listen_fd) i (server (core s)) = Undef NullDeref).
Proof.
  intros [Hinv _] HF Hother Hcl Hal Hroom Hc Hpos Hne Hnew. set (s0 := core s) in *.
  destruct (slot_not_open room fs watch (fst <$> rs) pipefds listen_fd s0 i c Hinv Hne Hnew Hc) as (Hq & Hsteps).
  pose proof (slots_mem _ _ _ _ _ HF i c Hne Hc) as Hs. cbn beta in Hs. rewrite Hq in Hs.
  pose proof (fun co E => proj1 (slot_stopped _ _ _ _ (inv_slots _ _ Hinv i c Hne Hc) co E Hnew)) as Hst.
  assert (Eh : complete fs (Some listen_fd) i (server s0) =
    ('(ready, w) ← make_ready (server s0) i c;
     if negb ready then accept_again room listen_fd (close_in w i)
     else conn ← get_conn w i; s ← of_option NullDeref (conn_str conn);
          w ← push w i (fun r c => io_uring_push_recv room r i (Buf (buf s)) (capacity s) i c 0); accept_again room listen_fd w)).
  { unfold handle_cqe. rewrite (get_conn_ok _ _ cl Hcl), bind_ok, Hal, Z.eqb_refl. unfold UNLIKELY.
    destruct (Z.ltb_spec i 0) as [|_]; [lia|]. by rewrite (get_conn_ok _ _ c Hc), bind_ok. }
  destruct (slot_accepts i c _ _ (server s0) Hs Hc Hsteps Hst)
    as [(w1 & c1 & str & b & bl' & E & Hconns & Hring & Hstr & Hbuf & Hcap & G & Hs')|
        [(Ho & w1 & c1 & E & Hconns & Hring & G & Hs')|(E & Hco & Hstr)] ]; rewrite Eh, E, bind_ok; cbn [negb].
  - left. assert (Hc1 : conns w1 !! i = Some c1) by (rewrite Hconns; apply lookup_insert_eq).
    rewrite (get_conn_ok w1 i c1 Hc1), bind_ok, Hstr. cbn [of_option]. rewrite bind_ok. unfold push at 1.
    rewrite (get_conn_ok w1 i c1 Hc1), bind_ok. unfold io_uring_push_recv, get_sqe.
    rewrite Hring, (spare_now _ _ _ Hroom), !bind_ok, Hbuf, Hcap, Hconns, insert_insert_eq. fold (recv_op i b).
    destruct (listen_slot s rest i (set_action c1 IO_URING_OP_RECV) [recv_op i b] bl'
      (World (<[i := set_action c1 IO_URING_OP_RECV]> (conns (server s0))) (ring (server s0) ++ [recv_op i b]) (closed w1) (wheap w1) (statics w1))
      cl F) as (w' & Ea & Hn & Hops); try done; [by repeat constructor|apply Hroom; simpl; lia|].
    exists w'. split; [exact Ea|]. split; [exact Hn|]. by exists b.
  - left. destruct (listen_slot s rest i c1 [] [] (close_in w1 i) cl F) as (w' & Ea & Hn & Hops); try done.
    + by rewrite app_nil_r.
    + cbn [close_in ring]. rewrite Hring. by eapply spare_now.
    + by exists w'.
  - right. split_and!; [done|done|]. rewrite (get_conn_ok _ _ c Hc), bind_ok, Hstr. reflexivity.
Qed.

(** An accept fails for good; or finds a coroutine without a string; or is handled
    and re-armed. *)
Lemma listen_completes s pre e post ret fs t h :
  live_inv s -> inflight (core s) = pre ++ e :: post -> user_data e = Some listen_fd ->
  environment (core s) fs e ret t h ->
  let outcome := complete fs (Some listen_fd) ret (set_heap (server (core s)) h) in
  is_accept (op e) = true /\
  ((ret < 0 /\ ret <> - EAGAIN /\ outcome = Exited 1) \/
   (exists c, ret <> listen_fd /\ conns (server (core s)) !! ret = Some c /\ is_Some (coro c) /\ conn_str c = None /\
      outcome = Undef NullDeref) \/
   exists w', outcome = Ok w' /\
    let s' := Live (after (core s) pre post e ret w') (heard (received s) (Some listen_fd) (pair fs <$> t)) in
    live_inv s' /\ received s' = received s /\ is_step (op e) = false /\ t = None /\
    (healthy (server (core s)) -> healthy w') /\
    (0 <= ret -> oom (wheap (server (core s))) = [] -> exists b, ops_of ret (ops (core s')) = [recv_op ret b]) /\
    forall j, j <> listen_fd -> ops_of j (ops (core s)) <> [] -> ops_of j (ops (core s')) = ops_of j (ops (core s))).
Proof.
  intros Hlive Hin He [Hk Hslot Hm _ _ Hroom] outcome. pose proof Hlive as [Hinv [F HF]].
  destruct (listen_removed room fs watch (fst <$> rs) pipefds listen_fd (core s) pre e post Hinv Hin He) as (Hacc & _ & _ & Hother).
  split; [done|]. destruct (inv_listen_slot _ _ Hinv) as (cl & Hcl & Hal).
  apply kernel_memory_inv in Hm as [(? & ? & ? & ? & ? & Hop & _)|(_ & -> & ->)]; [by rewrite Hop in Hacc|].
  unfold outcome. rewrite set_heap_same. cbn [heard].
  assert (Hnext : forall w', complete fs (Some listen_fd) ret (server (core s)) = Ok w' -> accepts_next s (pre ++ post) w' ->
    live_inv (Live (after (core s) pre post e ret w') (received s)) /\ received s = received s /\ is_step (op e) = false).
  { intros w' E (HF' & _). split; [|by split; [|destruct (op e)] ]. constructor; [|exact HF'].
    eapply (complete_accept room fs watch (fst <$> rs) pipefds listen_fd (core s) pre e post ret (wheap (server (core s))) w'); try done.
    by rewrite set_heap_same. }
  destruct (Z.ltb_spec ret 0) as [Hneg|Hpos].
  - unfold handle_cqe in Hnext |- *. rewrite (get_conn_ok _ _ cl Hcl), bind_ok, Hal, Z.eqb_refl in Hnext |- *. unfold UNLIKELY in Hnext |- *.
    destruct (Z.ltb_spec ret 0) as [_|]; [|lia]. destruct (Z.eqb_spec ret (- EAGAIN)) as [Hag|Hag]; [right; right|by left].
    pose proof (accept_again_ok cl _ Hcl (spare_now _ _ _ Hroom)) as E. eexists. split; [exact E|].
    assert (Hn := listen_rearms s (pre ++ post) _ F cl HF Hother Hcl (spare_now _ _ _ Hroom) E).
    destruct (Hnext _ E Hn) as (? & ? & ?). destruct Hn as (_ & ? & ?). split_and!; try done. lia.
  - right. destruct (Hslot Hacc Hpos) as [c Hc]. destruct (Hk Hacc Hpos) as [Hnew Hne].
    destruct (listen_arms s (pre ++ post) ret c cl F fs) as [(w' & E & Hn & Hb)|(Hco & Hstr & E)]; try done; [right|left; by exists c].
    destruct (Hnext _ E Hn) as (? & ? & ?). destruct Hn as (_ & ? & ?). exists w'. by split_and!.
Qed.

Lemma submitted_ops s : ops (submitted s) = ops s.
Proof using Type. unfold ops at 1, submitted. cbn [inflight server ring]. by rewrite app_nil_r. Qed.

Lemma init_inv w w' : (forall i c, conns w !! i = Some c -> c = zero_conn) -> ring w = [] ->
  start room listen_fd w = Ok w' -> live_inv (Live (Sys w' [] ∅) ∅) /\ (oom (wheap w) = [] -> healthy w').
Proof.
  intros Hz Hr E. pose proof (inv_init room lab_files watch (fst <$> rs) pipefds listen_fd w w' Hz Hr E) as Hinv.
  change (start room listen_fd w) with (accept_again room listen_fd w) in E. pose proof E as E'.
  unfold accept_again, push in E'. apply bind_Ok_inv in E' as (c & Ec%get_conn_inv & E').
  assert (Hroom : room (ring w) = true).
  { unfold io_uring_push_accept, get_sqe in E'. by destruct (room (ring w)). }
  rewrite (accept_again_ok c w Ec Hroom) in E. injection E as <-. split.
  2: { intros Ho. split; [exact Ho|]. intros i ci Hi. cbn [conns]. rewrite lookup_insert_ne by done. intros ->%Hz [co Hco]. done. }
  constructor; [exact Hinv|]. exists (fun _ => []). constructor; [|by intros i b ?%not_elem_of_nil|by intros i j b ?%not_elem_of_nil].
  intros i ci Hi. unfold ops. cbn [core server inflight conns received app ring]. rewrite lookup_insert_ne by done. rewrite Hr.
  intros ->%Hz. rewrite (ops_of_none i listen_fd) by (done || by repeat constructor). by apply slot_unused.
Qed.

(** One step: what it does to connection [i]. *)
Definition step_on (i : Z) (s : live) (ev : event) (s' : live) : Prop :=
  match ev with
  | Completion e ret fs t =>
      e ∈ ops (core s) /\
      if decide (user_data e = Some i) then
        (forall text, t = Some text -> received s' !! i = Some (fs, text) /\
           (oom (wheap (server (core s))) = [] -> exists b n, ops_of i (ops (core s')) = answer_ops fs i text b n)) /\
        (is_step (op e) = true -> received s' !! i = received s !! i /\
           exists u v, ops_of i (ops (core s)) = u ++ e :: v /\ ops_of i (ops (core s')) = u ++ v /\
             (u ++ v = [] -> closed (server (core s')) = i :: closed (server (core s))))
      else ops_of i (ops (core s)) <> [] ->
        ops_of i (ops (core s')) = ops_of i (ops (core s)) /\ received s' !! i = received s !! i
  | Submit => ops_of i (ops (core s')) = ops_of i (ops (core s)) /\ received s' !! i = received s !! i
  end.

Lemma step_inv s ev s' : live_inv s -> live_step s ev s' ->
  live_inv s' /\ (healthy (server (core s)) -> healthy (server (core s'))) /\ forall i, i <> listen_fd -> step_on i s ev s'.
Proof.
  intros Hlive Hstep. pose proof Hlive as [Hinv [F HF]]. destruct Hstep as [s|s pre e post ret fs t h w' Hin Henv E].
  { split; [|split; [done|intros i Hi; cbn [step_on core]; by rewrite submitted_ops] ]. constructor.
    - destruct Hinv as [Hl Hsl Hk Hss Hlo]. by constructor; cbn [core]; rewrite ?submitted_ops.
    - exists F. eapply slots_same; [exact HF|]. intros j Hj. cbn [core]. by rewrite submitted_ops. }
  assert (He : e ∈ ops (core s)).
  { unfold ops. rewrite Hin. apply elem_of_app. left. apply elem_of_app. right. by left. }
  destruct (user_data e) as [j|] eqn:Hu.
  2: { pose proof (inv_known _ _ Hinv) as Hall. rewrite Forall_forall in Hall. destruct (Hall e He) as (? & ? & ? & _). congruence. }
  destruct (decide (j = listen_fd)) as [->|Hj].
  - destruct (listen_completes s pre e post ret fs t h Hlive Hin Hu Henv)
      as (_ & [(_ & _ & Ex)|[(c & _ & _ & _ & _ & Ex)|(w1 & E1 & Hlive' & Hrec & _ & _ & Hh & _ & Hops)] ]); [congruence..|].
    assert (w1 = w') as -> by congruence. split; [done|]. split; [exact Hh|]. intros i Hi. split; [done|].
    rewrite decide_False by congruence. intros Hne. split; [by apply Hops|]. by rewrite Hrec.
  - destruct (conn_completes s pre e post j ret fs t h Hlive Hin Hu Hj Henv)
      as (w1 & u & v & E1 & Hlive' & Hother & Hh & Hsplit & Hanswer & Hclose).
    assert (w1 = w') as -> by congruence. split; [done|]. split; [exact Hh|]. intros i Hi. split; [done|]. case_decide as Hui.
    + assert (i = j) as -> by congruence. split.
      * intros text ->. split; [by cbn [received]; rewrite heard_eq; destruct (received s !! j)|by apply Hanswer].
      * intros Hs. destruct (Hclose Hs) as [Hops Hcl]. split; [|by exists u, v].
        destruct (env_memory _ _ _ _ _ _ Henv) as [? ? ? ? ? Hop| ]; [by rewrite Hop in Hs|].
        cbn [received]. rewrite heard_eq. by destruct (received s !! j).
    + intros _. cbn [received]. rewrite heard_ne by congruence. split; [apply Hother; congruence|done].
Qed.

Lemma live_reachable_inv schedule s : live_reachable schedule s -> live_inv s.
Proof. induction 1 as [|s ev s' _ IH Hstep]; [by eapply init_inv|]. by apply (step_inv s ev s'). Qed.

Lemma live_reachable_healthy s : live_reachable [] s -> healthy (server (core s)).
Proof.
  induction 1 as [w w' ? ? Ho ?|s ev s' Hs IH Hstep]; [by apply (init_inv w w')|].
  by apply (step_inv s ev s'); [eapply live_reachable_inv| |].
Qed.

(** What memory [e] names, of the operations [q] outstanding.  A receive fills the
    whole of a live block that no other operation names.  A send reads [n] bytes of
    one that has as many, unless the response is canned: then it names an array that
    has ended, and only the length is right for what that held.  A splice moves at
    most what its 32-bit length says.  [Read] is not used. *)
Definition io_in_bounds (rec : gmap Z arrival) (m : gmap block bytes) (q : list sqe) (e : sqe) : Prop :=
  match op e with
  | Accept _ => True
  | Read _ _ _ => False
  | Recv _ b n =>
      exists k, b = Buf (Ptr k 0) /\ n = 2 ^ 21 /\ (exists bs, m !! k = Some bs /\ Z.of_nat (length bs) = n) /\
        forall e', e' ∈ q -> op_block (op e') = Some k -> e' = e
  | Send fd b n _ =>
      0 < n < 2 ^ 20 /\ exists i fs text, user_data e = Some i /\ rec !! i = Some (fs, text) /\
        match decision_for fs rs text with
        | Canned t => b = Local t /\ n = Z.of_nat (length t)
        | _ => exists k bs, b = Buf (Ptr k 0) /\ m !! k = Some bs /\ n <= Z.of_nat (length bs)
        end
  | Splice _ _ _ _ n _ => 0 <= n < 2 ^ 32
  end.

(** The bytes of a payload in the heap are in a live block. *)
Lemma payload_in_block m k o n sf fd id fl fd' bs :
  payload m (Sqe (Send fd (Buf (Ptr k o)) n sf) id fl) = Ok (fd', bs) -> n = Z.of_nat (length bs) ->
  exists b, m !! k = Some b /\ n <= Z.of_nat (length b).
Proof using Type.
  unfold payload. cbn [op]. intros E ->. apply bind_Ok_inv in E as ([b o'] & Eb & E). apply bind_Ok_inv in E as (s & Es & [= _ <-]).
  unfold object in Eb. destruct (m !! k) as [b'|] eqn:Ek; [|done]. injection Eb as -> <-. exists b. split; [done|].
  rewrite length_take. unfold suffix in Es. destruct (_ && _); [|done]. injection Es as <-. rewrite length_drop. lia.
Qed.

(** A response in flight. *)
Lemma sends_answer s e : live_inv s -> e ∈ ops (core s) -> is_step (op e) = true ->
  exists i fs text b n, i <> listen_fd /\ user_data e = Some i /\ received s !! i = Some (fs, text) /\
    n = Z.of_nat (length (response_to fs rs text)) /\ (0 < n < 2 ^ 20 /\ exists k, b = header_buf k (decision_for fs rs text)) /\
    ops_of i (ops (core s)) `sublist_of` answer_ops fs i text b n /\
    payload (mem (wheap (server (core s)))) (head_op watch pipefds i i b n (decision_for fs rs text)) =
      Ok (i, response_to fs rs text).
Proof.
  intros [Hinv [F HF]] He Hs. pose proof (inv_known _ _ Hinv) as Hall. rewrite Forall_forall in Hall.
  destruct (Hall e He) as (i & c & Hi & Hc). exists i. pose proof (ops_of_in i e _ He Hi) as Hq.
  destruct (decide (i = listen_fd)) as [->|Hne].
  { destruct (inv_listen _ _ Hinv) as (e0 & Hl & Hacc). rewrite Hl in Hq. apply list_elem_of_singleton in Hq as ->.
    by destruct (op e0). }
  pose proof (slots_mem _ _ _ _ _ HF i c Hne Hc) as S. cbn beta in S.
  inversion S as [? ? E|? ? ? E|? ? ? E|v s0 b0 ? ? ? ? E|v l x ? ? ? E|v l x fs text b n0 ? ? ? _ E Et ? ? Hpay ->]; try rewrite E in Hq.
  1, 2, 3: by apply not_elem_of_nil in Hq.
  - by apply list_elem_of_singleton in Hq as ->.
  - destruct E as [E|[E _]]; rewrite E in Hq; [by apply not_elem_of_nil in Hq|by apply list_elem_of_singleton in Hq as ->].
  - eexists fs, text, _, n0. do 4 (split; [done|]). split; [split; [done|by eexists]|]. split; [done|].
    unfold head_op. by destruct (file_ops watch pipefds i i (decision_for fs rs text)).
Qed.

(** The memory that the kernel may use on behalf of the operations outstanding. *)
Lemma io_bounds s e : live_inv s -> e ∈ ops (core s) -> io_in_bounds (received s) (mem (wheap (server (core s)))) (ops (core s)) e.
Proof.
  intros Hlive He. destruct (is_step (op e)) eqn:Hs.
  { destruct (sends_answer s e Hlive He Hs) as (i & fs & text & b & n & _ & Hu & Hrec & -> & [Hn [k ->] ] & Hsub & Hpay).
    pose proof (elem_of_sublist _ _ _ (ops_of_in i e _ He Hu) Hsub) as Hin. unfold response_ops in Hin.
    apply elem_of_cons in Hin as [->|Hin].
    - assert (Hsend : exists sf fl, head_op watch pipefds i i (header_buf k (decision_for fs rs text)) (Z.of_nat (length (response_to fs rs text)))
        (decision_for fs rs text) = Sqe (Send i (header_buf k (decision_for fs rs text)) (Z.of_nat (length (response_to fs rs text))) sf) (Some i) fl).
      { unfold head_op. destruct (file_ops _ _ _ _ _); by eexists _, _. }
      destruct Hsend as (sf & fl & Es). rewrite Es in Hpay |- *. clear Es. split; [done|]. exists i, fs, text. split; [done|]. split; [done|]. unfold response_to in *.
      destruct (decision_for fs rs text) as [t| |]; [done|..]; destruct (payload_in_block _ _ _ _ _ _ _ _ _ _ Hpay eq_refl) as (bs & ? & ?);
        by exists k, bs.
    - assert (Hu32 : forall z, 0 <= u32 z < 2 ^ 32) by (intros z; apply Z.mod_pos_bound; lia).
      destruct (decision_for fs rs text), watch; cbn [file_ops splice_ops] in Hin; try (by apply not_elem_of_nil in Hin);
        repeat (apply elem_of_cons in Hin as [->|Hin]; [by apply Hu32|]); by apply not_elem_of_nil in Hin. }
  destruct Hlive as [Hinv [F HF]]. pose proof (inv_known _ _ Hinv) as Hall. rewrite Forall_forall in Hall.
  destruct (Hall e He) as (i & c & Hi & Hc). pose proof (ops_of_in i e _ He Hi) as Hq.
  destruct (decide (i = listen_fd)) as [->|Hne].
  { destruct (inv_listen _ _ Hinv) as (e0 & Hl & Hacc). rewrite Hl in Hq. apply list_elem_of_singleton in Hq as ->.
    unfold io_in_bounds. by destruct (op e0). }
  pose proof (slots_mem _ _ _ _ _ HF i c Hne Hc) as S. cbn beta in S.
  pose proof Hq as (u & v & Euv)%list_elem_of_split. rewrite Euv in S. destruct (slot_mem_one _ _ _ _ _ _ _ _ S Hs) as [-> ->].
  cbn [app] in *. assert (Hr : is_recv (op e) = true) by (destruct (slot_mem_recv _ _ _ _ _ _ S); congruence).
  destruct (slot_receives _ _ _ _ _ _ S Hr) as (b & -> & Hb & Hm & _). cbn [op io_in_bounds recv_op].
  exists b. split; [done|]. split; [done|]. split; [exists (replicate (Z.to_nat (2 ^ 21)) 0); split; [exact Hm|rewrite length_replicate; lia]|].
  intros e' He' Huse. destruct (Hall e' He') as (j & c' & Hj & Hc'). pose proof (ops_of_in j e' _ He' Hj) as Hq'.
  destruct (decide (j = listen_fd)) as [->|Hne'].
  { destruct (inv_listen _ _ Hinv) as (e0 & Hl & Hacc). rewrite Hl in Hq'. apply list_elem_of_singleton in Hq' as ->.
    unfold op_block in Huse. by destruct (op e0). }
  pose proof (slots_mem _ _ _ _ _ HF j c' Hne' Hc') as S'. cbn beta in S'.
  assert (b ∈ F j) as Hbj by by eapply slot_mem_block.
  assert (j = i) as -> by by eapply (slots_apart _ _ _ _ _ HF). rewrite Euv in Hq'. by apply list_elem_of_singleton in Hq'.
Qed.

(** ** Runs *)

Record run (schedule : list bool) (r : nat -> live) (l : nat -> event) : Prop := Run {
  run_start : live_reachable schedule (r 0%nat);
  run_step : forall n, live_step (r n) (l n) (r (S n))
}.

(** The kernel completes every step of a response of connection [i]. *)
Definition fair (i : Z) (r : nat -> live) (l : nat -> event) : Prop :=
  forall n e, e ∈ ops (core (r n)) -> user_data e = Some i -> is_step (op e) = true ->
    exists m ret fs t, (n <= m)%nat /\ l m = Completion e ret fs t.

Lemma run_reachable schedule r l n : run schedule r l -> live_reachable schedule (r n).
Proof. intros [Hs Hstep]. induction n as [|n IH]; [done|]. by eapply live_next. Qed.

(** The steps of a response stay outstanding until one of them completes. *)
Lemma steps_stay schedule r l i q a e ret fs t d : forall n,
  run schedule r l -> i <> listen_fd -> ops_of i (ops (core (r n))) = q -> q <> [] -> Forall (fun e => is_step (op e) = true) q ->
  received (r n) !! i = a -> e ∈ q -> l (n + d)%nat = Completion e ret fs t ->
  exists m e' ret' fs' t' u v, (n <= m)%nat /\ q = u ++ e' :: v /\ l m = Completion e' ret' fs' t' /\
    (forall j, (n <= j <= m)%nat -> ops_of i (ops (core (r j))) = q /\ received (r j) !! i = a) /\
    ops_of i (ops (core (r (S m)))) = u ++ v /\ received (r (S m)) !! i = a /\
    (u ++ v = [] -> closed (server (core (r (S m)))) = i :: closed (server (core (r m)))).
Proof.
  induction d as [|d IH]; intros n Hrun Hi Hops Hq Hsteps Hrec Hin Hl.
  all: destruct (step_inv (r n) (l n) (r (S n))) as (_ & _ & Hon);
    [by eapply live_reachable_inv, run_reachable|by eapply run_step|]; specialize (Hon i Hi).
  all: assert (Hnow : (exists e' ret' fs' t' u v, l n = Completion e' ret' fs' t' /\ q = u ++ e' :: v /\
      ops_of i (ops (core (r (S n)))) = u ++ v /\ received (r (S n)) !! i = a /\
      (u ++ v = [] -> closed (server (core (r (S n)))) = i :: closed (server (core (r n))))) \/
    (ops_of i (ops (core (r (S n)))) = q /\ received (r (S n)) !! i = a /\
      forall e ret fs t, l n = Completion e ret fs t -> user_data e <> Some i)).
  1, 3: destruct (l n) as [|e' ret' fs' t'] eqn:El; cbn [step_on] in Hon;
    [right; destruct Hon as [-> ->]; by split_and!|destruct Hon as [He Hon]; case_decide as Hu;
      [left|right; destruct Hon as [-> ->]; [by rewrite Hops|split_and!; [done|done|congruence] ] ] ];
    pose proof (ops_of_in i e' _ He Hu) as Hin'; rewrite Hops in Hin'; rewrite Forall_forall in Hsteps;
    destruct Hon as [_ (-> & u & v & Hsplit & Hrest & Hcl)]; [by apply Hsteps|];
    exists e', ret', fs', t', u, v; by rewrite <- Hops.
  all: destruct Hnow as [(e' & ret' & fs' & t' & u & v & El & Hsplit & Hrest & Hrec' & Hcl)|(Hops' & Hrec' & Hno)];
    [exists n, e', ret', fs', t', u, v; split_and!; try done; intros j Hj; by replace j with n by lia|].
  - rewrite Nat.add_0_r in Hl. destruct (Hno _ _ _ _ Hl). rewrite <- Hops in Hin. by apply list_elem_of_filter in Hin as [? _].
  - destruct (IH (S n) Hrun Hi Hops' Hq Hsteps Hrec' Hin) as (m & e' & ret' & fs' & t' & u & v & Hm & Hsplit & Hlm & Hall & Hend);
      [by rewrite Nat.add_succ_comm|].
    exists m, e', ret', fs', t', u, v. split; [lia|]. split; [done|]. split; [done|]. split; [|done].
    intros j Hj. destruct (decide (j = n)) as [->|]; [done|]. apply Hall. lia.
Qed.

(** A response runs to its end: every operation completes, and the last one closes
    the descriptor. *)
Lemma response_ends schedule r l i a k : forall q n,
  run schedule r l -> fair i r l -> i <> listen_fd -> length q = S k ->
  ops_of i (ops (core (r n))) = q -> Forall (fun e => is_step (op e) = true) q -> received (r n) !! i = a ->
  exists m, (n <= m)%nat /\
    (forall e, e ∈ q -> exists j ret fs t, (n <= j <= m)%nat /\ l j = Completion e ret fs t) /\
    (forall j, (n <= j <= m)%nat -> ops_of i (ops (core (r j))) <> [] /\
       ops_of i (ops (core (r j))) `sublist_of` q /\ received (r j) !! i = a) /\
    ops_of i (ops (core (r (S m)))) = [] /\ closed (server (core (r (S m)))) = i :: closed (server (core (r m))).
Proof.
  induction k as [|k IH]; intros q n Hrun Hfair Hi Hlen Hops Hsteps Hrec.
  all: destruct q as [|e q]; [done|]; set (q0 := e :: q) in *;
    assert (Hin : e ∈ ops_of i (ops (core (r n)))) by (rewrite Hops; by left);
    pose proof Hin as [Hu He]%list_elem_of_filter;
    destruct (Hfair n e He Hu) as (m0 & ret0 & fs0 & t0 & Hm0 & Hl0); [by apply (proj1 (Forall_cons _ _ _) Hsteps)|];
    destruct (steps_stay schedule r l i q0 a e ret0 fs0 t0 (m0 - n) n Hrun Hi Hops) as
      (m & e' & ret' & fs' & t' & u & v & Hm & Hsplit & Hlm & Hall & Hrest & Hrec' & Hcl); try done;
      [by left|by replace (n + (m0 - n))%nat with m0 by lia|].
  - rewrite Hsplit in Hlen. rewrite length_app in Hlen. cbn [length] in Hlen.
    assert (u = [] /\ v = []) as [-> ->] by (split; apply length_zero_iff_nil; lia). cbn [app] in *.
    exists m. split; [done|]. split; [|split; [|by split; [|apply Hcl] ] ].
    + intros e1 He1. rewrite Hsplit in He1. apply list_elem_of_singleton in He1 as ->. by exists m, ret', fs', t'.
    + intros j Hj. destruct (Hall j Hj) as [-> ->]. by split_and!.
  - assert (Hlen' : length (u ++ v) = S k) by (rewrite Hsplit, length_app in Hlen; cbn [length] in Hlen; rewrite length_app; lia).
    assert (Hsub : (u ++ v) `sublist_of` q0) by (rewrite Hsplit; apply sublist_app; [done|by apply sublist_cons]).
    destruct (IH (u ++ v) (S m) Hrun Hfair Hi Hlen' Hrest) as (m' & Hm' & Hdone & Hall' & Hend); [|done|].
    { rewrite Forall_forall in Hsteps. apply Forall_forall. intros e1 He1. apply Hsteps. by eapply elem_of_sublist. }
    exists m'. split; [lia|]. split; [|split; [|done] ].
    + intros e1 He1. rewrite Hsplit in He1. apply elem_of_app in He1 as [He1|[->|He1]%elem_of_cons].
      * destruct (Hdone e1) as (j & ret1 & fs1 & t1 & Hj & Hlj); [set_solver|]. exists j, ret1, fs1, t1. split; [lia|done].
      * exists m, ret', fs', t'. split; [lia|done].
      * destruct (Hdone e1) as (j & ret1 & fs1 & t1 & Hj & Hlj); [set_solver|]. exists j, ret1, fs1, t1. split; [lia|done].
    + intros j Hj. destruct (decide (j <= m)%nat) as [Hle|Hgt].
      * destruct (Hall j ltac:(lia)) as [-> ->]. by split_and!.
      * destruct (Hall' j ltac:(lia)) as (? & ? & ?). split_and!; try done. by etransitivity.
Qed.
End system.
