(* ===== verification/Guarantees.v ===== *)
(** * What the running server guarantees

    The theorems about every reachable state and every run of [System], in either
    build, and a concrete run of the watching build that serves a file. *)

From S2P Require Import Prelude CMem Strbuf Kv Http HttpParser HttpParserRef HttpRoundTrip HttpResponse Coro IoUring IoLoop IoLoopInv Spec Routes Serve System.
Open Scope Z_scope.

(** ** Slots *)

(** Handling an accept removes no slot. *)
Lemma accept_keeps_slots `{Platform} `{Abi} room fs watch table pipefds listen_fd ret w w' cl :
  conns w !! listen_fd = Some cl -> action cl = IO_URING_OP_ACCEPT ->
  handle_cqe room fs watch table pipefds listen_fd (Some listen_fd) ret w = Ok w' ->
  forall j, is_Some (conns w !! j) -> is_Some (conns w' !! j).
Proof.
  intros Hcl Hal E. assert (Hins : forall w w' i c, conns w' = <[i := c]> (conns w) ->
    forall j, is_Some (conns w !! j) -> is_Some (conns w' !! j)).
  { intros v v' i c -> j Hj. destruct (decide (i = j)) as [->|]; [by rewrite lookup_insert_eq|by rewrite lookup_insert_ne]. }
  unfold handle_cqe in E. rewrite (get_conn_ok _ _ cl Hcl), bind_ok, Hal, Z.eqb_refl in E.
  assert (Hagain : forall v, accept_again room listen_fd v = Ok w' -> (forall j, is_Some (conns w !! j) -> is_Some (conns v !! j)) ->
    forall j, is_Some (conns w !! j) -> is_Some (conns w' !! j)).
  { intros v Ha Hw j Hj. destruct (accept_again_spec room fs watch table pipefds listen_fd _ _ Ha) as (c & _ & Hv & _). eapply Hins; [exact Hv|by apply Hw]. }
  destruct (UNLIKELY _); [destruct (_ =? _); [by eapply Hagain|done]|].
  apply bind_Ok_inv in E as (c & Ec & E). apply bind_Ok_inv in E as ([ok v] & Ev & E).
  assert (Hv : forall j, is_Some (conns w !! j) -> is_Some (conns v !! j)).
  { destruct (coro c); [by injection Ev as _ <-|]. apply bind_Ok_inv in Ev as ([e v1] & Ep & [= _ <-]).
    apply prepare_connection_spec in Ep as (? & ? & _ & Hv & _). by eapply Hins. }
  destruct ok; cbn [negb] in E; [|by eapply Hagain].
  apply bind_Ok_inv in E as (c2 & _ & E). apply bind_Ok_inv in E as (str & _ & E). apply bind_Ok_inv in E as (v2 & Ep & E).
  apply (push_recv_spec room fs watch table pipefds listen_fd) in Ep as (c3 & _ & Hv2 & _). eapply Hagain; [exact E|]. intros j Hj. eapply Hins; [exact Hv2|by apply Hv].
Qed.

(** ** The first operation of a response *)

Lemma response_send `{Abi} watch pipefds fd i b n d e fd' b' n' f :
  e ∈ response_ops watch pipefds fd i b n d -> op e = Send fd' b' n' f -> e = head_op watch pipefds fd i b n d.
Proof.
  unfold response_ops. intros [->|He]%elem_of_cons Hop; [done|]. exfalso. revert He Hop.
  destruct d, watch; cbn [file_ops splice_ops]; intros He Hop; try (by apply not_elem_of_nil in He);
    repeat (apply elem_of_cons in He as [->|He]; [done|]); by apply not_elem_of_nil in He.
Qed.

Lemma head_op_send `{Abi} watch pipefds fd i b n d : exists f, op (head_op watch pipefds fd i b n d) = Send fd b n f.
Proof. unfold head_op. destruct (file_ops _ _ _ _ _); by eexists. Qed.

Lemma response_head `{Abi} watch pipefds fd i b n b' n' d :
  head_op watch pipefds fd i b n d ∈ response_ops watch pipefds fd i b' n' d -> b = b' /\ n = n'.
Proof.
  intros He. destruct (head_op_send watch pipefds fd i b n d) as [f Hop]. pose proof (response_send _ _ _ _ _ _ _ _ _ _ _ _ He Hop) as E.
  destruct (head_op_send watch pipefds fd i b' n' d) as [f' Hop']. rewrite E, Hop' in Hop. by injection Hop as <- <-.
Qed.

(** The header of a response that is outstanding. *)
Lemma head_holds `{Abi} (room : list sqe -> bool) watch rs pipefds listen_fd (Hroutes : Forall (route_ok watch) rs) s i fs text b k :
  live_inv watch rs pipefds listen_fd s -> received s !! i = Some (fs, text) ->
  head_op watch pipefds i i b k (decision_for fs rs text) ∈ ops_of i (ops (core s)) ->
  k = Z.of_nat (length (response_to fs rs text)) /\
  payload (mem (wheap (server (core s)))) (head_op watch pipefds i i b k (decision_for fs rs text)) = Ok (i, response_to fs rs text).
Proof.
  intros Hlive Hrec Hin. pose proof Hin as [Hu He]%list_elem_of_filter.
  destruct (head_op_send watch pipefds i i b k (decision_for fs rs text)) as [f Ef].
  destruct (sends_answer room watch rs pipefds listen_fd Hroutes s _ Hlive He)
    as (i' & fs' & text' & b' & k' & _ & Hi' & Hrec' & Hk & _ & Hsub & Hpay); [by rewrite Ef|].
  assert (i' = i) as -> by congruence. rewrite Hrec in Hrec'. injection Hrec' as <- <-.
  pose proof (elem_of_sublist _ _ _ Hin Hsub) as Hin'. by apply response_head in Hin' as [<- <-].
Qed.

(** ** A run, for the witnesses

    In the watching build: connection 5 asks for the file of tests/socket.c, whose
    header is sent and whose bytes are spliced; afterwards the server waits for the
    next accept. *)

Definition lab_static (name path : string) : router handler_fn * page :=
  (ROUTER_STATIC name path (simple_y (H := x86)), Static (bytes_of_string name)).
Definition lab_routes : routes :=
  y_routes ++ [lab_static "./tests/fib.html" "/simple/fib"; lab_static "./tests/gccegg-65.png" "/gccpic"].
Definition lab_request : bytes :=
  bytes_of_string "GET /simple/fib HTTP/1.1" ++ CRLF ++ bytes_of_string "Host: lab" ++ CRLF ++ CRLF.
Definition lab_request2 : bytes :=
  bytes_of_string "GET /gccpic HTTP/1.1" ++ CRLF ++ bytes_of_string "Host: lab" ++ CRLF ++ CRLF.
Definition lab_room : list sqe -> bool := fun _ => true.
Definition lab_world : world := World {[3 := zero_conn; 5 := zero_conn; 6 := zero_conn]} [] [] (Heap ∅ []) (Static_state NULL []).

Lemma lab_routes_ok : Forall (route_ok true) lab_routes.
Proof.
  apply Forall_app. split; [apply y_routes_ok|].
  repeat constructor; try (eexists; split; [reflexivity|]); by notin.
Qed.

Abbreviation lab_reachable := (live_reachable (H := linux) lab_room true lab_routes (6, 7) 3 []).
Abbreviation lab_step := (live_step (H := linux) lab_room true lab_routes (6, 7) 3).
Abbreviation lab_inv := (live_reachable_inv (H := linux) lab_room true lab_routes (6, 7) 3 lab_routes_ok []).
Abbreviation lab_ops b n := (response_ops (H := linux) true (6, 7) 5 5 b n (decision_for lab_files lab_routes lab_request)).

Example lab_decision :
  decision_for lab_files lab_routes lab_request = Spliced (bytes_of_string "HTTP/1.1") (bytes_of_string "text/html") 9 512.
Proof. by vm_compute. Qed.

Definition lab_head (o : sqe_buf) (n : Z) : sqe := Sqe (Send 5 o n 32768) (Some 5) 4.
Definition lab_fill : sqe := Sqe (Splice 9 0 7 (-1) 512 2) (Some 5) 4.
Definition lab_drain : sqe := Sqe (Splice 6 (-1) 5 (-1) 512 2) (Some 5) 0.

Example lab_chain o n : lab_ops o n = [lab_head o n; lab_fill; lab_drain].
Proof. by rewrite lab_decision. Qed.

(** The kernel can always fill the buffer of an outstanding receive. *)
Lemma can_receive s i b text :
  lab_reachable s -> recv_op i b ∈ ops (core s) -> 0 < Z.of_nat (length text) <= 2 ^ 21 ->
  exists h, kernel_memory (wheap (server (core s))) (recv_op i b) (Z.of_nat (length text)) (Some text) h.
Proof.
  intros Hs He Hlen.
  destruct (io_bounds (H := linux) lab_room true lab_routes (6, 7) 3 lab_routes_ok s _ (lab_inv _ Hs) He) as (k & Hk & _ & (bs & Hbs & _) & _).
  injection Hk as <-. eexists. by eapply (kernel_writes _ _ _ i b (2 ^ 21) _ text).
Qed.

Ltac lab_text :=
  right; constructor;
  [vm_compute; split; reflexivity|apply bytes_nonzero; reflexivity
  |let r := fresh in let E := fresh in
   intros r E; vm_compute in E; injection E as <-; vm_compute; right; split; [discriminate|]; left; lia
  |vm_compute; repeat constructor; lia].

Lemma lab_client : client_ok lab_files lab_routes lab_request.
Proof. lab_text. Qed.

Lemma lab_client2 : client_ok lab_files lab_routes lab_request2.
Proof. lab_text. Qed.

Lemma lab_environment s e ret t h :
  kernel_ok 3 (core s) e ret -> (is_accept (op e) = true -> 0 <= ret -> is_Some (conns (server (core s)) !! ret)) ->
  kernel_memory (wheap (server (core s))) e ret t h -> (forall text, t = Some text -> client_ok lab_files lab_routes text) ->
  environment lab_room lab_routes 3 (core s) lab_files e ret t h.
Proof. intros Hk Hs Hm Ht. constructor; try done. apply lab_files_ok. Qed.

Definition submit (s : live) : live := Live (submitted (core s)) (received s).

Lemma submit_ops s i : ops_of i (ops (core (submit s))) = ops_of i (ops (core s)).
Proof. cbn [core submit]. by rewrite submitted_ops. Qed.

(** Finitely many steps; then nothing but submissions. *)
Inductive trace : live -> list (event * live) -> Prop :=
| trace_end s : trace s []
| trace_step s ev s' l : lab_step s ev s' -> trace s' l -> trace s ((ev, s') :: l).

Fixpoint states (s : live) (l : list (event * live)) (n : nat) : live :=
  match n with
  | 0%nat => s
  | S n => match l with [] => states (submit s) [] n | (_, s') :: l => states s' l n end
  end.
Fixpoint events (l : list (event * live)) (n : nat) : event :=
  match l, n with [], _ => Submit | (ev, _) :: _, 0%nat => ev | _ :: l, S n => events l n end.

Lemma trace_run s l : lab_reachable s -> trace s l ->
  run (H := linux) lab_room true lab_routes (6, 7) 3 [] (states s l) (events l).
Proof.
  intros Hs Hl. split; [exact Hs|]. intros n. clear Hs. revert s l Hl.
  induction n as [|n IH]; intros s l Hl; destruct Hl as [s|s ev s' l Hstep Hl]; [apply live_submit|exact Hstep| |by apply IH].
  apply (IH (submit s) []), trace_end.
Qed.

(** Every step of connection [i] that is outstanding on the way completes. *)
Fixpoint settles (i : Z) (s : live) (l : list (event * live)) : Prop :=
  (forall e, e ∈ ops_of i (ops (core s)) -> is_step (op e) = true -> exists m ret fs t, events l m = Completion e ret fs t) /\
  match l with [] => True | (_, s') :: l => settles i s' l end.

Lemma settles_fair i s l : settles i s l -> fair i (states s l) (events l).
Proof.
  intros Hl n e He Hu. pose proof (ops_of_in i e _ He Hu) as Hin. clear He Hu. intros Hs. revert s l Hl Hin.
  induction n as [|n IH]; intros s l Hl Hin; destruct l as [|[ev s'] l]; destruct Hl as [Hnow Hl].
  1, 2: destruct (Hnow e Hin Hs) as (m & ret & fs & t & Hm); exists m, ret, fs, t; split; [lia|exact Hm].
  - destruct (IH (submit s) []) as (m & ret & fs & t & _ & Hm); [|exact Hin|done].
    split; [|done]. intros e'. rewrite submit_ops. apply Hnow.
  - destruct (IH s' l Hl Hin) as (m & ret & fs & t & Hm & El). exists (S m), ret, fs, t. split; [lia|exact El].
Qed.

(** Connection [i]'s operation [e] completes after a submission. *)
Lemma lab_next s e i ret t :
  lab_reachable s -> e ∈ ops_of i (ops (core s)) -> i <> 3 -> is_accept (op e) = false ->
  (exists h, kernel_memory (wheap (server (core s))) e ret t h) ->
  (forall text, t = Some text -> client_ok lab_files lab_routes text) ->
  exists s', lab_step s Submit (submit s) /\ lab_step (submit s) (Completion e ret lab_files t) s' /\ lab_reachable s' /\
    (forall text, t = Some text -> exists b n, ops_of i (ops (core s')) =
       response_ops (H := linux) true (6, 7) i i b n (decision_for lab_files lab_routes text)) /\
    (is_step (op e) = true -> exists u v, ops_of i (ops (core s)) = u ++ e :: v /\ ops_of i (ops (core s')) = u ++ v).
Proof.
  intros Hs Hin Hi Hacc [h Hm] Ht. pose proof Hin as [Hu He]%list_elem_of_filter.
  assert (Hsub : lab_step s Submit (submit s)) by apply live_submit.
  assert (Hs' : lab_reachable (submit s)) by (eapply live_next; [exact Hs|exact Hsub]).
  destruct (list_elem_of_split _ _ He) as (pre & post & Hsplit).
  assert (Henv : environment lab_room lab_routes 3 (core (submit s)) lab_files e ret t h).
  { apply lab_environment; [by unfold kernel_ok; rewrite Hacc|by rewrite Hacc|exact Hm|exact Ht]. }
  destruct (conn_completes (H := linux) lab_room true lab_routes (6, 7) 3 lab_routes_ok (submit s) pre e post i ret lab_files t h
    (lab_inv _ Hs') Hsplit Hu Hi Henv) as (w' & u & v & E & _ & _ & _ & Hq & Hanswer & Hclose).
  eexists. split; [exact Hsub|].
  rewrite <- Hu in E. pose proof (live_complete (H := linux) lab_room true lab_routes (6, 7) 3 (submit s) _ _ _ _ _ _ _ _ Hsplit Henv E) as Hst.
  split; [exact Hst|]. split; [by eapply live_next|]. rewrite Hu. split.
  - intros text Htext. apply Hanswer; [done|].
    by apply (live_reachable_healthy (H := linux) lab_room true lab_routes (6, 7) 3 lab_routes_ok _ Hs').
  - intros Hstep. exists u, v. split; [by rewrite <- submit_ops|]. by apply Hclose.
Qed.

Lemma lab_starts : exists s0, lab_reachable s0 /\ ops_of 5 (ops (core s0)) = [] /\ opens (core s0) = ∅ /\
  is_Some (conns (server (core s0)) !! 5) /\ is_Some (conns (server (core s0)) !! 6).
Proof.
  eexists (Live (Sys _ [] ∅) ∅). split; [apply (live_init (H := linux) lab_room true lab_routes (6, 7) 3 [] lab_world)|].
  - intros i c Hc. unfold lab_world in Hc. cbn [conns] in Hc.
    repeat (apply lookup_insert_Some in Hc as [[_ <-]|[_ Hc] ]; [done|]). by apply lookup_singleton_Some in Hc as [_ <-].
  - reflexivity.
  - reflexivity.
  - reflexivity.
  - split_and!; try reflexivity; vm_compute; by eexists.
Qed.

(** Descriptor [i] is accepted after a submission. *)
Lemma lab_accept s i : lab_reachable s -> is_Some (conns (server (core s)) !! i) -> 0 <= i -> i <> 3 -> (i ∉ opens (core s)) ->
  exists e0 s' b, user_data e0 = Some 3 /\ lab_step (submit s) (Completion e0 i lab_files None) s' /\ lab_reachable s' /\
    ops_of i (ops (core s')) = [recv_op i b] /\ opens (core s') ⊆ {[i]} ∪ opens (core s) /\
    forall j, is_Some (conns (server (core s)) !! j) -> is_Some (conns (server (core s')) !! j).
Proof.
  intros Hs Hc Hpos Hi Hopen.
  assert (Hs' : lab_reachable (submit s)) by (eapply live_next; [exact Hs|apply live_submit]).
  pose proof (live_reachable_healthy (H := linux) lab_room true lab_routes (6, 7) 3 lab_routes_ok _ Hs') as [Hoom Hstr].
  pose proof (live_core _ _ _ _ _ (lab_inv _ Hs)) as Hinv. destruct (inv_listen _ _ Hinv) as (e0 & Hl & Hacc).
  assert (Hin : e0 ∈ ops_of 3 (ops (core s))) by (rewrite Hl; by left). apply list_elem_of_filter in Hin as [Hu Hin].
  destruct (list_elem_of_split _ _ Hin) as (pre & post & Hsplit).
  assert (Henv : environment lab_room lab_routes 3 (core (submit s)) lab_files e0 i None (wheap (server (core (submit s))))).
  { apply lab_environment; [by intros _ _|done| |done]. apply kernel_leaves. left. by destruct (op e0). }
  destruct (listen_completes (H := linux) lab_room true lab_routes (6, 7) 3 lab_routes_ok (submit s) pre e0 post i lab_files None _
    (lab_inv _ Hs') Hsplit Hu Henv) as (_ & [(? & _)|[(c & _ & Ec & Hco & Es & _)|(w' & E & _ & _ & _ & _ & _ & Hb & _)] ]); [lia| |].
  { destruct (Hstr i c Hi Ec Hco) as [? ?]. congruence. }
  destruct Hb as [b Hb]; [lia|exact Hoom|]. destruct (inv_listen_slot _ _ Hinv) as (cl & Hcl & Hal).
  exists e0. eexists. exists b. split; [exact Hu|]. rewrite set_heap_same in E.
  assert (E' := E). rewrite <- (set_heap_same (server (core (submit s)))), <- Hu in E'.
  pose proof (live_complete (H := linux) lab_room true lab_routes (6, 7) 3 (submit s) _ _ _ _ _ _ _ _ Hsplit Henv E') as Hst.
  split; [exact Hst|]. split; [by eapply live_next|]. rewrite Hu. split; [exact Hb|]. cbn [core after opens server]. split.
  - unfold accepted. destruct (_ && _); set_solver.
  - exact (accept_keeps_slots (H := x86) (H0 := linux) lab_room lab_files true (fst <$> lab_routes) (6, 7) 3 i (server (core (submit s))) w' cl Hcl Hal E).
Qed.

Ltac absent :=
  let H := fresh in
  intros H; repeat (apply elem_of_cons in H as [H|H]; [discriminate H|]); by apply not_elem_of_nil in H.

Lemma splits_first {A} (x : A) l u v : x ∉ l -> x :: l = u ++ x :: v -> u ++ v = l.
Proof. intros Hx E. destruct u as [|y u]; injection E as; subst; [done|]. destruct Hx. set_solver. Qed.

Ltac settled :=
  let H := fresh in
  intros ? H ?; repeat (apply elem_of_cons in H as [->|H]; [|]); try (by apply not_elem_of_nil in H); try done;
  first [by eexists 0%nat, _, _, _|by eexists 1%nat, _, _, _|by eexists 2%nat, _, _, _|by eexists 3%nat, _, _, _
        |by eexists 4%nat, _, _, _|by eexists 5%nat, _, _, _].

(** The whole run, from the request on. *)
Record lab_script (r : nat -> live) (l : nat -> event) (b : block) : Prop := Lab_script {
  lab_runs : run (H := linux) lab_room true lab_routes (6, 7) 3 [] r l;
  lab_fair : fair 5 r l;
  lab_waits : ops_of 5 (ops (core (r 3%nat))) = [recv_op 5 b];
  lab_hears : l 3%nat = Completion (recv_op 5 b) (Z.of_nat (length lab_request)) lab_files (Some lab_request);
  lab_answers : exists o n, ops_of 5 (ops (core (r 4%nat))) = lab_ops o n
}.

Lemma lab_run : exists r l b, lab_script r l b.
Proof.
  destruct lab_starts as (s0 & R0 & Q0 & Ho0 & Hc0 & _).
  destruct (lab_accept s0 5 R0 Hc0) as (e0 & s2 & b & Hu0 & St0 & R2 & Q2 & _); [done|done|by rewrite Ho0|].
  destruct (lab_next s2 (recv_op 5 b) 5 (Z.of_nat (length lab_request)) (Some lab_request) R2)
    as (s4 & Sb2 & St2 & R4 & Hq & _); [rewrite Q2; by left|done|done| |by intros ? [= <-]; apply lab_client|].
  { apply can_receive; [exact R2| |vm_compute; by split].
    assert (Hin : recv_op 5 b ∈ ops_of 5 (ops (core s2))) by (rewrite Q2; by left). by apply list_elem_of_filter in Hin as [_ ?]. }
  destruct (Hq _ eq_refl) as (o & n & Q4). clear Hq.
  pose proof Q4 as Q4'. rewrite lab_chain in Q4'.
  assert (Hleave : forall s e, is_recv (op e) = false -> exists h, kernel_memory (wheap (server (core s))) e 0 None h).
  { intros s e He. eexists. apply kernel_leaves. by left. }
  destruct (lab_next s4 (lab_head o n) 5 0 None R4) as (s6 & Sb4 & St4 & R6 & _ & Q6); [rewrite Q4'; by left|done|done|by apply Hleave|done|].
  destruct (Q6 eq_refl) as (u1 & v1 & E1 & E6). rewrite Q4' in E1. apply splits_first in E1; [|by absent]. rewrite E1 in E6. clear Q6.
  destruct (lab_next s6 lab_fill 5 0 None R6) as (s8 & Sb6 & St6 & R8 & _ & Q8); [rewrite E6; by left|done|done|by apply Hleave|done|].
  destruct (Q8 eq_refl) as (u2 & v2 & E2 & E8). rewrite E6 in E2. apply splits_first in E2; [|by absent]. rewrite E2 in E8. clear Q8.
  destruct (lab_next s8 lab_drain 5 0 None R8) as (s10 & Sb8 & St8 & R10 & _ & Q10); [rewrite E8; by left|done|done|by apply Hleave|done|].
  destruct (Q10 eq_refl) as (u3 & v3 & E3 & E10). rewrite E8 in E3. apply splits_first in E3; [|apply not_elem_of_nil]. rewrite E3 in E10. clear Q10.
  set (l := [(Submit, submit s0); (Completion e0 5 lab_files None, s2);
    (Submit, submit s2); (Completion (recv_op 5 b) (Z.of_nat (length lab_request)) lab_files (Some lab_request), s4);
    (Submit, submit s4); (Completion (lab_head o n) 0 lab_files None, s6); (Submit, submit s6); (Completion lab_fill 0 lab_files None, s8);
    (Submit, submit s8); (Completion lab_drain 0 lab_files None, s10)]).
  exists (states s0 l), (events l), b. constructor; [| |exact (eq_trans (submit_ops s2 5) Q2)|done|by exists o, n].
  - apply trace_run; [exact R0|]. repeat (apply trace_step; [done || apply live_submit|]). apply trace_end.
  - apply settles_fair. unfold l. cbn [settles]. rewrite !submit_ops, Q0, Q2, Q4', E6, E8, E10.
    by repeat (split; [by settled|]).
Qed.

(** ** Properties *)

(** C3.  In an environment of the kind described here no completion faults.  The
    platform is x86, the handlers of routes implement their answers, and only the
    watching build routes to files; accepted descriptors are not open and have slots;
    a receive brings a text that fills the buffer, or one without NUL, with no header
    line that ends with its colon, to which the response fits the strings and every
    line of it the buffer on the stack; the kernel writes nothing else; files have
    sizes and MIME types; and the submission queue has three free entries.  Then, in
    either build, every completion in every reachable state is handled and leads to a
    reachable state, but for the exit when an accept fails with an error that is not
    [EAGAIN] and, only when allocations can fail, the null dereference of an accept
    whose slot has kept the coroutine of a preparation that found no memory for the
    string.  Nothing is claimed outside of such an environment, where the code does
    fault: [long_protocol_overflows] is a request whose status line is too long. *)
Theorem no_fault_in_environment `{Abi} (room : list sqe -> bool) (watch : bool) (rs : routes) (pipefds : Z * Z)
    (listen_fd : Z) (schedule : list bool) (s : live) (pre post : list sqe) (e : sqe) (ret : Z) (fs : file_system)
    (t : option bytes) (h : heap)
    (Hroutes : Forall (route_ok watch) rs) (Hs : live_reachable room watch rs pipefds listen_fd schedule s)
    (Hin : inflight (core s) = pre ++ e :: post) (Henv : environment room rs listen_fd (core s) fs e ret t h) :
  let outcome := handle_cqe (H := x86) room fs watch (fst <$> rs) pipefds listen_fd (user_data e) ret
                   (set_heap (server (core s)) h) in
  (exists w', outcome = Ok w' /\
     live_reachable room watch rs pipefds listen_fd schedule
       (Live (after (core s) pre post e ret w') (heard (received s) (user_data e) (pair fs <$> t)))) \/
  (is_accept (op e) = true /\ ret < 0 /\ ret <> - EAGAIN /\ outcome = Exited 1) \/
  (schedule <> [] /\ is_accept (op e) = true /\ exists c, conns (server (core s)) !! ret = Some c /\
     is_Some (coro c) /\ conn_str c = None /\ outcome = Undef NullDeref).
Proof.
  pose proof (live_reachable_inv room watch rs pipefds listen_fd Hroutes schedule s Hs) as Hlive. intros outcome.
  assert (Hnext : forall w', outcome = Ok w' -> exists w', outcome = Ok w' /\
     live_reachable room watch rs pipefds listen_fd schedule
       (Live (after (core s) pre post e ret w') (heard (received s) (user_data e) (pair fs <$> t)))).
  { intros w' E. exists w'. split; [done|]. eapply live_next; [exact Hs|]. by eapply live_complete. }
  assert (He : e ∈ ops (core s)) by (unfold ops; rewrite Hin; set_solver).
  pose proof (inv_known _ _ (live_core _ _ _ _ _ Hlive)) as Hall. rewrite Forall_forall in Hall.
  destruct (Hall e He) as (j & _ & Hu & _). clear Hall. unfold outcome in *. rewrite Hu in *.
  destruct (decide (j = listen_fd)) as [->|Hj].
  - destruct (listen_completes room watch rs pipefds listen_fd Hroutes s pre e post ret fs t h Hlive Hin Hu Henv)
      as (Hacc & [(Hneg & Hag & Ex)|[(c & Hne & Hc & Hco & Hstr & Ex)|(w' & E & _)] ]);
      [by right; left| |left; by eapply Hnext].
    right. right. split; [|split; [done|by exists c] ]. intros ->.
    pose proof (live_reachable_healthy room watch rs pipefds listen_fd Hroutes s Hs) as [_ Hh].
    destruct (Hh ret c Hne Hc Hco) as [? ?]. congruence.
  - destruct (conn_completes room watch rs pipefds listen_fd Hroutes s pre e post j ret fs t h Hlive Hin Hu Hj Henv) as (w' & u & v & E & _).
    left. by eapply Hnext.
Qed.

(** C4.  What is sent is what was promised.  In every reachable state, in either build,
    every outstanding send or splice is an operation of the specification's answer
    to the text its connection received last, with the files as they were then; and
    the bytes a send points to are, at that time, that answer: whichever allocations
    fail, no other connection's handling, allocation or reset touches them before
    the kernel has sent them.  The bytes of a canned response are those of its array
    when it was queued. *)
Theorem sends_hold_answers `{Abi} (room : list sqe -> bool) (watch : bool) (rs : routes) (pipefds : Z * Z)
    (listen_fd : Z) (schedule : list bool) (s : live) (e : sqe)
    (Hroutes : Forall (route_ok watch) rs) (Hs : live_reachable room watch rs pipefds listen_fd schedule s)
    (He : e ∈ ops (core s)) (Hop : is_step (op e) = true) :
  exists i fs text b, user_data e = Some i /\ i <> listen_fd /\ received s !! i = Some (fs, text) /\
    let answer := response_to fs rs text in
    e ∈ response_ops watch pipefds i i b (Z.of_nat (length answer)) (decision_for fs rs text) /\
    forall fd b n f, op e = Send fd b n f -> payload (mem (wheap (server (core s)))) e = Ok (i, answer).
Proof.
  pose proof (live_reachable_inv room watch rs pipefds listen_fd Hroutes schedule s Hs) as Hlive.
  destruct (sends_answer room watch rs pipefds listen_fd Hroutes s e Hlive He Hop)
    as (i & fs & text & b & n & Hi & Hu & Hrec & -> & _ & Hsub & Hpay).
  pose proof (elem_of_sublist _ _ _ (ops_of_in i e _ He Hu) Hsub) as Hin.
  exists i, fs, text, b. split; [done|]. split; [done|]. split; [done|]. split; [done|].
  intros fd b' n' f Hsend. by rewrite (response_send _ _ _ _ _ _ _ _ _ _ _ _ Hin Hsend).
Qed.

(** C2.  Every request is answered and its connection closed.  In an infinite run of the
    server, in either build, in which the kernel eventually completes the steps of a
    connection, a request received on it when no later allocation fails has exactly
    the operations of the specification's answer queued.  All of them complete;
    until the last one has, nothing else is queued for the connection, and as long
    as the header is outstanding its bytes are the specification's.  The last
    completion closes the descriptor. *)
Theorem request_answered `{Abi} (room : list sqe -> bool) (watch : bool) (rs : routes) (pipefds : Z * Z)
    (listen_fd : Z) (schedule : list bool) (r : nat -> live) (l : nat -> event) (i ret : Z) (n : nat) (e : sqe)
    (fs : file_system) (text : bytes)
    (Hroutes : Forall (route_ok watch) rs) (Hrun : run room watch rs pipefds listen_fd schedule r l) (Hfair : fair i r l)
    (Hl : l n = Completion e ret fs (Some text)) (Hu : user_data e = Some i) (Hi : i <> listen_fd)
    (Hoom : oom (wheap (server (core (r n)))) = []) :
  exists m b,
    let answer := response_to fs rs text in
    let head := head_op watch pipefds i i b (Z.of_nat (length answer)) (decision_for fs rs text) in
    let q := response_ops watch pipefds i i b (Z.of_nat (length answer)) (decision_for fs rs text) in
    (n < m)%nat /\ ops_of i (ops (core (r (S n)))) = q /\
    (forall e', e' ∈ q -> exists j ret' fs' t', (n < j <= m)%nat /\ l j = Completion e' ret' fs' t') /\
    (forall j, (n < j <= m)%nat ->
       ops_of i (ops (core (r j))) <> [] /\ ops_of i (ops (core (r j))) `sublist_of` q /\
       (head ∈ ops_of i (ops (core (r j))) -> payload (mem (wheap (server (core (r j))))) head = Ok (i, answer))) /\
    ops_of i (ops (core (r (S m)))) = [] /\
    closed (server (core (r (S m)))) = i :: closed (server (core (r m))).
Proof.
  pose proof (fun j => live_reachable_inv room watch rs pipefds listen_fd Hroutes schedule _
                (run_reachable room watch rs pipefds listen_fd Hroutes schedule r l j Hrun)) as Hlive.
  destruct (step_inv room watch rs pipefds listen_fd Hroutes _ _ _ (Hlive n) (run_step _ _ _ _ _ _ _ _ Hrun n)) as (_ & _ & Hon).
  specialize (Hon i Hi). rewrite Hl in Hon. destruct Hon as [_ Hon].
  rewrite decide_True in Hon by done. destruct (proj1 Hon text eq_refl) as [Hrec Hsend]. destruct (Hsend Hoom) as (b & k & Hops). clear Hon Hsend.
  pose proof (fun j => head_holds room watch rs pipefds listen_fd Hroutes (r j) i fs text b k (Hlive j)) as Hhead.
  destruct (Hhead (S n) Hrec) as [-> _]; [rewrite Hops; by left|].
  set (n0 := Z.of_nat _) in *. set (d := decision_for fs rs text) in *.
  destruct (response_ends room watch rs pipefds listen_fd Hroutes schedule r l i (Some (fs, text))
    (length (file_ops watch pipefds i i d)) (response_ops watch pipefds i i b n0 d) (S n) Hrun Hfair Hi eq_refl Hops) as (m & Hm & Hdone & Hstay & Hend);
    [eapply Forall_impl; [by apply (sublist_steps watch rs pipefds fs i text b n0)|by intros ? [_ ?] ]|done|].
  exists m, b. cbn zeta. fold n0 d. split; [lia|]. split; [done|]. split; [|split; [|done] ].
  - intros e' He'. destruct (Hdone e' He') as (j & ret' & fs' & t' & Hj & El). exists j, ret', fs', t'. split; [lia|done].
  - intros j Hj. destruct (Hstay j ltac:(lia)) as (H1 & H2 & H3). split; [done|]. split; [done|]. intros Hin. by apply Hhead.
Qed.

(** C5.  The memory that the kernel is given.  In every state reachable in an environment
    as above, whatever is outstanding and whichever allocations fail, a receive writes a live block of
    exactly the 2^21 bytes it is told, which no other outstanding operation names.  A
    send asks for at least one byte and fewer than 2^20: of a composed response, or the
    header of a file, it reads them from a live block that has as many; of a canned
    response it names an array of the handler that has ended by then, and all that
    is shown is that the length is that of the text the array held, not that reading
    it is in bounds.  The length of a splice is an unsigned 32-bit number. *)
Theorem kernel_io_in_bounds `{Abi} (room : list sqe -> bool) (watch : bool) (rs : routes) (pipefds : Z * Z)
    (listen_fd : Z) (schedule : list bool) (s : live) (e : sqe)
    (Hroutes : Forall (route_ok watch) rs) (Hs : live_reachable room watch rs pipefds listen_fd schedule s)
    (He : e ∈ ops (core s)) : io_in_bounds rs (received s) (mem (wheap (server (core s)))) (ops (core s)) e.
Proof.
  apply (io_bounds room watch rs pipefds listen_fd Hroutes); [|exact He].
  exact (live_reachable_inv room watch rs pipefds listen_fd Hroutes schedule s Hs).
Qed.

(** ** Witnesses *)

Abbreviation lab_handle w ret := (handle_cqe (H := x86) (H0 := linux) lab_room lab_files true (fst <$> lab_routes) (6, 7) 3 (Some 5) ret w).

Lemma no_fault_in_environment_witness :
  exists s h b w', lab_reachable s /\ lab_handle (set_heap (server (core s)) h) (Z.of_nat (length lab_request)) = Ok w' /\
    recv_op 5 b ∈ ops (core s).
Proof.
  destruct lab_run as (r & l & b & [Hrun _ _ Hl _]).
  pose proof (run_reachable (H := linux) lab_room true lab_routes (6, 7) 3 lab_routes_ok [] _ _ 3 Hrun) as R.
  pose proof (run_step (H := linux) _ _ _ _ _ _ _ _ Hrun 3%nat) as St. rewrite Hl in St.
  inversion St as [|? pre e post ret fs t h w' Hin Henv E]; subst.
  destruct (no_fault_in_environment (H := linux) lab_room true lab_routes (6, 7) 3 [] (r 3%nat) pre post _ _ _ _ h lab_routes_ok R Hin Henv)
    as [(w1 & E1 & _)|[(Hacc & _)|(Hno & _)] ]; [|done|by destruct Hno].
  exists (r 3%nat), h, b, w1. split; [exact R|]. split; [exact E1|]. unfold ops. rewrite Hin. set_solver.
Defined.

(** The operations of the file, in the state after its request. *)
Lemma lab_sending : exists s o n, lab_reachable s /\ ops_of 5 (ops (core s)) = [lab_head o n; lab_fill; lab_drain].
Proof.
  destruct lab_run as (r & l & b & [Hrun _ _ _ (o & n & Ho)]). rewrite lab_chain in Ho.
  exists (r 4%nat), o, n. split; [|exact Ho]. exact (run_reachable (H := linux) lab_room true lab_routes (6, 7) 3 lab_routes_ok [] _ _ 4 Hrun).
Qed.

Lemma sends_hold_answers_witness :
  exists s o n fs text, lab_head o n ∈ ops (core s) /\ received s !! 5 = Some (fs, text) /\
    payload (mem (wheap (server (core s)))) (lab_head o n) = Ok (5, response_to fs lab_routes text).
Proof.
  destruct lab_sending as (s & o & n & R & Ho). assert (Hin : lab_head o n ∈ ops_of 5 (ops (core s))) by (rewrite Ho; by left).
  apply list_elem_of_filter in Hin as [_ Hin].
  destruct (sends_hold_answers (H := linux) lab_room true lab_routes (6, 7) 3 [] s _ lab_routes_ok R Hin eq_refl)
    as (i & fs & text & b & Hi & _ & Hrec & _ & Hp).
  injection Hi as <-. exists s, o, n, fs, text. split; [exact Hin|]. split; [exact Hrec|]. by eapply Hp.
Defined.

Lemma request_answered_witness :
  exists r l m o n, run (H := linux) lab_room true lab_routes (6, 7) 3 [] r l /\
    ops_of 5 (ops (core (r 4%nat))) = [lab_head o n; lab_fill; lab_drain] /\
    n = Z.of_nat (length (response_to lab_files lab_routes lab_request)) /\
    closed (server (core (r (S m)))) = 5 :: closed (server (core (r m))).
Proof.
  destruct lab_run as (r & l & b & [Hrun Hfair _ Hl _]).
  pose proof (run_reachable (H := linux) lab_room true lab_routes (6, 7) 3 lab_routes_ok [] _ _ 3 Hrun) as R.
  destruct (live_reachable_healthy (H := linux) lab_room true lab_routes (6, 7) 3 lab_routes_ok _ R) as [Ho _].
  destruct (request_answered (H := linux) lab_room true lab_routes (6, 7) 3 [] r l 5 _ 3 (recv_op 5 b) lab_files lab_request lab_routes_ok
    Hrun Hfair Hl eq_refl ltac:(done) Ho) as (m & o & Hm & Hq & _ & _ & _ & Hcl).
  exists r, l, m, o, (Z.of_nat (length (response_to lab_files lab_routes lab_request))). split; [exact Hrun|].
  rewrite lab_chain in Hq. split; [exact Hq|]. split; [reflexivity|exact Hcl].
Defined.

Lemma kernel_io_in_bounds_witness :
  exists s o n k bs, lab_reachable s /\ lab_head o n ∈ ops (core s) /\
    o = Buf (Ptr k 0) /\ mem (wheap (server (core s))) !! k = Some bs /\ 0 < n <= Z.of_nat (length bs).
Proof.
  destruct lab_run as (r & l & b & [Hrun _ _ Hl (o & n & Ho)]). rewrite lab_chain in Ho.
  pose proof (run_reachable (H := linux) lab_room true lab_routes (6, 7) 3 lab_routes_ok [] _ _ 3 Hrun) as R3.
  pose proof (run_reachable (H := linux) lab_room true lab_routes (6, 7) 3 lab_routes_ok [] _ _ 4 Hrun) as R.
  assert (Hin : lab_head o n ∈ ops_of 5 (ops (core (r 4%nat)))) by (rewrite Ho; by left).
  apply list_elem_of_filter in Hin as [_ Hin].
  destruct (step_inv (H := linux) lab_room true lab_routes (6, 7) 3 lab_routes_ok _ _ _ (lab_inv _ R3)
    (run_step (H := linux) _ _ _ _ _ _ _ _ Hrun 3%nat)) as (_ & _ & Hon).
  specialize (Hon 5 ltac:(done)). rewrite Hl in Hon. destruct Hon as [_ Hon]. rewrite decide_True in Hon by done.
  destruct (proj1 Hon lab_request eq_refl) as [Hrec _].
  destruct (kernel_io_in_bounds (H := linux) lab_room true lab_routes (6, 7) 3 [] _ _ lab_routes_ok R Hin) as (Hn & i & fs & text & Hi & Hrec' & Hbuf).
  injection Hi as <-. rewrite Hrec in Hrec'. injection Hrec' as <- <-. rewrite lab_decision in Hbuf. destruct Hbuf as (k & bs & -> & Hk & Hlen).
  exists (r 4%nat), (Buf (Ptr k 0)), n, k, bs. split; [exact R|]. split; [exact Hin|]. split; [done|]. split; [exact Hk|]. split; [apply Hn|exact Hlen].
Defined.
