(* ===== verification/Pipe.v ===== *)
(** * The pipe that all responses share

    [create_server] makes one pipe, and every file goes through it: a splice from
    the file fills it, and the linked splice drains it to the client (lib/io_loop.c,
    lines 97 to 106).  Here the operations outstanding in a reachable state of
    [System] are executed by a kernel.  Its behaviour is a parameter: [Kernel_io]
    states what it documents of sends, of splices and of linked operations. *)

From S2P Require Import Prelude CMem Strbuf Kv Http HttpParser HttpResponse Coro IoUring IoLoop IoLoopInv Spec Routes Serve System Guarantees.
Open Scope Z_scope.

(** ** Executing operations *)

(** What is in the pipe, and what each descriptor has been sent. *)
Record net := Net { pipe : bytes; stream : gmap Z bytes }.

Definition sent_to (st : net) (fd : Z) : bytes := default [] (stream st !! fd).
Definition deliver (st : net) (fd : Z) (bs : bytes) : net := Net (pipe st) (<[fd := sent_to st fd ++ bs]> (stream st)).

Lemma sent_to_deliver st fd bs : sent_to (deliver st fd bs) fd = sent_to st fd ++ bs.
Proof. unfold sent_to at 1, deliver. cbn [stream]. by rewrite lookup_insert_eq. Qed.

Lemma sent_to_other st fd fd' bs : fd' <> fd -> sent_to (deliver st fd bs) fd' = sent_to st fd'.
Proof. intros Hne. unfold sent_to, deliver. cbn [stream]. by rewrite lookup_insert_ne. Qed.

Lemma pipe_deliver st fd bs : pipe (deliver st fd bs) = pipe st.
Proof. done. Qed.

Lemma sent_to_pipe p st fd : sent_to (Net p (stream st)) fd = sent_to st fd.
Proof. done. Qed.

(** An operation, in memory [m]: its result and its effect. *)
Definition executor : Type := gmap block bytes -> sqe -> net -> Z * net.

(** A send to a socket with room for it, a splice from a file to a pipe with room,
    and one from a pipe with data, each moving as much as it can.  A splice with
    nothing to move is left open, but for one of length 0. *)
Class Kernel_io (pipefds : Z * Z) (pipe_size : Z) (file_bytes : Z -> bytes) (exec : executor) : Prop := {
  io_send m e st fd b n f bs :
    op e = Send fd b n f -> payload m e = Ok (fd, bs) -> exec m e st = (Z.of_nat (length bs), deliver st fd bs);
  io_fill m e st fd n f (bs := take (Z.to_nat (Z.min n (pipe_size - Z.of_nat (length (pipe st))))) (file_bytes fd)) :
    op e = Splice fd 0 pipefds.2 (-1) n f -> n = 0 \/ bs <> [] ->
    exec m e st = (Z.of_nat (length bs), Net (pipe st ++ bs) (stream st));
  io_drain m e st fd n f (bs := take (Z.to_nat n) (pipe st)) :
    op e = Splice pipefds.1 (-1) fd (-1) n f -> n = 0 \/ bs <> [] ->
    exec m e st = (Z.of_nat (length bs), deliver (Net (drop (Z.to_nat n) (pipe st)) (stream st)) fd bs)
}.

Section kernel.
Context `{Abi}.
Variable exec : executor.

(** What is left of a chain after an operation: a linked one that does less than it
    was asked to cancels the rest. *)
Definition rest_of (e : sqe) (ret : Z) (c : list sqe) : list sqe :=
  match op e with
  | Send _ _ n _ | Splice _ _ _ _ n _ => if (sqe_flags e =? IOSQE_IO_LINK) && negb (ret =? n) then [] else c
  | _ => c
  end.

(** Chains are executed in order, but interleaved: [turns] says which comes next. *)
Fixpoint run_kernel (m : gmap block bytes) (turns : list nat) (chains : list (list sqe)) (st : net) : list (list sqe) * net :=
  match turns with
  | [] => (chains, st)
  | k :: turns =>
      match chains !! k with
      | Some (e :: c) => let '(ret, st) := exec m e st in run_kernel m turns (<[k := rest_of e ret c]> chains) st
      | _ => run_kernel m turns chains st
      end
  end.

Lemma run_next m k turns chains st e c ret st' :
  chains !! k = Some (e :: c) -> exec m e st = (ret, st') ->
  run_kernel m (k :: turns) chains st = run_kernel m turns (<[k := rest_of e ret c]> chains) st'.
Proof. intros Hk E. cbn [run_kernel]. by rewrite Hk, E. Qed.
End kernel.

(** A kernel that does so. *)
Definition fifo (pipefds : Z * Z) (pipe_size : Z) (file_bytes : Z -> bytes) : executor := fun m e st =>
  match op e with
  | Send fd _ _ _ => match payload m e with Ok (_, bs) => (Z.of_nat (length bs), deliver st fd bs) | _ => (-14, st) end
  | Splice fd off fd' _ n _ =>
      let bs := if off =? 0 then take (Z.to_nat (Z.min n (pipe_size - Z.of_nat (length (pipe st))))) (file_bytes fd)
                else take (Z.to_nat n) (pipe st) in
      if negb (n =? 0) && bool_decide (bs = []) then (-11, st)
      else (Z.of_nat (length bs),
            if off =? 0 then Net (pipe st ++ bs) (stream st)
            else deliver (Net (drop (Z.to_nat n) (pipe st)) (stream st)) fd' bs)
  | _ => (-22, st)
  end.

#[export] Instance fifo_io pipefds pipe_size file_bytes : Kernel_io pipefds pipe_size file_bytes (fifo pipefds pipe_size file_bytes).
Proof.
  assert (Hgo : forall n (bs : bytes), n = 0 \/ bs <> [] -> negb (n =? 0) && bool_decide (bs = []) = false).
  { intros n bs [->|Hbs]; [done|]. rewrite (bool_decide_eq_false_2 _ Hbs). apply andb_false_r. }
  constructor.
  - intros m e st fd b n f bs Hop Hp. unfold fifo. by rewrite Hop, Hp.
  - intros m e st fd n f bs Hop Hbs. unfold fifo. rewrite Hop. cbn [Z.eqb]. by rewrite Hgo.
  - intros m e st fd n f bs Hop Hbs. unfold fifo. rewrite Hop. cbn [Z.eqb]. by rewrite Hgo.
Qed.

(** ** The three operations of a file *)

#[local] Set Default Proof Using "All".

Section file.
Context `{Abi}.
Context (pipefds : Z * Z) (pipe_size : Z) (file_bytes : Z -> bytes) (exec : executor).
Context `{Hkernel : !Kernel_io pipefds pipe_size file_bytes exec}.

Lemma file_chain i b k proto mime fd size :
  response_ops true pipefds i i b k (Spliced proto mime fd size) =
    [head_op true pipefds i i b k (Spliced proto mime fd size);
     Sqe (Splice fd 0 pipefds.2 (-1) (u32 size) SPLICE_F_NONBLOCK) (Some i) IOSQE_IO_LINK;
     Sqe (Splice pipefds.1 (-1) i (-1) (u32 size) SPLICE_F_NONBLOCK) (Some i) 0].
Proof using Type. reflexivity. Qed.

Lemma run_head m x turns chains st i b k proto mime fd size c bs :
  let e := head_op true pipefds i i b k (Spliced proto mime fd size) in
  chains !! x = Some (e :: c) -> payload m e = Ok (i, bs) -> k = Z.of_nat (length bs) ->
  run_kernel exec m (x :: turns) chains st = run_kernel exec m turns (<[x := c]> chains) (deliver st i bs).
Proof.
  intros e Hx Hp ->. erewrite run_next; [|exact Hx|by eapply io_send]. unfold rest_of. cbn [op e head_op file_ops splice_ops sqe_flags].
  by rewrite !Z.eqb_refl.
Qed.

(** The whole file enters the pipe, or as much as fits. *)
Lemma run_fill m x turns chains st i fd size c (n := u32 size) (free := pipe_size - Z.of_nat (length (pipe st))) :
  chains !! x = Some (Sqe (Splice fd 0 pipefds.2 (-1) n SPLICE_F_NONBLOCK) (Some i) IOSQE_IO_LINK :: c) ->
  n <= Z.of_nat (length (file_bytes fd)) -> 0 < free ->
  run_kernel exec m (x :: turns) chains st =
    run_kernel exec m turns (<[x := if n <=? free then c else []]> chains)
      (Net (pipe st ++ take (Z.to_nat (Z.min n free)) (file_bytes fd)) (stream st)).
Proof.
  intros Hx Hn Hfree. assert (H0 : 0 <= n) by (apply Z.mod_pos_bound; lia).
  assert (Hlen : Z.of_nat (length (take (Z.to_nat (Z.min n free)) (file_bytes fd))) = Z.min n free) by (rewrite length_take; lia).
  erewrite run_next; [|exact Hx|eapply io_fill; [reflexivity|] ].
  - unfold rest_of. cbn [op sqe_flags]. fold free. rewrite Hlen, Z.eqb_refl. cbn [andb].
    destruct (Z.leb_spec n free); [by rewrite Z.min_l, Z.eqb_refl by lia|].
    rewrite Z.min_r by lia. by destruct (Z.eqb_spec free n); [lia|].
  - destruct (Z.eq_dec n 0) as [|Hne]; [by left|right]. intros E%(f_equal length). fold free in E. simpl in E. lia.
Qed.

Lemma run_drain m x turns chains st i size (n := u32 size) :
  chains !! x = Some [Sqe (Splice pipefds.1 (-1) i (-1) n SPLICE_F_NONBLOCK) (Some i) 0] -> n <= Z.of_nat (length (pipe st)) ->
  run_kernel exec m (x :: turns) chains st =
    run_kernel exec m turns (<[x := []]> chains)
      (deliver (Net (drop (Z.to_nat n) (pipe st)) (stream st)) i (take (Z.to_nat n) (pipe st))).
Proof.
  intros Hx Hn. assert (H0 : 0 <= n) by (apply Z.mod_pos_bound; lia).
  erewrite run_next; [|exact Hx|eapply io_drain; [reflexivity|] ].
  - unfold rest_of. cbn [op]. by destruct (_ && _).
  - destruct (Z.eq_dec n 0) as [|Hne]; [by left|right]. intros E%(f_equal length). rewrite length_take in E. simpl in E. lia.
Qed.

(** A response that sends no file. *)
Definition no_file (d : decision) : Prop := match d with Spliced _ _ _ _ => False | _ => True end.

(** An operation that leaves the pipe and client [i] alone. *)
Definition harmless (m : gmap block bytes) (i : Z) (e : sqe) : Prop :=
  forall st, pipe (exec m e st).2 = pipe st /\ sent_to (exec m e st).2 i = sent_to st i.

(** Those of a response without a file are, to other clients: the build that watches
    its files splices, but nothing. *)
Lemma response_harmless m i j b k d :
  i <> j -> no_file d -> payload m (head_op true pipefds j j b k d) = Ok (j, render d) ->
  Forall (harmless m i) (response_ops true pipefds j j b k d).
Proof.
  intros Hij Hd Hp. destruct (head_op_send true pipefds j j b k d) as [f Hf]. unfold response_ops. constructor.
  - intros st. rewrite (io_send _ _ _ _ _ _ _ _ Hf Hp). split; [done|by apply sent_to_other].
  - destruct d as [text|proto r|proto mime fd size]; [constructor| |done]. repeat (apply Forall_cons; split); [| |constructor]; intros st.
    + erewrite io_fill; [|reflexivity|by left]. change (u32 0) with 0. rewrite (Z2Nat.nonpos (Z.min _ _)), take_0, app_nil_r by lia. done.
    + erewrite io_drain; [|reflexivity|by left]. change (Z.to_nat (u32 0)) with 0%nat. rewrite take_0, drop_0.
      split; [done|]. cbn [snd]. rewrite sent_to_other by done. apply sent_to_pipe.
Qed.

(** How far a file has come, with [c] left of its chain. *)
Inductive file_phase (st0 : net) (i b k : _) (proto mime : bytes) (fd size : Z) (st : net) : list sqe -> Prop :=
| phase_head : pipe st = [] -> sent_to st i = sent_to st0 i ->
    file_phase st0 i b k proto mime fd size st (response_ops true pipefds i i b k (Spliced proto mime fd size))
| phase_fill : pipe st = [] -> sent_to st i = sent_to st0 i ++ file_head proto mime size ->
    file_phase st0 i b k proto mime fd size st (splice_ops pipefds i i fd size)
| phase_drain : pipe st = take (Z.to_nat (u32 size)) (file_bytes fd) -> sent_to st i = sent_to st0 i ++ file_head proto mime size ->
    file_phase st0 i b k proto mime fd size st (drop 1 (splice_ops pipefds i i fd size))
| phase_done : pipe st = [] ->
    sent_to st i = sent_to st0 i ++ file_head proto mime size ++ take (Z.to_nat (u32 size)) (file_bytes fd) ->
    file_phase st0 i b k proto mime fd size st [].

Lemma file_phase_same st0 i b k proto mime fd size st st' c :
  pipe st' = pipe st -> sent_to st' i = sent_to st i ->
  file_phase st0 i b k proto mime fd size st c -> file_phase st0 i b k proto mime fd size st' c.
Proof. intros Hp Hi [?? |?? |?? |??]; constructor; congruence. Qed.

Lemma harmless_rest m i e ret c : Forall (harmless m i) (e :: c) -> Forall (harmless m i) (rest_of e ret c).
Proof. intros [_ Hc]%Forall_cons. unfold rest_of. destruct (op e); try done; by destruct (_ && _). Qed.

Section alone.
Context (m : gmap block bytes) (st0 : net) (i k : Z) (b : sqe_buf) (proto mime : bytes) (fd size : Z).
Context (Hhead : payload m (head_op true pipefds i i b k (Spliced proto mime fd size)) = Ok (i, file_head proto mime size)).
Context (Hk : k = Z.of_nat (length (file_head proto mime size))).
Context (Hfile : u32 size <= Z.of_nat (length (file_bytes fd))) (Hfits : u32 size <= pipe_size) (Hsize : 0 < pipe_size).

(** The next operation of the file, the others of any chains staying where they are. *)
Lemma file_next turns rest st c :
  file_phase st0 i b k proto mime fd size st c ->
  exists c' st', run_kernel exec m (0%nat :: turns) (c :: rest) st = run_kernel exec m turns (c' :: rest) st' /\
    file_phase st0 i b k proto mime fd size st' c' /\ length c' = (length c - 1)%nat.
Proof.
  assert (Hlen : length (take (Z.to_nat (u32 size)) (file_bytes fd)) = Z.to_nat (u32 size)) by (rewrite length_take; lia).
  intros [Hp Hsent|Hp Hsent|Hp Hsent|Hp Hsent].
  - rewrite file_chain. erewrite run_head; [|reflexivity|exact Hhead|exact Hk]. eexists _, _. split; [reflexivity|]. split; [|done].
    apply phase_fill; [exact Hp|]. by rewrite sent_to_deliver, Hsent.
  - erewrite run_fill; [|reflexivity|exact Hfile|rewrite Hp; simpl; lia]. rewrite Hp. cbn [length app Z.of_nat insert list_insert].
    rewrite Z.sub_0_r, Z.min_l by done. destruct (Z.leb_spec (u32 size) pipe_size); [|lia].
    eexists _, _. split; [reflexivity|]. split; [|done]. by apply phase_drain.
  - erewrite run_drain; [|reflexivity|rewrite Hp, Hlen; lia]. cbn [insert list_insert].
    eexists _, _. split; [reflexivity|]. split; [|done]. rewrite Hp, take_take, Nat.min_id, drop_ge by lia.
    apply phase_done; [done|]. by rewrite sent_to_deliver, sent_to_pipe, Hsent, <- app_assoc.
  - exists [], st. split; [done|]. split; [by apply phase_done|done].
Qed.

Lemma file_alone turns : forall rest st c,
  file_phase st0 i b k proto mime fd size st c -> Forall (Forall (harmless m i)) rest ->
  exists c' rest' st', run_kernel exec m turns (c :: rest) st = (c' :: rest', st') /\
    file_phase st0 i b k proto mime fd size st' c' /\ length c' = (length c - count_occ Nat.eq_dec turns 0)%nat.
Proof.
  induction turns as [|[|x] turns IH]; intros rest st c Hc Hrest.
  - exists c, rest, st. cbn. by rewrite Nat.sub_0_r.
  - destruct (file_next turns rest st c Hc) as (c1 & st1 & -> & Hc1 & Hlen).
    destruct (IH rest st1 c1 Hc1 Hrest) as (c' & rest' & st' & -> & Hc' & Hlen'). exists c', rest', st'.
    rewrite count_occ_cons_eq, Hlen', Hlen by done. split; [done|]. split; [done|]. lia.
  - rewrite count_occ_cons_neq by done. cbn [run_kernel]. change ((c :: rest) !! S x) with (rest !! x).
    destruct (rest !! x) as [ [|e c2]|] eqn:Hx; [by apply IH| |by apply IH].
    pose proof (Forall_lookup_1 _ _ _ _ Hrest Hx) as Hec. destruct (Forall_cons_1 _ _ _ Hec) as [He _].
    destruct (He st) as [Ep Es]. destruct (exec m e st) as [ret st1]. apply IH; [by eapply file_phase_same|].
    apply Forall_insert; [done|by apply harmless_rest].
Qed.
End alone.
End file.

(** The response [d] of connection [i] is outstanding, from its first operation. *)
Definition sending_file `{Abi} (pipefds : Z * Z) (rs : routes) (s : live) (i : Z) (d : decision) : Prop :=
  exists fs text b k, received s !! i = Some (fs, text) /\ decision_for fs rs text = d /\
    ops_of i (ops (core s)) = response_ops true pipefds i i b k d.

Lemma sending_header `{Abi} (room : list sqe -> bool) rs pipefds listen_fd (Hroutes : Forall (route_ok true) rs) schedule s i d :
  live_reachable room true rs pipefds listen_fd schedule s -> sending_file pipefds rs s i d ->
  exists b k, ops_of i (ops (core s)) = response_ops true pipefds i i b k d /\ k = Z.of_nat (length (render d)) /\
    payload (mem (wheap (server (core s)))) (head_op true pipefds i i b k d) = Ok (i, render d).
Proof.
  intros Hs (fs & text & b & k & Hrec & <- & Hq). exists b, k. split; [done|].
  apply (head_holds room true rs pipefds listen_fd Hroutes); [|exact Hrec|rewrite Hq; by left].
  exact (live_reachable_inv room true rs pipefds listen_fd Hroutes schedule s Hs).
Qed.

(** ** Properties *)

(** C6.  What a client gets that asks for a file, when no other response uses the
    pipe meanwhile.  In every reachable state of the watching build that has the
    response to it outstanding, if the pipe is empty when the kernel gets to it:
    a file that fits in the pipe is delivered, as many bytes as the 32-bit length of
    the splices says, after the header that announces it, and the pipe is empty
    again; of a larger one only the header is, because the short splice cancels the
    one linked to it, and what fitted stays in the pipe. *)
Theorem file_delivered `{Abi} (room : list sqe -> bool) (rs : routes) (pipefds : Z * Z) (listen_fd : Z) (schedule : list bool)
    (s : live) (i : Z) (proto mime : bytes) (fd size : Z) (pipe_size : Z) (file_bytes : Z -> bytes) (exec : executor) (st : net)
    (Hroutes : Forall (route_ok true) rs) (Hs : live_reachable room true rs pipefds listen_fd schedule s)
    (Hi : sending_file pipefds rs s i (Spliced proto mime fd size))
    (Hkernel : Kernel_io pipefds pipe_size file_bytes exec) (Hsize : 0 < pipe_size) (Hempty : pipe st = [])
    (Hfile : u32 size <= Z.of_nat (length (file_bytes fd))) :
  exists st',
    run_kernel exec (mem (wheap (server (core s)))) [0; 0; 0]%nat [ops_of i (ops (core s))] st = ([ [] ], st') /\
    (forall fd', fd' <> i -> sent_to st' fd' = sent_to st fd') /\
    if u32 size <=? pipe_size
    then sent_to st' i = sent_to st i ++ file_head proto mime size ++ take (Z.to_nat (u32 size)) (file_bytes fd) /\ pipe st' = []
    else sent_to st' i = sent_to st i ++ file_head proto mime size /\ pipe st' = take (Z.to_nat pipe_size) (file_bytes fd).
Proof.
  destruct (sending_header room rs pipefds listen_fd Hroutes schedule s i _ Hs Hi) as (b & k & -> & Hk & Hp). rewrite file_chain.
  erewrite run_head; [|done|reflexivity|exact Hp|exact Hk]. cbn [insert list_insert].
  erewrite run_fill; [|done|reflexivity|exact Hfile|]; cbn [pipe deliver]; rewrite Hempty; cbn [length app Z.of_nat]; rewrite Z.sub_0_r; [|done].
  destruct (Z.leb_spec (u32 size) pipe_size) as [Hfits|Hlarge]; cbn [insert list_insert].
  - rewrite Z.min_l by done. erewrite run_drain; [|done|reflexivity|cbn [pipe]; rewrite length_take; lia].
    eexists. split; [reflexivity|]. cbn [pipe stream]. rewrite take_take, Nat.min_id. split; [|split].
    + intros fd' Hne. rewrite sent_to_other by done. by apply (sent_to_other st).
    + rewrite sent_to_deliver, app_assoc. f_equal. apply (sent_to_deliver st).
    + unfold deliver. cbn [pipe]. by rewrite drop_ge by (rewrite length_take; lia).
  - rewrite Z.min_r by lia. eexists. split; [reflexivity|]. split; [|split; [|done] ].
    + intros fd' Hne. by apply (sent_to_other st).
    + apply (sent_to_deliver st).
Qed.

(** C8.  Two files at once are mixed up.  In a reachable state of the watching build with
    the responses to two requests for files outstanding, the kernel may do both
    first splices before the second ones, since only the operations of one
    connection are linked.  Then what is in the pipe first goes to the client whose
    second splice comes first: with files of one length each client gets the file
    that the other asked for, after the header of its own. *)
Theorem shared_pipe_mixes_files `{Abi} (room : list sqe -> bool) (rs : routes) (pipefds : Z * Z) (listen_fd : Z) (schedule : list bool)
    (s : live) (i j : Z) (proto1 mime1 proto2 mime2 : bytes) (fd1 size1 fd2 size2 : Z)
    (pipe_size : Z) (file_bytes : Z -> bytes) (exec : executor) (st : net)
    (Hroutes : Forall (route_ok true) rs) (Hs : live_reachable room true rs pipefds listen_fd schedule s)
    (Hij : i <> j) (Hi : sending_file pipefds rs s i (Spliced proto1 mime1 fd1 size1))
    (Hj : sending_file pipefds rs s j (Spliced proto2 mime2 fd2 size2))
    (Hkernel : Kernel_io pipefds pipe_size file_bytes exec) (Hempty : pipe st = [])
    (Hfile1 : 0 < u32 size1 <= Z.of_nat (length (file_bytes fd1))) (Hfile2 : 0 < u32 size2 <= Z.of_nat (length (file_bytes fd2)))
    (Hsize : u32 size1 + u32 size2 <= pipe_size) :
  let file1 := take (Z.to_nat (u32 size1)) (file_bytes fd1) in
  let file2 := take (Z.to_nat (u32 size2)) (file_bytes fd2) in
  exists st',
    run_kernel exec (mem (wheap (server (core s)))) [0; 1; 0; 1; 1; 0]%nat [ops_of i (ops (core s)); ops_of j (ops (core s))] st =
      ([ []; [] ], st') /\ pipe st' = [] /\
    sent_to st' j = sent_to st j ++ file_head proto2 mime2 size2 ++ take (Z.to_nat (u32 size2)) (file1 ++ file2) /\
    sent_to st' i = sent_to st i ++ file_head proto1 mime1 size1 ++ drop (Z.to_nat (u32 size2)) (file1 ++ file2) /\
    (u32 size1 = u32 size2 ->
       sent_to st' j = sent_to st j ++ file_head proto2 mime2 size2 ++ file1 /\
       sent_to st' i = sent_to st i ++ file_head proto1 mime1 size1 ++ file2).
Proof.
  intros file1 file2.
  destruct (sending_header room rs pipefds listen_fd Hroutes schedule s i _ Hs Hi) as (b1 & k1 & -> & Hk1 & Hp1).
  destruct (sending_header room rs pipefds listen_fd Hroutes schedule s j _ Hs Hj) as (b2 & k2 & -> & Hk2 & Hp2). rewrite !file_chain.
  assert (Hlen1 : Z.of_nat (length file1) = u32 size1) by (unfold file1; rewrite length_take; lia).
  assert (Hlen2 : Z.of_nat (length file2) = u32 size2) by (unfold file2; rewrite length_take; lia).
  erewrite run_head; [|done|reflexivity|exact Hp1|exact Hk1]. cbn [insert list_insert].
  erewrite run_head; [|done|reflexivity|exact Hp2|exact Hk2]. cbn [insert list_insert].
  erewrite run_fill; [|done|reflexivity|lia|rewrite !pipe_deliver, Hempty; simpl; lia].
  rewrite !pipe_deliver, Hempty. cbn [length app Z.of_nat insert list_insert]. rewrite Z.sub_0_r, Z.min_l by lia. fold file1.
  destruct (Z.leb_spec (u32 size1) pipe_size) as [_|]; [|lia].
  erewrite run_fill; [|done|reflexivity|lia|cbn [pipe]; lia]. cbn [pipe insert list_insert].
  rewrite Z.min_l by lia. fold file2. destruct (Z.leb_spec (u32 size2) (pipe_size - Z.of_nat (length file1))) as [_|]; [|lia].
  erewrite run_drain; [|done|reflexivity|cbn [pipe]; rewrite length_app; lia]. cbn [pipe insert list_insert].
  erewrite run_drain; [|done|reflexivity|rewrite pipe_deliver; cbn [pipe]; rewrite length_drop, length_app; lia].
  rewrite !pipe_deliver. cbn [pipe insert list_insert]. set (rest := drop (Z.to_nat (u32 size2)) (file1 ++ file2)).
  assert (Hrest : (length rest <= Z.to_nat (u32 size1))%nat) by (unfold rest; rewrite length_drop, length_app; lia).
  rewrite (take_ge rest), (drop_ge rest) by done. eexists. split; [reflexivity|]. split; [apply pipe_deliver|].
  match goal with |- context [sent_to ?x j] => set (st' := x) end.
  assert (Ej : sent_to st' j = sent_to st j ++ file_head proto2 mime2 size2 ++ take (Z.to_nat (u32 size2)) (file1 ++ file2)).
  { unfold st'. rewrite sent_to_other, sent_to_pipe, sent_to_deliver, !sent_to_pipe, sent_to_deliver, sent_to_other by done.
    by rewrite <- app_assoc. }
  assert (Ei : sent_to st' i = sent_to st i ++ file_head proto1 mime1 size1 ++ rest).
  { unfold st'. rewrite sent_to_deliver, sent_to_pipe, sent_to_other, !sent_to_pipe, sent_to_other, sent_to_deliver by done.
    by rewrite <- app_assoc. }
  split; [exact Ej|]. split; [exact Ei|]. intros Heq. rewrite Ej, Ei. unfold rest.
  by rewrite take_app_length', drop_app_length' by lia.
Qed.


(** ** Witnesses

    Connections 5 and 6 ask for the two files of tests/socket.c. *)

Abbreviation lab_step_on := (step_inv (H := linux) lab_room true lab_routes (6, 7) 3 lab_routes_ok).

Lemma lab_heard s e ret text s' i :
  lab_reachable s -> lab_step s (Completion e ret lab_files (Some text)) s' -> user_data e = Some i -> i <> 3 ->
  received s' !! i = Some (lab_files, text).
Proof.
  intros Hs Hst Hu Hi. destruct (lab_step_on _ _ _ (lab_inv _ Hs) Hst) as (_ & _ & Hon).
  destruct (Hon i Hi) as [_ Hon']. rewrite decide_True in Hon' by done. by apply (proj1 Hon' text).
Qed.

Lemma lab_unmoved s e ret t s' i j :
  lab_reachable s -> lab_step (submit s) (Completion e ret lab_files t) s' -> user_data e = Some j -> i <> j -> i <> 3 ->
  ops_of i (ops (core s)) <> [] ->
  ops_of i (ops (core s')) = ops_of i (ops (core s)) /\ received s' !! i = received s !! i.
Proof.
  intros Hs Hst Hu Hij Hi Hne. assert (Hs' : lab_reachable (submit s)) by (eapply live_next; [exact Hs|apply live_submit]).
  destruct (lab_step_on _ _ _ (lab_inv _ Hs') Hst) as (_ & _ & Hon). destruct (Hon i Hi) as [_ Hon'].
  rewrite decide_False in Hon' by congruence. rewrite submit_ops in Hon'. by apply Hon'.
Qed.

(** Connection [i] asks for [text]. *)
Lemma lab_asks s i b text : lab_reachable s -> ops_of i (ops (core s)) = [recv_op i b] -> i <> 3 ->
  client_ok lab_files lab_routes text -> 0 < Z.of_nat (length text) <= 2 ^ 21 ->
  exists s', lab_reachable s' /\ sending_file (H := linux) (6, 7) lab_routes s' i (decision_for lab_files lab_routes text) /\
    forall j, j <> i -> j <> 3 -> ops_of j (ops (core s)) <> [] ->
      ops_of j (ops (core s')) = ops_of j (ops (core s)) /\ received s' !! j = received s !! j.
Proof.
  intros Hs Hq Hi Hclient Hlen. assert (Hin : recv_op i b ∈ ops_of i (ops (core s))) by (rewrite Hq; by left).
  destruct (lab_next s (recv_op i b) i (Z.of_nat (length text)) (Some text) Hs Hin Hi eq_refl)
    as (s' & Hsub & Hst & Hs' & Hanswer & _).
  - apply can_receive; [exact Hs| |exact Hlen]. by apply list_elem_of_filter in Hin as [_ ?].
  - by intros ? [= <-].
  - exists s'. split; [exact Hs'|]. split; [|intros j Hj Hj3; by eapply lab_unmoved].
    destruct (Hanswer text eq_refl) as (o & k & Ho). exists lab_files, text, o, k. split; [|by split].
    assert (Hs2 : lab_reachable (submit s)) by (eapply live_next; [exact Hs|apply live_submit]). by eapply (lab_heard _ _ _ _ _ _ Hs2 Hst).
Qed.

Definition http11 : bytes := bytes_of_string "HTTP/1.1".
Definition lab_html : decision := Spliced http11 (bytes_of_string "text/html") 9 512.
Definition lab_png : decision := Spliced http11 (bytes_of_string "image/png") 10 512.

Lemma lab_two text : client_ok lab_files lab_routes text -> 0 < Z.of_nat (length text) <= 2 ^ 21 ->
  exists s, lab_reachable s /\ sending_file (H := linux) (6, 7) lab_routes s 5 lab_html /\
    sending_file (H := linux) (6, 7) lab_routes s 6 (decision_for lab_files lab_routes text).
Proof.
  intros Hclient Hlen.
  destruct lab_starts as (s0 & R0 & _ & Ho0 & Hc5 & Hc6).
  destruct (lab_accept s0 5 R0 Hc5) as (e0 & s2 & b & Hu0 & _ & R2 & Q5 & Ho2 & Hkeep); [done|done|by rewrite Ho0|].
  destruct (lab_accept s2 6 R2 (Hkeep 6 Hc6)) as (e2 & s4 & b' & Hu2 & St4 & R4 & Q6 & _ & _); [done|done| |].
  { rewrite Ho0 in Ho2. intros Hin%Ho2. set_solver. }
  destruct (lab_unmoved s2 e2 6 None s4 5 3 R2 St4 Hu2 ltac:(done) ltac:(done)) as [Q5' _]; [by rewrite Q5|]. rewrite Q5 in Q5'.
  destruct (lab_asks s4 5 b lab_request R4 Q5' ltac:(done) lab_client) as (s6 & R6 & S5 & Hother); [vm_compute; by split|].
  destruct (Hother 6) as [Q6' _]; [done|done|by rewrite Q6|]. rewrite Q6 in Q6'.
  destruct (lab_asks s6 6 b' text R6 Q6' ltac:(done) Hclient Hlen) as (s8 & R8 & S6 & Hother').
  exists s8. split; [exact R8|].
  assert (E1 : decision_for lab_files lab_routes lab_request = lab_html) by by vm_compute.
  rewrite E1 in S5. split; [|exact S6]. destruct S5 as (fs & text5 & o & k & Hrec & Hd & Hq).
  exists fs, text5, o, k. destruct (Hother' 5) as [Hops Hrec']; [done|done|by rewrite Hq|].
  split; [exact (eq_trans Hrec' Hrec)|]. split; [exact Hd|exact (eq_trans Hops Hq)].
Qed.

Lemma lab_two_files : exists s, lab_reachable s /\
  sending_file (H := linux) (6, 7) lab_routes s 5 lab_html /\ sending_file (H := linux) (6, 7) lab_routes s 6 lab_png.
Proof. exact (lab_two lab_request2 lab_client2 ltac:(vm_compute; by split)). Qed.

(** There is no such route. *)
Definition lab_request3 : bytes := bytes_of_string "GET /nowhere HTTP/1.1" ++ CRLF ++ bytes_of_string "Host: lab" ++ CRLF ++ CRLF.
Lemma lab_client3 : client_ok lab_files lab_routes lab_request3.
Proof. lab_text. Qed.

(** Every byte of a file is its descriptor. *)
Definition lab_bytes (fd : Z) : bytes := replicate 512 fd.
Definition lab_net : net := Net [] ∅.
Abbreviation lab_kernel size := (fifo (6, 7) size lab_bytes).

(** With a pipe of 64 kilobytes the file arrives; with one of 256 bytes it does not. *)
Lemma file_delivered_witness :
  exists s st1 st2, lab_reachable s /\
    run_kernel (H := linux) (lab_kernel 65536) (mem (wheap (server (core s)))) [0; 0; 0]%nat [ops_of 5 (ops (core s))] lab_net = ([ [] ], st1) /\
    sent_to st1 5 = file_head http11 (bytes_of_string "text/html") 512 ++ lab_bytes 9 /\
    run_kernel (H := linux) (lab_kernel 256) (mem (wheap (server (core s)))) [0; 0; 0]%nat [ops_of 5 (ops (core s))] lab_net = ([ [] ], st2) /\
    pipe st2 = replicate 256 9.
Proof.
  destruct lab_two_files as (s & R & S5 & _).
  destruct (file_delivered (H := linux) lab_room lab_routes (6, 7) 3 [] s 5 _ _ 9 512 65536 lab_bytes (lab_kernel 65536) lab_net lab_routes_ok R S5 _)
    as (st1 & E1 & _ & D1 & _); [done|done|by vm_compute|].
  destruct (file_delivered (H := linux) lab_room lab_routes (6, 7) 3 [] s 5 _ _ 9 512 256 lab_bytes (lab_kernel 256) lab_net lab_routes_ok R S5 _)
    as (st2 & E2 & _ & _ & D2); [done|done|by vm_compute|].
  exists s, st1, st2. split; [exact R|]. split; [exact E1|]. split; [exact D1|]. split; [exact E2|exact D2].
Defined.

Lemma shared_pipe_mixes_files_witness :
  exists s st, lab_reachable s /\
    run_kernel (H := linux) (lab_kernel 65536) (mem (wheap (server (core s)))) [0; 1; 0; 1; 1; 0]%nat
      [ops_of 5 (ops (core s)); ops_of 6 (ops (core s))] lab_net = ([ []; [] ], st) /\
    sent_to st 5 = file_head http11 (bytes_of_string "text/html") 512 ++ lab_bytes 10 /\
    sent_to st 6 = file_head http11 (bytes_of_string "image/png") 512 ++ lab_bytes 9.
Proof.
  destruct lab_two_files as (s & R & S5 & S6).
  destruct (shared_pipe_mixes_files (H := linux) lab_room lab_routes (6, 7) 3 [] s 5 6 _ _ _ _ 9 512 10 512 65536 lab_bytes (lab_kernel 65536) lab_net
    lab_routes_ok R ltac:(done) S5 S6 _) as (st & E & _ & _ & _ & D); [done|by vm_compute|by vm_compute|by vm_compute|].
  destruct (D eq_refl) as [D6 D5]. exists s, st. split; [exact R|]. split; [exact E|]. split; [exact D5|exact D6].
Defined.

