(* ===== verification/Server.v ===== *)
(** * Start-up (lib/socket.c, lib/server.c, include/syscall.h)

    The wrappers of include/syscall.h put the number and the arguments in registers
    and return the low 32 bits of [rax]; a raw system call reports an error by a
    negative error number.  The kernel is a parameter: the value of [rax], and what
    is written through pointer arguments, for a call after a history of calls.
    [inet_aton] and the file reading of [get_somaxconn] are library calls and
    parameters too.

    A function takes the history and returns it extended. *)

From S2P Require Import Prelude CMem Strbuf Kv Http HttpParser HttpResponse Coro IoUring IoLoop IoLoopInv.
Open Scope Z_scope.

(** The calls this part makes; a [struct sockaddr_in] by its fields. *)
Inductive call :=
| Socket (domain type protocol : Z)
| Bind (sockfd : Z) (sin_family sin_port sin_addr addrlen : Z)
| Listen (sockfd backlog : Z)
| Close (fd : Z)
| Getrlimit (resource : Z)
| Setrlimit (resource rlim_cur rlim_max : Z)
| Pipe2 (flags : Z).

#[export] Instance call_eq_dec : EqDecision call.
Proof. solve_decision. Defined.

Class Kernel := {
  rax : list call -> call -> Z;
  rlimits : list call -> Z * Z;        (* [rlim_cur] and [rlim_max] of [getrlimit] *)
  pipe_ends : list call -> Z * Z
}.

(** Constants and functions of the C library. *)
Class Libc := {
  AF_INET : Z; SOCK_STREAM : Z; SOCK_NONBLOCK : Z; SOCK_CLOEXEC : Z;
  RLIMIT_NOFILE : Z; O_CLOEXEC : Z; O_NONBLOCK : Z;
  htons : Z -> Z;
  inet_aton : bytes -> option Z;       (* the address, [None] when it returns 0 *)
  somaxconn : option (Z * Z)           (* the result of [fscanf] and the number; [None]: no file *)
}.

Section startup.
Context `{Kernel} `{Libc}.

(** [(int)syscall_n(...)] *)
Definition syscall (c : call) (t : list call) : Z * list call := (i32 (rax t c), t ++ [c]).

Definition __socket (domain type protocol : Z) := syscall (Socket domain type protocol).
Definition __bind (sockfd family port addr addrlen : Z) := syscall (Bind sockfd family port addr addrlen).
Definition __listen (sockfd backlog : Z) := syscall (Listen sockfd backlog).
Definition __close (fd : Z) := syscall (Close fd).
Definition __getrlimit (resource : Z) := syscall (Getrlimit resource).
Definition __setrlimit (resource cur max : Z) := syscall (Setrlimit resource cur max).
Definition __pipe2 (flags : Z) := syscall (Pipe2 flags).

(** Zero when there is no file or no number in it. *)
Definition get_somaxconn : Z :=
  match somaxconn with
  | Some (converted, n) => if converted =? 1 then u64 n else 0
  | None => 0
  end.

Definition create_listening_socket (addr : bytes) (port : Z) (t : list call) : Z * list call :=
  let '(fd, t) := __socket AF_INET (Z.lor (Z.lor SOCK_STREAM SOCK_NONBLOCK) SOCK_CLOEXEC) 0 t in
  if UNLIKELY (fd <? 0) then (-1, t)
  else
    let cleanup t := let '(_, t) := __close fd t in (-1, t) in
    match inet_aton addr with
    | None => cleanup t
    | Some sin_addr =>
        let '(r, t) := __bind fd AF_INET (htons port) sin_addr 16 t in
        if UNLIKELY (r =? -1) then cleanup t
        else
          let backlog := i32 get_somaxconn in
          if UNLIKELY (backlog =? 0) then cleanup t
          else
            let '(r, t) := __listen fd backlog t in
            if UNLIKELY (r =? -1) then cleanup t
            else (fd, t)
    end.

Definition get_nofile_limit (t : list call) : Z * list call :=
  let '(r, t1) := __getrlimit RLIMIT_NOFILE t in
  if UNLIKELY (r <? 0) then (-1, t1)
  else
    let rlim_max := (rlimits t).2 in
    let rlim_cur := rlim_max in
    let '(r, t2) := __setrlimit RLIMIT_NOFILE rlim_cur rlim_max t1 in
    if UNLIKELY (r <? 0) then (-1, t2)
    else (i64 rlim_cur, t2).

(** [struct server_info]: its slots are a flexible array after the structure. *)
Record server_info := Server_info {
  svr_listen_fd : Z;
  svr_pipefds : Z * Z;
  svr_conns : gmap Z connection
}.

Definition zero_conns (n : nat) : gmap Z connection :=
  list_to_map ((fun i => (Z.of_nat i, zero_conn)) <$> seq 0 n).

(** The sizes of the two structures, with and without [pipefds]. *)
Definition sizeof_server_info (watch : bool) : Z := if watch then 24 else 16.
Definition sizeof_connection : Z := 40.

(** The slots that fit the allocation of [svr_len] bytes. *)
Definition slots_in (watch : bool) (svr_len : Z) : nat := Z.to_nat ((svr_len - sizeof_server_info watch) / sizeof_connection).

Definition create_server (watch : bool) (malloc_ok : Z -> bool) (addr : bytes) (port : Z) (t : list call)
    : option server_info * list call :=
  let '(nfds, t) := get_nofile_limit t in
  if UNLIKELY (nfds <? 0) then (None, t)
  else
    let svr_len := u64 (sizeof_server_info watch + u64 (sizeof_connection * nfds)) in
    if UNLIKELY (negb (malloc_ok svr_len)) then (None, t)
    else
      let conns := zero_conns (slots_in watch svr_len) in
      let '(fd, t) := create_listening_socket addr port t in
      if UNLIKELY (fd <? 0) then (None, t)
      else if watch then
        let '(r, t1) := __pipe2 (Z.lor O_CLOEXEC O_NONBLOCK) t in
        if UNLIKELY (r <? 0) then (None, t1)
        else (Some (Server_info fd (pipe_ends t) conns), t1)
      else (Some (Server_info fd (0, 0) conns), t).

(** How often a descriptor is closed in a history. *)
Definition closes (fd : Z) (t : list call) : nat := length (filter (fun c => c = Close fd) t).

Lemma closes_app fd t l : Forall (fun c => c <> Close fd) l -> closes fd (t ++ l) = closes fd t.
Proof.
  intros Hl. unfold closes. rewrite filter_app, length_app.
  assert (E : filter (fun c => c = Close fd) l = []).
  { induction Hl as [|c l Hc _ IH]; [done|]. by rewrite filter_cons_False. }
  rewrite E. simpl. lia.
Qed.

(** ** The slots *)

Lemma zero_conns_lookup n i : zero_conns n !! i = if (0 <=? i) && (i <? Z.of_nat n) then Some zero_conn else None.
Proof.
  unfold zero_conns. destruct ((0 <=? i) && (i <? Z.of_nat n)) eqn:E.
  - apply elem_of_list_to_map_1.
    + rewrite <- list_fmap_compose. apply NoDup_fmap_2; [|apply NoDup_seq]. intros x y. cbn. lia.
    + apply list_elem_of_fmap. exists (Z.to_nat i). split; [f_equal; lia|]. apply elem_of_seq. lia.
  - apply not_elem_of_list_to_map_1. intros Hi. rewrite <- list_fmap_compose in Hi.
    apply list_elem_of_fmap in Hi as (k & -> & Hk). apply elem_of_seq in Hk. cbn in E. lia.
Qed.

(** The whole allocation is slots when its size does not wrap. *)
Lemma slots_in_exact watch nfds : 0 <= nfds <= 2 ^ 32 ->
  slots_in watch (u64 (sizeof_server_info watch + u64 (sizeof_connection * nfds))) = Z.to_nat nfds.
Proof.
  intros Hn. unfold slots_in, sizeof_connection. assert (sizeof_server_info watch = 16 \/ sizeof_server_info watch = 24)
    by (destruct watch; auto). rewrite (u64_small (40 * nfds)), u64_small by lia. f_equal.
  replace (sizeof_server_info watch + 40 * nfds - sizeof_server_info watch) with (nfds * 40) by lia.
  by rewrite Z.div_mul.
Qed.

(** The slots of a server, and its listening socket. *)
Lemma create_server_slots `{Kernel} `{Libc} watch malloc_ok addr port t t' svr :
  create_server watch malloc_ok addr port t = (Some svr, t') -> (get_nofile_limit t).1 <= 2 ^ 32 ->
  (forall i, svr_conns svr !! i = if (0 <=? i) && (i <? (get_nofile_limit t).1) then Some zero_conn else None) /\
  0 <= svr_listen_fd svr.
Proof.
  intros Hserver Hlimit. unfold create_server, UNLIKELY in Hserver. destruct (get_nofile_limit t) as [nfds t1]. cbn [fst] in *.
  destruct (Z.ltb_spec nfds 0); [done|]. rewrite slots_in_exact in Hserver by lia.
  destruct (negb (malloc_ok _)); [done|].
  destruct (create_listening_socket addr port t1) as [fd t2]. destruct (Z.ltb_spec fd 0); [done|].
  assert (Hsvr : svr_listen_fd svr = fd /\ svr_conns svr = zero_conns (Z.to_nat nfds)).
  { destruct watch; [|by injection Hserver as <- <-].
    unfold __pipe2, syscall in Hserver. destruct (_ <? 0); [done|]. by injection Hserver as <- <-. }
  destruct Hsvr as [-> ->]. split; [|done]. intros i. by rewrite zero_conns_lookup, Z2Nat.id by lia.
Qed.

(** The first accept on zeroed slots. *)
Lemma slots_start `{Abi} (room : list sqe -> bool) (cs : gmap Z connection) nfds fd h st :
  (forall i, cs !! i = if (0 <=? i) && (i <? nfds) then Some zero_conn else None) -> 0 <= fd < nfds -> room [] = true ->
  exists w, (forall i c, cs !! i = Some c -> c = zero_conn) /\ start room fd (World cs [] [] h st) = Ok w.
Proof.
  intros Hlook Hfd Hroom. unfold start, push, get_conn. cbn [conns ring]. rewrite Hlook.
  destruct (Z.leb_spec 0 fd), (Z.ltb_spec fd nfds); try lia. cbn [andb of_option]. rewrite bind_ok.
  unfold io_uring_push_accept, get_sqe. rewrite Hroom, !bind_ok. eexists. split; [|done].
  intros i c Hc. rewrite Hlook in Hc. destruct (_ && _); by simplify_eq.
Qed.

(** What [create_listening_socket] is to call and return, by what it is told: the
    calls are written out, and so is the answer on which each branch depends. *)
Definition the_socket : call := Socket AF_INET (Z.lor (Z.lor SOCK_STREAM SOCK_NONBLOCK) SOCK_CLOEXEC) 0.
Definition the_bind (fd port sin_addr : Z) : call := Bind fd AF_INET (htons port) sin_addr 16.

(** The file says [n], which a backlog of type [int] holds as [backlog]. *)
Definition backlog_is (backlog : Z) : Prop := exists n, somaxconn = Some (1, n) /\ backlog = i32 (u64 n).
(** It is not there or says nothing, or what it says is zero as an [int]. *)
Definition no_backlog : Prop := forall backlog, backlog_is backlog -> backlog = 0.

Inductive listening (addr : bytes) (port : Z) (t : list call) : Z -> list call -> Prop :=
| listening_no_socket :
    i32 (rax t the_socket) < 0 -> listening addr port t (-1) (t ++ [the_socket])
| listening_bad_address fd :
    i32 (rax t the_socket) = fd -> 0 <= fd -> inet_aton addr = None ->
    listening addr port t (-1) (t ++ [the_socket; Close fd])
| listening_not_bound fd sin_addr :
    i32 (rax t the_socket) = fd -> 0 <= fd -> inet_aton addr = Some sin_addr ->
    i32 (rax (t ++ [the_socket]) (the_bind fd port sin_addr)) = -1 ->
    listening addr port t (-1) (t ++ [the_socket; the_bind fd port sin_addr; Close fd])
| listening_no_backlog fd sin_addr :
    i32 (rax t the_socket) = fd -> 0 <= fd -> inet_aton addr = Some sin_addr ->
    i32 (rax (t ++ [the_socket]) (the_bind fd port sin_addr)) <> -1 -> no_backlog ->
    listening addr port t (-1) (t ++ [the_socket; the_bind fd port sin_addr; Close fd])
| listening_refused fd sin_addr backlog :
    i32 (rax t the_socket) = fd -> 0 <= fd -> inet_aton addr = Some sin_addr ->
    i32 (rax (t ++ [the_socket]) (the_bind fd port sin_addr)) <> -1 -> backlog_is backlog -> backlog <> 0 ->
    i32 (rax (t ++ [the_socket; the_bind fd port sin_addr]) (Listen fd backlog)) = -1 ->
    listening addr port t (-1) (t ++ [the_socket; the_bind fd port sin_addr; Listen fd backlog; Close fd])
| listening_open fd sin_addr backlog :
    i32 (rax t the_socket) = fd -> 0 <= fd -> inet_aton addr = Some sin_addr ->
    i32 (rax (t ++ [the_socket]) (the_bind fd port sin_addr)) <> -1 -> backlog_is backlog -> backlog <> 0 ->
    i32 (rax (t ++ [the_socket; the_bind fd port sin_addr]) (Listen fd backlog)) <> -1 ->
    listening addr port t fd (t ++ [the_socket; the_bind fd port sin_addr; Listen fd backlog]).

Lemma somaxconn_cases : (exists n, somaxconn = Some (1, n) /\ get_somaxconn = u64 n) \/
  (get_somaxconn = 0 /\ forall n, somaxconn <> Some (1, n)).
Proof.
  unfold get_somaxconn. destruct somaxconn as [ [k n]|]; [|by right].
  destruct (Z.eqb_spec k 1) as [->|]; [left; by exists n|right]. split; [done|]. by intros n' [= -> _].
Qed.

Lemma create_listening_socket_cases addr port t :
  listening addr port t (create_listening_socket addr port t).1 (create_listening_socket addr port t).2.
Proof.
  unfold create_listening_socket, __socket, __bind, __listen, __close, syscall, UNLIKELY. fold the_socket.
  destruct (Z.ltb_spec (i32 (rax t the_socket)) 0) as [Hfd|Hfd]; [by apply listening_no_socket|].
  set (fd := i32 (rax t the_socket)) in *.
  destruct (inet_aton addr) as [a|] eqn:Ea; cbn [fst snd]; [|by rewrite <- app_assoc; apply listening_bad_address].
  fold (the_bind fd port a). destruct (Z.eqb_spec (i32 (rax (t ++ [the_socket]) (the_bind fd port a))) (-1)) as [|Hb]; cbn [fst snd];
    rewrite <- ?app_assoc; cbn [app]; [by apply listening_not_bound|].
  destruct (Z.eqb_spec (i32 get_somaxconn) 0) as [Hs|Hs]; cbn [fst snd]; rewrite <- ?app_assoc; cbn [app].
  - apply listening_no_backlog; try done. intros b (n & E & ->).
    destruct somaxconn_cases as [(n' & E' & Eg)|[_ Hno] ]; [|by destruct (Hno n)]. rewrite Eg in Hs. congruence.
  - assert (Hread : backlog_is (i32 get_somaxconn)).
    { destruct somaxconn_cases as [(n & E & Eg)|[Eg _] ]; [exists n; by rewrite Eg|]. by rewrite Eg in Hs. }
    destruct (Z.eqb_spec (i32 (rax (t ++ [the_socket; the_bind fd port a]) (Listen fd (i32 get_somaxconn)))) (-1)); cbn [fst snd];
      rewrite <- ?app_assoc; cbn [app]; [by apply listening_refused|by apply listening_open].
Qed.

Lemma backlog_is_unique b b' : backlog_is b -> backlog_is b' -> b = b'.
Proof. intros (n & E & ->) (n' & E' & ->). congruence. Qed.

(** The branches exclude each other. *)
Lemma listening_functional addr port t r1 t1 r2 t2 :
  listening addr port t r1 t1 -> listening addr port t r2 t2 -> r1 = r2 /\ t1 = t2.
Proof.
  intros H1 H2. destruct H1, H2; subst; simplify_eq; try lia; try done;
    try (match goal with H1 : backlog_is ?b1, H2 : backlog_is ?b2 |- _ => pose proof (backlog_is_unique _ _ H1 H2); subst end; done);
    match goal with Hno : no_backlog, Hb : backlog_is _ |- _ => by apply Hno in Hb end.
Qed.
End startup.

(** ** Properties *)

(** C33.  [create_listening_socket] on every branch.  Its result and the calls it has
    made are exactly those of [listening]: nothing but [socket] if that fails;
    otherwise [bind] on the new socket, unless the address is malformed, and
    [listen] on it with the number that the file says, unless [bind] fails with
    [EPERM] or there is no such number or it is zero; and if it gets that far and
    [listen] does not fail with [EPERM], the socket is returned, else it is closed
    once, as the last call, and -1 returned. *)
Theorem create_listening_socket_spec `{Kernel} `{Libc} (addr : bytes) (port : Z) (t : list call) (r : Z) (t' : list call) :
  create_listening_socket addr port t = (r, t') <-> listening addr port t r t'.
Proof.
  pose proof (create_listening_socket_cases addr port t) as Hc. split.
  - intros E. by rewrite E in Hc.
  - intros Hl. destruct (listening_functional _ _ _ _ _ _ _ Hc Hl) as [<- <-]. by destruct (create_listening_socket addr port t).
Qed.

(** A failed [bind] or [listen] is not noticed.  A raw system call reports an
    error as minus the error number, and the source compares with -1, which is only
    [EPERM]: with any other error, such as the address being in use, the socket is
    returned as if it were listening. *)
Theorem bind_errors_ignored `{Kernel} `{Libc} (addr : bytes) (port : Z) (t : list call)
    (fd sin_addr errno_bind ret_listen : Z)
    (Hfd : 0 <= fd < 2 ^ 31) (Hsocket : rax t the_socket = fd) (Haddr : inet_aton addr = Some sin_addr)
    (Hmax : 1 <= get_somaxconn < 2 ^ 31)
    (Hbind : rax (t ++ [the_socket]) (Bind fd AF_INET (htons port) sin_addr 16) = - errno_bind)
    (Herrno : 2 <= errno_bind <= 4095)
    (Hlisten : rax (t ++ [the_socket; Bind fd AF_INET (htons port) sin_addr 16]) (Listen fd get_somaxconn) = ret_listen)
    (Hret : ret_listen = 0 \/ - 4095 <= ret_listen <= - 2) :
  (create_listening_socket addr port t).1 = fd /\ closes fd (create_listening_socket addr port t).2 = closes fd t.
Proof.
  unfold create_listening_socket, __socket, __bind, __listen, __close, syscall, UNLIKELY. fold the_socket.
  rewrite Hsocket, (i32_small fd) by lia. destruct (Z.ltb_spec fd 0); [lia|].
  rewrite Haddr, Hbind, (i32_small (- errno_bind)) by lia. destruct (Z.eqb_spec (- errno_bind) (-1)); [lia|].
  rewrite (i32_small get_somaxconn) by lia. destruct (Z.eqb_spec get_somaxconn 0); [lia|].
  rewrite <- (app_assoc t [the_socket] _). cbn [app]. rewrite Hlisten, (i32_small ret_listen) by lia.
  destruct (Z.eqb_spec ret_listen (-1)); [lia|]. split; [done|]. cbn [snd].
  rewrite <- app_assoc. apply closes_app. by repeat constructor.
Qed.

(** Start-up establishes what the loop needs.  If [create_server] succeeds with
    a descriptor limit of at most [2^32], the slots are exactly those of the
    descriptors below the limit, all zero; and if the listening socket is one of
    them and liburing has an entry, the loop starts in a reachable state. *)
Theorem create_server_starts_loop `{Kernel} `{Libc} `{Platform} `{Abi} (room : list sqe -> bool) (fs : file_system)
    (watch : bool) (table : list (router handler_fn)) (malloc_ok : Z -> bool) (addr : bytes) (port : Z)
    (t t' : list call) (svr : server_info) (h : heap) (st : static_state)
    (Hserver : create_server watch malloc_ok addr port t = (Some svr, t'))
    (Hlimit : (get_nofile_limit t).1 <= 2 ^ 32)
    (Hlisten : svr_listen_fd svr < (get_nofile_limit t).1) (Hroom : room [] = true) :
  (forall i, svr_conns svr !! i =
     if (0 <=? i) && (i <? (get_nofile_limit t).1) then Some zero_conn else None) /\
  exists w, io_uring_listen_loop room (svr_listen_fd svr) 0 true (World (svr_conns svr) [] [] h st) = Ok (Some w) /\
    sys_reachable room fs watch table (svr_pipefds svr) (svr_listen_fd svr) (Sys w [] ∅).
Proof.
  destruct (create_server_slots watch malloc_ok addr port t t' svr Hserver Hlimit) as [Hslots Hfd].
  split; [exact Hslots|].
  destruct (slots_start room (svr_conns svr) _ (svr_listen_fd svr) h st Hslots (conj Hfd Hlisten) Hroom) as (w & Hzero & Hw).
  exists w. split; [unfold io_uring_listen_loop, UNLIKELY; cbn [negb]; by rewrite Hw|].
  by eapply (sys_init _ _ _ _ _ _ (World (svr_conns svr) [] [] h st)).
Qed.

(** When [pipe2] fails the server is freed but its listening socket is not
    closed. *)
Theorem pipe_failure_leaks_socket `{Kernel} `{Libc} (malloc_ok : Z -> bool) (addr : bytes) (port fd : Z)
    (t t' : list call)
    (Hsocket : create_listening_socket addr port (get_nofile_limit t).2 = (fd, t')) (Hfd : 0 <= fd)
    (Hlimit : 0 <= (get_nofile_limit t).1 <= 2 ^ 32) (Hmalloc : forall n, malloc_ok n = true)
    (Hpipe : i32 (rax t' (Pipe2 (Z.lor O_CLOEXEC O_NONBLOCK))) < 0) :
  create_server true malloc_ok addr port t = (None, t' ++ [Pipe2 (Z.lor O_CLOEXEC O_NONBLOCK)]) /\
  closes fd (t' ++ [Pipe2 (Z.lor O_CLOEXEC O_NONBLOCK)]) = closes fd (get_nofile_limit t).2.
Proof.
  unfold create_server, UNLIKELY. destruct (get_nofile_limit t) as [nfds t1]. cbn [fst snd] in *.
  destruct (Z.ltb_spec nfds 0); [lia|]. rewrite Hmalloc, Hsocket. cbn [negb].
  destruct (Z.ltb_spec fd 0); [lia|]. unfold __pipe2, syscall.
  destruct (Z.ltb_spec (i32 (rax t' (Pipe2 (Z.lor O_CLOEXEC O_NONBLOCK)))) 0); [|lia]. split; [done|].
  pose proof (create_listening_socket_cases addr port t1) as Hc. rewrite Hsocket in Hc. cbn [fst snd] in Hc.
  rewrite closes_app by by repeat constructor. inversion Hc; subst; try lia. apply closes_app. by repeat constructor.
Qed.

(** ** Witnesses: the port is in use, and no descriptors are left for a pipe *)

Definition demo_kernel (pipe : Z) : Kernel := {|
  rax _ c := match c with Socket _ _ _ => 3 | Bind _ _ _ _ _ => -98 | Pipe2 _ => pipe | _ => 0 end;
  rlimits _ := (32, 64);
  pipe_ends _ := (4, 5)
|}.

Definition demo_libc : Libc := {|
  AF_INET := 2; SOCK_STREAM := 1; SOCK_NONBLOCK := 2048; SOCK_CLOEXEC := 524288;
  RLIMIT_NOFILE := 7; O_CLOEXEC := 524288; O_NONBLOCK := 2048;
  htons p := Z.lor (Z.shiftl (Z.land p 255) 8) (Z.shiftr p 8);
  inet_aton _ := Some 0;
  somaxconn := Some (1, 4096)
|}.

Lemma bind_errors_ignored_witness :
  (create_listening_socket (H := demo_kernel 0) (H0 := demo_libc) [] 8080 []).1 = 3.
Proof.
  apply (bind_errors_ignored (H := demo_kernel 0) (H0 := demo_libc) [] 8080 [] 3 0 98 0).
  - lia.
  - reflexivity.
  - reflexivity.
  - vm_compute. split; [discriminate|reflexivity].
  - reflexivity.
  - lia.
  - reflexivity.
  - by left.
Defined.

Definition demo_server (pipe : Z) : option server_info * list call :=
  create_server (H := demo_kernel pipe) (H0 := demo_libc) true (fun _ => true) [] 8080 [].

Lemma create_server_starts_loop_witness :
  exists svr, (demo_server 0).1 = Some svr /\
    exists w, io_uring_listen_loop demo_room (svr_listen_fd svr) 0 true
      (World (svr_conns svr) [] [] (Heap ∅ []) (Static_state NULL [])) = Ok (Some w).
Proof.
  destruct (demo_server 0) as [o t'] eqn:E. destruct o as [svr|]; [|vm_compute in E; discriminate E].
  destruct (create_server_starts_loop (H := demo_kernel 0) (H0 := demo_libc) (H1 := tiny) (H2 := linux)
            demo_room demo_fs true [] (fun _ => true) [] 8080 [] t' svr (Heap ∅ []) (Static_state NULL [])) as (_ & w & Hw & _).
  - exact E.
  - vm_compute. discriminate.
  - vm_compute in E. injection E as <- _. reflexivity.
  - reflexivity.
  - exists svr. split; [reflexivity|]. exists w. exact Hw.
Defined.

Lemma pipe_failure_leaks_socket_witness : exists t', demo_server (-24) = (None, t') /\ closes 3 t' = 0%nat.
Proof.
  destruct (pipe_failure_leaks_socket (H := demo_kernel (-24)) (H0 := demo_libc) (fun _ => true) [] 8080 3 []
    (create_listening_socket (H := demo_kernel (-24)) (H0 := demo_libc) [] 8080
       (get_nofile_limit (H := demo_kernel (-24)) (H0 := demo_libc) []).2).2) as [E1 E2].
  - vm_compute. reflexivity.
  - lia.
  - vm_compute. split; discriminate.
  - reflexivity.
  - vm_compute. reflexivity.
  - eexists. split; [exact E1|exact E2].
Defined.
