(* ===== verification/Syscall.v ===== *)
(** * System calls (include/syscall.h, include/arch/x86/syscall.h)

    The wrappers at the level of registers.  An inline assembly statement puts its
    operands in registers and executes [syscall]; an operand of 32 bits leaves the
    upper half of its register as it was.  The kernel is a parameter: the value of
    [rax] after a history of register contents.  The specification reads the
    registers by the documented interface of the x86-64 kernel: the table of numbers
    that include/syscall.h cites, and the prototypes of section 2 of the manual.

    [syscall_6] has no caller and does not expand to C: it lacks a comma between
    its last two operands. *)

From S2P Require Import Prelude.
Open Scope Z_scope.

(** The registers of a system call. *)
Record regs := Regs { rax : Z; rdi : Z; rsi : Z; rdx : Z; r10 : Z; r8 : Z; r9 : Z }.

(** An operand, by the size of its C type. *)
Inductive operand := W32 (x : Z) | W64 (x : Z).

Definition load (old : Z) (o : operand) : Z :=
  match o with
  | W32 x => u64 old - u32 old + u32 x
  | W64 x => u64 x
  end.

(** ** Numbers *)

Definition __NR_read : Z := 0.
Definition __NR_write : Z := 1.
Definition __NR_open : Z := 2.
Definition __NR_close : Z := 3.
Definition __NR_stat : Z := 4.
Definition __NR_fstat : Z := 5.
Definition __NR_socket : Z := 41.
Definition __NR_accept : Z := 43.
Definition __NR_bind : Z := 49.
Definition __NR_listen : Z := 50.
Definition __NR_getrlimit : Z := 97.
Definition __NR_setrlimit : Z := 160.
Definition __NR_epoll_create : Z := 213.
Definition __NR_epoll_wait : Z := 232.
Definition __NR_epoll_ctl : Z := 233.
Definition __NR_inotify_init : Z := 253.
Definition __NR_inotify_add_watch : Z := 254.
Definition __NR_inotify_rm_watch : Z := 255.
Definition __NR_epoll_pwait : Z := 281.
Definition __NR_accept4 : Z := 288.
Definition __NR_epoll_create1 : Z := 291.
Definition __NR_pipe2 : Z := 293.
Definition __NR_inotify_init1 : Z := 294.
Definition __NR_io_uring_setup : Z := 425.
Definition __NR_io_uring_enter : Z := 426.
Definition __NR_io_uring_register : Z := 427.

Section wrappers.
Variable kernel : list regs -> regs -> Z.      (* rax, after the system calls so far *)

(** Executing [syscall] with the given registers, after the system calls [t]. *)
Definition trap : Type := regs -> list regs -> Z * list regs.

Definition enter : trap := fun s t => (kernel t s, t ++ [s]).

(** ** include/arch/x86/syscall.h *)

Definition syscall_0 (NR : Z) : trap := fun s =>
  enter (Regs (load (rax s) (W32 NR)) (rdi s) (rsi s) (rdx s) (r10 s) (r8 s) (r9 s)).
Definition syscall_1 (NR : Z) (a : operand) : trap := fun s =>
  enter (Regs (load (rax s) (W32 NR)) (load (rdi s) a) (rsi s) (rdx s) (r10 s) (r8 s) (r9 s)).
Definition syscall_2 (NR : Z) (a b : operand) : trap := fun s =>
  enter (Regs (load (rax s) (W32 NR)) (load (rdi s) a) (load (rsi s) b) (rdx s) (r10 s) (r8 s) (r9 s)).
Definition syscall_3 (NR : Z) (a b c : operand) : trap := fun s =>
  enter (Regs (load (rax s) (W32 NR)) (load (rdi s) a) (load (rsi s) b) (load (rdx s) c) (r10 s) (r8 s) (r9 s)).
Definition syscall_4 (NR : Z) (a b c d : operand) : trap := fun s =>
  enter (Regs (load (rax s) (W32 NR)) (load (rdi s) a) (load (rsi s) b) (load (rdx s) c) (load (r10 s) d) (r8 s) (r9 s)).
Definition syscall_5 (NR : Z) (a b c d e : operand) : trap := fun s =>
  enter (Regs (load (rax s) (W32 NR)) (load (rdi s) a) (load (rsi s) b) (load (rdx s) c) (load (r10 s) d) (load (r8 s) e) (r9 s)).

(** ** include/syscall.h *)

(** [(int)syscall_n(...)] *)
Definition to_int (f : trap) : trap := fun s t => let '(v, t) := f s t in (i32 v, t).

Definition __read (fd buf count : Z) : trap := to_int (syscall_3 __NR_read (W32 fd) (W64 buf) (W64 count)).
Definition __open (pathname flags : Z) : trap := to_int (syscall_2 __NR_open (W64 pathname) (W32 flags)).
Definition __write (fd buf count : Z) : trap := to_int (syscall_3 __NR_write (W32 fd) (W64 buf) (W64 count)).
Definition __close (fd : Z) : trap := to_int (syscall_1 __NR_close (W32 fd)).
Definition __stat (pathname statbuf : Z) : trap := to_int (syscall_2 __NR_stat (W64 pathname) (W64 statbuf)).
Definition __fstat (fd statbuf : Z) : trap := to_int (syscall_2 __NR_fstat (W32 fd) (W64 statbuf)).
Definition __socket (domain type protocol : Z) : trap :=
  to_int (syscall_3 __NR_socket (W32 domain) (W32 type) (W32 protocol)).
Definition __bind (sockfd addr addrlen : Z) : trap :=
  to_int (syscall_3 __NR_bind (W32 sockfd) (W64 addr) (W32 addrlen)).
Definition __listen (sockfd backlog : Z) : trap := to_int (syscall_2 __NR_listen (W32 sockfd) (W32 backlog)).
Definition __accept4 (socket addr addrlen flags : Z) : trap :=
  to_int (syscall_4 __NR_accept4 (W32 socket) (W64 addr) (W64 addrlen) (W32 flags)).
Definition __getrlimit (resource rlim : Z) : trap := to_int (syscall_2 __NR_getrlimit (W32 resource) (W64 rlim)).
Definition __setrlimit (resource rlim : Z) : trap := to_int (syscall_2 __NR_setrlimit (W32 resource) (W64 rlim)).
Definition __epoll_create1 (flags : Z) : trap := to_int (syscall_1 __NR_epoll_create1 (W32 flags)).
Definition __epoll_wait (epfd events maxevents timeout : Z) : trap :=
  to_int (syscall_4 __NR_epoll_wait (W32 epfd) (W64 events) (W32 maxevents) (W32 timeout)).
Definition __epoll_ctl (epfd op fd event : Z) : trap :=
  to_int (syscall_4 __NR_epoll_ctl (W32 epfd) (W32 op) (W32 fd) (W64 event)).
Definition __inotify_init : trap := to_int (syscall_0 __NR_inotify_init).
Definition __inotify_add_watch (fd pathname mask : Z) : trap :=
  to_int (syscall_3 __NR_inotify_add_watch (W32 fd) (W64 pathname) (W32 mask)).
Definition __inotify_rm_watch (fd wd : Z) : trap := to_int (syscall_2 __NR_inotify_rm_watch (W32 fd) (W32 wd)).
Definition __pipe2 (pipefd flags : Z) : trap := to_int (syscall_2 __NR_pipe2 (W64 pipefd) (W32 flags)).
Definition __inotify_init1 (flags : Z) : trap := to_int (syscall_1 __NR_inotify_init1 (W32 flags)).
Definition __io_uring_setup (entries p : Z) : trap :=
  to_int (syscall_2 __NR_io_uring_setup (W32 entries) (W64 p)).
Definition __io_uring_enter (fd to_submit min_complete flags sig : Z) : trap :=
  to_int (syscall_5 __NR_io_uring_enter (W32 fd) (W32 to_submit) (W32 min_complete) (W32 flags) (W64 sig)).
Definition __io_uring_register (fd opcode arg nr_args : Z) : trap :=
  to_int (syscall_4 __NR_io_uring_register (W32 fd) (W32 opcode) (W64 arg) (W32 nr_args)).

End wrappers.

(** ** Specification *)

(** What the registers ask for; one constructor per call that a wrapper makes, with
    addresses as numbers. *)
Inductive request :=
| Sys_read (fd buf count : Z)
| Sys_open (pathname flags mode : Z)
| Sys_write (fd buf count : Z)
| Sys_close (fd : Z)
| Sys_stat (pathname statbuf : Z)
| Sys_fstat (fd statbuf : Z)
| Sys_socket (domain type protocol : Z)
| Sys_bind (sockfd addr addrlen : Z)
| Sys_listen (sockfd backlog : Z)
| Sys_accept4 (socket addr addrlen flags : Z)
| Sys_getrlimit (resource rlim : Z)
| Sys_setrlimit (resource rlim : Z)
| Sys_epoll_create1 (flags : Z)
| Sys_epoll_wait (epfd events maxevents timeout : Z)
| Sys_epoll_ctl (epfd op fd event : Z)
| Sys_inotify_init
| Sys_inotify_add_watch (fd pathname mask : Z)
| Sys_inotify_rm_watch (fd wd : Z)
| Sys_pipe2 (pipefd flags : Z)
| Sys_inotify_init1 (flags : Z)
| Sys_io_uring_setup (entries p : Z)
| Sys_io_uring_enter (fd to_submit min_complete flags sig sigsz : Z)
| Sys_io_uring_register (fd opcode arg nr_args : Z).

(** The request in the registers, [None] if the number is not one of these. *)
Definition decode (s : regs) : option request :=
  match i32 (rax s) with
  | 0 => Some (Sys_read (i32 (rdi s)) (u64 (rsi s)) (u64 (rdx s)))
  | 2 => Some (Sys_open (u64 (rdi s)) (i32 (rsi s)) (u32 (rdx s)))
  | 1 => Some (Sys_write (i32 (rdi s)) (u64 (rsi s)) (u64 (rdx s)))
  | 3 => Some (Sys_close (i32 (rdi s)))
  | 4 => Some (Sys_stat (u64 (rdi s)) (u64 (rsi s)))
  | 5 => Some (Sys_fstat (i32 (rdi s)) (u64 (rsi s)))
  | 41 => Some (Sys_socket (i32 (rdi s)) (i32 (rsi s)) (i32 (rdx s)))
  | 49 => Some (Sys_bind (i32 (rdi s)) (u64 (rsi s)) (u32 (rdx s)))
  | 50 => Some (Sys_listen (i32 (rdi s)) (i32 (rsi s)))
  | 288 => Some (Sys_accept4 (i32 (rdi s)) (u64 (rsi s)) (u64 (rdx s)) (i32 (r10 s)))
  | 97 => Some (Sys_getrlimit (i32 (rdi s)) (u64 (rsi s)))
  | 160 => Some (Sys_setrlimit (i32 (rdi s)) (u64 (rsi s)))
  | 291 => Some (Sys_epoll_create1 (i32 (rdi s)))
  | 232 => Some (Sys_epoll_wait (i32 (rdi s)) (u64 (rsi s)) (i32 (rdx s)) (i32 (r10 s)))
  | 233 => Some (Sys_epoll_ctl (i32 (rdi s)) (i32 (rsi s)) (i32 (rdx s)) (u64 (r10 s)))
  | 253 => Some Sys_inotify_init
  | 254 => Some (Sys_inotify_add_watch (i32 (rdi s)) (u64 (rsi s)) (u32 (rdx s)))
  | 255 => Some (Sys_inotify_rm_watch (i32 (rdi s)) (i32 (rsi s)))
  | 293 => Some (Sys_pipe2 (u64 (rdi s)) (i32 (rsi s)))
  | 294 => Some (Sys_inotify_init1 (i32 (rdi s)))
  | 425 => Some (Sys_io_uring_setup (u32 (rdi s)) (u64 (rsi s)))
  | 426 => Some (Sys_io_uring_enter
      (u32 (rdi s)) (u32 (rsi s)) (u32 (rdx s)) (u32 (r10 s)) (u64 (r8 s)) (u64 (r9 s)))
  | 427 => Some (Sys_io_uring_register (u32 (rdi s)) (u32 (rsi s)) (u64 (rdx s)) (u32 (r10 s)))
  | _ => None
  end.

(** The wrapper of a request. *)
Definition invoke (kernel : list regs -> regs -> Z) (r : request) : trap :=
  match r with
  | Sys_read fd buf count => __read kernel fd buf count
  | Sys_open pathname flags _ => __open kernel pathname flags
  | Sys_write fd buf count => __write kernel fd buf count
  | Sys_close fd => __close kernel fd
  | Sys_stat pathname statbuf => __stat kernel pathname statbuf
  | Sys_fstat fd statbuf => __fstat kernel fd statbuf
  | Sys_socket domain type protocol => __socket kernel domain type protocol
  | Sys_bind sockfd addr addrlen => __bind kernel sockfd addr addrlen
  | Sys_listen sockfd backlog => __listen kernel sockfd backlog
  | Sys_accept4 socket addr addrlen flags => __accept4 kernel socket addr addrlen flags
  | Sys_getrlimit resource rlim => __getrlimit kernel resource rlim
  | Sys_setrlimit resource rlim => __setrlimit kernel resource rlim
  | Sys_epoll_create1 flags => __epoll_create1 kernel flags
  | Sys_epoll_wait epfd events maxevents timeout => __epoll_wait kernel epfd events maxevents timeout
  | Sys_epoll_ctl epfd op fd event => __epoll_ctl kernel epfd op fd event
  | Sys_inotify_init => __inotify_init kernel
  | Sys_inotify_add_watch fd pathname mask => __inotify_add_watch kernel fd pathname mask
  | Sys_inotify_rm_watch fd wd => __inotify_rm_watch kernel fd wd
  | Sys_pipe2 pipefd flags => __pipe2 kernel pipefd flags
  | Sys_inotify_init1 flags => __inotify_init1 kernel flags
  | Sys_io_uring_setup entries p => __io_uring_setup kernel entries p
  | Sys_io_uring_enter fd to_submit min_complete flags sig _ => __io_uring_enter kernel fd to_submit min_complete flags sig
  | Sys_io_uring_register fd opcode arg nr_args => __io_uring_register kernel fd opcode arg nr_args
  end.

Definition is_int (x : Z) : Prop := - 2 ^ 31 <= x < 2 ^ 31.
Definition is_uint (x : Z) : Prop := 0 <= x < 2 ^ 32.
Definition is_word (x : Z) : Prop := 0 <= x < 2 ^ 64.

(** The arguments are values of their C types. *)
Definition typed (r : request) : Prop :=
  match r with
  | Sys_read fd buf count => is_int fd /\ is_word buf /\ is_word count
  | Sys_open pathname flags _ => is_word pathname /\ is_int flags
  | Sys_write fd buf count => is_int fd /\ is_word buf /\ is_word count
  | Sys_close fd => is_int fd
  | Sys_stat pathname statbuf => is_word pathname /\ is_word statbuf
  | Sys_fstat fd statbuf => is_int fd /\ is_word statbuf
  | Sys_socket domain type protocol => is_int domain /\ is_int type /\ is_int protocol
  | Sys_bind sockfd addr addrlen => is_int sockfd /\ is_word addr /\ is_uint addrlen
  | Sys_listen sockfd backlog => is_int sockfd /\ is_int backlog
  | Sys_accept4 socket addr addrlen flags => is_int socket /\ is_word addr /\ is_word addrlen /\ is_int flags
  | Sys_getrlimit resource rlim => is_int resource /\ is_word rlim
  | Sys_setrlimit resource rlim => is_int resource /\ is_word rlim
  | Sys_epoll_create1 flags => is_int flags
  | Sys_epoll_wait epfd events maxevents timeout => is_int epfd /\ is_word events /\ is_int maxevents /\ is_int timeout
  | Sys_epoll_ctl epfd op fd event => is_int epfd /\ is_int op /\ is_int fd /\ is_word event
  | Sys_inotify_init => True
  | Sys_inotify_add_watch fd pathname mask => is_int fd /\ is_word pathname /\ is_uint mask
  | Sys_inotify_rm_watch fd wd => is_int fd /\ is_int wd
  | Sys_pipe2 pipefd flags => is_word pipefd /\ is_int flags
  | Sys_inotify_init1 flags => is_int flags
  | Sys_io_uring_setup entries p => is_uint entries /\ is_word p
  | Sys_io_uring_enter fd to_submit min_complete flags sig _ => is_uint fd /\ is_uint to_submit /\ is_uint min_complete /\ is_uint flags /\ is_word sig
  | Sys_io_uring_register fd opcode arg nr_args => is_uint fd /\ is_uint opcode /\ is_word arg /\ is_uint nr_args
  end.

(** The arguments no wrapper passes are what the registers held. *)
Definition completed (s : regs) (r : request) : request :=
  match r with
  | Sys_open pathname flags _ => Sys_open pathname flags (u32 (rdx s))
  | Sys_io_uring_enter fd to_submit min_complete flags sig _ =>
      Sys_io_uring_enter fd to_submit min_complete flags sig (u64 (r9 s))
  | _ => r
  end.

Lemma u32_u64 x : u32 (u64 x) = u32 x.
Proof. unfold u32, u64. apply Z.mod_mod_divide. by exists (2 ^ 32). Qed.

Lemma u32_load old x : u32 (load old (W32 x)) = u32 x.
Proof.
  pose proof (u32_u64 old) as E. cbn [load]. unfold u32 in *.
  rewrite Zplus_mod, Zminus_mod, E, !Zmod_mod, Z.sub_diag. by rewrite Z.mod_0_l, Z.add_0_l, !Zmod_mod by lia.
Qed.

Lemma i32_u32 x : i32 (u32 x) = i32 x.
Proof. unfold i32, u32. by rewrite Zplus_mod_idemp_l. Qed.

Lemma load_int old x : is_int x -> i32 (load old (W32 x)) = x.
Proof. intros Hx. rewrite <- i32_u32, u32_load, i32_u32. by apply i32_small. Qed.

Lemma load_uint old x : is_uint x -> u32 (load old (W32 x)) = x.
Proof. intros Hx. rewrite u32_load. by apply u32_small. Qed.

Lemma load_word old x : is_word x -> u64 (load old (W64 x)) = x.
Proof. intros Hx. cbn [load]. by rewrite !u64_small by (rewrite ?u64_small; done). Qed.

Create Rewrite HintDb operands.
#[export] Hint Rewrite load_int load_uint load_word using assumption : operands.

(** C26.  Every wrapper of include/syscall.h makes the call it is named after.  Whatever
    the registers held, it enters the kernel once, with registers that ask for
    exactly the request with the arguments of the wrapper, by their C types, and it
    returns the kernel's answer as an [int]; for an answer in the range of [int],
    in particular for an error number, that is the answer.  Two calls have an
    argument that no wrapper passes, and the kernel takes it from the register as it
    is: the mode of [open], and the size of the signal set of [io_uring_enter]. *)
Theorem wrappers_make_their_calls (kernel : list regs -> regs -> Z) (r : request) (s : regs) (t : list regs)
    (Hr : typed r) :
  exists v s', invoke kernel r s t = (v, t ++ [s']) /\ decode s' = Some (completed s r) /\
    v = i32 (kernel t s') /\ (- 2 ^ 31 <= kernel t s' < 2 ^ 31 -> v = kernel t s').
Proof.
  assert (Hint : forall k, - 2 ^ 31 <= k < 2 ^ 31 -> i32 k = k) by exact i32_small.
  destruct r; cbn [typed completed] in *; destruct_and?; (eexists _, _; split; [reflexivity|]; split; [|by split; [|apply Hint] ]);
    cbv -[load i32 u32 u64]; rewrite (load_int (rax s)) by (by split); cbv match; by autorewrite with operands.
Qed.

Lemma wrappers_make_their_calls_witness :
  exists s', __accept4 (fun _ _ => -11) 3 0 0 526336 (Regs 7 (2 ^ 64 - 1) 1 1 (2 ^ 63) 1 1) [] = (-11, [s']) /\
    decode s' = Some (Sys_accept4 3 0 0 526336).
Proof.
  destruct (wrappers_make_their_calls (fun _ _ => -11) (Sys_accept4 3 0 0 526336) (Regs 7 (2 ^ 64 - 1) 1 1 (2 ^ 63) 1 1) [])
    as (v & s' & E & D & _ & Hv).
  - unfold typed, is_int, is_word. lia.
  - exists s'. split; [|exact D]. specialize (Hv ltac:(lia)). cbn beta in Hv. rewrite Hv in E. exact E.
Defined.
