(* ===== verification/Threads.v ===== *)
(** * More than one thread (lib/server.c, lib/io_loop.c)

    [start_listening] creates threads that all run [io_uring_listen_loop] on one
    [server_info], and runs it itself.  Each thread initialises a ring of its own on
    its stack, stores its address in the shared [svr->ring], and from then on reads
    the ring to use from [svr->ring] again at every call.

    The threads are interleaved at those reads: initialising, storing, queueing the
    first accept, submitting and starting to wait, waking, and marking completions as
    consumed are one step each.  So are the parts of [io_uring_for_each_cqe], a macro
    that evaluates [svr->ring] again in its condition: reading the head, comparing it
    with the tail and finding the completion, and the body.  A completion is
    identified by its position among all that were ever posted on its ring.  Finer
    interleavings, inside liburing or the handling of one completion, are data races
    and have no meaning in C. *)

From S2P Require Import Prelude CMem Strbuf Kv Http HttpParser HttpResponse Coro IoUring IoLoop IoLoopInv.
Open Scope Z_scope.

(** ** Starting and joining *)

(** The calls of [start_listening], in order. *)
Inductive thread_call :=
| Malloc (size : Z)
| Pthread_create (i : nat)
| Listen_routine
| Pthread_join (tid : Z)
| Free.

Section start.
Variable malloc_ok : bool.
Variable pthread_create : nat -> option Z.   (* the identifier stored; [None] when it fails *)
Variable loop_returns : bool.                (* [io_uring_listen_loop] returns only when it cannot start *)

(** The joins; a [pthread_t] that was not stored is not initialised. *)
Fixpoint join_all (threads : list (option Z)) : result (list thread_call) :=
  match threads with
  | [] => Ok []
  | tid :: threads =>
      tid ← of_option Uninitialised tid;
      l ← join_all threads;
      Ok (Pthread_join tid :: l)
  end.

(** The calls made, and whether [start_listening] returns. *)
Definition start_listening (threads_cnt : Z) : result (list thread_call * bool) :=
  let n := Z.to_nat threads_cnt in
  let size := u64 (8 * u64 threads_cnt) in
  if (0 <? threads_cnt) && UNLIKELY (negb malloc_ok) then Ok ([Malloc size], true)
  else
    let alloc := if 0 <? threads_cnt then [Malloc size] else [] in
    let threads := if 0 <? threads_cnt then pthread_create <$> seq 0 n else [] in
    let creates := if 0 <? threads_cnt then Pthread_create <$> seq 0 n else [] in
    if negb loop_returns then Ok (alloc ++ creates ++ [Listen_routine], false)
    else
      joins ← join_all threads;
      Ok (alloc ++ creates ++ Listen_routine :: joins ++ (if 0 <? threads_cnt then [Free] else []), true).
End start.

(** ** The rings *)

(** A ring: queued operations, operations in flight, every completion posted, and
    how many of these the program has marked as consumed. *)
Record ring_q := Ring_q { sq : list sqe; flight : list sqe; cqes : list (sqe * Z); khead : nat }.

(** What is found at position [head]: the completion there, if one has been posted
    and not been consumed; else the slot may hold anything. *)
Definition found (r : ring_q) (head : nat) (e : sqe) (ret : Z) : Prop :=
  (khead r <= head < length (cqes r))%nat -> cqes r !! head = Some (e, ret).

Definition new_ring : ring_q := Ring_q [] [] [] 0.
Definition set_sq (r : ring_q) (q : list sqe) : ring_q := Ring_q q (flight r) (cqes r) (khead r).

(** Where a thread is in [io_uring_listen_loop]. *)
Inductive pc :=
| At_init                          (* before [io_uring_queue_init_params] *)
| At_store                         (* before [svr->ring = &ring] *)
| At_push                          (* before the first accept *)
| At_submit                        (* at the head of [while (1)] *)
| Waiting (j : nat)                (* in [io_uring_submit_and_wait], on ring [j] *)
| At_reap                          (* before [io_uring_for_each_cqe] *)
| Reaping (head count : nat)       (* before its condition: the next position, and [count] *)
| Handling (i head count : nat) (e : sqe) (ret : Z) (* in its body, with what was found on ring [i] *)
| At_advance (count : nat)         (* before [io_uring_cq_advance] *)
| Returned.

(** Threads and their rings are numbered alike; the queue of [shared] is not used. *)
Record threads := Threads {
  shared : world;
  svr_ring : option nat;
  rings : gmap nat ring_q;
  pcs : gmap nat pc
}.

Definition on_ring (w : world) (q : list sqe) : world := World (conns w) q (closed w) (wheap w) (statics w).
Definition move (s : threads) (k : nat) (p : pc) : threads := Threads (shared s) (svr_ring s) (rings s) (<[k := p]> (pcs s)).
Definition set_ring (s : threads) (j : nat) (r : ring_q) : threads := Threads (shared s) (svr_ring s) (<[j := r]> (rings s)) (pcs s).

(** The program has changed the world and queued on ring [j]. *)
Definition store_world (s : threads) (j : nat) (r : ring_q) (w : world) : threads :=
  Threads (on_ring w []) (svr_ring s) (<[j := set_sq r (ring w)]> (rings s)) (pcs s).

Section threads.
Context `{Platform} `{Abi}.
Variable room : list sqe -> bool.
Variable fs : file_system.
Variable watch : bool.
Variable table : list (router handler_fn).
Variable pipefds : Z * Z.
Variable listen_fd : Z.

(** One step, with the completion it handles: the ring and the position in it. *)
Inductive thread_step (s : threads) : option (nat * nat) -> threads -> Prop :=
| step_no_ring k :                         (* no io_uring, or no [IORING_FEAT_FAST_POLL] *)
    pcs s !! k = Some At_init -> thread_step s None (move s k Returned)
| step_init k :
    pcs s !! k = Some At_init -> thread_step s None (move (set_ring s k new_ring) k At_store)
| step_store k :
    pcs s !! k = Some At_store ->
    thread_step s None (move (Threads (shared s) (Some k) (rings s) (pcs s)) k At_push)
| step_push k j r w' :
    pcs s !! k = Some At_push -> svr_ring s = Some j -> rings s !! j = Some r ->
    start room listen_fd (on_ring (shared s) (sq r)) = Ok w' ->
    thread_step s None (move (store_world s j r w') k At_submit)
| step_submit k j r :
    pcs s !! k = Some At_submit -> svr_ring s = Some j -> rings s !! j = Some r ->
    thread_step s None (move (set_ring s j (Ring_q [] (flight r ++ sq r) (cqes r) (khead r))) k (Waiting j))
| step_wake k j r :
    pcs s !! k = Some (Waiting j) -> rings s !! j = Some r -> (khead r < length (cqes r))%nat ->
    thread_step s None (move s k At_reap)
| step_reap k j r :                        (* [head = *svr->ring->cq.khead] *)
    pcs s !! k = Some At_reap -> svr_ring s = Some j -> rings s !! j = Some r ->
    thread_step s None (move s k (Reaping (khead r) 0))
| step_find k head count j r e ret :       (* the condition; it is not the tail *)
    pcs s !! k = Some (Reaping head count) -> svr_ring s = Some j -> rings s !! j = Some r ->
    head <> length (cqes r) -> found r head e ret ->
    thread_step s None (move s k (Handling j head count e ret))
| step_cqe k i head count e ret j r w' :   (* the body; it queues on [svr->ring] *)
    pcs s !! k = Some (Handling i head count e ret) -> svr_ring s = Some j -> rings s !! j = Some r ->
    handle_cqe room fs watch table pipefds listen_fd (user_data e) ret (on_ring (shared s) (sq r)) = Ok w' ->
    thread_step s (Some (i, head)) (move (store_world s j r w') k (Reaping (S head) (S count)))
| step_done k head count j r :             (* the condition; it is the tail *)
    pcs s !! k = Some (Reaping head count) -> svr_ring s = Some j -> rings s !! j = Some r -> head = length (cqes r) ->
    thread_step s None (move s k (At_advance count))
| step_advance k count j r :               (* [io_uring_cq_advance(svr->ring, count)] *)
    pcs s !! k = Some (At_advance count) -> svr_ring s = Some j -> rings s !! j = Some r ->
    thread_step s None (move (set_ring s j (Ring_q (sq r) (flight r) (cqes r) (khead r + count)%nat)) k At_submit)
| step_kernel j r pre e post ret h :
    rings s !! j = Some r -> flight r = pre ++ e :: post ->
    thread_step s None
      (set_ring (Threads (set_heap (shared s) h) (svr_ring s) (rings s) (pcs s)) j
         (Ring_q (sq r) (pre ++ post) (cqes r ++ [(e, ret)]) (khead r))).

(** Finitely many steps, and the completions they handle. *)
Inductive thread_run : threads -> list (nat * nat) -> threads -> Prop :=
| run_nil s : thread_run s [] s
| run_cons s o s1 l s2 : thread_step s o s1 -> thread_run s1 l s2 -> thread_run s (option_list o ++ l) s2.

(** Every thread has stored its ring or given up, and none is handling a completion
    of another ring than the one stored last, [j]. *)
Definition settled_pc (j : nat) (p : pc) : Prop :=
  match p with At_init | At_store => False | Handling i _ _ _ _ => i = j | _ => True end.
Definition settled (j : nat) (s : threads) : Prop :=
  svr_ring s = Some j /\ map_Forall (fun _ => settled_pc j) (pcs s).

(** What is left of a ring that is not in use: only the kernel touches it. *)
Definition abandoned (r r' : ring_q) : Prop := sq r' = sq r /\ khead r' = khead r /\ cqes r `prefix_of` cqes r'.

#[export] Instance abandoned_preorder : PreOrder abandoned.
Proof.
  split; [intros r; by repeat split|]. intros r1 r2 r3 (S1 & K1 & C1) (S2 & K2 & C2). split; [congruence|]. split; [congruence|]. by etransitivity.
Qed.

Lemma step_settled j s o s' : thread_step s o s' -> settled j s ->
  settled j s' /\ Forall (fun x => x.1 = j) (option_list o).
Proof.
  intros St [Hj Hp].
  assert (Hmove : forall s1 k p, svr_ring s1 = Some j -> pcs s1 = pcs s -> settled_pc j p -> settled j (move s1 k p)).
  { intros s1 k p H1 H2 Hk. split; [done|]. cbn [move pcs]. rewrite H2. by apply map_Forall_insert_2. }
  destruct St as [k Hk|k Hk|k Hk|k j' r w' Hk|k j' r Hk Hj'|k j' r Hk|k j' r Hk Hj'|k head count j' r e ret Hk Hj'|k i head count e ret j' r w' Hk|k head count j' r Hk|k count j' r Hk|j' r pre e post ret h];
    try (by destruct (Hp _ _ Hk)); try pose proof (Hp _ _ Hk) as Hpc; (split; [|by repeat constructor]); try by apply Hmove.
  - apply Hmove; [done..|]. cbn. congruence.
  - by split.
Qed.

Lemma step_abandoned i j s o s' r : thread_step s o s' -> settled j s -> i <> j -> rings s !! i = Some r ->
  exists r', rings s' !! i = Some r' /\ abandoned r r'.
Proof.
  intros St [Hj Hp] Hi Hr.
  assert (Hother : forall (m : gmap nat ring_q) r', m = <[j := r']> (rings s) -> exists r', m !! i = Some r' /\ abandoned r r').
  { intros m r' ->. rewrite lookup_insert_ne by done. by exists r. }
  destruct St as [k Hk|k Hk|k Hk|k j' r' w' Hk Hj'|k j' r' Hk Hj'|k j' r' Hk|k j' r' Hk Hj'|k head count j' r' e ret Hk|k i' head count e ret j' r' w' Hk Hj'|k head count j' r' Hk|k count j' r' Hk Hj'|j' r' pre e post ret h Hr' _];
    try (by destruct (Hp _ _ Hk)); try (by exists r); try (assert (j' = j) as -> by congruence; by eapply Hother).
  destruct (decide (j' = i)) as [->|Hne]; [|cbn [set_ring rings]; rewrite lookup_insert_ne by done; by exists r].
  cbn [set_ring rings]. rewrite lookup_insert_eq. assert (r' = r) as -> by congruence. eexists. split; [done|].
  split; [done|]. split; [done|]. by eexists.
Qed.

(** Completion [n] of the ring in use is marked as consumed, and no thread is before
    it or handling it. *)
Definition consumed (j n : nat) (s : threads) : Prop :=
  settled j s /\ (exists r, rings s !! j = Some r /\ (n < khead r)%nat) /\
  map_Forall (fun _ p => match p with Reaping head _ | Handling _ head _ _ _ => (n < head)%nat | _ => True end) (pcs s).

Lemma step_consumed j n s o s' : thread_step s o s' -> consumed j n s -> consumed j n s' /\ o <> Some (j, n).
Proof.
  intros St (Hs & (r0 & Hr0 & Hn) & Hp). destruct (step_settled _ _ _ _ St Hs) as [Hs' _].
  assert (Hring : forall (m : gmap nat ring_q) j' r r', rings s !! j' = Some r -> m = <[j' := r']> (rings s) ->
    (khead r <= khead r')%nat -> exists r, m !! j = Some r /\ (n < khead r)%nat).
  { intros m j' r r' Hr -> Hle. destruct (decide (j' = j)) as [->|]; [|exists r0; by rewrite lookup_insert_ne].
    exists r'. rewrite lookup_insert_eq. split; [done|]. assert (r0 = r) as -> by congruence. lia. }
  destruct Hs as [Hj Hpc].
  destruct St as [k Hk|k Hk|k Hk|k j' r' w' Hk Hj' Hr'|k j' r' Hk Hj' Hr'|k j' r' Hk|k j' r' Hk Hj' Hr'|k head count j' r' e ret Hk Hj' Hr'|k i head count e ret j' r' w' Hk Hj' Hr'|k head count j' r' Hk|k count j' r' Hk Hj' Hr'|j' r' pre e post ret h Hr' _];
    try (by destruct (Hpc _ _ Hk)); (split; [split; [exact Hs'|split]|]); try done;
    try (by exists r0); try (by (eapply Hring; [exact Hr'|reflexivity|cbn; lia]));
    try (by (cbn [move pcs store_world set_ring]; apply map_Forall_insert_2)).
  - cbn [move pcs]. apply map_Forall_insert_2; [|done]. assert (j' = j) as -> by congruence. by assert (r0 = r') as <- by congruence.
  - cbn [move pcs]. apply map_Forall_insert_2; [|done]. exact (Hp _ _ Hk).
  - cbn [move pcs store_world]. apply map_Forall_insert_2; [|done]. pose proof (Hp _ _ Hk). cbn in *. lia.
  - intros [= _ ->]. pose proof (Hp _ _ Hk). cbn in *. lia.
Qed.

Lemma run_consumed j n s l s' : thread_run s l s' -> consumed j n s -> (j, n) ∉ l.
Proof.
  induction 1 as [s|s o s1 l s2 St _ IH]; intros Hc; [apply not_elem_of_nil|].
  destruct (step_consumed _ _ _ _ _ St Hc) as [Hc1 Ho]. rewrite elem_of_app. intros [Hin|Hin]; [|by apply (IH Hc1)].
  destruct o as [x|]; [|by apply not_elem_of_nil in Hin]. apply list_elem_of_singleton in Hin as <-. done.
Qed.
End threads.

(** ** Properties *)

(** C30.  [start_listening] on every branch.  With no threads it only runs the loop.  If
    the array of identifiers cannot be allocated it returns at once, without
    listening at all.  Otherwise it creates the threads in order and runs the loop,
    which does not return once it has started; if it does return, every thread is
    joined once, in order, and the array freed, provided that every creation
    succeeded: the results of [pthread_create] are ignored, and a join after a
    failed one reads an identifier that was never written. *)
Theorem start_listening_spec (malloc_ok loop_returns : bool) (pthread_create : nat -> option Z) (threads_cnt : Z) :
  let n := Z.to_nat threads_cnt in
  let result := start_listening malloc_ok pthread_create loop_returns threads_cnt in
  let head := Malloc (u64 (8 * u64 threads_cnt)) :: (Pthread_create <$> seq 0 n) ++ [Listen_routine] in
  (threads_cnt <= 0 -> result = Ok ([Listen_routine], loop_returns)) /\
  (0 < threads_cnt -> malloc_ok = false -> result = Ok ([Malloc (u64 (8 * u64 threads_cnt))], true)) /\
  (0 < threads_cnt -> malloc_ok = true -> loop_returns = false -> result = Ok (head, false)) /\
  (0 < threads_cnt -> malloc_ok = true -> loop_returns = true ->
     (forall tids, pthread_create <$> seq 0 n = Some <$> tids -> result = Ok (head ++ (Pthread_join <$> tids) ++ [Free], true)) /\
     (forall i, (i < n)%nat -> pthread_create i = None -> result = Undef Uninitialised)).
Proof.
  intros n result head. unfold result, start_listening, UNLIKELY. fold n. destruct (Z.ltb_spec 0 threads_cnt) as [Hpos|Hneg].
  2: { split; [intros _; by destruct loop_returns|]. split; [lia|]. split; lia. }
  split; [lia|]. split; [by intros _ ->|]. split; [by intros _ -> ->|]. intros _ -> ->. cbn [andb negb]. split.
  - intros tids ->. assert (E : join_all (Some <$> tids) = Ok (Pthread_join <$> tids)).
    { induction tids as [|tid tids IH]; [done|]. rewrite !fmap_cons. cbn [join_all of_option]. by rewrite bind_ok, IH. }
    rewrite E, bind_ok. unfold head. cbn [app]. by rewrite <- app_assoc.
  - intros i Hi Hnone. assert (E : forall l, i ∈ l -> join_all (pthread_create <$> l) = Undef Uninitialised).
    { intros l. induction l as [|k l IH]; [by intros ?%not_elem_of_nil|]. rewrite fmap_cons. cbn [join_all].
      destruct (decide (k = i)) as [->|Hk]; [by rewrite Hnone|]. intros [<-|Hin]%elem_of_cons; [done|].
      destruct (pthread_create k); [|done]. cbn [of_option]. by rewrite bind_ok, IH. }
    by rewrite E by (apply elem_of_seq; lia).
Qed.

(** C24.  A ring that is overwritten is abandoned.  Once every thread has stored its ring,
    and none is in the middle of a completion of another one than the ring stored
    last, that is the only one in use: of every other ring no thread ever submits
    the queue, consumes a completion or handles one.  A connection accepted on it,
    whose descriptor the kernel has already handed over, is never served. *)
Theorem overwritten_ring_abandoned `{Platform} `{Abi} (room : list sqe -> bool) (fs : file_system) (watch : bool)
    (table : list (router handler_fn)) (pipefds : Z * Z) (listen_fd : Z) (s s' : threads) (handled : list (nat * nat))
    (i j : nat) (r : ring_q) (Hsettled : settled j s) (Hi : i <> j) (Hr : rings s !! i = Some r)
    (Hrun : thread_run room fs watch table pipefds listen_fd s handled s') :
  svr_ring s' = Some j /\ Forall (fun x => x.1 = j) handled /\
  exists r', rings s' !! i = Some r' /\ sq r' = sq r /\ khead r' = khead r /\ cqes r `prefix_of` cqes r'.
Proof.
  enough (settled j s' /\ Forall (fun x => x.1 = j) handled /\ exists r', rings s' !! i = Some r' /\ abandoned r r')
    as ([Hj _] & Hh & Hr') by by split_and!.
  revert r Hr. induction Hrun as [s|s o s1 l s2 St _ IH]; intros r Hr; [split; [done|]; split; [done|]; by exists r|].
  destruct (step_abandoned room fs watch table pipefds listen_fd i j s o s1 r St Hsettled Hi Hr) as (r1 & Hr1 & Hab).
  destruct (step_settled room fs watch table pipefds listen_fd j s o s1 St Hsettled) as [Hs1 Ho].
  destruct (IH Hs1 r1 Hr1) as (Hs & Hl & r' & Hr' & Hab').
  split; [done|]. split; [by apply Forall_app|]. exists r'. split; [done|]. by etransitivity.
Qed.

(** ** Two threads and a lost connection

    Thread 0 has started and its accept has completed with descriptor 5 when
    thread 1 stores its ring. *)

Definition the_accept : sqe := Sqe (Accept 3) (Some 3) 0.
Definition race_start : threads := Threads demo_world None ∅ {[0%nat := At_init; 1%nat := At_init]}.

Definition race_lost : threads :=
  Threads (on_ring demo_started []) (Some 1%nat)
    {[0%nat := Ring_q [] [] [(the_accept, 5)] 0; 1%nat := new_ring]}
    {[0%nat := Waiting 0; 1%nat := At_push]}.

Abbreviation race_run := (thread_run (H := tiny) (H0 := linux) demo_room demo_fs false [] (0, 0) 3).

Ltac race := vm_compute; reflexivity.
(** A step [c] that handles nothing. *)
Tactic Notation "silent" uconstr(c) := eapply (run_cons _ _ _ _ _ _ _ None _ _ _); [eapply c; race|].

(** Thread 0 up to its wait, and the kernel's completion of its accept. *)
Definition race_first (ret : Z) : threads :=
  Threads (on_ring demo_started []) (Some 0%nat) {[0%nat := Ring_q [] [] [(the_accept, ret)] 0]}
    {[0%nat := Waiting 0; 1%nat := At_init]}.

Lemma race_starts ret l s : race_run (race_first ret) l s -> race_run race_start l s.
Proof.
  intros Hs. silent (step_init _ _ _ _ _ _ _ 0). silent (step_store _ _ _ _ _ _ _ 0). silent (step_push _ _ _ _ _ _ _ 0). silent (step_submit _ _ _ _ _ _ _ 0).
  eapply (run_cons _ _ _ _ _ _ _ None _ _ _).
  { eapply (step_kernel _ _ _ _ _ _ _ 0 _ [] the_accept [] ret (wheap demo_started)); race. }
  match goal with |- thread_run _ _ _ _ _ _ ?a _ _ => assert (a = race_first ret) as -> by race end. exact Hs.
Qed.

Lemma race_reaches : race_run race_start [] race_lost.
Proof.
  apply (race_starts 5). silent (step_init _ _ _ _ _ _ _ 1). silent (step_store _ _ _ _ _ _ _ 1).
  match goal with |- thread_run _ _ _ _ _ _ ?a _ _ => assert (a = race_lost) as -> by race end. apply run_nil.
Qed.

(** A connection has been accepted on ring 0, and its completion stays there. *)
Lemma overwritten_ring_abandoned_witness :
  race_run race_start [] race_lost /\
  forall l s', race_run race_lost l s' ->
    Forall (fun x => x.1 = 1%nat) l /\ exists r, rings s' !! 0%nat = Some r /\ cqes r !! 0%nat = Some (the_accept, 5).
Proof.
  split; [exact race_reaches|]. intros l s' Hs.
  destruct (overwritten_ring_abandoned (H := tiny) (H0 := linux) demo_room demo_fs false [] (0, 0) 3 race_lost s' l 0 1
    (Ring_q [] [] [(the_accept, 5)] 0)) as (_ & Hl & r & Hr & _ & _ & [l' Hcq]).
  - split; [reflexivity|]. intros k p Hk. unfold race_lost in Hk. cbn [pcs] in Hk.
    apply lookup_insert_Some in Hk as [[_ <-]|[_ Hk] ]; [done|]. by apply lookup_singleton_Some in Hk as [_ <-].
  - discriminate.
  - reflexivity.
  - exact Hs.
  - split; [exact Hl|]. exists r. split; [exact Hr|]. by rewrite Hcq.
Defined.

(** ** Two threads and a dropped completion

    Thread 0 has handled its only completion and found no other when thread 1 stores
    its ring, waits on it, and its accept completes with descriptor 5.  Thread 0 then
    marks as many completions as it has handled as consumed, on the ring of thread
    1. *)

Definition race_dropped : threads :=
  Threads (on_ring demo_started []) (Some 1%nat)
    {[0%nat := Ring_q [the_accept] [] [(the_accept, -11)] 0; 1%nat := Ring_q [] [] [(the_accept, 5)] 1]}
    {[0%nat := At_submit; 1%nat := Waiting 1]}.

Definition race_mid : threads :=
  Threads (on_ring demo_started []) (Some 0%nat) {[0%nat := Ring_q [] [] [(the_accept, -11)] 0]}
    {[0%nat := Handling 0 0 0 the_accept (-11); 1%nat := At_init]}.

Lemma race_handles : race_run race_mid [(0%nat, 0%nat)] race_dropped.
Proof.
  assert (E : handle_cqe (H := tiny) (H0 := linux) demo_room demo_fs false [] (0, 0) 3 (Some 3) (-11) (on_ring (shared race_mid) []) =
    Ok (on_ring demo_started [the_accept])) by race.
  eapply (run_cons _ _ _ _ _ _ _ (Some (0, 0)%nat) _ _ _).
  { apply (step_cqe _ _ _ _ _ _ race_mid 0 0 0 0 the_accept (-11) 0 (Ring_q [] [] [(the_accept, -11)] 0)
      (on_ring demo_started [the_accept])); [race..|exact E]. }
  silent (step_done _ _ _ _ _ _ _ 0).
  silent (step_init _ _ _ _ _ _ _ 1). silent (step_store _ _ _ _ _ _ _ 1). silent (step_push _ _ _ _ _ _ _ 1). silent (step_submit _ _ _ _ _ _ _ 1).
  eapply (run_cons _ _ _ _ _ _ _ None _ _ _).
  { eapply (step_kernel _ _ _ _ _ _ _ 1 _ [] the_accept [] 5 (wheap demo_started)); race. }
  silent (step_advance _ _ _ _ _ _ _ 0).
  match goal with |- thread_run _ _ _ _ _ _ ?a _ _ => assert (a = race_dropped) as -> by race end. apply run_nil.
Qed.

Lemma race_drops : race_run race_start [(0%nat, 0%nat)] race_dropped.
Proof.
  apply (race_starts (-11)).
  eapply (run_cons _ _ _ _ _ _ _ None _ _ _); [by apply (step_wake _ _ _ _ _ _ _ 0 0 (Ring_q [] [] [(the_accept, -11)] 0)); [race|race|apply Nat.lt_0_1]|].
  silent (step_reap _ _ _ _ _ _ _ 0).
  eapply (run_cons _ _ _ _ _ _ _ None _ _ _).
  { by apply (step_find _ _ _ _ _ _ _ 0 0 0 0 (Ring_q [] [] [(the_accept, -11)] 0) the_accept (-11)); [race..|discriminate|]. }
  match goal with |- thread_run _ _ _ _ _ _ ?a _ _ => assert (a = race_mid) as -> by race end. exact race_handles.
Qed.

(** C25.  A thread can drop another thread's completion.  The loop over the completions
    and [io_uring_cq_advance] read [svr->ring] separately.  Two threads reach a state
    in which the kernel has accepted descriptor 5 on the ring of thread 1, and
    thread 0, having handled one completion of its own ring, has marked that one as
    consumed: in no continuation does any thread handle the completion at its
    position, so the connection is accepted and never served. *)
Theorem early_advance_drops_completion :
  race_run race_start [(0%nat, 0%nat)] race_dropped /\
  (exists r, rings race_dropped !! 1%nat = Some r /\ cqes r !! 0%nat = Some (the_accept, 5)) /\
  forall handled s', race_run race_dropped handled s' -> (1%nat, 0%nat) ∉ handled.
Proof.
  split; [exact race_drops|]. split; [by eexists|]. intros handled s' Hrun.
  apply (run_consumed (H := tiny) (H0 := linux) demo_room demo_fs false [] (0, 0) 3 1 0 _ _ _ Hrun).
  split; [split; [reflexivity|]|split; [eexists; split; [reflexivity|apply Nat.lt_0_1]|] ].
  - repeat (apply map_Forall_insert_2; [done|]). by apply map_Forall_empty.
  - repeat (apply map_Forall_insert_2; [done|]). by apply map_Forall_empty.
Qed.

Lemma start_listening_spec_witness :
  start_listening true (fun i => if (i =? 0)%nat then Some 7 else None) true 2 = Undef Uninitialised /\
  start_listening true (fun i => Some (Z.of_nat i)) false 2 =
    Ok ([Malloc 16; Pthread_create 0; Pthread_create 1; Listen_routine], false).
Proof.
  split.
  - destruct (start_listening_spec true true (fun i => if (i =? 0)%nat then Some 7 else None) 2) as (_ & _ & _ & H).
    destruct H as [_ H]; [lia|reflexivity|reflexivity|]. apply (H 1%nat); [simpl; lia|reflexivity].
  - destruct (start_listening_spec true false (fun i => Some (Z.of_nat i)) 2) as (_ & _ & H & _).
    apply H; [lia|reflexivity|reflexivity].
Defined.
