(* ===== verification/OneThread.v ===== *)
(** * One thread (lib/server.c, lib/io_loop.c)

    With no additional threads the interleaving of [Threads] is a refinement of the
    step relation of [IoLoopInv], in which an operation completes and is handled at
    once: there the kernel completes operations while the thread runs, and
    completions wait in the ring to be handled and then consumed. *)

From stdpp Require Import relations.
From S2P Require Import Prelude CMem Strbuf Kv Http HttpParser HttpResponse Coro IoUring IoLoop IoLoopInv Threads.
Open Scope Z_scope.

#[local] Set Default Proof Using "All".

Section one_thread.
Context `{Platform} `{Abi}.
Variable room : list sqe -> bool.
Variable fs : file_system.
Variable watch : bool.
Variable table : list (router handler_fn).
Variable pipefds : Z * Z.
Variable listen_fd : Z.

Abbreviation step := (thread_step room fs watch table pipefds listen_fd).
Abbreviation abstract_step := (sys_step room fs watch table pipefds listen_fd).
Abbreviation reachable := (sys_reachable room fs watch table pipefds listen_fd).
Abbreviation handle := (handle_cqe room fs watch table pipefds listen_fd).

(** The accepted descriptors that wait in the completion queue are new: none is open,
    and none is there twice. *)
Fixpoint fresh_accepts (o : gset Z) (l : list (sqe * Z)) : Prop :=
  match l with
  | [] => True
  | (e, ret) :: l =>
      (is_accept (op e) = true -> 0 <= ret -> (ret ∉ o) /\ ret <> listen_fd) /\ fresh_accepts (accepted e ret ∪ o) l
  end.

Lemma fresh_accepts_subset o o' l : o' ⊆ o -> fresh_accepts o l -> fresh_accepts o' l.
Proof using Type.
  revert o o'. induction l as [|[e ret] l IH]; [done|]. intros o o' Ho [Hnow Hl]. split.
  - intros Ha Hr. destruct (Hnow Ha Hr). split; [set_solver|done].
  - eapply IH; [|exact Hl]. set_solver.
Qed.

(** What is handled does not look at the memory before the kernel's last writes. *)
Definition same_but_heap (w w' : world) : Prop :=
  conns w' = conns w /\ ring w' = ring w /\ closed w' = closed w /\ statics w' = statics w.

Lemma same_but_heap_eq w w' : same_but_heap w w' -> w' = set_heap w (wheap w').
Proof using Type. destruct w, w'. unfold same_but_heap, set_heap. cbn. by intros (-> & -> & -> & ->). Qed.

(** The thread before its first accept, in the world that [create_server] left. *)
Record starting (s : threads) : Prop := Starting {
  start_slots : forall i c, conns (shared s) !! i = Some c -> c = zero_conn;
  start_idle : ring (shared s) = [];
  start_rings : rings s = ∅ \/ rings s = {[0%nat := new_ring]};
  start_pc : pcs s = {[0%nat := At_init]} \/ pcs s = {[0%nat := At_store]} \/ pcs s = {[0%nat := Returned]} \/
    pcs s = {[0%nat := At_push]} /\ svr_ring s = Some 0%nat
}.

(** Completion [n] is the next to be handled, where the thread is in its loop. *)
Definition position (p : pc) (r : ring_q) (n : nat) : Prop :=
  match p with
  | At_submit | Waiting 0 | At_reap => n = khead r
  | Reaping head count => n = head /\ head = (khead r + count)%nat
  | Handling 0 head count e ret => n = head /\ head = (khead r + count)%nat /\ cqes r !! head = Some (e, ret)
  | At_advance count => n = (khead r + count)%nat
  | _ => False
  end.

(** The thread in its loop with completion [n] next: it is the only one, and its ring
    is the one in use. *)
Record alone (s : threads) (p : pc) (r : ring_q) (n : nat) : Prop := Alone {
  alone_pc : pcs s = {[0%nat := p]};
  alone_svr : svr_ring s = Some 0%nat;
  alone_ring : rings s = {[0%nat := r]};
  alone_position : position p r n;
  alone_posted : (n <= length (cqes r))%nat
}.

(** What the ring has in flight, and what is posted there and not yet handled, is in
    flight in [x]. *)
Definition single (s : threads) (x : sys) : Prop :=
  exists p r n, alone s p r n /\
    same_but_heap (server x) (on_ring (shared s) (ring (server x))) /\ ring (server x) = sq r /\
    inflight x ≡ₚ flight r ++ (drop n (cqes r)).*1 /\ fresh_accepts (opens x) (drop n (cqes r)).

(** One thread: another one's place in the loop is not there. *)
Lemma only_pc s p k q : pcs s = {[0%nat := p]} -> pcs s !! k = Some q -> k = 0%nat /\ q = p.
Proof using Type. intros -> [<- <-]%lookup_singleton_Some. by split. Qed.

Lemma only_ring s r j r' : rings s = {[0%nat := r]} -> rings s !! j = Some r' -> j = 0%nat /\ r' = r.
Proof using Type. intros -> [<- <-]%lookup_singleton_Some. by split. Qed.

Lemma starting_step s o s' : starting s -> step s o s' -> o = None /\
  (starting s' \/ exists x r, reachable x /\ opens x = ∅ /\ single s' x /\ alone s' At_submit r 0).
Proof.
  intros [Hz Hr Hrings Hpc] St.
  assert (Hp : forall k p, pcs s !! k = Some p -> k = 0%nat /\ pcs s = {[0%nat := p]} /\
    (p = At_init \/ p = At_store \/ p = Returned \/ p = At_push /\ svr_ring s = Some 0%nat)).
  { intros k p Hk. destruct Hpc as [E|[E|[E|[E ?] ] ] ]; destruct (only_pc _ _ _ _ E Hk) as [-> ->]; auto 10. }
  assert (Hrj : forall j r, rings s !! j = Some r -> rings s = {[0%nat := r]} /\ j = 0%nat /\ r = new_ring).
  { intros j r Hj. destruct Hrings as [E|E]; rewrite E in Hj |- *; [by rewrite lookup_empty in Hj|].
    by apply lookup_singleton_Some in Hj as [<- <-]. }
  destruct St as [k Hk|k Hk|k Hk|k j r w' Hk Hj Hrk E|k j r Hk|k j r Hk|k j r Hk|k head count j r e ret Hk|k i head count e ret j r w' Hk|k head count j r Hk|k count j r Hk|j r pre e post ret h Hrk Hfl].
  1-11: destruct (Hp _ _ Hk) as (-> & Epc & Hq).
  5-11: by destruct Hq as [?|[?|[?|[? _] ] ] ].
  all: split; [done|].
  1-3: left; constructor; cbn [move set_ring shared rings pcs svr_ring]; try done; try (rewrite Epc, insert_singleton_eq; auto).
  - right. by destruct Hrings as [-> | ->]; [|rewrite insert_singleton_eq].
  - right. destruct (Hrj _ _ Hrk) as (Er & -> & ->).
    assert (Hon : on_ring (shared s) (sq new_ring) = shared s) by (destruct s as [ [] ]; cbn in *; by rewrite Hr).
    assert (Ha : alone (move (store_world s 0 new_ring w') 0 At_submit) At_submit (set_sq new_ring (ring w')) 0).
    { constructor; cbn [move store_world shared rings pcs svr_ring]; [by rewrite Epc, insert_singleton_eq|done|by rewrite Er, insert_singleton_eq|done|apply Nat.le_0_l]. }
    exists (Sys w' [] ∅), (set_sq new_ring (ring w')). split; [by apply (sys_init _ _ _ _ _ _ (shared s)); [..|rewrite <- Hon]|].
    split; [done|]. split; [|done]. eexists _, _, _. split; [exact Ha|]. by destruct w'.
  - by destruct (Hrj _ _ Hrk) as (_ & _ & ->), pre.
Qed.

(** What a step of the lone thread, or of the kernel, does to the ring. *)
Inductive effect (s : threads) (r : ring_q) (n : nat) : option (nat * nat) -> threads -> ring_q -> nat -> Prop :=
| effect_none s' r' :
    shared s' = shared s -> sq r' = sq r -> flight r' = flight r -> cqes r' = cqes r -> effect s r n None s' r' n
| effect_submit s' r' :
    shared s' = shared s -> sq r' = [] -> flight r' = flight r ++ sq r -> cqes r' = cqes r -> effect s r n None s' r' n
| effect_handle s' e ret w' :
    cqes r !! n = Some (e, ret) -> handle (user_data e) ret (on_ring (shared s) (sq r)) = Ok w' ->
    shared s' = on_ring w' [] -> effect s r n (Some (0%nat, n)) s' (set_sq r (ring w')) (S n)
| effect_complete s' r' pre e post ret h :
    shared s' = set_heap (shared s) h -> sq r' = sq r -> flight r = pre ++ e :: post -> flight r' = pre ++ post ->
    cqes r' = cqes r ++ [(e, ret)] -> effect s r n None s' r' n.

Lemma alone_step s o s' p r n : alone s p r n -> step s o s' -> exists p' r' n', alone s' p' r' n' /\ effect s r n o s' r' n'.
Proof.
  intros [Epc Hsvr Er Hpos Hle] St.
  assert (Hmove : forall s1 p' r' n', svr_ring s1 = svr_ring s -> pcs s1 = pcs s -> rings s1 = {[0%nat := r']} ->
    position p' r' n' -> (n' <= length (cqes r'))%nat -> alone (move s1 0 p') p' r' n').
  { intros s1 p' r' n' E1 E2 E3 ? ?. constructor; cbn [move pcs svr_ring rings]; [by rewrite E2, Epc, insert_singleton_eq|congruence|done..]. }
  assert (Hset : forall r', <[0%nat := r']> (rings s) = {[0%nat := r']}) by (intros r'; by rewrite Er, insert_singleton_eq).
  destruct St as [k Hk|k Hk|k Hk|k j r1 w' Hk Hj Hrk E|k j r1 Hk Hj Hrk|k j r1 Hk Hrk|k j r1 Hk Hj Hrk|k head count j r1 e ret Hk Hj Hrk Htail Hfound|k i head count e ret j r1 w' Hk Hj Hrk E|k head count j r1 Hk Hj Hrk Htail|k count j r1 Hk Hj Hrk|j r1 pre e post ret h Hrk Hfl].
  1-11: destruct (only_pc _ _ _ _ Epc Hk) as [-> <-].
  1-4: by simplify_eq/=.
  all: destruct (only_ring _ _ _ _ Er Hrk) as [-> ->]; cbn [position] in Hpos.
  - subst n. eexists _, _, _. split; [apply Hmove; [done|done|apply Hset|done|done]|by apply effect_submit].
  - subst n. eexists _, _, _. split; [by apply Hmove|by apply effect_none].
  - subst n. eexists _, _, _. split; [apply Hmove; [done..| |done]|by apply effect_none]. cbn [position]. lia.
  - destruct Hpos as [-> Hhead]. eexists _, _, _. split; [apply Hmove; [done..| |done]|by apply effect_none].
    cbn [position]. split; [done|]. split; [done|]. apply Hfound. lia.
  - destruct i; [|done]. destruct Hpos as (-> & Hhead & He).
    eexists _, _, _. split; [apply Hmove; [done|done|apply Hset| |]|by eapply effect_handle].
    + cbn [position set_sq khead]. lia.
    + cbn [set_sq cqes]. by apply lookup_lt_Some in He.
  - destruct Hpos as [-> Hhead]. eexists _, _, _. split; [apply Hmove; [done..| |done]|by apply effect_none]. exact Hhead.
  - subst n. eexists _, _, _. split; [apply Hmove; [done|done|apply Hset| |]|by apply effect_none]; done.
  - exists p, (Ring_q (sq r) (pre ++ post) (cqes r ++ [(e, ret)]) (khead r)), n. split; [|by apply (effect_complete _ _ _ _ _ pre e post ret h)]. constructor; cbn [set_ring pcs svr_ring rings]; [done|done|apply Hset| |].
    + destruct p as [ | | | | | | |[|]| |]; try done. cbn [position cqes khead] in *. destruct Hpos as (? & ? & He).
      split; [done|]. split; [done|]. by apply lookup_app_l_Some.
    + cbn [cqes]. rewrite length_app. lia.
Qed.

(** The kernel completes with descriptors that are not in use: the completions that
    wait to be handled are fresh. *)
Definition kernel_honest (o : gset Z) (s : threads) : Prop :=
  forall p r n, alone s p r n -> fresh_accepts o (drop n (cqes r)).

Lemma single_step s o s' x : single s x -> step s o s' -> kernel_honest (opens x) s' ->
  exists x', (x' = x \/ abstract_step x x') /\ single s' x'.
Proof.
  intros (p & r & n & Ha & Hw & Hring & Hin & Hfresh) St Hhonest.
  destruct (alone_step _ _ _ _ _ _ Ha St) as (p' & r' & n' & Ha' & He). pose proof (Hhonest _ _ _ Ha') as Hfresh'.
  destruct He as [s' r' Esh Esq Efl Ecq|s' r' Esh Esq Efl Ecq|s' e ret w' He E Esh|s' r' pre e post ret h Esh Esq Efl Efl' Ecq].
  - exists x. split; [by left|]. exists p', r', n. by rewrite Esh, Esq, Efl, Ecq.
  - eexists. split; [right; apply sys_submit|]. exists p', r', n. split; [done|]. rewrite Esh, Esq, Efl, Ecq.
    destruct Hw as (? & ? & ? & ?). split; [by split_and!|]. split; [done|]. split; [|by rewrite Ecq in Hfresh'].
    cbn [inflight]. unfold ops. rewrite Hring, Hin, <- !app_assoc. f_equiv. apply Permutation_app_comm.
  - rewrite (drop_S _ _ _ He) in Hin, Hfresh. destruct Hfresh as [Hnow Hlater]. rewrite Hring in Hw.
    rewrite (same_but_heap_eq _ _ Hw) in E.
    assert (Hx : e ∈ inflight x) by (rewrite Hin, fmap_cons; set_solver).
    apply list_elem_of_split in Hx as (pre & post & Hsplit).
    pose proof (sys_complete room fs watch table pipefds listen_fd x pre e post ret _ w' Hsplit Hnow E) as Hst.
    eexists. split; [right; exact Hst|]. exists p', (set_sq r (ring w')), (S n). split; [done|]. rewrite Esh.
    cbn [server inflight opens set_sq sq flight cqes]. split; [by destruct w'|]. split; [done|]. split.
    + rewrite Hsplit, fmap_cons in Hin. cbn [fst] in Hin. rewrite <- !Permutation_middle in Hin. by apply (inj (cons e)) in Hin.
    + eapply fresh_accepts_subset; [|exact Hlater]. set_solver.
  - exists x. split; [by left|]. exists p', r', n. rewrite Esh, Esq, Efl'. split; [done|]. split; [done|]. split; [done|]. split; [|done].
    rewrite Ecq, drop_app_le by apply (alone_posted _ _ _ _ Ha).
    rewrite Hin, Efl, fmap_app, <- !app_assoc. f_equiv. cbn [app]. rewrite app_assoc. symmetry.
    etransitivity; [symmetry; apply Permutation_cons_append|]. done.
Qed.
End one_thread.

Lemma run_alone `{Platform} `{Abi} room fs watch table pipefds listen_fd s l s' :
  thread_run room fs watch table pipefds listen_fd s l s' -> forall p r n, alone s p r n ->
  exists p' r', alone s' p' r' (n + length l) /\ l = pair 0%nat <$> seq n (length l).
Proof.
  induction 1 as [s|s o s1 l s2 St _ IH]; intros p r n Ha; [exists p, r; by rewrite Nat.add_0_r|].
  destruct (alone_step room fs watch table pipefds listen_fd _ _ _ _ _ _ Ha St) as (p1 & r1 & n1 & Ha1 & He).
  destruct (IH _ _ _ Ha1) as (p' & r' & Ha' & El). exists p', r'. destruct He; cbn; [done..| |done].
  split; [by rewrite Nat.add_succ_r|]. f_equal. exact El.
Qed.

(** ** Properties *)

(** C20.  A server with one thread refines the step relation the invariants are about.
    Before the first accept is queued the thread is starting; queueing it gives an
    initial state of the relation.  From then on every step of the thread, and every
    completion by a kernel that accepts only descriptors that are not in use, is
    matched by at most one step of the relation: submitting by submitting, handling
    a completion by completing the operation, and what the kernel does, waiting,
    and consuming completions by nothing. *)
Theorem one_thread_refines `{Platform} `{Abi} (room : list sqe -> bool) (fs : file_system) (watch : bool)
    (table : list (router handler_fn)) (pipefds : Z * Z) (listen_fd : Z) (s s' : threads) (o : option (nat * nat))
    (Hstep : thread_step room fs watch table pipefds listen_fd s o s') :
  (starting s -> starting s' \/
     exists x, sys_reachable room fs watch table pipefds listen_fd x /\ opens x = ∅ /\ single listen_fd s' x) /\
  (forall x, single listen_fd s x -> kernel_honest listen_fd (opens x) s' ->
     exists x', (x' = x \/ sys_step room fs watch table pipefds listen_fd x x') /\ single listen_fd s' x').
Proof.
  split.
  - intros Hs. destruct (starting_step room fs watch table pipefds listen_fd s o s' Hs Hstep) as (_ & [Hs'|(x & r & ? & ? & ? & _)]); [by left|].
    right. by exists x.
  - intros x Hx. exact (single_step room fs watch table pipefds listen_fd s o s' x Hx Hstep).
Qed.

(** C21.  One thread handles every completion exactly once, in the order in which the
    kernel posted them: in every run from the start, the completions handled are
    the first ones of the thread's ring, none is handled before it is posted, and
    when the thread is back at the head of its loop it has marked as consumed
    exactly those it has handled. *)
Theorem one_thread_handles_in_order `{Platform} `{Abi} (room : list sqe -> bool) (fs : file_system) (watch : bool)
    (table : list (router handler_fn)) (pipefds : Z * Z) (listen_fd : Z) (s s' : threads) (handled : list (nat * nat))
    (Hstart : starting s) (Hrun : thread_run room fs watch table pipefds listen_fd s handled s') :
  handled = pair 0%nat <$> seq 0 (length handled) /\
  forall j r, rings s' !! j = Some r -> j = 0%nat /\ (length handled <= length (cqes r))%nat /\
    (pcs s' !! 0%nat = Some At_submit -> khead r = length handled).
Proof.
  enough (starting s' /\ handled = [] \/
    exists p r, alone s' p r (length handled) /\ handled = pair 0%nat <$> seq 0 (length handled)) as [ [Hs' ->]|(p & r & Ha & Hl)].
  - split; [done|]. intros j r Hr.
    assert (j = 0%nat /\ r = new_ring) as [-> ->].
    { destruct (start_rings _ Hs') as [E|E]; rewrite E in Hr; [by rewrite lookup_empty in Hr|].
      by apply lookup_singleton_Some in Hr as [<- <-]. }
    split; [done|]. split; [apply Nat.le_0_l|done].
  - split; [done|]. intros j r' Hr. destruct (only_ring _ _ _ _ (alone_ring _ _ _ _ Ha) Hr) as [-> ->].
    split; [done|]. split; [apply (alone_posted _ _ _ _ Ha)|]. rewrite (alone_pc _ _ _ _ Ha), lookup_singleton_eq. intros [= ->].
    exact (eq_sym (alone_position _ _ _ _ Ha)).
  - induction Hrun as [s|s o s1 l s2 St Hrun IH]; [by left|].
    destruct (starting_step room fs watch table pipefds listen_fd s o s1 Hstart St) as (-> & [Hs1|(x & r & _ & _ & _ & Ha)]); [by apply IH|].
    destruct (run_alone room fs watch table pipefds listen_fd _ _ _ Hrun _ _ _ Ha) as (p' & r' & Ha' & El). right. by exists p', r'.
Qed.

(** ** Witnesses: the first accept is queued and submitted, and fails with [EAGAIN] *)

Definition alone_start : threads := Threads demo_world None ∅ {[0%nat := At_init]}.
Definition alone_ready : threads := Threads demo_world (Some 0%nat) {[0%nat := new_ring]} {[0%nat := At_push]}.
Definition alone_started : threads :=
  Threads (on_ring demo_started []) (Some 0%nat) {[0%nat := set_sq new_ring (ring demo_started)]} {[0%nat := At_submit]}.
Definition alone_waiting : threads :=
  Threads (on_ring demo_started []) (Some 0%nat) {[0%nat := Ring_q [] (ring demo_started) [] 0]} {[0%nat := Waiting 0]}.
Definition alone_handling : threads :=
  Threads (on_ring demo_started []) (Some 0%nat) {[0%nat := Ring_q [] [] [(the_accept, -11)] 0]} {[0%nat := Handling 0 0 0 the_accept (-11)]}.
Definition alone_again : threads :=
  Threads (on_ring demo_started []) (Some 0%nat) {[0%nat := Ring_q [the_accept] [] [(the_accept, -11)] 1]} {[0%nat := At_submit]}.

Abbreviation one_step := (thread_step (H := tiny) (H0 := linux) demo_room demo_fs false [] (0, 0) 3).
Abbreviation one_run := (thread_run (H := tiny) (H0 := linux) demo_room demo_fs false [] (0, 0) 3).

Lemma demo_slots i c : conns demo_world !! i = Some c -> c = zero_conn.
Proof.
  unfold demo_world. cbn [conns]. intros Hc.
  repeat (apply lookup_insert_Some in Hc as [[_ <-]|[_ Hc] ]; [done|]). by apply lookup_singleton_Some in Hc as [_ <-].
Qed.

Lemma one_thread_refines_witness :
  exists x x', sys_reachable (H := tiny) (H0 := linux) demo_room demo_fs false [] (0, 0) 3 x /\ single 3 alone_started x /\
    (x' = x \/ sys_step (H := tiny) (H0 := linux) demo_room demo_fs false [] (0, 0) 3 x x') /\ single 3 alone_waiting x'.
Proof.
  assert (S1 : one_step alone_ready None alone_started).
  { by apply (step_push (H := tiny) (H0 := linux) demo_room demo_fs false [] (0, 0) 3 alone_ready 0 0 new_ring demo_started). }
  assert (S2 : one_step alone_started None alone_waiting).
  { by apply (step_submit (H := tiny) (H0 := linux) demo_room demo_fs false [] (0, 0) 3 alone_started 0 0 (set_sq new_ring (ring demo_started))). }
  assert (Hs : starting alone_ready) by (constructor; [exact demo_slots|reflexivity|by right|by auto 10]).
  destruct (one_thread_refines (H := tiny) (H0 := linux) demo_room demo_fs false [] (0, 0) 3 _ _ _ S1) as [H1 _].
  destruct (H1 Hs) as [Hs'|(x & Hx & Ho & Hsingle)].
  { exfalso. destruct (start_pc _ Hs') as [E|[E|[E|[E _] ] ] ]; by apply (f_equal (lookup 0%nat)) in E. }
  destruct (one_thread_refines (H := tiny) (H0 := linux) demo_room demo_fs false [] (0, 0) 3 _ _ _ S2) as [_ H2].
  destruct (H2 x Hsingle) as (x' & Hsteps & Hsingle'); [|by exists x, x'].
  intros p r n Ha. destruct (only_ring alone_waiting r 0 (Ring_q [] (ring demo_started) [] 0) (alone_ring _ _ _ _ Ha) eq_refl) as [_ <-].
  by destruct n.
Defined.

Lemma alone_runs : one_run alone_start [(0%nat, 0%nat)] alone_again.
Proof.
  silent (step_init _ _ _ _ _ _ _ 0). silent (step_store _ _ _ _ _ _ _ 0). silent (step_push _ _ _ _ _ _ _ 0).
  silent (step_submit _ _ _ _ _ _ _ 0).
  eapply (run_cons _ _ _ _ _ _ _ None _ _ _).
  { eapply (step_kernel _ _ _ _ _ _ _ 0 _ [] the_accept [] (-11) (wheap demo_started)); race. }
  eapply (run_cons _ _ _ _ _ _ _ None _ _ _); [by apply (step_wake _ _ _ _ _ _ _ 0 0 (Ring_q [] [] [(the_accept, -11)] 0)); [race|race|apply Nat.lt_0_1]|].
  silent (step_reap _ _ _ _ _ _ _ 0).
  eapply (run_cons _ _ _ _ _ _ _ None _ _ _).
  { by apply (step_find _ _ _ _ _ _ _ 0 0 0 0 (Ring_q [] [] [(the_accept, -11)] 0) the_accept (-11)); [race..|discriminate|]. }
  match goal with |- thread_run _ _ _ _ _ _ ?a _ _ => assert (a = alone_handling) as -> by race end.
  assert (E : handle_cqe (H := tiny) (H0 := linux) demo_room demo_fs false [] (0, 0) 3 (Some 3) (-11) (on_ring (shared alone_handling) []) =
    Ok (on_ring demo_started [the_accept])) by race.
  eapply (run_cons _ _ _ _ _ _ _ (Some (0, 0)%nat) _ _ _).
  { apply (step_cqe _ _ _ _ _ _ alone_handling 0 0 0 0 the_accept (-11) 0 (Ring_q [] [] [(the_accept, -11)] 0)
      (on_ring demo_started [the_accept])); [race..|exact E]. }
  silent (step_done _ _ _ _ _ _ _ 0). silent (step_advance _ _ _ _ _ _ _ 0).
  match goal with |- thread_run _ _ _ _ _ _ ?a _ _ => assert (a = alone_again) as -> by race end. apply run_nil.
Qed.

Lemma one_thread_handles_in_order_witness :
  one_run alone_start [(0%nat, 0%nat)] alone_again /\
  forall r, rings alone_again !! 0%nat = Some r -> khead r = 1%nat.
Proof.
  split; [exact alone_runs|]. intros r Hr.
  destruct (one_thread_handles_in_order (H := tiny) (H0 := linux) demo_room demo_fs false [] (0, 0) 3 alone_start alone_again [(0%nat, 0%nat)])
    as [_ Hall].
  - constructor; [exact demo_slots|reflexivity|by left|by left].
  - exact alone_runs.
  - destruct (Hall 0%nat r Hr) as (_ & _ & Hk). by apply Hk.
Defined.
