(* ===== verification/Program.v ===== *)
(** * The program (tests/socket.c, include/router.h, lib/http_parser.c)

    What surrounds the server in an executable: the section of routes that the
    linker collects and [FOREACH_ROUTER] walks, libmagic's constructor and
    destructor, the routine of an additional thread, and [main], which makes the
    server and starts it. *)

From S2P Require Import Prelude CMem Strbuf Kv Http HttpParser HttpResponse Coro IoUring IoLoop IoLoopInv Spec Routes Serve System Guarantees Server Threads OneThread.
Open Scope Z_scope.

(** ** The section of routes

    Every [ROUTER] and [ROUTER_STATIC] defines an object in the section [ROUTER];
    the linker puts them one after the other and defines [__start_ROUTER] and
    [__stop_ROUTER].  A section is a map from the addresses at which an object
    starts. *)

Definition ROUTER_SIZE : Z := 32.

(** [sizeof(struct router)]: three pointers and a [uint16_t], rounded up to the
    alignment. *)
Definition round_up (n align : Z) : Z := (n + (align - 1)) / align * align.
Definition sizeof_router : Z := round_up (8 + 8 + 8 + 2) ROUTER_SIZE.

Section walk.
Context {F : Type}.
Variable sec : gmap Z (router F).
Variable router_end : Z.

(** [FOREACH_ROUTER(iter)] in [find_router]: the address found, or none. *)
Fixpoint foreach_router (fuel : nat) (iter : Z) (m : gmap block bytes) (p : ptr) (meth : Z) : result (option Z) :=
  match fuel with
  | O => Undef OutOfFuel
  | S fuel =>
      if iter <? router_end then
        r ← of_option OutOfBounds (sec !! iter);
        if negb (Z.land meth (rmethod r) =? 0) then
          c ← strcmp m p (rpath r);
          if c =? 0 then Ok (Some iter) else foreach_router fuel (u64 (iter + ROUTER_SIZE)) m p meth
        else foreach_router fuel (u64 (iter + ROUTER_SIZE)) m p meth
      else Ok None
  end.
End walk.

(** How many times the loop condition is evaluated, at most. *)
Definition walk_fuel (router_start router_end : Z) : nat := S (Z.to_nat ((router_end - router_start) / ROUTER_SIZE)).

(** The linker lays the objects out without gaps. *)
Fixpoint laid_out {F} (sec : gmap Z (router F)) (start : Z) (table : list (router F)) : Prop :=
  match table with
  | [] => True
  | r :: table => sec !! start = Some r /\ laid_out sec (start + sizeof_router) table
  end.

Lemma foreach_router_walks {F} (sec : gmap Z (router F)) m p meth : forall table start fuel,
  laid_out sec start table -> 0 <= start -> start + 32 * Z.of_nat (length table) < 2 ^ 64 -> (length table < fuel)%nat ->
  (mbind (fun o => match o with Some a => Some <$> of_option OutOfBounds (sec !! a) | None => Ok None end)
     (foreach_router sec (start + 32 * Z.of_nat (length table)) fuel start m p meth)) = find_router table m p meth.
Proof.
  induction table as [|r table IH]; intros start fuel Hlay Hstart Hend Hfuel; (destruct fuel as [|fuel]; [lia|]).
  - cbn [foreach_router length]. by destruct (Z.ltb_spec start (start + 32 * Z.of_nat 0)); [lia|].
  - destruct Hlay as [Hr Hlay]. cbn [length] in *. cbn [foreach_router find_router].
    destruct (Z.ltb_spec start (start + 32 * Z.of_nat (S (length table)))) as [_|]; [|lia]. rewrite Hr. cbn [of_option]. rewrite bind_ok.
    unfold ROUTER_SIZE. rewrite u64_small by lia.
    specialize (IH (start + 32) fuel Hlay ltac:(lia) ltac:(lia) ltac:(lia)).
    replace (start + 32 + 32 * Z.of_nat (length table)) with (start + 32 * Z.of_nat (S (length table))) in IH by lia.
    destruct (negb _); [|exact IH]. destruct (strcmp m p (rpath r)) as [c|f|x]; [|done|done]. rewrite !bind_ok.
    destruct (c =? 0); [|exact IH]. rewrite bind_ok. by rewrite Hr.
Qed.

(** The section that the linker makes of [table]. *)
Fixpoint link {F} (start : Z) (table : list (router F)) : gmap Z (router F) :=
  match table with [] => ∅ | r :: table => <[start := r]> (link (start + sizeof_router) table) end.

Lemma link_laid_out {F} (table : list (router F)) : forall start, laid_out (link start table) start table.
Proof.
  assert (Hmore : forall table sec start a (r : router F), a < start -> laid_out sec start table -> laid_out (<[a := r]> sec) start table).
  { intros l. induction l as [|r' l IH]; [done|]. intros sec start a r Ha [Hr Hl].
    assert (sizeof_router = 32) as E by reflexivity. split; [rewrite lookup_insert_ne; [done|lia]|]. apply IH; [lia|done]. }
  induction table as [|r table IH]; [done|]. intros start. split; [apply lookup_insert_eq|].
  apply Hmore; [|apply IH]. assert (sizeof_router = 32) as -> by reflexivity. lia.
Qed.

(** ** libmagic

    The library is not part of the source: what [magic_open] and [magic_load] return
    is a parameter, and the model is the calls in their order. *)

Class Libmagic := {
  MAGIC_MIME_TYPE : Z; MAGIC_CHECK : Z;
  magic_open : Z -> option Z;                (* a cookie, or [NULL] *)
  magic_load : option Z -> Z                 (* of the default database *)
}.

Inductive magic_call :=
| Magic_open (flags : Z)
| Magic_load (cookie : option Z)
| Magic_close (cookie : option Z)
| Printf (text : string).

(** The constructor, with [magic_instance]; the destructor. *)
Definition magic_init `{Libmagic} : option Z * list magic_call :=
  let flags := Z.lor MAGIC_MIME_TYPE MAGIC_CHECK in
  let magic_instance := magic_open flags in
  let inited := match magic_instance with Some _ => [Printf "magic inited....\n"] | None => [] end in
  let loaded := if magic_load magic_instance =? 0 then [Printf "magic loaded....\n"] else [] in
  (magic_instance, Magic_open flags :: inited ++ Magic_load magic_instance :: loaded).

Definition magic_uninit (magic_instance : option Z) : list magic_call :=
  [Magic_close magic_instance; Printf "magic closed....\n"].

(** Loading is tried even without an instance, and nothing of it is checked later:
    the server starts all the same. *)
Example magic_without_instance :
  let lib := {| MAGIC_MIME_TYPE := 16; MAGIC_CHECK := 64; magic_open _ := None; magic_load _ := -1 |} in
  magic_init (H := lib) = (None, [Magic_open 80; Magic_load None]).
Proof. reflexivity. Qed.

(** ** [main]

    [atoi] is the C library's: leading white space, a sign, digits; a value that is
    no [int] has no meaning. *)

Definition isspace (c : Z) : bool := (c =? 32) || ((9 <=? c) && (c <=? 13)).
Definition isdigit (c : Z) : bool := (48 <=? c) && (c <=? 57).

Fixpoint skip_spaces (s : bytes) : bytes :=
  match s with c :: s' => if isspace c then skip_spaces s' else s | [] => [] end.
Fixpoint digits (acc : Z) (s : bytes) : Z :=
  match s with c :: s => if isdigit c then digits (10 * acc + (c - 48)) s else acc | [] => acc end.

Definition atoi (s : bytes) : result Z :=
  let v :=
    match skip_spaces s with
    | c :: s' => if c =? 45 then - digits 0 s' else if c =? 43 then digits 0 s' else digits 0 (c :: s')
    | [] => 0
    end in
  if (INT_MIN <=? v) && (v <=? INT_MAX) then Ok v else Undef IntOverflow.

Example atoi_examples :
  atoi <$> [bytes_of_string " -12x"; bytes_of_string "+7"; bytes_of_string "threads"; bytes_of_string "2147483648"] =
    [Ok (-12); Ok 7; Ok 0; Undef IntOverflow].
Proof. reflexivity. Qed.

(** The routine of every thread, the calling one included: whether it returns. *)
Definition listen_routine `{Abi} (room : list sqe -> bool) (listen_fd tmp : Z) (fast_poll : bool) (w : world) : result bool :=
  started ← io_uring_listen_loop room listen_fd tmp fast_poll w;
  Ok (match started with None => true | Some _ => false end).

Section main.
Context `{Kernel} `{Libc}.
Variable watch : bool.
Variable malloc_ok : Z -> bool.              (* for the server *)
Variable threads_ok : bool.                  (* for the array of identifiers *)
Variable pthread_create : nat -> option Z.
Variable loop_returns : bool.

(** The server, the calls of [start_listening] and whether that returns; [None] when
    there is no server. *)
Definition main (argv : list bytes) (t : list call) : result (option (server_info * list thread_call * bool) * list call) :=
  let '(server, t) := create_server watch malloc_ok (bytes_of_string "0.0.0.0") (u16 8080) t in
  match server with
  | None => Ok (None, t)
  | Some server =>
      additional_thrs ← match argv with _ :: arg :: _ => atoi arg | _ => Ok 0 end;
      '(calls, returns) ← start_listening threads_ok pthread_create loop_returns additional_thrs;
      Ok (Some (server, calls, returns), t)
  end.
End main.

(** ** Properties *)

(** C31.  The pointer walk over the section finds what [find_router] finds in the table.
    For a section that the linker has filled with the objects of a table, anywhere
    in the address space where its end does not wrap around, [FOREACH_ROUTER] from
    [__start_ROUTER] to [__stop_ROUTER] stops within one step per object, reads only
    addresses at which an object starts, and ends at the entry that the search of
    the table returns, with the same outcome where comparing a path has no
    meaning. *)
Theorem foreach_router_is_find_router {F} (sec : gmap Z (router F)) (table : list (router F)) (router_start : Z)
    (m : gmap block bytes) (p : ptr) (meth : Z)
    (Hlay : laid_out sec router_start table) (Hstart : 0 <= router_start)
    (Hend : router_start + sizeof_router * Z.of_nat (length table) < 2 ^ 64) :
  let router_end := router_start + sizeof_router * Z.of_nat (length table) in
  (o ← foreach_router sec router_end (walk_fuel router_start router_end) router_start m p meth;
   match o with Some iter => Some <$> of_option OutOfBounds (sec !! iter) | None => Ok None end) =
  find_router table m p meth.
Proof.
  intros router_end. unfold router_end. apply foreach_router_walks; [done..|].
  unfold walk_fuel, ROUTER_SIZE. change sizeof_router with 32.
  replace (router_start + 32 * _ - router_start) with (Z.of_nat (length table) * 32) by lia. rewrite Z.div_mul by lia. lia.
Qed.

(** C9.  The program serves.  When [main] gets a server whose listening socket is one of
    its slots, and is not asked for more threads, it runs the loop and does not come
    back; the thread starts in the state that [one_thread_refines] is about; and the
    loop, on x86, starts in a reachable state of [live_step], so every theorem about
    those holds of the running program. *)
Theorem main_starts_server `{Kernel} `{Libc} `{Abi} (room : list sqe -> bool) (watch : bool) (rs : routes)
    (malloc_ok : Z -> bool) (threads_ok : bool) (pthread_create : nat -> option Z) (argv : list bytes) (additional_thrs : Z)
    (t t' : list call) (svr : server_info) (h : heap) (st : static_state)
    (Hserver : create_server watch malloc_ok (bytes_of_string "0.0.0.0") 8080 t = (Some svr, t'))
    (Hargv : match argv with _ :: arg :: _ => atoi arg | _ => Ok 0 end = Ok additional_thrs) (Hthreads : additional_thrs <= 0)
    (Hlimit : (get_nofile_limit t).1 <= 2 ^ 32) (Hlisten : svr_listen_fd svr < (get_nofile_limit t).1) (Hroom : room [] = true) :
  listen_routine room (svr_listen_fd svr) 0 true (World (svr_conns svr) [] [] h st) = Ok false /\
  main watch malloc_ok threads_ok pthread_create false argv t = Ok (Some (svr, [Listen_routine], false), t') /\
  starting (Threads (World (svr_conns svr) [] [] h st) None ∅ {[0%nat := At_init]}) /\
  exists w, io_uring_listen_loop room (svr_listen_fd svr) 0 true (World (svr_conns svr) [] [] h st) = Ok (Some w) /\
    live_reachable room watch rs (svr_pipefds svr) (svr_listen_fd svr) (oom h) (Live (Sys w [] ∅) ∅).
Proof.
  destruct (create_server_slots _ _ _ _ _ _ _ Hserver Hlimit) as [Hslots Hfd].
  destruct (slots_start room (svr_conns svr) _ (svr_listen_fd svr) h st Hslots (conj Hfd Hlisten) Hroom) as (w & Hzero & Hw).
  split; [|split; [|split] ].
  - unfold listen_routine, io_uring_listen_loop, UNLIKELY. cbn [negb]. by rewrite Hw.
  - unfold main. change (u16 8080) with 8080. rewrite Hserver, Hargv, bind_ok. unfold start_listening.
    destruct (Z.ltb_spec 0 additional_thrs) as [|_]; [lia|]. reflexivity.
  - constructor; [exact Hzero|done|by left|by left].
  - exists w. split; [unfold io_uring_listen_loop, UNLIKELY; cbn [negb]; by rewrite Hw|].
    by apply (live_init room watch rs (svr_pipefds svr) (svr_listen_fd svr) (oom h) (World (svr_conns svr) [] [] h st)).
Qed.

(** ** Witnesses *)

Lemma foreach_router_is_find_router_witness :
  let table := [ROUTER METHOD_POST "/fib" 1%nat; ROUTER METHOD_GET "/simple/y" 2%nat; ROUTER METHOD_GET "/fib" 3%nat] in
  foreach_router (link 4096 table) 4192 (walk_fuel 4096 4192) 4096 ∅ (lit "/fib") METHOD_GET = Ok (Some 4160) /\
  find_router table ∅ (lit "/fib") METHOD_GET = Ok (Some (ROUTER METHOD_GET "/fib" 3%nat)).
Proof.
  intros table. split; [reflexivity|].
  pose proof (foreach_router_is_find_router (link 4096 table) table 4096 ∅ (lit "/fib") METHOD_GET (link_laid_out table 4096)
    ltac:(lia) ltac:(reflexivity)) as E.
  rewrite <- E. reflexivity.
Defined.

Lemma main_starts_server_witness :
  exists svr w, (demo_server 0).1 = Some svr /\
    live_reachable (H := linux) lab_room true lab_routes (svr_pipefds svr) (svr_listen_fd svr) [] (Live (Sys w [] ∅) ∅).
Proof.
  destruct (create_server (H := demo_kernel 0) (H0 := demo_libc) true (fun _ => true) (bytes_of_string "0.0.0.0") 8080 []) as [o t'] eqn:E.
  destruct o as [svr|]; [|vm_compute in E; discriminate E].
  destruct (main_starts_server (H := demo_kernel 0) (H0 := demo_libc) (H1 := linux) lab_room true lab_routes (fun _ => true) true (fun _ => None)
    [bytes_of_string "server"] 0 [] t' svr (Heap ∅ []) (Static_state NULL [])) as (_ & _ & _ & w & _ & R).
  - exact E.
  - reflexivity.
  - lia.
  - vm_compute. discriminate.
  - vm_compute in E. injection E as <- _. reflexivity.
  - reflexivity.
  - exists svr, w. split; [|exact R]. vm_compute in E |- *. by injection E as <- _.
Defined.
